(* ===== verification/_CoqProject ===== *)
-Q . S2P
Prelude.v
Types.v
ZkIO.v
ZkCodec.v
ACLMap.v
SessionExpiryQueue.v
KeeperPaths.v
KeeperNode.v
KeeperStore.v
StoreTree.v
StoreInv.v
StoreRequest.v
KeeperSpec.v
StoreReplica.v
StoreResponse.v
StoreAcl.v
StoreRestore.v
StoreProps.v
StoreTyped.v
StoreFindings.v
RequestsQueue.v
RequestProcessor.v
ProcessorOrder.v
ProcessorRun.v
Pipeline.v
PipelineProps.v
PipelineFindings.v
Crc32.v
FileSystem.v
LogSegment.v
LogSegmentInv.v
LogStore.v
LogStoreInv.v
LogStoreCompact.v
LogStoreReload.v
LogStoreProps.v
LogStoreFindings.v
FileLogStore.v
FileLogStoreProps.v
StateMachine.v
StateMachineProps.v
Snapshot.v
SnapshotManager.v
SnapshotWrite.v
SnapshotLoad.v
SnapshotProps.v
SnapshotMachine.v
SnapshotMachineProps.v
Forwarding.v
RequestAccumulator.v
RequestForwarder.v
KeeperDispatcher.v
KeeperServer.v
Leader.v
LeaderProps.v
FifoBuffer.v
ConnectionHandler.v
ConnectionProps.v
ConnectionSend.v
ForwardingHandler.v
ForwardingProps.v
ForwarderProps.v
DataReader.v
DataReaderLog.v
DataReaderSnapshot.v
DataReaderProps.v
