(* ===== verification/Prelude.v ===== *)
(** * RaftKeeper: a verification library

    RaftKeeper is a server with the protocol and the data model of ZooKeeper on
    top of the Raft library NuRaft. This library translates the server, the
    sources under src/Service and src/Common/ZooKeeper, into executable
    definitions and proves what its parts promise.

    ** The program and how its parts interact

    A client connection (ConnectionHandler.cpp) reads packages from its socket;
    the first opens a session through the server (KeeperServer.cpp), the others
    are requests that enter the queue of the dispatcher (KeeperDispatcher.cpp).
    A thread of the dispatcher takes a request, pushes it to the request processor
    (RequestProcessor.cpp) when the session is its own, and sends a write on: on
    the leader to the accumulator (RequestAccumulator.cpp), which gives batches to
    Raft, on a follower to the forwarder (RequestForwarder.cpp), whose connection
    (ForwardingConnection.cpp) ends at a handler of the leader
    (ForwardingConnectionHandler.cpp). Raft keeps its log in segment files
    (NuRaftLogSegment.cpp) behind a cache (NuRaftFileLogStore.cpp) and commits
    entries through the state machine (NuRaftStateMachine.cpp), which hands them
    to the request processor. The processor applies writes in the order of the log
    and reads in the order of their session to the store (KeeperStore.cpp, with
    ACLMap.cpp and SessionExpiryQueue.cpp); the answers go through the response
    queue back to the connections. Snapshots of the store (NuRaftLogSnapshot.cpp)
    replace the beginning of the log, are sent to servers that lag behind and are
    loaded at start.

    ** Which file models what

    - Prelude.v (this file): machine integers, outcomes, the state monad [ST] with
      its run lemmas and tactics, lemmas on lists, maps and options.
    - Types.v, ZkIO.v, ZkCodec.v: operations, errors, requests and responses; the
      integers, strings and vectors of the wire; the [write], [read], [writeImpl]
      and [readImpl] of every request and response class
      (src/Common/ZooKeeper/ZooKeeperConstants, IKeeper, ZooKeeperIO and
      ZooKeeperCommon).
    - ACLMap.v, SessionExpiryQueue.v, KeeperPaths.v, KeeperNode.v, KeeperStore.v:
      ACL numbers, expiry buckets, path helpers, nodes and the sharded container,
      and the store: one [process_*] per request class with its undo, [checkAuth],
      watches, sessions and [processRequest].
    - StoreTree.v, StoreInv.v, StoreRequest.v: the shape of the tree and that every
      operation keeps it. KeeperSpec.v: an abstract tree and that the handlers
      refine it. StoreReplica.v, StoreResponse.v, StoreAcl.v, StoreRestore.v,
      StoreTyped.v: replicas, answers and watch events, ACL numbers, rebuilding the
      children, widths of the numbers. StoreProps.v has the theorems,
      StoreFindings.v behaviours that look unintended.
    - RequestsQueue.v, RequestProcessor.v, Pipeline.v: the queues, the processor and
      its application to the store. ProcessorOrder.v: its threads as a step
      relation with histories; ProcessorRun.v: the main loop as steps and its
      progress. PipelineProps.v, PipelineFindings.v: theorems and findings.
    - Crc32.v, FileSystem.v, LogSegment.v, LogStore.v, FileLogStore.v: checksums, a
      directory of named files with descriptors, segments, the store of segments
      and NuRaft's view of it. LogSegmentInv.v, LogStoreInv.v, LogStoreCompact.v,
      LogStoreReload.v: which log the files hold after each operation and after a
      restart. LogStoreProps.v, LogStoreFindings.v, FileLogStoreProps.v: theorems
      and findings.
    - StateMachine.v, StateMachineProps.v: log entries, [commit] and replay.
      Snapshot.v, SnapshotManager.v, SnapshotMachine.v: writing and loading snapshot
      objects, the snapshots of a directory, their transfer and the start of a
      server. SnapshotWrite.v, SnapshotLoad.v, SnapshotProps.v and
      SnapshotMachineProps.v: what the files hold and that loading restores it.
    - RequestAccumulator.v, RequestForwarder.v, KeeperDispatcher.v, KeeperServer.v:
      the parts around the processor, one definition per turn of a thread.
      Leader.v, LeaderProps.v: the leader as a step relation over the dispatcher,
      the accumulator, Raft and the processor, with its invariant.
    - FifoBuffer.v, ConnectionHandler.v, ConnectionSend.v, ConnectionProps.v: a
      client connection, reading and writing. Forwarding.v, ForwardingHandler.v,
      ForwardingProps.v, ForwarderProps.v: both ends of a forwarding connection and
      their composition.
    - DataReader.v: the import of the snapshot and the logs of a ZooKeeper server
      (ZooKeeperDataReader.cpp). DataReaderLog.v, DataReaderSnapshot.v: the formats
      of these files and what is read of them; DataReaderProps.v: the theorems.

    Definitions have the names of the source where they are free; a prefix tells
    the class where two classes use the same name. A record has a field per data
    member that the modelled code uses. A call is a function of the state it
    changes; [ST S E A] is a call that returns, throws an exception of the source
    or is undefined ([Crash]), and keeps the changes made before. A call that waits
    for another thread is an option, [None] while it waits. Threads are steps of a
    relation, each step what a thread does between two points where another can
    interfere.

    ** What the theorems show

    - The store: every reachable store is consistent and typed, handlers refine an
      abstract tree, a multi is applied whole or not at all, replicas that apply the
      same log agree, a request has one answer, closing a session leaves nothing of
      it, denied requests change nothing, watch events come once.
    - The pipeline: in every interleaving of the threads the requests of a session
      are served in order and none is lost, on the leader from the connection to
      the response queue; the main loop serves every request in a bounded number
      of turns; failures and shutdown are answered; batches keep the order; session
      numbers are never given twice.
    - The network: however the bytes are cut, a client's requests, its responses,
      forwarded requests and their answers arrive exactly and in order.
    - The log: the store of segments, with and without its cache, refines an
      abstract log, restarts find the same log, damaged entries are refused, the
      checksum is the CRC of its polynomial.
    - State machine and snapshots: replay agrees with commit, a snapshot restores
      the store after loading by any interleaving of the loader threads, after
      being sent to another server and after a restart.
    - The import: the tree of the latest snapshot of a ZooKeeper server and every
      transaction after it reach the store, in order, and the store is consistent.

    ** Bounds and fuel

    Integers have the width of the source and wrap ([wrap_s], [wrap_u]). Recursion
    that is not structural has fuel that is shown to be enough: the length of the
    bytes for readers, for the loops over an imported file and for the loops over a
    socket (each turn takes a byte), the
    number of queued requests for the drains at shutdown, the number of pending
    requests for the main loop. [fh_loop] is the exception: when a request is
    refused no fuel is enough, which [refused_request_blocks] states.

    ** Parameters

    NuRaft, Poco and protobuf are not under src/: buffers, sockets, the encoding of
    a batch and what Raft answers are arguments or classes, with what the code
    relies on as named laws; SHA1 and base64 are functions without laws. Each
    theorem that assumes such laws has a witness with concrete functions. The
    clock is an argument.

    ** Not modelled

    - Time limits: a wait that ends without success is one of the results, never a
      number of milliseconds. Disk writes do not fail; reads may find any bytes.
    - KeeperServer.cpp beyond requests and sessions, NuRaftStateManager.cpp and the
      configuration update of the dispatcher: calls of NuRaft and parsing of
      configuration in its types.
    - The event loop (PollSet, SocketReactor, SocketNotifier): operating system
      calls that deliver the events which the connection theorems take as given.
    - FourLetterCommand.cpp, the dump functions, statistics and Settings.cpp: text
      for people.
    - The programs, which call what is modelled with options of the command line,
      and the client library under src/Common/ZooKeeper (ZooKeeperImpl,
      TestKeeper): not part of the server.
    - src/Common, src/Core, src/IO and src/base: general purpose libraries; what the
      server uses of them (queues, buffers, integers) is modelled where it is used. *)

From stdpp Require Import base gmap sets list strings option sorting.
From Stdlib Require Import ZArith Lia Ascii.

Declare Scope rk_scope.
Delimit Scope rk_scope with rk.
Open Scope rk_scope.
Open Scope Z_scope.

(** ** Machine integers

    A C++ integer of [w] bits is a [Z]; the arithmetic of the source is
    followed by the wrap to its type, two's complement for the signed ones. *)

Definition wrap_u (w z : Z) : Z := z mod 2 ^ w.
Definition wrap_s (w z : Z) : Z := (z + 2 ^ (w - 1)) mod 2 ^ w - 2 ^ (w - 1).

Abbreviation u32 := (wrap_u 32).
Abbreviation u64 := (wrap_u 64).
Abbreviation s32 := (wrap_s 32).
Abbreviation s64 := (wrap_s 64).

Definition in_s (w z : Z) : Prop := - 2 ^ (w - 1) <= z < 2 ^ (w - 1).
Definition in_u (w z : Z) : Prop := 0 <= z < 2 ^ w.

#[export] Instance in_s_dec w z : Decision (in_s w z).
Proof. unfold in_s. apply _. Defined.
#[export] Instance in_u_dec w z : Decision (in_u w z).
Proof. unfold in_u. apply _. Defined.

(** ** Outcomes

    A call of the program returns, throws an exception caught somewhere above
    it, or has undefined behaviour (a null pointer dereferenced, a container
    indexed out of range), which [Crash] stands for. *)

Inductive outcome (E A : Type) : Type :=
| Ret (a : A)
| Throw (e : E)
| Crash.
Arguments Ret {E A} a.
Arguments Throw {E A} e.
Arguments Crash {E A}.

Definition is_Ret {E A} (o : outcome E A) : Prop := ∃ a, o = Ret a.

(** Stateful code: the state survives an exception, as it does in the source. *)
Definition ST (S E A : Type) : Type := S → S * outcome E A.

#[export] Instance ST_ret {S E} : MRet (ST S E) := λ A a s, (s, Ret a).
#[export] Instance ST_bind {S E} : MBind (ST S E) := λ A B k m s,
  match m s with
  | (s', Ret a) => k a s'
  | (s', Throw e) => (s', Throw e)
  | (s', Crash) => (s', Crash)
  end.
#[export] Instance ST_fmap {S E} : FMap (ST S E) := λ A B f m s,
  match m s with
  | (s', Ret a) => (s', Ret (f a))
  | (s', Throw e) => (s', Throw e)
  | (s', Crash) => (s', Crash)
  end.

Definition throw {S E A} (e : E) : ST S E A := λ s, (s, Throw e).
Definition crash {S E A} : ST S E A := λ s, (s, Crash).
Definition get {S E} : ST S E S := λ s, (s, Ret s).
Definition put {S E} (s : S) : ST S E unit := λ _, (s, Ret tt).
Definition modify {S E} (f : S → S) : ST S E unit := λ s, (f s, Ret tt).
Definition lift {S E A} (o : outcome E A) : ST S E A := λ s, (s, o).

(** ** Laws of the state monad *)

Lemma bind_Ret {S E A B} (m : ST S E A) (k : A → ST S E B) s s' a :
  m s = (s', Ret a) → (m ≫= k) s = k a s'.
Proof. intros H. unfold mbind, ST_bind. by rewrite H. Qed.

Lemma bind_Throw {S E A B} (m : ST S E A) (k : A → ST S E B) s s' e :
  m s = (s', Throw e) → (m ≫= k) s = (s', Throw e).
Proof. intros H. unfold mbind, ST_bind. by rewrite H. Qed.

Lemma bind_Crash {S E A B} (m : ST S E A) (k : A → ST S E B) s s' :
  m s = (s', Crash) → (m ≫= k) s = (s', Crash).
Proof. intros H. unfold mbind, ST_bind. by rewrite H. Qed.

Lemma bind_assoc {S E A B C} (m : ST S E A) (f : A → ST S E B) (g : B → ST S E C) s :
  ((m ≫= f) ≫= g) s = (m ≫= λ a, f a ≫= g) s.
Proof. unfold mbind, ST_bind. by destruct (m s) as [s' [a|e|]]. Qed.

Lemma bind_inv_Ret {S E A B} (m : ST S E A) (k : A → ST S E B) s s'' b :
  (m ≫= k) s = (s'', Ret b) →
  ∃ s' a, m s = (s', Ret a) ∧ k a s' = (s'', Ret b).
Proof.
  unfold mbind, ST_bind. destruct (m s) as [s' [a|e|]] eqn:Hm; intros H; simplify_eq.
  eauto.
Qed.

(** Invert a completed run of monadic code into the runs of its parts. *)
Ltac st_inv H :=
  repeat match type of H with
  | (_ ≫= _) _ = (_, Ret _) =>
      let s := fresh "s" in let a := fresh "a" in let Hm := fresh "Hm" in
      apply bind_inv_Ret in H as (s & a & Hm & H)
  end.

(** ** Sequences of calls and the abstract object they refine

    [does] says what a call answers and does to the abstract object, [permitted]
    which calls its users make. An implementation that follows [does] on every
    single permitted call follows it on every permitted sequence. *)

Section calls.
Context {S E C A L : Type} (run : C → ST S E A) (permitted : L → C → Prop) (does : L → C → A → L → Prop).

Fixpoint run_calls (cs : list C) : ST S E (list A) :=
  match cs with
  | [] => mret []
  | c :: cs => a ← run c; l ← run_calls cs; mret (a :: l)
  end.

Inductive valid_calls : L → list C → Prop :=
  | valid_nil l : valid_calls l []
  | valid_cons l c cs :
      permitted l c → (∀ a l', does l c a l' → valid_calls l' cs) → valid_calls l (c :: cs).

Inductive runs : L → list C → list A → L → Prop :=
  | runs_nil l : runs l [] [] l
  | runs_cons l c cs a l1 acs l2 : does l c a l1 → runs l1 cs acs l2 → runs l (c :: cs) (a :: acs) l2.

Lemma simulation (R : S → L → Prop) :
  (∀ s l c, R s l → permitted l c → ∃ s' a l', run c s = (s', Ret a) ∧ does l c a l' ∧ R s' l') →
  ∀ s l cs, R s l → valid_calls l cs →
  ∃ s' acs l', run_calls cs s = (s', Ret acs) ∧ runs l cs acs l' ∧ R s' l'.
Proof.
  intros Hsim s l cs HR Hv. revert s HR. induction Hv as [l|l c cs Hp _ IH]; intros s HR; cbn [run_calls].
  { exists s, [], l. split_and!; try done. constructor. }
  destruct (Hsim s l c HR Hp) as (s1 & a & l1 & E1 & Hd & HR1).
  destruct (IH a l1 Hd s1 HR1) as (s2 & acs & l2 & E2 & Hr & HR2).
  exists s2, (a :: acs), l2. rewrite (bind_Ret _ _ _ _ _ E1), (bind_Ret _ _ _ _ _ E2).
  split_and!; try done. by econstructor.
Qed.
End calls.

(** ** Wrap-around arithmetic *)

Lemma wrap_s_range w z : 0 < w → in_s w (wrap_s w z).
Proof.
  intros Hw. unfold in_s, wrap_s.
  assert (2 ^ w = 2 * 2 ^ (w - 1)) as E.
  { rewrite <-Z.pow_succ_r by lia. f_equal; lia. }
  pose proof (Z.mod_pos_bound (z + 2 ^ (w - 1)) (2 ^ w)) as B.
  assert (0 < 2 ^ w) by (apply Z.pow_pos_nonneg; lia). lia.
Qed.

Lemma wrap_s_id w z : 0 < w → in_s w z → wrap_s w z = z.
Proof.
  intros Hw [H1 H2]. unfold wrap_s.
  assert (2 ^ w = 2 * 2 ^ (w - 1)) as E.
  { rewrite <-Z.pow_succ_r by lia. f_equal; lia. }
  rewrite Z.mod_small; lia.
Qed.

Lemma wrap_u_range w z : 0 <= w → in_u w (wrap_u w z).
Proof. intros. unfold in_u, wrap_u. apply Z.mod_pos_bound, Z.pow_pos_nonneg; lia. Qed.

Lemma wrap_u_id w z : in_u w z → wrap_u w z = z.
Proof. intros. unfold wrap_u. by apply Z.mod_small. Qed.

(** [wrap_s] only depends on its argument modulo [2 ^ w]. *)
Lemma wrap_s_mod w a b : 0 < w → a mod 2 ^ w = b mod 2 ^ w → wrap_s w a = wrap_s w b.
Proof.
  intros Hw H. unfold wrap_s. f_equal.
  rewrite (Z.add_mod a), (Z.add_mod b) by (apply Z.pow_nonzero; lia).
  by rewrite H.
Qed.

Lemma wrap_s_idemp_mod w a : 0 < w → wrap_s w a mod 2 ^ w = a mod 2 ^ w.
Proof.
  intros Hw. unfold wrap_s.
  rewrite Zminus_mod_idemp_l. f_equal. lia.
Qed.

Lemma wrap_s_add_l w a b : 0 < w → wrap_s w (wrap_s w a + b) = wrap_s w (a + b).
Proof.
  intros Hw. apply wrap_s_mod; [done|].
  rewrite (Z.add_mod (wrap_s w a)), wrap_s_idemp_mod, <-Z.add_mod;
    [done|apply Z.pow_nonzero; lia|done|apply Z.pow_nonzero; lia].
Qed.

(** Narrowing after a conversion to unsigned of at least the width. *)
Lemma wrap_s_wrap_wider w w' z : 0 < w <= w' → wrap_s w (wrap_u w' z) = wrap_s w z.
Proof.
  intros Hw. apply wrap_s_mod; [lia|]. unfold wrap_u.
  apply Z.mod_mod_divide.
  exists (2 ^ (w' - w)). rewrite <-Z.pow_add_r by lia. f_equal. lia.
Qed.

Lemma wrap_s_wrap_u w z : 0 < w → wrap_s w (wrap_u w z) = wrap_s w z.
Proof. intros Hw. apply wrap_s_wrap_wider. lia. Qed.

(** ** Lists *)

Lemma filter_none {A} (P : A → Prop) `{∀ x, Decision (P x)} (l : list A) :
  Forall (λ x, ¬ P x) l → filter P l = [].
Proof. induction 1; [done|]. by rewrite filter_cons_False. Qed.
