(* ===== verification/Types.v ===== *)
(** * Protocol data: src/Common/ZooKeeper/ZooKeeperConstants.{h,cpp}, IKeeper.{h,cpp}
    and the request and response classes of ZooKeeperCommon.h.

    The enumerations, the structures and the small total functions on them.
    Requests and responses are the class hierarchies of the source as mutual
    inductive types: the common fields in one constructor, a constructor per
    concrete class in the body. *)

From S2P Require Import Prelude.
From stdpp Require Import base gmap sets list strings option.
From Stdlib Require Import ZArith Lia Ascii.
Open Scope Z_scope.

(** ** ZooKeeperConstants *)

Definition WATCH_XID : Z := -1.
Definition PING_XID : Z := -2.
Definition AUTH_XID : Z := -4.
Definition CLOSE_XID : Z := 0x7FFFFFFF.

Definition MAX_STRING_OR_ARRAY_SIZE : Z := Z.shiftl 1 28.

Inductive OpNum : Set :=
| Op_Close | Op_Error | Op_Create | Op_Remove | Op_Exists | Op_Get | Op_Set
| Op_GetACL | Op_SetACL | Op_SimpleList | Op_Sync | Op_Heartbeat | Op_List
| Op_Check | Op_Multi | Op_Auth | Op_SetWatches | Op_SetSeqNum | Op_SessionID.

#[export] Instance OpNum_eq_dec : EqDecision OpNum.
Proof. solve_decision. Defined.

(** [static_cast<int32_t>(OpNum)] *)
Definition op_code (o : OpNum) : Z :=
  match o with
  | Op_Close => -11 | Op_Error => -1 | Op_Create => 1 | Op_Remove => 2
  | Op_Exists => 3 | Op_Get => 4 | Op_Set => 5 | Op_GetACL => 6 | Op_SetACL => 7
  | Op_SimpleList => 8 | Op_Sync => 9 | Op_Heartbeat => 11 | Op_List => 12
  | Op_Check => 13 | Op_Multi => 14 | Op_Auth => 100 | Op_SetWatches => 101
  | Op_SetSeqNum => 200 | Op_SessionID => 997
  end.

Definition VALID_OPERATIONS : list OpNum :=
  [Op_Close; Op_Error; Op_Create; Op_Remove; Op_Exists; Op_Get; Op_Set;
   Op_SimpleList; Op_Sync; Op_Heartbeat; Op_List; Op_Check; Op_Multi; Op_Auth;
   Op_SetSeqNum; Op_SessionID; Op_SetWatches; Op_SetACL; Op_GetACL].

(** [enum class Error : int32_t]; an [int32_t] without an enumerator is still a
    value of the type ([Error(code)] casts), which [Z_OTHER] stands for. *)
Inductive Error : Set :=
| ZOK | ZSYSTEMERROR | ZRUNTIMEINCONSISTENCY | ZDATAINCONSISTENCY
| ZCONNECTIONLOSS | ZMARSHALLINGERROR | ZUNIMPLEMENTED | ZOPERATIONTIMEOUT
| ZBADARGUMENTS | ZINVALIDSTATE | ZAPIERROR | ZNONODE | ZNOAUTH | ZBADVERSION
| ZNOCHILDRENFOREPHEMERALS | ZNODEEXISTS | ZNOTEMPTY | ZSESSIONEXPIRED
| ZINVALIDCALLBACK | ZINVALIDACL | ZAUTHFAILED | ZCLOSING | ZNOTHING
| ZSESSIONMOVED
| Z_OTHER (code : Z).

#[export] Instance Error_eq_dec : EqDecision Error.
Proof. solve_decision. Defined.

Definition error_code (e : Error) : Z :=
  match e with
  | ZOK => 0 | ZSYSTEMERROR => -1 | ZRUNTIMEINCONSISTENCY => -2
  | ZDATAINCONSISTENCY => -3 | ZCONNECTIONLOSS => -4 | ZMARSHALLINGERROR => -5
  | ZUNIMPLEMENTED => -6 | ZOPERATIONTIMEOUT => -7 | ZBADARGUMENTS => -8
  | ZINVALIDSTATE => -9 | ZAPIERROR => -100 | ZNONODE => -101 | ZNOAUTH => -102
  | ZBADVERSION => -103 | ZNOCHILDRENFOREPHEMERALS => -108 | ZNODEEXISTS => -110
  | ZNOTEMPTY => -111 | ZSESSIONEXPIRED => -112 | ZINVALIDCALLBACK => -113
  | ZINVALIDACL => -114 | ZAUTHFAILED => -115 | ZCLOSING => -116
  | ZNOTHING => -117 | ZSESSIONMOVED => -118
  | Z_OTHER c => c
  end.

Definition named_errors : list Error :=
  [ZOK; ZSYSTEMERROR; ZRUNTIMEINCONSISTENCY; ZDATAINCONSISTENCY; ZCONNECTIONLOSS;
   ZMARSHALLINGERROR; ZUNIMPLEMENTED; ZOPERATIONTIMEOUT; ZBADARGUMENTS;
   ZINVALIDSTATE; ZAPIERROR; ZNONODE; ZNOAUTH; ZBADVERSION;
   ZNOCHILDRENFOREPHEMERALS; ZNODEEXISTS; ZNOTEMPTY; ZSESSIONEXPIRED;
   ZINVALIDCALLBACK; ZINVALIDACL; ZAUTHFAILED; ZCLOSING; ZNOTHING; ZSESSIONMOVED].

(** [Coordination::Error(code)] *)
Definition error_of_code (c : Z) : Error :=
  default (Z_OTHER c) (head (filter (λ e, error_code e = c) named_errors)).

(** The values of the enumeration that the protocol names, and the other
    [int32_t] values. *)
Definition error_wf (e : Error) : Prop :=
  match e with
  | Z_OTHER c => in_s 32 c ∧ Forall (λ e', error_code e' ≠ c) named_errors
  | _ => True
  end.

(** The exceptions the modelled code throws. *)
Inductive exn : Set :=
| LOGICAL_ERROR
| BAD_ARGUMENTS
| CANNOT_READ_ALL_DATA
| CANNOT_READ_FROM_FILE_DESCRIPTOR
| CANNOT_WRITE_TO_FILE_DESCRIPTOR
| FILE_NOT_FOUND
| BUFFER_OVERFLOW
| CHECKSUM_DOESNT_MATCH
| CORRUPTED_DATA
| STD_INVALID_ARGUMENT
| STD_OUT_OF_RANGE
| STD_BAD_ALLOC
| TIMEOUT_EXCEEDED
| SYSTEM_ERROR
| RAFT_ERROR
| RAFT_FORWARDING_ERROR
| NETWORK_ERROR
| ALL_CONNECTION_TRIES_FAILED
| UNEXPECTED_PACKET_FROM_CLIENT
| NOT_IMPLEMENTED
| ATTEMPT_TO_READ_AFTER_EOF
| KEEPER_EXCEPTION (code : Error)
(* an exception whose code the program computes *)
| EXCEPTION_WITH_CODE (code : Z).

#[export] Instance exn_eq_dec : EqDecision exn.
Proof. solve_decision. Defined.

Definition getOpNum_raw (raw_op_num : Z) : outcome exn OpNum :=
  match filter (λ o, op_code o = raw_op_num) VALID_OPERATIONS with
  | o :: _ => Ret o
  | [] => Throw (KEEPER_EXCEPTION ZUNIMPLEMENTED)
  end.

Definition OpNum_toString (o : OpNum) : string :=
  match o with
  | Op_Close => "Close" | Op_Error => "Error" | Op_Create => "Create"
  | Op_Remove => "Remove" | Op_Exists => "Exists" | Op_Get => "Get"
  | Op_Set => "Set" | Op_SimpleList => "SimpleList" | Op_Sync => "Sync"
  | Op_List => "List" | Op_Check => "Check" | Op_Multi => "Multi"
  | Op_Heartbeat => "Heartbeat" | Op_Auth => "Auth" | Op_SetSeqNum => "SetSeqNum"
  | Op_SessionID => "SessionID" | Op_SetWatches => "SetWatches"
  | Op_SetACL => "SetACL" | Op_GetACL => "GetACL"
  end.

(** ** IKeeper *)

(** The permission bits, [ACL::Read] and the like. *)
Definition ACL_Read : Z := 1.
Definition ACL_Write : Z := 2.
Definition ACL_Create : Z := 4.
Definition ACL_Delete : Z := 8.
Definition ACL_Admin : Z := 16.
Definition ACL_All : Z := 0x1F.

Record ACL : Set := mkACL {
  acl_permissions : Z;
  acl_scheme : string;
  acl_aid : string
}.
Abbreviation ACLs := (list ACL).

Record AuthID : Set := mkAuthID {
  auth_scheme : string;
  auth_id : string
}.
Abbreviation AuthIDs := (list AuthID).

#[export] Instance ACL_eq_dec : EqDecision ACL.
Proof. solve_decision. Defined.
#[export] Instance AuthID_eq_dec : EqDecision AuthID.
Proof. solve_decision. Defined.

#[export] Instance ACL_countable : Countable ACL.
Proof.
  refine (inj_countable' (λ a, (acl_permissions a, acl_scheme a, acl_aid a))
            (λ '(p, s, i), mkACL p s i) _).
  by intros [].
Defined.

Record Stat : Set := mkStat {
  czxid : Z;
  mzxid : Z;
  ctime : Z;
  mtime : Z;
  version : Z;
  cversion : Z;
  aversion : Z;
  ephemeralOwner : Z;
  dataLength : Z;
  numChildren : Z;
  pzxid : Z
}.

#[export] Instance Stat_eq_dec : EqDecision Stat.
Proof. solve_decision. Defined.

(** [Stat stat{}] *)
Definition Stat_zero : Stat := mkStat 0 0 0 0 0 0 0 0 0 0 0.

(** [Stat::operator==] compares two of the eleven fields. *)
Definition Stat_eqb (a b : Stat) : bool :=
  (dataLength a =? dataLength b) && (numChildren a =? numChildren b).

Inductive Event : Set :=
| CREATED | DELETED | CHANGED | CHILD | SESSION | NOTWATCHING.

#[export] Instance Event_eq_dec : EqDecision Event.
Proof. solve_decision. Defined.

Definition event_code (e : Event) : Z :=
  match e with
  | CREATED => 1 | DELETED => 2 | CHANGED => 3 | CHILD => 4
  | SESSION => -1 | NOTWATCHING => -2
  end.

(** [State::CONNECTED], the only state the store sends. *)
Definition STATE_CONNECTED : Z := 3.

Definition isHardwareError (e : Error) : bool :=
  bool_decide (e = ZINVALIDSTATE) || bool_decide (e = ZSESSIONEXPIRED)
  || bool_decide (e = ZSESSIONMOVED) || bool_decide (e = ZCONNECTIONLOSS)
  || bool_decide (e = ZMARSHALLINGERROR) || bool_decide (e = ZOPERATIONTIMEOUT).

Definition isUserError (e : Error) : bool :=
  bool_decide (e = ZNONODE) || bool_decide (e = ZBADVERSION)
  || bool_decide (e = ZNOCHILDRENFOREPHEMERALS) || bool_decide (e = ZNODEEXISTS)
  || bool_decide (e = ZNOTEMPTY).

(** [errorMessage]: a value outside the switch reaches [__builtin_unreachable]. *)
Definition errorMessage (e : Error) : outcome exn string :=
  match e with
  | ZOK => Ret "Ok" | ZSYSTEMERROR => Ret "System error"
  | ZRUNTIMEINCONSISTENCY => Ret "Run time inconsistency"
  | ZDATAINCONSISTENCY => Ret "Data inconsistency"
  | ZCONNECTIONLOSS => Ret "Connection loss"
  | ZMARSHALLINGERROR => Ret "Marshalling error"
  | ZUNIMPLEMENTED => Ret "Unimplemented"
  | ZOPERATIONTIMEOUT => Ret "Operation timeout"
  | ZBADARGUMENTS => Ret "Bad arguments"
  | ZINVALIDSTATE => Ret "Invalid zhandle state"
  | ZAPIERROR => Ret "API error" | ZNONODE => Ret "No node"
  | ZNOAUTH => Ret "Not authenticated" | ZBADVERSION => Ret "Bad version"
  | ZNOCHILDRENFOREPHEMERALS => Ret "No children for ephemerals"
  | ZNODEEXISTS => Ret "Node exists" | ZNOTEMPTY => Ret "Not empty"
  | ZSESSIONEXPIRED => Ret "Session expired"
  | ZINVALIDCALLBACK => Ret "Invalid callback"
  | ZINVALIDACL => Ret "Invalid ACL" | ZAUTHFAILED => Ret "Authentication failed"
  | ZCLOSING => Ret "ZooKeeper is closing"
  | ZNOTHING => Ret "(not error) no server responses to process"
  | ZSESSIONMOVED => Ret "Session moved to another server, so operation is ignored"
  | Z_OTHER _ => Crash
  end.

(** ** Requests (ZooKeeperCommon.h)

    The fields a server never reads are left out: [probably_sent],
    [restored_from_zookeeper_log] and the [parent_cversion] of a create
    request, all used only by the client and by the log converter. *)

Inductive ZooKeeperRequest : Set :=
| mkRequest (req_xid : Z) (req_has_watch : bool) (req_body : RequestBody)
with RequestBody : Set :=
| HeartbeatRequest
| SetWatchesRequest (relative_zxid : Z) (data_watches exist_watches list_watches : list string)
| SyncRequest (path : string)
| AuthRequest (type : Z) (scheme data : string)
| CloseRequest
| CreateRequest (path data : string) (is_ephemeral is_sequential : bool) (acls : ACLs)
| RemoveRequest (path : string) (version : Z)
| ExistsRequest (path : string)
| GetRequest (path : string)
| SetRequest (path data : string) (version : Z)
| ListRequest (path : string)
| SimpleListRequest (path : string)
| CheckRequest (path : string) (version : Z)
| SetACLRequest (path : string) (acls : ACLs) (version : Z)
| GetACLRequest (path : string)
| MultiRequest (requests : list ZooKeeperRequest)
| SessionIDRequest (internal_id session_timeout_ms server_id : Z)
| SetSeqNumRequest (path : string) (seq_num : Z).

Definition req_xid (r : ZooKeeperRequest) : Z := let '(mkRequest x _ _) := r in x.
Definition req_has_watch (r : ZooKeeperRequest) : bool := let '(mkRequest _ w _) := r in w.
Definition req_body (r : ZooKeeperRequest) : RequestBody := let '(mkRequest _ _ b) := r in b.

(** [getPath]: the requests without a path return an empty string. *)
Definition body_getPath (b : RequestBody) : string :=
  match b with
  | HeartbeatRequest | SetWatchesRequest _ _ _ _ | AuthRequest _ _ _
  | CloseRequest | MultiRequest _ | SessionIDRequest _ _ _ => ""
  | SyncRequest p | CreateRequest p _ _ _ _ | RemoveRequest p _ | ExistsRequest p
  | GetRequest p | SetRequest p _ _ | ListRequest p | SimpleListRequest p
  | CheckRequest p _ | SetACLRequest p _ _ | GetACLRequest p
  | SetSeqNumRequest p _ => p
  end.
Definition getPath (r : ZooKeeperRequest) : string := body_getPath (req_body r).

Definition body_getOpNum (b : RequestBody) : OpNum :=
  match b with
  | HeartbeatRequest => Op_Heartbeat
  | SetWatchesRequest _ _ _ _ => Op_SetWatches
  | SyncRequest _ => Op_Sync
  | AuthRequest _ _ _ => Op_Auth
  | CloseRequest => Op_Close
  | CreateRequest _ _ _ _ _ => Op_Create
  | RemoveRequest _ _ => Op_Remove
  | ExistsRequest _ => Op_Exists
  | GetRequest _ => Op_Get
  | SetRequest _ _ _ => Op_Set
  | ListRequest _ => Op_List
  | SimpleListRequest _ => Op_SimpleList
  | CheckRequest _ _ => Op_Check
  | SetACLRequest _ _ _ => Op_SetACL
  | GetACLRequest _ => Op_GetACL
  | MultiRequest _ => Op_Multi
  | SessionIDRequest _ _ _ => Op_SessionID
  | SetSeqNumRequest _ _ => Op_SetSeqNum
  end.
Definition getOpNum (r : ZooKeeperRequest) : OpNum := body_getOpNum (req_body r).

Definition isReadRequest (r : ZooKeeperRequest) : bool :=
  match req_body r with
  | HeartbeatRequest | SetWatchesRequest _ _ _ _ | ExistsRequest _ | GetRequest _
  | ListRequest _ | SimpleListRequest _ | GetACLRequest _ => true
  | _ => false
  end.

(** ** Responses (ZooKeeperCommon.h) *)

Inductive ZooKeeperResponse : Set :=
| mkResponse (resp_xid resp_zxid : Z) (resp_error : Error)
    (resp_request_created_time_ms : Z) (resp_body : ResponseBody)
with ResponseBody : Set :=
| HeartbeatResponse
| SetWatchesResponse
| SyncResponse (path : string)
| WatchResponse (type state : Z) (path : string)
| AuthResponse
| CloseResponse
| CreateResponse (path_created : string)
| RemoveResponse
| ExistsResponse (stat : Stat)
| GetResponse (data : string) (stat : Stat)
| SetResponse (stat : Stat)
| ListResponse (names : list string) (stat : Stat)
| CheckResponse
| SetACLResponse (stat : Stat)
| GetACLResponse (acl : ACLs) (stat : Stat)
| MultiResponse (responses : list ZooKeeperResponse)
| SessionIDResponse (internal_id session_id server_id : Z)
| SetSeqNumResponse
| ErrorResponse.

Definition resp_xid (r : ZooKeeperResponse) : Z := let '(mkResponse x _ _ _ _) := r in x.
Definition resp_zxid (r : ZooKeeperResponse) : Z := let '(mkResponse _ z _ _ _) := r in z.
Definition resp_error (r : ZooKeeperResponse) : Error := let '(mkResponse _ _ e _ _) := r in e.
Definition resp_time (r : ZooKeeperResponse) : Z := let '(mkResponse _ _ _ t _) := r in t.
Definition resp_body (r : ZooKeeperResponse) : ResponseBody := let '(mkResponse _ _ _ _ b) := r in b.

(** A response object of [std::make_shared]: value-initialized fields. *)
Definition new_response (b : ResponseBody) : ZooKeeperResponse := mkResponse 0 0 ZOK 0 b.

Definition set_error (e : Error) (r : ZooKeeperResponse) : ZooKeeperResponse :=
  let '(mkResponse x z _ t b) := r in mkResponse x z e t b.
Definition set_header (xid zxid : Z) (r : ZooKeeperResponse) : ZooKeeperResponse :=
  let '(mkResponse _ _ e t b) := r in mkResponse xid zxid e t b.
Definition set_time (time : Z) (r : ZooKeeperResponse) : ZooKeeperResponse :=
  let '(mkResponse x z e _ b) := r in mkResponse x z e time b.

(** [OpNum] of a response; a watch response has none and throws. *)
Definition resp_getOpNum (r : ZooKeeperResponse) : outcome exn OpNum :=
  match resp_body r with
  | HeartbeatResponse => Ret Op_Heartbeat
  | SetWatchesResponse => Ret Op_SetWatches
  | SyncResponse _ => Ret Op_Sync
  | WatchResponse _ _ _ => Throw (KEEPER_EXCEPTION ZRUNTIMEINCONSISTENCY)
  | AuthResponse => Ret Op_Auth
  | CloseResponse => Ret Op_Close
  | CreateResponse _ => Ret Op_Create
  | RemoveResponse => Ret Op_Remove
  | ExistsResponse _ => Ret Op_Exists
  | GetResponse _ _ => Ret Op_Get
  | SetResponse _ => Ret Op_Set
  | ListResponse _ _ => Ret Op_List
  | CheckResponse => Ret Op_Check
  | SetACLResponse _ => Ret Op_SetACL
  | GetACLResponse _ _ => Ret Op_GetACL
  | MultiResponse _ => Ret Op_Multi
  | SessionIDResponse _ _ _ => Ret Op_SessionID
  | SetSeqNumResponse => Ret Op_SetSeqNum
  | ErrorResponse => Ret Op_Error
  end.

(** [makeResponse]; a multi request makes one response per sub-request
    ([ZooKeeperMultiResponse(const Requests &)]). *)
Fixpoint makeResponse (r : ZooKeeperRequest) : ZooKeeperResponse :=
  let '(mkRequest _ _ b) := r in
  new_response
    match b with
    | HeartbeatRequest => HeartbeatResponse
    | SetWatchesRequest _ _ _ _ => SetWatchesResponse
    | SyncRequest _ => SyncResponse ""
    | AuthRequest _ _ _ => AuthResponse
    | CloseRequest => CloseResponse
    | CreateRequest _ _ _ _ _ => CreateResponse ""
    | RemoveRequest _ _ => RemoveResponse
    | ExistsRequest _ => ExistsResponse Stat_zero
    | GetRequest _ => GetResponse "" Stat_zero
    | SetRequest _ _ _ => SetResponse Stat_zero
    | ListRequest _ | SimpleListRequest _ => ListResponse [] Stat_zero
    | CheckRequest _ _ => CheckResponse
    | SetACLRequest _ _ _ => SetACLResponse Stat_zero
    | GetACLRequest _ => GetACLResponse [] Stat_zero
    | MultiRequest rs => MultiResponse (map makeResponse rs)
    | SessionIDRequest _ _ _ => SessionIDResponse 0 0 0
    | SetSeqNumRequest _ _ => SetSeqNumResponse
    end.

(** ** The chroot prefix (IKeeper.cpp) *)

Definition addRootPath (path root_path : string) : outcome exn string :=
  match path with
  | EmptyString => Throw (KEEPER_EXCEPTION ZBADARGUMENTS)
  | String c _ =>
      if bool_decide (c = "/"%char) then
        if bool_decide (root_path = "") then Ret path
        else if Nat.eqb (String.length path) 1 then Ret root_path
        else Ret (root_path +:+ path)%string
      else Throw (KEEPER_EXCEPTION ZBADARGUMENTS)
  end.

Definition removeRootPath (path root_path : string) : outcome exn string :=
  if bool_decide (root_path = "") then Ret path
  else if Nat.leb (String.length path) (String.length root_path)
  then Throw (KEEPER_EXCEPTION ZDATAINCONSISTENCY)
  else Ret (String.substring (String.length root_path)
              (String.length path - String.length root_path) path).

(** ** Codes *)

Lemma op_code_inj o1 o2 : op_code o1 = op_code o2 → o1 = o2.
Proof. by destruct o1, o2. Qed.

Lemma getOpNum_raw_op_code o : getOpNum_raw (op_code o) = Ret o.
Proof. by destruct o. Qed.

Lemma getOpNum_raw_inv z o : getOpNum_raw z = Ret o → z = op_code o.
Proof.
  unfold getOpNum_raw.
  destruct (filter _ _) as [|o' l] eqn:Hf; intros [= ->].
  assert (o ∈ filter (λ o0, op_code o0 = z) VALID_OPERATIONS) as H.
  { rewrite Hf. left. }
  by apply list_elem_of_filter in H as [-> _].
Qed.

Lemma op_code_range o : in_s 32 (op_code o).
Proof. destruct o; by vm_compute. Qed.

Lemma error_code_range e : error_wf e → in_s 32 (error_code e).
Proof. destruct e; [by vm_compute..|]. by intros [??]. Qed.

Lemma error_of_code_code e : error_wf e → error_of_code (error_code e) = e.
Proof.
  destruct e; [reflexivity..|]. intros [_ Hne]. unfold error_of_code.
  rewrite filter_none; [reflexivity|]. exact Hne.
Qed.
