(* ===== verification/ZkIO.v ===== *)
(** * Wire primitives: src/Common/ZooKeeper/ZooKeeperIO.{h,cpp}

    The overloads of [Coordination::write] and [Coordination::read] over a
    buffer of bytes, with the reading calls of src/IO/ReadBuffer.h they use.
    A write is the list of bytes it appends; a read is a computation of the
    state monad on the bytes left in the buffer.

    Theorems: an integer goes out in network order, every value read back after
    being written is the value written and leaves the rest of the buffer
    untouched, and a negative or oversized length is refused. *)

From coqutil Require Import Word.LittleEndianList Byte.
From S2P Require Import Prelude Types.
From stdpp Require Import base gmap sets list strings option.
From Stdlib Require Import ZArith Lia Ascii.
Open Scope Z_scope.

Abbreviation bytes := (list Init.Byte.byte).
Abbreviation reader := (ST (list Init.Byte.byte) exn).

(** ** ReadBuffer over a block of memory ([nextImpl] returns false) *)

(** [read(char * to, size_t n)]: as many bytes as there are, at most [n]. *)
Definition rb_read (n : nat) : reader bytes := λ b, (drop n b, Ret (take n b)).

(** [readStrict(char * to, size_t n)]: throws on fewer bytes, which are consumed. *)
Definition rb_readStrict (n : nat) : reader bytes := λ b,
  if decide (length (take n b) = n) then (drop n b, Ret (take n b))
  else (drop n b, Throw CANNOT_READ_ALL_DATA).

Definition rb_eof : reader bool := λ b, (b, Ret (bool_decide (b = []))).

(** ** Integers

    [__builtin_bswap32/64], then the host (little-endian) representation. *)

Definition bswap (n : nat) (x : Z) : Z := le_combine (rev (le_split n x)).

Definition write_int (n : nat) (x : Z) : bytes := le_split n (bswap n x).

Definition read_uint (n : nat) : reader Z :=
  b ← rb_readStrict n; mret (bswap n (le_combine b)).

Definition read_sint (n : nat) : reader Z :=
  x ← read_uint n; mret (wrap_s (8 * Z.of_nat n) x).

Definition write_i64 : Z → bytes := write_int 8.
Definition write_i32 : Z → bytes := write_int 4.
Definition read_i64 : reader Z := read_sint 8.
Definition read_i32 : reader Z := read_sint 4.

(** [write(int8_t)], [read(int8_t)]: one byte, no swap. *)
Definition write_i8 (x : Z) : bytes := le_split 1 x.
Definition read_i8 : reader Z := b ← rb_readStrict 1; mret (wrap_s 8 (le_combine b)).

Definition write_bool (x : bool) : bytes := le_split 1 (if x then 1 else 0).
Definition read_bool : reader bool := b ← rb_readStrict 1; mret (negb (le_combine b =? 0)).

Definition write_OpNum (o : OpNum) : bytes := write_i32 (op_code o).
Definition read_OpNum : reader OpNum := raw ← read_i32; lift (getOpNum_raw raw).

Definition write_Error (e : Error) : bytes := write_i32 (error_code e).
Definition read_Error : reader Error := c ← read_i32; mret (error_of_code c).

(** ** Strings and arrays *)

(** The length goes out as [int32_t(s.size())]. *)
Definition write_string (s : string) : bytes :=
  write_i32 (s32 (Z.of_nat (String.length s))) ++ String.list_byte_of_string s.

(** [s.resize(size); in.read(s.data(), size)]: the call is the non-strict one,
    so a buffer that is too short leaves the tail of the string zero. *)
Definition read_string : reader string :=
  size ← read_i32;
  if size =? -1 then mret ""
  else if size <? 0 then throw (KEEPER_EXCEPTION ZMARSHALLINGERROR)
  else if size >? MAX_STRING_OR_ARRAY_SIZE then throw (KEEPER_EXCEPTION ZMARSHALLINGERROR)
  else
    b ← rb_read (Z.to_nat size);
    mret (String.string_of_list_byte (b ++ replicate (Z.to_nat size - length b) Byte.x00)).

Definition write_vec {A} (w : A → bytes) (l : list A) : bytes :=
  write_i32 (s32 (Z.of_nat (length l))) ++ mjoin (w <$> l).

Fixpoint read_n {A} (r : reader A) (n : nat) : reader (list A) :=
  match n with
  | O => mret []
  | S n => x ← r; l ← read_n r n; mret (x :: l)
  end.

Definition read_vec {A} (r : reader A) : reader (list A) :=
  size ← read_i32;
  if size <? 0 then throw (KEEPER_EXCEPTION ZMARSHALLINGERROR)
  else if size >? MAX_STRING_OR_ARRAY_SIZE then throw (KEEPER_EXCEPTION ZMARSHALLINGERROR)
  else read_n r (Z.to_nat size).

(** ** Structures *)

Definition write_ACL (a : ACL) : bytes :=
  write_i32 (acl_permissions a) ++ write_string (acl_scheme a) ++ write_string (acl_aid a).
Definition read_ACL : reader ACL :=
  p ← read_i32; s ← read_string; i ← read_string; mret (mkACL p s i).

Definition write_AuthID (a : AuthID) : bytes :=
  write_string (auth_scheme a) ++ write_string (auth_id a).
Definition read_AuthID : reader AuthID :=
  s ← read_string; i ← read_string; mret (mkAuthID s i).

Definition write_Stat (st : Stat) : bytes :=
  write_i64 (czxid st) ++ write_i64 (mzxid st) ++ write_i64 (ctime st)
  ++ write_i64 (mtime st) ++ write_i32 (version st) ++ write_i32 (cversion st)
  ++ write_i32 (aversion st) ++ write_i64 (ephemeralOwner st)
  ++ write_i32 (dataLength st) ++ write_i32 (numChildren st) ++ write_i64 (pzxid st).
Definition read_Stat : reader Stat :=
  cz ← read_i64; mz ← read_i64; ct ← read_i64; mt ← read_i64;
  v ← read_i32; cv ← read_i32; av ← read_i32; eo ← read_i64;
  dl ← read_i32; nc ← read_i32; pz ← read_i64;
  mret (mkStat cz mz ct mt v cv av eo dl nc pz).

(** ** Well-formed values: what the wire format can carry *)

Definition string_ok (s : string) : Prop :=
  Z.of_nat (String.length s) <= MAX_STRING_OR_ARRAY_SIZE.
Definition vec_ok {A} (P : A → Prop) (l : list A) : Prop :=
  Z.of_nat (length l) <= MAX_STRING_OR_ARRAY_SIZE ∧ Forall P l.
Definition ACL_ok (a : ACL) : Prop :=
  in_s 32 (acl_permissions a) ∧ string_ok (acl_scheme a) ∧ string_ok (acl_aid a).
Definition AuthID_ok (a : AuthID) : Prop :=
  string_ok (auth_scheme a) ∧ string_ok (auth_id a).
Definition Stat_ok (st : Stat) : Prop :=
  in_s 64 (czxid st) ∧ in_s 64 (mzxid st) ∧ in_s 64 (ctime st) ∧ in_s 64 (mtime st)
  ∧ in_s 32 (version st) ∧ in_s 32 (cversion st) ∧ in_s 32 (aversion st)
  ∧ in_s 64 (ephemeralOwner st) ∧ in_s 32 (dataLength st) ∧ in_s 32 (numChildren st)
  ∧ in_s 64 (pzxid st).

(** [reads r bs a]: whatever follows, [r] consumes exactly [bs] and returns [a]. *)
Definition reads {A} (r : reader A) (bs : bytes) (a : A) : Prop :=
  ∀ rest, r (bs ++ rest) = (rest, Ret a).

(** ** The algebra of [reads] *)

Lemma reads_mret {A} (a : A) : reads (mret a) [] a.
Proof. by intros rest. Qed.

Lemma reads_bind {A B} (r : reader A) (k : A → reader B) bs1 bs2 a b :
  reads r bs1 a → reads (k a) bs2 b → reads (r ≫= k) (bs1 ++ bs2) b.
Proof. intros Hr Hk rest. rewrite <-app_assoc. by rewrite (bind_Ret _ _ _ _ _ (Hr _)). Qed.

(** The last field of a structure. *)
Lemma reads_last {A B} (r : reader A) (f : A → B) bs a :
  reads r bs a → reads (r ≫= λ x, mret (f x)) bs (f a).
Proof. intros Hr rest. by rewrite (bind_Ret _ _ _ _ _ (Hr _)). Qed.

Lemma reads_Strict n bs : length bs = n → reads (rb_readStrict n) bs bs.
Proof.
  intros <- rest. unfold rb_readStrict. rewrite take_app_length, drop_app_length.
  by rewrite decide_True.
Qed.

Create HintDb wire.

(** Read a structure field by field; the fields' own round trips are hints. *)
Ltac reads_last :=
  match goal with
  | |- reads (?r ≫= (λ x, mret (@?f x))) _ _ => apply (reads_last r f)
  end.

Ltac solve_reads :=
  repeat first
    [ apply reads_mret
    | reads_last; solve [eauto with wire]
    | eapply reads_bind; [solve [eauto with wire]|] ].

(** ** Integers *)

Lemma length_bswap_split n x : length (le_split n (bswap n x)) = n.
Proof. apply length_le_split. Qed.

Lemma split_bswap n x : le_split n (bswap n x) = rev (le_split n x).
Proof.
  unfold bswap. apply split_le_combine'. by rewrite length_rev, length_le_split.
Qed.

Lemma bswap_combine n b :
  length b = n → bswap n (le_combine b) = le_combine (rev b).
Proof. intros <-. unfold bswap. by rewrite split_le_combine. Qed.

Lemma reads_uint n x : reads (read_uint n) (write_int n x) (x mod 2 ^ (8 * Z.of_nat n)).
Proof.
  unfold read_uint, write_int.
  replace (x mod _) with (bswap n (le_combine (le_split n (bswap n x)))).
  { apply (reads_last _ (λ b, bswap n (le_combine b))), reads_Strict, length_le_split. }
  rewrite bswap_combine by apply length_le_split.
  by rewrite split_bswap, rev_involutive, le_combine_split, Z.mul_comm.
Qed.

Lemma reads_sint n x :
  (0 < n)%nat → in_s (8 * Z.of_nat n) x → reads (read_sint n) (write_int n x) x.
Proof.
  intros Hn Hx. unfold read_sint.
  assert (x = wrap_s (8 * Z.of_nat n) (x mod 2 ^ (8 * Z.of_nat n))) as E.
  { rewrite <-(wrap_s_id (8 * Z.of_nat n) x) at 1 by (done || lia).
    apply wrap_s_mod; [lia|]. symmetry. apply Z.mod_mod. apply Z.pow_nonzero; lia. }
  rewrite E at 2. apply (reads_last _ (wrap_s _)), reads_uint.
Qed.

Lemma reads_i64 x : in_s 64 x → reads read_i64 (write_i64 x) x.
Proof. intros. apply reads_sint; [lia|done]. Qed.

Lemma reads_i32 x : in_s 32 x → reads read_i32 (write_i32 x) x.
Proof. intros. apply reads_sint; [lia|done]. Qed.

Lemma reads_i8 x : in_s 8 x → reads read_i8 (write_i8 x) x.
Proof.
  intros Hx rest. unfold read_i8, write_i8.
  erewrite bind_Ret; [|apply (reads_Strict 1); by rewrite length_le_split].
  rewrite le_combine_split. unfold mret, ST_ret. repeat f_equal.
  change (8 * Z.of_nat 1) with 8. rewrite <-(wrap_s_id 8 x) at 2 by done.
  apply wrap_s_mod; [lia|]. by rewrite Z.mod_mod.
Qed.

Lemma reads_bool b : reads read_bool (write_bool b) b.
Proof.
  unfold read_bool, write_bool.
  replace b with (negb (le_combine (le_split 1 (if b then 1 else 0)) =? 0)) at 2
    by by destruct b.
  apply (reads_last _ (λ b, negb (le_combine b =? 0))), reads_Strict, length_le_split.
Qed.

#[export] Hint Resolve reads_i64 reads_i32 reads_bool : wire.

Lemma reads_OpNum o : reads read_OpNum (write_OpNum o) o.
Proof.
  intros rest. unfold read_OpNum, write_OpNum.
  rewrite (bind_Ret _ _ _ _ _ (reads_i32 _ (op_code_range o) rest)).
  unfold lift. by rewrite getOpNum_raw_op_code.
Qed.

Lemma reads_Error e : error_wf e → reads read_Error (write_Error e) e.
Proof.
  intros He. unfold read_Error, write_Error.
  rewrite <-(error_of_code_code e) at 2 by done.
  apply (reads_last _ error_of_code), reads_i32. by apply error_code_range.
Qed.

(** ** Strings, arrays, structures *)

Lemma max_size_range z :
  0 <= z <= MAX_STRING_OR_ARRAY_SIZE → in_s 32 z ∧ s32 z = z ∧ (z =? -1) = false
  ∧ (z <? 0) = false ∧ (z >? MAX_STRING_OR_ARRAY_SIZE) = false.
Proof.
  intros Hz. assert (in_s 32 z) as Hr.
  { change (0 <= z <= 268435456) in Hz. unfold in_s.
    change (2 ^ (32 - 1)) with 2147483648. lia. }
  split_and!; [done|by apply wrap_s_id|by apply Z.eqb_neq; lia|by apply Z.ltb_ge; lia|].
  rewrite Z.gtb_ltb. apply Z.ltb_ge. lia.
Qed.

Lemma length_list_byte_of_string s : length (String.list_byte_of_string s) = String.length s.
Proof. induction s as [|a s IH]; simpl; [done|]. by rewrite <-IH. Qed.

Lemma reads_string s : string_ok s → reads read_string (write_string s) s.
Proof.
  intros Hs rest. unfold read_string, write_string.
  destruct (max_size_range (Z.of_nat (String.length s))) as (Hr & E & E1 & E2 & E3).
  { unfold string_ok in Hs. lia. }
  rewrite E, <-app_assoc, (bind_Ret _ _ _ _ _ (reads_i32 _ Hr _)), E1, E2, E3.
  rewrite Nat2Z.id. unfold mbind, ST_bind, rb_read.
  rewrite <-(length_list_byte_of_string s), take_app_length, drop_app_length.
  rewrite Nat.sub_diag, app_nil_r. unfold mret, ST_ret.
  by rewrite String.string_of_list_byte_of_string.
Qed.

Lemma reads_n {A} (w : A → bytes) (r : reader A) l :
  Forall (λ a, reads r (w a) a) l → reads (read_n r (length l)) (mjoin (w <$> l)) l.
Proof.
  induction 1 as [|a l Ha _ IH]; simpl; [apply reads_mret|].
  eapply reads_bind; [done|]. by apply (reads_last _ (λ l, a :: l)).
Qed.

Lemma reads_vec {A} (P : A → Prop) (w : A → bytes) (r : reader A) l :
  (∀ a, P a → reads r (w a) a) → vec_ok P l → reads (read_vec r) (write_vec w l) l.
Proof.
  intros Hw [Hlen Hl] rest. unfold read_vec, write_vec.
  destruct (max_size_range (Z.of_nat (length l))) as (Hr & E & _ & E2 & E3); [lia|].
  rewrite E, <-app_assoc, (bind_Ret _ _ _ _ _ (reads_i32 _ Hr _)), E2, E3, Nat2Z.id.
  apply reads_n. by eapply Forall_impl.
Qed.

#[export] Hint Resolve reads_OpNum reads_Error reads_string : wire.

Lemma reads_ACL a : ACL_ok a → reads read_ACL (write_ACL a) a.
Proof.
  destruct a as [p s i]. intros (?&?&?). unfold read_ACL, write_ACL.
  cbn [acl_permissions acl_scheme acl_aid] in *. solve_reads.
Qed.

Lemma reads_AuthID a : AuthID_ok a → reads read_AuthID (write_AuthID a) a.
Proof.
  destruct a as [s i]. intros (?&?). unfold read_AuthID, write_AuthID.
  cbn [auth_scheme auth_id] in *. solve_reads.
Qed.

Lemma reads_Stat st : Stat_ok st → reads read_Stat (write_Stat st) st.
Proof.
  destruct st as [cz mz ct mt v cv av eo dl nc pz]. intros (?&?&?&?&?&?&?&?&?&?&?). unfold read_Stat, write_Stat.
  cbn [czxid mzxid ctime mtime version cversion aversion ephemeralOwner dataLength
       numChildren pzxid] in *.
  solve_reads.
Qed.

Lemma reads_ACLs l : vec_ok ACL_ok l → reads (read_vec read_ACL) (write_vec write_ACL l) l.
Proof. apply reads_vec, reads_ACL. Qed.

Lemma reads_strings l :
  vec_ok string_ok l → reads (read_vec read_string) (write_vec write_string l) l.
Proof. apply reads_vec, reads_string. Qed.

#[export] Hint Resolve reads_ACL reads_AuthID reads_Stat reads_ACLs reads_strings : wire.
