(* ===== verification/ZkCodec.v ===== *)
(** * Request and response serialization: src/Common/ZooKeeper/ZooKeeperCommon.cpp

    [writeImpl] and [readImpl] of every request class, the request factory,
    [ZooKeeperRequest::write] and [read], and the same for responses. The
    nested loop of a multi request recurses on a fuel that [request_read] sets
    to the number of bytes left, which [request_read_total] shows is enough.

    Theorems: reading a request after writing it gives it back, the reader is
    total on arbitrary bytes, and a response body read back with the response
    object its request makes is the body that was written. *)

From S2P Require Import Prelude Types ZkIO.
From coqutil Require Import Word.LittleEndianList.
From stdpp Require Import base gmap sets list strings option.
From Stdlib Require Import ZArith Lia Ascii.
Open Scope Z_scope.

(** ** Requests *)

(** [flags] of a create request. *)
Definition create_flags (is_ephemeral is_sequential : bool) : Z :=
  Z.lor (if is_ephemeral then 1 else 0) (if is_sequential then 2 else 0).

(** The header of an operation of a multi request or response. *)
Definition multi_header (op : OpNum) (fin : bool) (error : Z) : bytes :=
  write_OpNum op ++ write_bool fin ++ write_i32 error.

Definition multi_footer : bytes := multi_header Op_Error true (-1).

Fixpoint request_writeImpl (r : ZooKeeperRequest) : bytes :=
  let '(mkRequest _ has_watch b) := r in
  match b with
  | HeartbeatRequest | CloseRequest => []
  | SetWatchesRequest rz dw ew lw =>
      write_i64 rz ++ write_vec write_string dw ++ write_vec write_string ew
      ++ write_vec write_string lw
  | SyncRequest p => write_string p
  | AuthRequest ty scheme data => write_i32 ty ++ write_string scheme ++ write_string data
  | CreateRequest p data eph seq acls =>
      write_string p ++ write_string data ++ write_vec write_ACL acls
      ++ write_i32 (create_flags eph seq)
  | RemoveRequest p v => write_string p ++ write_i32 v
  | ExistsRequest p | GetRequest p | ListRequest p | SimpleListRequest p =>
      write_string p ++ write_bool has_watch
  | SetRequest p data v => write_string p ++ write_string data ++ write_i32 v
  | CheckRequest p v => write_string p ++ write_i32 v
  | SetACLRequest p acls v => write_string p ++ write_vec write_ACL acls ++ write_i32 v
  | GetACLRequest p => write_string p
  | MultiRequest rs =>
      concat (map (λ r', multi_header (getOpNum r') false (-1) ++ request_writeImpl r') rs)
      ++ multi_footer
  | SessionIDRequest i t s => write_i64 i ++ write_i64 t ++ write_i32 s
  | SetSeqNumRequest p n => write_string p ++ write_i32 n
  end.

(** [ZooKeeperRequest::write]: the length, then the packet. *)
Definition request_packet (r : ZooKeeperRequest) : bytes :=
  write_i32 (req_xid r) ++ write_OpNum (getOpNum r) ++ request_writeImpl r.
Definition request_write (r : ZooKeeperRequest) : bytes :=
  write_i32 (s32 (Z.of_nat (length (request_packet r)))) ++ request_packet r.

(** [ZooKeeperRequestFactory]: the operations with a registered class. *)
Definition factory_registered (op : OpNum) : bool :=
  match op with Op_Error => false | _ => true end.

(** The loop of [ZooKeeperMultiRequest::readImpl]; [rd] reads the body of one
    operation. *)
Fixpoint multi_readLoop (rd : OpNum → reader (bool * RequestBody)) (n : nat)
    : reader (list ZooKeeperRequest) :=
  match n with
  | O => crash
  | S n =>
      op ← read_OpNum; fin ← read_bool; error ← read_i32;
      if (fin : bool) then
        if decide (op ≠ Op_Error) then throw (KEEPER_EXCEPTION ZMARSHALLINGERROR)
        else if decide (error ≠ -1) then throw (KEEPER_EXCEPTION ZMARSHALLINGERROR)
        else mret []
      else if factory_registered op then
        wb ← rd op;
        eof ← rb_eof;
        if (eof : bool) then throw (KEEPER_EXCEPTION ZMARSHALLINGERROR)
        else rest ← multi_readLoop rd n; mret (mkRequest 0 wb.1 wb.2 :: rest)
      else throw (KEEPER_EXCEPTION ZBADARGUMENTS)
  end.

(** [readImpl] of the class the factory makes for [op]: the [has_watch] flag
    and the body. *)
Fixpoint request_readImpl (fuel : nat) (op : OpNum) : reader (bool * RequestBody) :=
  match fuel with
  | O => crash
  | S fuel =>
      match op with
      | Op_Heartbeat => mret (false, HeartbeatRequest)
      | Op_Close => mret (false, CloseRequest)
      | Op_SetWatches =>
          rz ← read_i64; dw ← read_vec read_string; ew ← read_vec read_string;
          lw ← read_vec read_string; mret (false, SetWatchesRequest rz dw ew lw)
      | Op_Sync => p ← read_string; mret (false, SyncRequest p)
      | Op_Auth =>
          ty ← read_i32; scheme ← read_string; data ← read_string;
          mret (false, AuthRequest ty scheme data)
      | Op_Create =>
          p ← read_string; data ← read_string; acls ← read_vec read_ACL;
          flags ← read_i32;
          mret (false, CreateRequest p data (negb (Z.land flags 1 =? 0))
                         (negb (Z.land flags 2 =? 0)) acls)
      | Op_Remove => p ← read_string; v ← read_i32; mret (false, RemoveRequest p v)
      | Op_Exists => p ← read_string; w ← read_bool; mret (w, ExistsRequest p)
      | Op_Get => p ← read_string; w ← read_bool; mret (w, GetRequest p)
      | Op_List => p ← read_string; w ← read_bool; mret (w, ListRequest p)
      | Op_SimpleList => p ← read_string; w ← read_bool; mret (w, SimpleListRequest p)
      | Op_Set =>
          p ← read_string; data ← read_string; v ← read_i32;
          mret (false, SetRequest p data v)
      | Op_Check => p ← read_string; v ← read_i32; mret (false, CheckRequest p v)
      | Op_SetACL =>
          p ← read_string; acls ← read_vec read_ACL; v ← read_i32;
          mret (false, SetACLRequest p acls v)
      | Op_GetACL => p ← read_string; mret (false, GetACLRequest p)
      | Op_Multi =>
          rs ← multi_readLoop (request_readImpl fuel) fuel; mret (false, MultiRequest rs)
      | Op_SessionID =>
          i ← read_i64; t ← read_i64; s ← read_i32; mret (false, SessionIDRequest i t s)
      | Op_SetSeqNum => p ← read_string; n ← read_i32; mret (false, SetSeqNumRequest p n)
      | Op_Error => throw (KEEPER_EXCEPTION ZBADARGUMENTS)
      end
  end.

(** [ZooKeeperRequest::read] on a packet whose length was already read. *)
Definition request_read : reader ZooKeeperRequest := λ b,
  (xid ← read_i32; op ← read_OpNum;
   if factory_registered op then
     wb ← request_readImpl (S (length b)) op;
     mret (mkRequest xid wb.1 wb.2)
   else throw (KEEPER_EXCEPTION ZBADARGUMENTS)) b.

(** ** Responses *)

(** The body of an error response repeats the error of its header. *)
Definition error_writeImpl (e : Error) : bytes := write_Error e.

(** The loop of [ZooKeeperMultiResponse::writeImpl]; [wr] writes one response. *)
Definition multi_responses_write (wr : ZooKeeperResponse → outcome exn bytes)
    : list ZooKeeperResponse → outcome exn bytes :=
  fix go rs :=
    match rs with
    | [] => Ret multi_footer
    | r :: rs =>
        match resp_getOpNum r with
        | Ret op =>
            let hdr := multi_header op false (error_code (resp_error r)) in
            let payload :=
              if bool_decide (resp_error r = ZOK) || bool_decide (op = Op_Error)
              then wr r else Ret [] in
            match payload with
            | Ret p =>
                match go rs with
                | Ret rest => Ret (hdr ++ p ++ rest)
                | o => o
                end
            | o => o
            end
        | Throw e => Throw e
        | Crash => Crash
        end
    end.

Fixpoint response_writeImpl (r : ZooKeeperResponse) : outcome exn bytes :=
  let '(mkResponse _ _ err _ b) := r in
  match b with
  | HeartbeatResponse | SetWatchesResponse | AuthResponse | CloseResponse
  | RemoveResponse | CheckResponse | SetSeqNumResponse => Ret []
  | SyncResponse p => Ret (write_string p)
  | WatchResponse ty st p => Ret (write_i32 ty ++ write_i32 st ++ write_string p)
  | CreateResponse p => Ret (write_string p)
  | ExistsResponse st | SetResponse st | SetACLResponse st => Ret (write_Stat st)
  | GetResponse data st => Ret (write_string data ++ write_Stat st)
  | ListResponse names st => Ret (write_vec write_string names ++ write_Stat st)
  | GetACLResponse acl st => Ret (write_vec write_ACL acl ++ write_Stat st)
  | SessionIDResponse i s sv => Ret (write_i64 i ++ write_i64 s ++ write_i32 sv)
  | ErrorResponse => Ret (error_writeImpl err)
  | MultiResponse rs =>
      multi_responses_write response_writeImpl rs
  end.

(** [ZooKeeperResponse::write]: the body follows only without an error;
    [ZooKeeperWatchResponse::write] sends nothing at all on an error. *)
Definition response_packet (r : ZooKeeperResponse) : outcome exn bytes :=
  let hdr := write_i32 (resp_xid r) ++ write_i64 (resp_zxid r) ++ write_Error (resp_error r) in
  if bool_decide (resp_error r = ZOK) then
    match response_writeImpl r with
    | Ret p => Ret (hdr ++ p)
    | o => o
    end
  else Ret hdr.

Definition is_watch_response (r : ZooKeeperResponse) : bool :=
  match resp_body r with WatchResponse _ _ _ => true | _ => false end.

Definition response_write (r : ZooKeeperResponse) : outcome exn bytes :=
  if is_watch_response r && negb (bool_decide (resp_error r = ZOK)) then Ret []
  else
    match response_packet r with
    | Ret p => Ret (write_i32 (s32 (Z.of_nat (length p))) ++ p)
    | o => o
    end.

(** [ZooKeeperErrorResponse::readImpl] on a response whose header said [err]. *)
Definition error_readImpl (r : ZooKeeperResponse) : reader ZooKeeperResponse :=
  read_error ← read_Error;
  if decide (read_error ≠ resp_error r) then throw (KEEPER_EXCEPTION ZMARSHALLINGERROR)
  else mret r.

(** The loop of [ZooKeeperMultiResponse::readImpl] and its footer: the error of
    the transaction and the responses; [rd] reads into one response object. *)
Definition multi_responses_read (rd : ZooKeeperResponse → reader ZooKeeperResponse)
    : Error → list ZooKeeperResponse → reader (Error * list ZooKeeperResponse) :=
  fix go err rs :=
    match rs with
    | [] =>
        op ← read_OpNum; fin ← read_bool; error_read ← read_i32;
        if negb fin then throw (KEEPER_EXCEPTION ZMARSHALLINGERROR)
        else if decide (op ≠ Op_Error) then throw (KEEPER_EXCEPTION ZMARSHALLINGERROR)
        else if decide (error_read ≠ -1) then throw (KEEPER_EXCEPTION ZMARSHALLINGERROR)
        else mret (err, [])
    | r :: rs =>
        op ← read_OpNum; fin ← read_bool; op_error ← read_Error;
        if (fin : bool) then throw (KEEPER_EXCEPTION ZMARSHALLINGERROR)
        else
          let err' :=
            if bool_decide (op_error ≠ ZOK) && bool_decide (err = ZOK)
               && bool_decide (op_error ≠ ZRUNTIMEINCONSISTENCY)
            then op_error else err in
          r' ← (if decide (op = Op_Error) then
                  error_readImpl (set_error op_error (new_response ErrorResponse))
                else if decide (op_error = ZOK) then rd r
                else mret (set_error op_error r));
          out ← go err' rs;
          mret (out.1, r' :: out.2)
    end.

(** [readImpl] fills the response object its request made. *)
Fixpoint response_readImpl (r : ZooKeeperResponse) : reader ZooKeeperResponse :=
  let '(mkResponse x z err t b) := r in
  match b with
  | HeartbeatResponse | SetWatchesResponse | AuthResponse | RemoveResponse
  | CheckResponse | SetSeqNumResponse => mret r
  | CloseResponse => throw (KEEPER_EXCEPTION ZRUNTIMEINCONSISTENCY)
  | SyncResponse _ => p ← read_string; mret (mkResponse x z err t (SyncResponse p))
  | WatchResponse _ _ _ =>
      ty ← read_i32; st ← read_i32; p ← read_string;
      mret (mkResponse x z err t (WatchResponse ty st p))
  | CreateResponse _ => p ← read_string; mret (mkResponse x z err t (CreateResponse p))
  | ExistsResponse _ => st ← read_Stat; mret (mkResponse x z err t (ExistsResponse st))
  | SetResponse _ => st ← read_Stat; mret (mkResponse x z err t (SetResponse st))
  | SetACLResponse _ => st ← read_Stat; mret (mkResponse x z err t (SetACLResponse st))
  | GetResponse _ _ =>
      data ← read_string; st ← read_Stat; mret (mkResponse x z err t (GetResponse data st))
  | ListResponse _ _ =>
      names ← read_vec read_string; st ← read_Stat;
      mret (mkResponse x z err t (ListResponse names st))
  | GetACLResponse _ _ =>
      acl ← read_vec read_ACL; st ← read_Stat;
      mret (mkResponse x z err t (GetACLResponse acl st))
  | SessionIDResponse _ _ _ =>
      i ← read_i64; s ← read_i64; sv ← read_i32;
      mret (mkResponse x z err t (SessionIDResponse i s sv))
  | ErrorResponse => error_readImpl r
  | MultiResponse rs =>
      out ← multi_responses_read response_readImpl err rs;
      mret (mkResponse x z out.1 t (MultiResponse out.2))
  end.

(** ** What the wire carries

    The transaction id of an operation inside a multi request and the watch
    flag of a request without one are not on the wire. *)

Definition has_watch_field (b : RequestBody) : bool :=
  match b with
  | ExistsRequest _ | GetRequest _ | ListRequest _ | SimpleListRequest _ => true
  | _ => false
  end.

Fixpoint request_ok (r : ZooKeeperRequest) : Prop :=
  let '(mkRequest xid w b) := r in
  in_s 32 xid ∧ (has_watch_field b = false → w = false)
  ∧ match b with
    | HeartbeatRequest | CloseRequest => True
    | SetWatchesRequest rz dw ew lw =>
        in_s 64 rz ∧ vec_ok string_ok dw ∧ vec_ok string_ok ew ∧ vec_ok string_ok lw
    | SyncRequest p | GetACLRequest p | ExistsRequest p | GetRequest p | ListRequest p
    | SimpleListRequest p => string_ok p
    | AuthRequest ty scheme data => in_s 32 ty ∧ string_ok scheme ∧ string_ok data
    | CreateRequest p data _ _ acls => string_ok p ∧ string_ok data ∧ vec_ok ACL_ok acls
    | RemoveRequest p v | CheckRequest p v | SetSeqNumRequest p v =>
        string_ok p ∧ in_s 32 v
    | SetRequest p data v => string_ok p ∧ string_ok data ∧ in_s 32 v
    | SetACLRequest p acls v => string_ok p ∧ vec_ok ACL_ok acls ∧ in_s 32 v
    | MultiRequest rs => foldr (λ r' P, (req_xid r' = 0 ∧ request_ok r') ∧ P) True rs
    | SessionIDRequest i t s => in_s 64 i ∧ in_s 64 t ∧ in_s 32 s
    end.

(** ** Reading consumes bytes *)

(** [shrinks k r]: [r] leaves at most the bytes it found, and [k] fewer when it
    returns; it never has undefined behaviour on a buffer of at most [n] bytes. *)
Definition shrinks {A} (k n : nat) (r : reader A) : Prop :=
  ∀ b, (length b ≤ n)%nat →
    match r b with
    | (b', Ret _) => (length b' + k ≤ length b)%nat
    | (b', Throw _) => True
    | (_, Crash) => False
    end.

Lemma shrinks_mret {A} n (a : A) : shrinks 0 n (mret a).
Proof. intros b Hb. simpl. lia. Qed.

Lemma shrinks_throw {A} k n e : shrinks (A := A) k n (throw e).
Proof. by intros b Hb. Qed.

Lemma shrinks_weaken {A} k k' n (r : reader A) :
  (k' ≤ k)%nat → shrinks k n r → shrinks k' n r.
Proof.
  intros Hk Hr b Hb. specialize (Hr b Hb). destruct (r b) as [b' [a|e|]]; [lia|done|done].
Qed.

Lemma shrinks_bind {A B} j k n (r : reader A) (f : A → reader B) :
  shrinks j n r → ((j ≤ n)%nat → ∀ a, shrinks k (n - j) (f a)) →
  shrinks (j + k) n (r ≫= f).
Proof.
  intros Hr Hf b Hb. specialize (Hr b Hb). unfold mbind, ST_bind.
  destruct (r b) as [b' [a|e|]]; [|done|done].
  assert (length b' ≤ n - j)%nat as H by lia.
  specialize (Hf ltac:(lia) a b' H). destruct (f a b') as [b'' [c|e|]]; [lia|done|done].
Qed.

Lemma shrinks_bind0 {A B} k n (r : reader A) (f : A → reader B) :
  shrinks k n r → (∀ a, shrinks 0 n (f a)) → shrinks k n (r ≫= f).
Proof.
  intros Hr Hf. replace k with (k + 0)%nat by lia. apply shrinks_bind; [done|].
  intros _ a b Hb. apply Hf. lia.
Qed.

Lemma shrinks_if {A} (c : bool) k n (r1 r2 : reader A) :
  shrinks k n r1 → shrinks k n r2 → shrinks k n (if c then r1 else r2).
Proof. by destruct c. Qed.

Lemma shrinks_decide {A} (P : Prop) `{Decision P} k n (r1 r2 : reader A) :
  shrinks k n r1 → shrinks k n r2 → shrinks k n (if decide P then r1 else r2).
Proof. by destruct (decide P). Qed.

Lemma shrinks_Strict k n : shrinks k n (rb_readStrict k).
Proof.
  intros b Hb. unfold rb_readStrict. case_decide as E; [|done].
  rewrite length_take in E. rewrite length_drop. lia.
Qed.

Lemma shrinks_sint k n : shrinks k n (read_sint k).
Proof.
  apply shrinks_bind0; [|intros; apply shrinks_mret].
  apply shrinks_bind0; [apply shrinks_Strict|intros; apply shrinks_mret].
Qed.

Lemma shrinks_bool n : shrinks 1 n read_bool.
Proof. apply shrinks_bind0; [apply shrinks_Strict|intros; apply shrinks_mret]. Qed.

Lemma shrinks_OpNum n : shrinks 4 n read_OpNum.
Proof.
  apply shrinks_bind0; [apply shrinks_sint|]. intros z b Hb. unfold lift, getOpNum_raw.
  destruct (filter _ _); simpl; [done|lia].
Qed.

Lemma shrinks_read k n : shrinks 0 n (rb_read k).
Proof. intros b Hb. unfold rb_read. rewrite length_drop. lia. Qed.

Create HintDb shrink.
#[export] Hint Resolve shrinks_mret shrinks_throw shrinks_Strict shrinks_sint shrinks_bool
  shrinks_OpNum shrinks_read shrinks_if shrinks_decide : shrink.

Lemma shrinks_string n : shrinks 4 n read_string.
Proof.
  apply shrinks_bind0; [apply shrinks_sint|]. intros z.
  repeat apply shrinks_if; auto with shrink.
  apply shrinks_bind0; auto with shrink.
Qed.

Lemma shrinks_read_n {A} (r : reader A) k n : shrinks 0 n r → shrinks 0 n (read_n r k).
Proof.
  intros Hr. induction k as [|k IH]; simpl; [auto with shrink|].
  repeat (apply shrinks_bind0; [done|intros]). auto with shrink.
Qed.

Lemma shrinks_vec {A} (r : reader A) n : shrinks 0 n r → shrinks 4 n (read_vec r).
Proof.
  intros Hr. apply shrinks_bind0; [apply shrinks_sint|]. intros z.
  repeat apply shrinks_if; auto with shrink. by apply shrinks_read_n.
Qed.

#[export] Hint Resolve shrinks_string : shrink.

(** Any reader of the file is also a reader that need not consume. *)
Lemma shrinks_0 {A} k n (r : reader A) : shrinks k n r → shrinks 0 n r.
Proof. apply shrinks_weaken. lia. Qed.

Lemma shrinks_ACL n : shrinks 0 n read_ACL.
Proof.
  repeat (apply shrinks_bind0; [eapply shrinks_0; auto with shrink; apply shrinks_sint|intros]).
  auto with shrink.
Qed.

(** Walk a straight-line [readImpl] field by field. *)
Ltac solve_shrinks :=
  repeat first
    [ apply shrinks_mret
    | apply shrinks_throw
    | apply shrinks_bind0;
        [ solve [ apply (shrinks_0 4), shrinks_string | apply (shrinks_0 4), shrinks_sint
                | apply (shrinks_0 8), shrinks_sint | apply (shrinks_0 1), shrinks_bool
                | apply (shrinks_0 4), shrinks_vec, (shrinks_0 4), shrinks_string
                | apply (shrinks_0 4), shrinks_vec, shrinks_ACL ]
        | intros ? ] ].

Lemma shrinks_multi rd m n :
  (m < n)%nat → (∀ op m', (m' + 9 ≤ m)%nat → shrinks 0 m' (rd op)) →
  shrinks 0 m (multi_readLoop rd n).
Proof.
  revert m. induction n as [|n IH]; intros m Hm Hrd; [lia|]. simpl.
  apply (shrinks_weaken (4 + (1 + (4 + 0)))); [lia|].
  apply shrinks_bind; [apply shrinks_OpNum|]. intros H4 op.
  apply shrinks_bind; [apply shrinks_bool|]. intros H5 fin.
  apply shrinks_bind; [apply shrinks_sint|]. intros H9 error.
  apply shrinks_if; [auto with shrink|]. apply shrinks_if; [|auto with shrink].
  apply shrinks_bind0; [apply Hrd; lia|]. intros wb.
  apply shrinks_bind0; [by intros b Hb; simpl; lia|]. intros eof.
  apply shrinks_if; [auto with shrink|].
  apply shrinks_bind0; [|auto with shrink]. apply IH; [lia|]. intros. apply Hrd. lia.
Qed.

Lemma shrinks_readImpl fuel op n :
  (n + 1 < fuel)%nat → shrinks 0 n (request_readImpl fuel op).
Proof.
  revert op n. induction fuel as [|fuel IH]; intros op n Hn; [lia|].
  destruct op; simpl; try solve [solve_shrinks].
  apply shrinks_bind0; [|auto with shrink]. apply shrinks_multi; [lia|].
  intros op m Hm. apply IH. lia.
Qed.

Lemma request_read_shrinks b :
  match request_read b with (_, Crash) => False | _ => True end.
Proof.
  unfold request_read.
  assert (shrinks (4 + (4 + 0)) (length b)
    (xid ← read_i32; op ← read_OpNum;
     if factory_registered op then
       wb ← request_readImpl (S (length b)) op; mret (mkRequest xid wb.1 wb.2)
     else throw (KEEPER_EXCEPTION ZBADARGUMENTS))) as H.
  { apply shrinks_bind; [apply shrinks_sint|]. intros H4 xid.
    apply shrinks_bind; [apply shrinks_OpNum|]. intros H8 op.
    apply shrinks_if; [|auto with shrink].
    apply shrinks_bind0; [|auto with shrink]. apply shrinks_readImpl. lia. }
  specialize (H b (Nat.le_refl _)). case_match. by case_match.
Qed.

(** ** Reading what was written *)

Lemma length_write_int n x : length (write_int n x) = n.
Proof. apply length_le_split. Qed.

Lemma length_multi_header op fin error : length (multi_header op fin error) = 9%nat.
Proof.
  unfold multi_header, write_OpNum, write_i32, write_bool.
  by rewrite !length_app, !length_write_int, length_le_split.
Qed.

Definition multi_element (r : ZooKeeperRequest) : bytes :=
  multi_header (getOpNum r) false (-1) ++ request_writeImpl r.

Lemma minus_one_range : in_s 32 (-1).
Proof. by vm_compute. Qed.

(** Read back the three fields of an operation header. *)
Ltac read_header :=
  unfold multi_header; rewrite <-?app_assoc;
  do 3 (eapply reads_bind; [solve [eauto using minus_one_range with wire]|]).

Lemma getOpNum_registered r : factory_registered (getOpNum r) = true.
Proof. by destruct r as [x w []]. Qed.

(** The loop reads a list of operations and the footer. *)
Lemma reads_multi rd n rs :
  (length rs < n)%nat →
  Forall (λ r, req_xid r = 0 ∧
    reads (rd (getOpNum r)) (request_writeImpl r) (req_has_watch r, req_body r)) rs →
  reads (multi_readLoop rd n) (concat (map multi_element rs) ++ multi_footer) rs.
Proof.
  revert n. induction rs as [|r rs IH]; intros [|n] Hn Hrs; simpl in Hn; try lia;
    cbn [multi_readLoop map concat].
  - rewrite app_nil_l, <-(app_nil_r multi_footer). unfold multi_footer.
    read_header. apply reads_mret.
  - apply Forall_cons_1 in Hrs as [[Hx Hr] Hrs]. unfold multi_element at 1.
    read_header.
    rewrite getOpNum_registered. eapply reads_bind; [done|].
    intros rest. unfold mbind at 1, ST_bind at 1, rb_eof.
    rewrite bool_decide_eq_false_2.
    2:{ intros E. apply (f_equal length) in E. unfold multi_footer in E.
        rewrite !length_app, length_multi_header in E. simpl in E. lia. }
    rewrite (bind_Ret _ _ _ _ _ (IH n ltac:(lia) Hrs rest)).
    destruct r as [x w b]. simpl in *. by subst x.
Qed.

(** The operations of a multi request are shorter than the request. *)
Lemma multi_element_length r rs :
  r ∈ rs → (length (request_writeImpl r) + 9 ≤ length (concat (map multi_element rs)))%nat.
Proof.
  induction 1 as [r rs|r r' rs _ IH]; cbn [map concat]; rewrite length_app.
  - unfold multi_element. rewrite length_app, length_multi_header. lia.
  - lia.
Qed.

Lemma multi_length rs : (9 * length rs ≤ length (concat (map multi_element rs)))%nat.
Proof.
  induction rs as [|r rs IH]; cbn [map concat length]; [lia|].
  rewrite length_app. unfold multi_element at 1.
  rewrite length_app, length_multi_header. lia.
Qed.

Lemma request_ok_multi rs :
  foldr (λ r' P, (req_xid r' = 0 ∧ request_ok r') ∧ P) True rs →
  Forall (λ r, req_xid r = 0 ∧ request_ok r) rs.
Proof. induction rs; simpl; [constructor|]. intros [??]. constructor; auto. Qed.

Lemma create_flags_bits eph seq :
  negb (Z.land (create_flags eph seq) 1 =? 0) = eph
  ∧ negb (Z.land (create_flags eph seq) 2 =? 0) = seq ∧ in_s 32 (create_flags eph seq).
Proof. destruct eph, seq; by vm_compute. Qed.

Lemma reads_create p data eph seq acls :
  string_ok p → string_ok data → vec_ok ACL_ok acls →
  reads (p ← read_string; data ← read_string; acls ← read_vec read_ACL; flags ← read_i32;
         mret (false, CreateRequest p data (negb (Z.land flags 1 =? 0))
                        (negb (Z.land flags 2 =? 0)) acls))
    (write_string p ++ write_string data ++ write_vec write_ACL acls
     ++ write_i32 (create_flags eph seq))
    (false, CreateRequest p data eph seq acls).
Proof.
  intros Hp Hd Ha. destruct (create_flags_bits eph seq) as (E1 & E2 & Hr).
  do 3 (eapply reads_bind; [solve [eauto with wire]|]).
  set (f := λ flags, (false, CreateRequest p data (negb (Z.land flags 1 =? 0))
                        (negb (Z.land flags 2 =? 0)) acls)).
  replace (false, CreateRequest p data eph seq acls) with (f (create_flags eph seq)).
  - by apply (reads_last _ f), reads_i32.
  - unfold f. by rewrite E1, E2.
Qed.

Lemma reads_readImpl fuel r :
  request_ok r → (length (request_writeImpl r) + 1 < fuel)%nat →
  reads (request_readImpl fuel (getOpNum r)) (request_writeImpl r)
    (req_has_watch r, req_body r).
Proof.
  revert r. induction fuel as [|fuel IH]; [lia|].
  intros [xid w b] (Hx & Hw & Hb) Hlen.
  destruct b; simpl in Hw; try (specialize (Hw eq_refl); subst w);
    cbn [request_ok request_writeImpl request_readImpl getOpNum req_body req_has_watch
         body_getOpNum] in *; destruct_and?;
    try solve [solve_reads].
  - by apply reads_create.
  - change (map _ requests) with (map multi_element requests) in *.
    rewrite length_app in Hlen. pose proof (multi_length requests).
    apply (reads_last _ (λ rs, (false, MultiRequest rs))), reads_multi; [lia|].
    apply request_ok_multi in Hb. rewrite Forall_forall in *. intros r Hr.
    destruct (Hb r Hr) as [? ?]. split; [done|]. apply IH; [done|].
    apply list_elem_of_In, multi_element_length in Hr. lia.
Qed.

(** Reading a packet after writing it. *)
Lemma request_read_write r rest :
  request_ok r → request_read (request_packet r ++ rest) = (rest, Ret r).
Proof.
  intros Hok. unfold request_read.
  assert (in_s 32 (req_xid r)) as Hx by (destruct r; apply Hok).
  unfold request_packet at 2. rewrite <-!app_assoc.
  rewrite (bind_Ret _ _ _ _ _ (reads_i32 _ Hx _)).
  rewrite (bind_Ret _ _ _ _ _ (reads_OpNum _ _)).
  rewrite getOpNum_registered.
  erewrite bind_Ret; [|apply reads_readImpl; [done|]].
  - by destruct r.
  - unfold request_packet, write_OpNum, write_i32.
    rewrite !length_app, !length_write_int. lia.
Qed.

(** ** Responses read back *)

Definition with_body (r : ZooKeeperResponse) (b : ResponseBody) : ZooKeeperResponse :=
  let '(mkResponse x z e t _) := r in mkResponse x z e t b.

(** The bodies without sub-responses that a client reads. *)
Definition body_ok (b : ResponseBody) : Prop :=
  match b with
  | HeartbeatResponse | SetWatchesResponse | AuthResponse | RemoveResponse
  | CheckResponse | SetSeqNumResponse => True
  | SyncResponse p | CreateResponse p => string_ok p
  | WatchResponse ty st p => in_s 32 ty ∧ in_s 32 st ∧ string_ok p
  | ExistsResponse st | SetResponse st | SetACLResponse st => Stat_ok st
  | GetResponse data st => string_ok data ∧ Stat_ok st
  | ListResponse names st => vec_ok string_ok names ∧ Stat_ok st
  | GetACLResponse acl st => vec_ok ACL_ok acl ∧ Stat_ok st
  | SessionIDResponse i s sv => in_s 64 i ∧ in_s 64 s ∧ in_s 32 sv
  | CloseResponse | MultiResponse _ | ErrorResponse => False
  end.

(** The operation of a response fixes its class. *)
Lemma reads_response t r :
  resp_getOpNum t = resp_getOpNum r → body_ok (resp_body r) →
  ∃ p, response_writeImpl r = Ret p
       ∧ reads (response_readImpl t) p (with_body t (resp_body r)).
Proof.
  destruct t as [xt zt et tt bt], r as [x z e t b].
  unfold resp_getOpNum; cbn [resp_body]. intros Hop Hok. destruct b, bt; try discriminate; try done; simpl in Hok; destruct_and?;
    (eexists; split; [reflexivity|]);
    cbn [response_readImpl with_body resp_body]; solve_reads.
Qed.

(** One element of a multi response on the wire, the object the client made for
    it, and what the client ends with. *)
Inductive element_read : ZooKeeperResponse → ZooKeeperResponse → ZooKeeperResponse → Prop :=
| element_ok t r op :
    resp_getOpNum t = Ret op → resp_getOpNum r = Ret op → body_ok (resp_body r) →
    resp_error r = ZOK → element_read t r (with_body t (resp_body r))
| element_error t x z e tm :
    error_wf e →
    element_read t (mkResponse x z e tm ErrorResponse)
      (set_error e (new_response ErrorResponse)).

(** The error of the whole transaction as the client computes it. *)
Definition multi_error (err : Error) (rs : list ZooKeeperResponse) : Error :=
  foldl (λ err r,
    if bool_decide (resp_error r ≠ ZOK) && bool_decide (err = ZOK)
       && bool_decide (resp_error r ≠ ZRUNTIMEINCONSISTENCY)
    then resp_error r else err) err rs.

Lemma body_ok_not_error r op :
  resp_getOpNum r = Ret op → body_ok (resp_body r) → op ≠ Op_Error.
Proof. destruct r as [x z e t []]; unfold resp_getOpNum; simpl; intros; simplify_eq; done. Qed.

Lemma element_read_reads t r o :
  element_read t r o →
  ∃ op p, resp_getOpNum r = Ret op ∧ error_wf (resp_error r)
    ∧ (if bool_decide (resp_error r = ZOK) || bool_decide (op = Op_Error)
       then response_writeImpl r else Ret []) = Ret p
    ∧ reads (if decide (op = Op_Error) then
               error_readImpl (set_error (resp_error r) (new_response ErrorResponse))
             else if decide (resp_error r = ZOK) then response_readImpl t
             else mret (set_error (resp_error r) t)) p o.
Proof.
  intros [t' r' op Ht Hr Hok He|t' x z e tm He].
  - destruct (reads_response t' r') as (p & Hp & Hrd); [congruence|done|].
    exists op, p. rewrite He, Hp. split_and!; [done|done|done|].
    rewrite decide_False by eauto using body_ok_not_error. by rewrite decide_True.
  - exists Op_Error, (write_Error e). split_and!; [done|done| |].
    + by rewrite (bool_decide_eq_true_2 (Op_Error = Op_Error)), orb_true_r.
    + rewrite decide_True by done. intros rest. unfold error_readImpl.
      rewrite (bind_Ret _ _ _ _ _ (reads_Error _ He rest)). by rewrite decide_False by auto.
Qed.

Lemma reads_multi_responses ts rs outs :
  Forall3 element_read ts rs outs → ∀ err,
  ∃ p, multi_responses_write response_writeImpl rs = Ret p
    ∧ reads (multi_responses_read response_readImpl err ts) p (multi_error err rs, outs).
Proof.
  induction 1 as [|t r o ts rs outs Hel Hall IH]; intros err.
  - exists multi_footer. split; [reflexivity|]. cbn [multi_responses_read].
    rewrite <-(app_nil_r multi_footer). unfold multi_footer.
    read_header. apply reads_mret.
  - destruct (element_read_reads _ _ _ Hel) as (op & p & Hop & He & Hp & Hrd).
    edestruct IH as (q & Hq & Hrds). eexists.
    cbn [multi_responses_write multi_responses_read]. rewrite Hop, Hp, Hq.
    split; [reflexivity|].
    change (write_i32 (error_code (resp_error r))) with (write_Error (resp_error r)).
    unfold multi_header. rewrite <-?app_assoc.
    do 3 (eapply reads_bind; [solve [eauto with wire]|]).
    eapply reads_bind; [exact Hrd|].
    exact (reads_last _ (λ out, (out.1, o :: out.2)) _ (_, outs) Hrds).
Qed.

(** ** Properties *)

(** C22: a packet written by [ZooKeeperRequest::write], read back by
    [ZooKeeperRequest::read], gives the request again and consumes exactly the
    bytes of the packet, whatever follows it; for every operation, multi
    requests included, whose fields fit their widths and whose strings are
    within the size limit. *)
Theorem request_roundtrip r rest :
  request_ok r → request_read (request_packet r ++ rest) = (rest, Ret r).
Proof. apply request_read_write. Qed.

Lemma request_roundtrip_witness :
  let r := mkRequest 5 false (MultiRequest
    [mkRequest 0 false (CreateRequest "/a" "x" true true [mkACL 31 "world" "anyone"]);
     mkRequest 0 false (CheckRequest "/b" 3)]) in
  request_read (request_packet r ++ []) = ([], Ret r).
Proof.
  apply (request_roundtrip (mkRequest 5 false (MultiRequest
    [mkRequest 0 false (CreateRequest "/a" "x" true true [mkACL 31 "world" "anyone"]);
     mkRequest 0 false (CheckRequest "/b" 3)])) []).
  cbn [request_ok foldr req_xid]. unfold vec_ok, ACL_ok, string_ok, in_s.
  repeat match goal with |- _ ∧ _ => split | |- Forall _ _ => constructor end; try done.
Defined.

(** C32: reading a request never runs past the buffer and always ends, whatever
    bytes a client sends: it returns a request or throws. *)
Theorem request_read_total b : (request_read b).2 ≠ Crash.
Proof. pose proof (request_read_shrinks b) as H. by destruct (request_read b) as [b' [a|e|]]. Qed.

(** C33: the responses to the operations of a multi, written one after the other
    and read by a client that expects these operations, arrive as they were sent:
    a successful answer with its contents, a failed one as its error, and the
    error of the whole is the first that is not the filler error. *)
Theorem multi_response_roundtrip ts rs outs err rest :
  Forall3 element_read ts rs outs →
  ∃ p, multi_responses_write response_writeImpl rs = Ret p ∧
    multi_responses_read response_readImpl err ts (p ++ rest) = (rest, Ret (multi_error err rs, outs)).
Proof.
  intros H. destruct (reads_multi_responses ts rs outs H err) as (p & Hp & Hr). exists p. split; [done|].
  apply Hr.
Qed.

Lemma multi_response_roundtrip_witness :
  let ok := new_response (CreateResponse "/a") in
  let bad := set_error ZNONODE (new_response ErrorResponse) in
  ∃ p, multi_responses_write response_writeImpl [ok; bad] = Ret p ∧
    multi_responses_read response_readImpl ZOK [new_response (CreateResponse "/x"); new_response RemoveResponse]
      (p ++ []) = ([], Ret (multi_error ZOK [ok; bad], [ok; bad])).
Proof.
  apply (multi_response_roundtrip
    [new_response (CreateResponse "/x"); new_response RemoveResponse]
    [new_response (CreateResponse "/a"); set_error ZNONODE (new_response ErrorResponse)]).
  constructor; [|constructor; [|constructor]].
  - apply (element_ok (new_response (CreateResponse "/x")) (new_response (CreateResponse "/a")) Op_Create);
      [done|done|unfold body_ok, string_ok; cbn; done|done].
  - by apply (element_error (new_response RemoveResponse) 0 0 ZNONODE 0).
Defined.
