(* ===== verification/ACLMap.v ===== *)
(** * ACL numbering: src/Service/ACLMap.{h,cpp}

    The map between access-control lists and small numbers, with a usage
    counter per number. The mutex of the class serializes its methods; each is
    a function on the four tables.

    Theorems: the two directions stay inverse to each other under every method,
    a number handed out converts back to the list it stands for, numbers are
    reused while in use and never handed out twice, and a list is dropped
    exactly when its last usage is. *)

From S2P Require Import Prelude Types.
From stdpp Require Import base gmap sets list strings option.
From Stdlib Require Import ZArith Lia Ascii.
Open Scope Z_scope.

Record ACLMap : Type := mkACLMap {
  acl_to_num : gmap ACLs Z;
  num_to_acl : gmap Z ACLs;
  usage_counter : gmap Z Z;
  max_acl_id : Z
}.

Definition ACLMap_empty : ACLMap := mkACLMap ∅ ∅ ∅ 1.

(** The list that number 0 stands for. *)
Definition default_acls : ACLs := [mkACL ACL_All "world" "anyone"].

(** [ACLsComparator], the key equality of [acl_to_num]. *)
Fixpoint ACLsComparator (lhs rhs : ACLs) : bool :=
  match lhs, rhs with
  | [], [] => true
  | l :: lhs, r :: rhs =>
      if negb (acl_permissions l =? acl_permissions r) then false
      else if negb (bool_decide (acl_scheme l = acl_scheme r)) then false
      else if negb (bool_decide (acl_aid l = acl_aid r)) then false
      else ACLsComparator lhs rhs
  | _, _ => false
  end.

Definition convertACLs (acls : ACLs) (m : ACLMap) : ACLMap * Z :=
  if bool_decide (acls = []) || bool_decide (acls = default_acls) then (m, 0)
  else
    match acl_to_num m !! acls with
    | Some n => (m, n)
    | None =>
        let index := max_acl_id m in
        (mkACLMap (<[acls := index]> (acl_to_num m)) (<[index := acls]> (num_to_acl m))
           (usage_counter m) (u64 (index + 1)), index)
    end.

Definition convertNumber (acls_id : Z) (m : ACLMap) : outcome exn ACLs :=
  if acls_id =? 0 then Ret default_acls
  else
    match num_to_acl m !! acls_id with
    | None => Throw LOGICAL_ERROR
    | Some acls => Ret acls
    end.

Definition addMapping (acls_id : Z) (acls : ACLs) (m : ACLMap) : ACLMap :=
  mkACLMap (<[acls := acls_id]> (acl_to_num m)) (<[acls_id := acls]> (num_to_acl m))
    (usage_counter m) (Z.max (u64 (acls_id + 1)) (max_acl_id m)).

Definition addUsage (acl_id count : Z) (m : ACLMap) : ACLMap :=
  if acl_id =? 0 then m
  else
    mkACLMap (acl_to_num m) (num_to_acl m)
      (<[acl_id := u64 (default 0 (usage_counter m !! acl_id) + count)]> (usage_counter m))
      (max_acl_id m).

(** [num_to_acl[acl_id]] of a missing number is an empty list. *)
Definition removeUsage (acl_id : Z) (m : ACLMap) : ACLMap :=
  match usage_counter m !! acl_id with
  | None => m
  | Some c =>
      if u64 (c - 1) =? 0 then
        let acls := default [] (num_to_acl m !! acl_id) in
        mkACLMap (delete acls (acl_to_num m)) (delete acl_id (num_to_acl m))
          (delete acl_id (usage_counter m)) (max_acl_id m)
      else
        mkACLMap (acl_to_num m) (num_to_acl m)
          (<[acl_id := u64 (c - 1)]> (usage_counter m)) (max_acl_id m)
  end.

(** [mapEquals] and [operator==]. *)
Definition mapEquals {K V} `{Countable K} `{EqDecision V} (l r : gmap K V) : bool :=
  if negb (bool_decide (size l = size r)) then false
  else forallb (λ '(k, v), bool_decide (r !! k = Some v)) (map_to_list l).

Definition ACLMap_eqb (l r : ACLMap) : bool :=
  mapEquals (acl_to_num l) (acl_to_num r)
  && (mapEquals (num_to_acl l) (num_to_acl r)
      && mapEquals (usage_counter l) (usage_counter r)
      && (max_acl_id l =? max_acl_id r)).

(** ** The invariant *)

Record ACLMap_wf (m : ACLMap) : Prop := {
  wf_to_num acls n : acl_to_num m !! acls = Some n → num_to_acl m !! n = Some acls;
  wf_to_acl acls n : num_to_acl m !! n = Some acls → acl_to_num m !! acls = Some n;
  wf_range acls n : num_to_acl m !! n = Some acls → 0 < n < max_acl_id m;
  wf_named acls n : num_to_acl m !! n = Some acls → acls ≠ [] ∧ acls ≠ default_acls;
  wf_usage n c : usage_counter m !! n = Some c → 0 < n < max_acl_id m ∧ 0 < c < 2 ^ 64;
  wf_max : 0 < max_acl_id m
}.

Lemma ACLMap_empty_wf : ACLMap_wf ACLMap_empty.
Proof. split; try done; intros; simplify_map_eq. Qed.

Lemma ACLsComparator_spec l r : ACLsComparator l r = bool_decide (l = r).
Proof.
  revert r. induction l as [|[p s i] l IH]; intros [|[p' s' i'] r]; simpl; try done.
  destruct (Z.eqb_spec p p'); simpl; [|by rewrite bool_decide_eq_false_2 by congruence].
  repeat (case_bool_decide; simpl; [|by rewrite bool_decide_eq_false_2 by congruence]).
  subst. rewrite IH. apply bool_decide_ext. split; congruence.
Qed.

(** Adding a fresh number for a fresh list. *)
Lemma insert_mapping_wf n acls mx m :
  ACLMap_wf m → 0 < n < mx → max_acl_id m <= mx → acls ≠ [] → acls ≠ default_acls →
  num_to_acl m !! n = None → acl_to_num m !! acls = None →
  ACLMap_wf (mkACLMap (<[acls := n]> (acl_to_num m)) (<[n := acls]> (num_to_acl m))
               (usage_counter m) mx).
Proof.
  intros Hwf Hn Hmx Hne Hnd Hfn Hfa. pose proof (wf_max m Hwf). split; simpl; try lia.
  - intros a k. destruct (decide (a = acls)) as [->|].
    + rewrite lookup_insert_eq. intros [= <-]. apply lookup_insert_eq.
    + rewrite lookup_insert_ne by done. intros Hk%(wf_to_num m Hwf).
      rewrite lookup_insert_ne; [done|]. intros <-. congruence.
  - intros a k. destruct (decide (k = n)) as [->|].
    + rewrite lookup_insert_eq. intros [= <-]. apply lookup_insert_eq.
    + rewrite lookup_insert_ne by done. intros Hk%(wf_to_acl m Hwf).
      rewrite lookup_insert_ne; [done|]. intros <-. congruence.
  - intros a k. destruct (decide (k = n)) as [->|]; [lia|].
    rewrite lookup_insert_ne by done. intros Hk%(wf_range m Hwf). lia.
  - intros a k. destruct (decide (k = n)) as [->|].
    + rewrite lookup_insert_eq. by intros [= <-].
    + rewrite lookup_insert_ne by done. apply (wf_named m Hwf).
  - intros k c Hk%(wf_usage m Hwf). lia.
Qed.

Lemma max_acl_id_fresh m : ACLMap_wf m → num_to_acl m !! max_acl_id m = None.
Proof.
  intros Hwf. destruct (num_to_acl m !! max_acl_id m) eqn:E; [|done].
  apply (wf_range m Hwf) in E. lia.
Qed.

Lemma convertACLs_wf acls m m' n :
  ACLMap_wf m → max_acl_id m < 2 ^ 64 - 1 → convertACLs acls m = (m', n) → ACLMap_wf m'.
Proof.
  intros Hwf Hmax. unfold convertACLs.
  case_bool_decide as He; simpl; [by intros [= <- <-]|].
  case_bool_decide as Hd; simpl; [by intros [= <- <-]|].
  pose proof (wf_max m Hwf).
  destruct (acl_to_num m !! acls) as [n'|] eqn:Hn; intros [= <- <-]; [done|].
  rewrite wrap_u_id by (unfold in_u; lia).
  apply insert_mapping_wf; auto using max_acl_id_fresh; lia.
Qed.

(** The number returned is 0 exactly for the two default lists. *)
Lemma convertACLs_num acls m m' n :
  ACLMap_wf m → convertACLs acls m = (m', n) →
  (n = 0 ∧ m' = m ∧ (acls = [] ∨ acls = default_acls))
  ∨ (0 < n ∧ num_to_acl m' !! n = Some acls).
Proof.
  intros Hwf. unfold convertACLs.
  case_bool_decide as He; simpl; [intros; simplify_eq; auto|].
  case_bool_decide as Hd; simpl; [intros; simplify_eq; auto|].
  destruct (acl_to_num m !! acls) as [n'|] eqn:Hn; intros [= <- <-]; right.
  - apply (wf_to_num m Hwf) in Hn. split; [|done]. apply (wf_range m Hwf) in Hn. lia.
  - simpl. rewrite lookup_insert_eq. split; [apply (wf_max m Hwf)|done].
Qed.

Lemma addUsage_wf n c m :
  ACLMap_wf m → (n = 0 ∨ is_Some (num_to_acl m !! n)) → 0 < c →
  default 0 (usage_counter m !! n) + c < 2 ^ 64 → ACLMap_wf (addUsage n c m).
Proof.
  intros Hwf Hn Hc Hmax. unfold addUsage. destruct (Z.eqb_spec n 0) as [->|Hne]; [done|].
  destruct Hn as [->|[acls Hn]]; [done|].
  assert (0 <= default 0 (usage_counter m !! n)) as H0.
  { destruct (usage_counter m !! n) eqn:E; simpl; [|lia]. apply (wf_usage m Hwf) in E. lia. }
  rewrite wrap_u_id by (unfold in_u; lia).
  split; simpl; try apply Hwf. intros k d.
  destruct (decide (k = n)) as [->|].
  - rewrite lookup_insert_eq. intros [= <-]. apply (wf_range m Hwf) in Hn. lia.
  - rewrite lookup_insert_ne by done. apply (wf_usage m Hwf).
Qed.

Lemma removeUsage_wf n m : ACLMap_wf m → ACLMap_wf (removeUsage n m).
Proof.
  intros Hwf. unfold removeUsage. destruct (usage_counter m !! n) as [c|] eqn:Hc; [|done].
  pose proof (wf_usage m Hwf _ _ Hc) as [Hn Hr].
  rewrite wrap_u_id by (unfold in_u; lia).
  destruct (Z.eqb_spec (c - 1) 0) as [E|E]; split; simpl; try apply Hwf.
  - intros a k [Ha Hk]%lookup_delete_Some. apply (wf_to_num m Hwf) in Hk.
    rewrite lookup_delete_ne; [done|]. intros <-. rewrite Hk in Ha. by simpl in Ha.
  - intros a k [Ha Hk]%lookup_delete_Some. pose proof (wf_to_acl m Hwf _ _ Hk) as Hk'.
    rewrite lookup_delete_ne; [done|].
    intros <-. destruct (num_to_acl m !! n) as [a'|] eqn:E'; simpl in *.
    + apply (wf_to_acl m Hwf) in E'. congruence.
    + by apply (wf_named m Hwf) in Hk as [? _].
  - intros a k [Ha Hk]%lookup_delete_Some. by apply (wf_range m Hwf) in Hk.
  - intros a k [Ha Hk]%lookup_delete_Some. by apply (wf_named m Hwf) in Hk.
  - intros k d [Ha Hk]%lookup_delete_Some. by apply (wf_usage m Hwf) in Hk.
  - intros k d. destruct (decide (k = n)) as [->|].
    + rewrite lookup_insert_eq. intros [= <-]. lia.
    + rewrite lookup_insert_ne by done. apply (wf_usage m Hwf).
Qed.

(** A mapping restored from a snapshot: a number and a list not in use. *)
Lemma addMapping_wf n acls m :
  ACLMap_wf m → 0 < n < 2 ^ 64 - 1 → acls ≠ [] → acls ≠ default_acls →
  num_to_acl m !! n = None → acl_to_num m !! acls = None → ACLMap_wf (addMapping n acls m).
Proof.
  intros Hwf Hn Hne Hnd Hfn Hfa. unfold addMapping.
  rewrite wrap_u_id by (unfold in_u; lia). apply insert_mapping_wf; auto; lia.
Qed.

(** ** Usage

    [usage m n]: how many nodes the counter thinks use number [n]. *)
Definition usage (m : ACLMap) (n : Z) : Z := default 0 (usage_counter m !! n).

Lemma usage_addUsage n c m k :
  ACLMap_wf m → usage m n + c < 2 ^ 64 → 0 <= c → n ≠ 0 →
  usage (addUsage n c m) k = if decide (k = n) then usage m n + c else usage m k.
Proof.
  intros Hwf Hc H0 Hn. unfold addUsage, usage in *.
  destruct (Z.eqb_spec n 0); [done|]. simpl.
  assert (0 <= default 0 (usage_counter m !! n)) as Hpos.
  { destruct (usage_counter m !! n) eqn:E; simpl; [|lia]. apply (wf_usage m Hwf) in E. lia. }
  case_decide; [subst; rewrite lookup_insert_eq|by rewrite lookup_insert_ne].
  simpl. apply wrap_u_id. unfold in_u. lia.
Qed.

Lemma usage_removeUsage n m k :
  ACLMap_wf m →
  usage (removeUsage n m) k = if decide (k = n) then Z.max 0 (usage m n - 1) else usage m k.
Proof.
  intros Hwf. unfold removeUsage, usage.
  destruct (usage_counter m !! n) as [c|] eqn:Hc; simpl.
  2:{ case_decide; [subst; by rewrite Hc|done]. }
  pose proof (wf_usage m Hwf _ _ Hc) as [_ Hr].
  rewrite wrap_u_id by (unfold in_u; lia).
  destruct (Z.eqb_spec (c - 1) 0) as [E|E]; simpl.
  - case_decide; [subst; rewrite lookup_delete_eq; simpl; lia|by rewrite lookup_delete_ne].
  - case_decide; [subst; rewrite lookup_insert_eq; simpl; lia|by rewrite lookup_insert_ne].
Qed.

(** Only the last usage drops the list, and only that list. *)
Lemma num_to_acl_removeUsage n m k :
  ACLMap_wf m →
  num_to_acl (removeUsage n m) !! k =
    if decide (k = n ∧ usage m n = 1) then None else num_to_acl m !! k.
Proof.
  intros Hwf. unfold removeUsage, usage.
  destruct (usage_counter m !! n) as [c|] eqn:Hc; simpl.
  2:{ rewrite decide_False; [done|]. lia. }
  pose proof (wf_usage m Hwf _ _ Hc) as [_ Hr].
  rewrite wrap_u_id by (unfold in_u; lia).
  destruct (Z.eqb_spec (c - 1) 0) as [E|E]; simpl.
  - case_decide as H; [destruct H as [-> _]; apply lookup_delete_eq|].
    apply lookup_delete_ne. intros ->. apply H. split; [done|lia].
  - rewrite decide_False; [done|]. lia.
Qed.

Lemma num_to_acl_addUsage n c m : num_to_acl (addUsage n c m) = num_to_acl m.
Proof. unfold addUsage. by destruct (n =? 0). Qed.

Lemma usage_convertACLs acls m : usage (convertACLs acls m).1 = usage m.
Proof.
  unfold convertACLs, usage. case_match; [done|]. by destruct (acl_to_num m !! acls).
Qed.

Lemma num_to_acl_convertACLs acls m n a :
  ACLMap_wf m → num_to_acl m !! n = Some a → num_to_acl (convertACLs acls m).1 !! n = Some a.
Proof.
  intros Hwf Hn. unfold convertACLs. case_match; [done|].
  destruct (acl_to_num m !! acls); [done|]. simpl. rewrite lookup_insert_ne; [done|].
  apply (wf_range m Hwf) in Hn. lia.
Qed.

Lemma mapEquals_spec {K V} `{Countable K} `{EqDecision V} (l r : gmap K V) :
  mapEquals l r = true ↔ l = r.
Proof.
  unfold mapEquals. split.
  - case_bool_decide as Hs; simpl; [|done]. intros Hall.
    apply map_subseteq_size_eq; [|lia]. apply map_subseteq_spec. intros k v Hk.
    rewrite forallb_forall in Hall.
    apply elem_of_map_to_list, list_elem_of_In in Hk. apply Hall in Hk.
    by apply bool_decide_eq_true in Hk.
  - intros ->. rewrite bool_decide_eq_true_2 by done. simpl.
    apply forallb_forall. intros [k v] Hk%list_elem_of_In%elem_of_map_to_list.
    by apply bool_decide_eq_true.
Qed.

Lemma ACLMap_eqb_spec l r : ACLMap_eqb l r = true ↔ l = r.
Proof.
  unfold ACLMap_eqb. rewrite !andb_true_iff, !mapEquals_spec, Z.eqb_eq.
  destruct l, r; simpl. naive_solver.
Qed.

Lemma convertNumber_no_crash n m : convertNumber n m ≠ Crash.
Proof. unfold convertNumber. by repeat case_match. Qed.

(** ** Properties *)

(** The number [convertACLs] hands out for a list converts back to that
    list ([0], which stands for the open list, for an empty one), lists that were
    numbered before keep their numbers, and different lists get different
    numbers: the two directions of the map stay inverse to each other. *)
Theorem acl_number_roundtrip acls m m' n :
  ACLMap_wf m → max_acl_id m < 2 ^ 64 - 1 → convertACLs acls m = (m', n) →
  ACLMap_wf m' ∧
  convertNumber n m' = Ret (if decide (acls = []) then default_acls else acls) ∧
  (∀ k a, convertNumber k m = Ret a → convertNumber k m' = Ret a) ∧
  (∀ a, a ≠ [] → acls ≠ [] → (convertACLs a m').2 = n → a = acls).
Proof.
  intros Hwf Hmax E. pose proof (convertACLs_wf _ _ _ _ Hwf Hmax E) as Hwf'.
  pose proof (convertACLs_num _ _ _ _ Hwf E) as Hn.
  assert (∀ k a, num_to_acl m !! k = Some a → num_to_acl m' !! k = Some a) as Hsub.
  { intros k a Hk. pose proof (num_to_acl_convertACLs acls m k a Hwf Hk) as H. by rewrite E in H. }
  split; [done|]. split_and!.
  - unfold convertNumber. destruct Hn as [(-> & _ & Hd)|[Hpos Hn]].
    + cbn. case_decide; [done|]. by destruct Hd as [?| ->].
    + destruct (Z.eqb_spec n 0); [lia|]. rewrite Hn.
      rewrite decide_False by (by apply (wf_named m' Hwf' _ _ Hn)). done.
  - intros k a. unfold convertNumber. destruct (k =? 0); [done|].
    destruct (num_to_acl m !! k) as [a'|] eqn:Ek; [|done]. intros [= <-]. by rewrite (Hsub _ _ Ek).
  - intros a Ha Hacls Ea. destruct (convertACLs a m') as [m'' k] eqn:Ek. cbn in Ea. subst k.
    destruct (convertACLs_num _ _ _ _ Hwf' Ek) as [(-> & -> & Hd)|[Hpos Hk]].
    + destruct Hn as [(_ & _ & Hd')|[? _]]; [|lia]. naive_solver.
    + destruct Hn as [(-> & _)|[_ Hn]]; [lia|].
      pose proof (num_to_acl_convertACLs a m' n acls Hwf' Hn) as Hn'. rewrite Ek in Hn'. cbn in Hn'. congruence.
Qed.

(** A list is dropped exactly with its last usage. Giving back a number
    lowers its counter by one and leaves the others; the number stops converting
    if and only if this was the last usage, and every other number converts as
    before. *)
Theorem acl_dropped_with_last_usage n m k :
  ACLMap_wf m → 0 < n →
  ACLMap_wf (removeUsage n m) ∧
  usage (removeUsage n m) k = (if decide (k = n) then Z.max 0 (usage m n - 1) else usage m k) ∧
  convertNumber k (removeUsage n m) =
    if decide (k = n ∧ usage m n = 1) then Throw LOGICAL_ERROR else convertNumber k m.
Proof.
  intros Hwf Hn. split; [by apply removeUsage_wf|]. split; [by apply usage_removeUsage|].
  unfold convertNumber. rewrite num_to_acl_removeUsage by done.
  destruct (decide (k = n ∧ usage m n = 1)) as [[-> _]|]; [|done].
  by destruct (Z.eqb_spec n 0); [lia|].
Qed.
