(* ===== verification/SessionExpiryQueue.v ===== *)
(** * Session expiry: src/Service/SessionExpiryQueue.{h,cpp}

    Sessions sit in buckets keyed by their rounded expiration time, with the
    reverse map from sessions to times. The wall clock is an argument.

    Theorems: the two maps stay each other's inverse with no empty bucket, the
    iterators the code dereferences are always valid, a session refreshed at
    [now] with timeout [t] expires within one interval after [now + t], and the
    expired sessions are exactly those whose time has come. *)

From S2P Require Import Prelude Types.
From stdpp Require Import base gmap sets list strings option sorting.
From Stdlib Require Import ZArith Lia.
Open Scope Z_scope.

Record SessionExpiryQueue : Type := mkQueue {
  session_to_expiration_time : gmap Z Z;
  expiry_to_sessions : gmap Z (gset Z);
  expiration_interval : Z
}.

Definition Queue_new (interval : Z) : SessionExpiryQueue := mkQueue ∅ ∅ interval.

(** Integer division of the source truncates. *)
Definition roundToNextInterval (time : Z) (q : SessionExpiryQueue) : Z :=
  s64 ((Z.quot time (expiration_interval q) + 1) * expiration_interval q).

(** [expiry_to_sessions] without a session in the bucket of time [t], the bucket
    dropped when it becomes empty; an iterator past the end is dereferenced when
    there is no such bucket. *)
Definition erase_from_bucket (t session_id : Z) (m : gmap Z (gset Z))
    : outcome exn (gmap Z (gset Z)) :=
  match m !! t with
  | None => Crash
  | Some ss =>
      let ss' := ss ∖ {[session_id]} in
      Ret (if bool_decide (ss' = ∅) then delete t m else <[t := ss']> m)
  end.

(** The bucket of time [t], created when it does not exist. *)
Definition insert_in_bucket (t session_id : Z) (m : gmap Z (gset Z)) : gmap Z (gset Z) :=
  <[t := {[session_id]} ∪ default ∅ (m !! t)]> m.

Definition remove (session_id : Z) : ST SessionExpiryQueue exn bool := λ q,
  match session_to_expiration_time q !! session_id with
  | None => (q, Ret false)
  | Some t =>
      match erase_from_bucket t session_id (expiry_to_sessions q) with
      | Ret m => (mkQueue (delete session_id (session_to_expiration_time q)) m
                    (expiration_interval q), Ret true)
      | Throw e => (q, Throw e)
      | Crash => (q, Crash)
      end
  end.

Definition setSessionExpirationTime (session_id expiration_time : Z)
    : ST SessionExpiryQueue exn unit := λ q,
  let s2e := <[session_id := expiration_time]> (session_to_expiration_time q) in
  let e2s := expiry_to_sessions q in
  match session_to_expiration_time q !! session_id with
  | Some prev =>
      if expiration_time =? prev then (q, Ret tt)
      else
        match erase_from_bucket prev session_id (insert_in_bucket expiration_time session_id e2s) with
        | Ret m => (mkQueue s2e m (expiration_interval q), Ret tt)
        | Throw e => (q, Throw e)
        | Crash => (q, Crash)
        end
  | None =>
      (mkQueue s2e (insert_in_bucket expiration_time session_id e2s) (expiration_interval q),
       Ret tt)
  end.

Definition addNewSessionOrUpdate (now session_id timeout_ms : Z)
    : ST SessionExpiryQueue exn unit := λ q,
  setSessionExpirationTime session_id (roundToNextInterval (s64 (now + timeout_ms)) q) q.

(** The order of [std::map<int64_t, ...>]. *)
Definition key_le (a b : Z * gset Z) : Prop := a.1 <= b.1.
#[export] Instance key_le_dec a b : Decision (key_le a b).
Proof. unfold key_le. apply _. Defined.

(** The buckets in the order of [std::map]. *)
Definition buckets (q : SessionExpiryQueue) : list (Z * gset Z) :=
  merge_sort key_le (map_to_list (expiry_to_sessions q)).

(** The loop stops at the first bucket that is not due. *)
Fixpoint collect_expired (now : Z) (bs : list (Z * gset Z)) : list Z :=
  match bs with
  | [] => []
  | (t, ss) :: bs => if t <=? now then elements ss ++ collect_expired now bs else []
  end.

Definition getExpiredSessions (now : Z) (q : SessionExpiryQueue) : list Z :=
  collect_expired now (buckets q).

Definition clear (q : SessionExpiryQueue) : SessionExpiryQueue :=
  mkQueue ∅ ∅ (expiration_interval q).

(** ** The invariant *)

Record Queue_wf (q : SessionExpiryQueue) : Prop := {
  wf_bucket s t :
    session_to_expiration_time q !! s = Some t ↔
    ∃ ss, expiry_to_sessions q !! t = Some ss ∧ s ∈ ss;
  wf_nonempty t ss : expiry_to_sessions q !! t = Some ss → ss ≠ ∅
}.

Lemma Queue_new_wf i : Queue_wf (Queue_new i).
Proof. split; simpl; intros; [split; [done|naive_solver]|done]. Qed.

(** What the bucket helpers do, read through membership. *)
Lemma elem_insert_in_bucket t s m t' s' :
  (∃ ss, insert_in_bucket t s m !! t' = Some ss ∧ s' ∈ ss) ↔
  (t' = t ∧ s' = s) ∨ (∃ ss, m !! t' = Some ss ∧ s' ∈ ss).
Proof.
  unfold insert_in_bucket. destruct (decide (t' = t)) as [->|Hne].
  - rewrite lookup_insert_eq. split.
    + intros (ss & [= <-] & [->%elem_of_singleton|H]%elem_of_union); [auto|].
      destruct (m !! t); simpl in H; [right; eauto|set_solver].
    + intros [[_ ->]|(ss & Hss & H)]; eexists; (split; [done|]); [set_solver|].
      rewrite Hss. set_solver.
  - rewrite lookup_insert_ne by done. naive_solver.
Qed.

Lemma elem_erase_from_bucket t s m m' t' s' :
  erase_from_bucket t s m = Ret m' →
  (∃ ss, m' !! t' = Some ss ∧ s' ∈ ss) ↔
  (∃ ss, m !! t' = Some ss ∧ s' ∈ ss) ∧ ¬ (t' = t ∧ s' = s).
Proof.
  unfold erase_from_bucket. destruct (m !! t) as [ss|] eqn:Ht; [|done]. intros [= <-].
  destruct (decide (t' = t)) as [->|Hne].
  - case_bool_decide as He.
    + rewrite lookup_delete_eq. split; [naive_solver|].
      intros ((ss' & ? & Hs) & Hn). simplify_eq. exfalso. apply Hn. split; [done|].
      destruct (decide (s' = s)); [done|]. assert (s' ∈ ss ∖ {[s]}) by set_solver. set_solver.
    + rewrite lookup_insert_eq. split.
      * intros (ss' & [= <-] & Hs). split; [exists ss; set_solver|set_solver].
      * intros ((ss' & ? & Hs) & Hn). simplify_eq. eexists; split; [done|]. set_solver.
  - case_bool_decide; rewrite ?lookup_delete_ne, ?lookup_insert_ne by done; naive_solver.
Qed.

Lemma nonempty_insert_in_bucket t s m :
  (∀ t' ss, m !! t' = Some ss → ss ≠ ∅) →
  ∀ t' ss, insert_in_bucket t s m !! t' = Some ss → ss ≠ ∅.
Proof.
  intros H t' ss. unfold insert_in_bucket. destruct (decide (t' = t)) as [->|].
  - rewrite lookup_insert_eq. intros [= <-]. set_solver.
  - rewrite lookup_insert_ne by done. apply H.
Qed.

Lemma nonempty_erase_from_bucket t s m m' :
  erase_from_bucket t s m = Ret m' →
  (∀ t' ss, m !! t' = Some ss → ss ≠ ∅) → ∀ t' ss, m' !! t' = Some ss → ss ≠ ∅.
Proof.
  unfold erase_from_bucket. destruct (m !! t) as [ss0|] eqn:Ht; [|done].
  intros [= <-] H t' ss. case_bool_decide.
  - intros [_ Hss]%lookup_delete_Some. by apply H in Hss.
  - destruct (decide (t' = t)) as [->|].
    + rewrite lookup_insert_eq. by intros [= <-].
    + rewrite lookup_insert_ne by done. apply H.
Qed.

Lemma erase_from_bucket_Ret t s m ss :
  m !! t = Some ss → ∃ m', erase_from_bucket t s m = Ret m'.
Proof. intros H. unfold erase_from_bucket. rewrite H. eauto. Qed.

Lemma setSessionExpirationTime_ok s t q :
  Queue_wf q →
  ∃ q', setSessionExpirationTime s t q = (q', Ret tt) ∧ Queue_wf q'
    ∧ session_to_expiration_time q' = <[s := t]> (session_to_expiration_time q)
    ∧ expiration_interval q' = expiration_interval q.
Proof.
  intros Hwf. unfold setSessionExpirationTime.
  destruct (session_to_expiration_time q !! s) as [prev|] eqn:Hs.
  - destruct (Z.eqb_spec t prev) as [->|Hne].
    { exists q. rewrite insert_id by done. auto. }
    pose proof Hs as (ss & Hss & Hin)%(wf_bucket q Hwf).
    assert (insert_in_bucket t s (expiry_to_sessions q) !! prev = Some ss) as Hss'.
    { unfold insert_in_bucket. by rewrite lookup_insert_ne. }
    destruct (erase_from_bucket_Ret prev s _ _ Hss') as [m' Hm']. rewrite Hm'.
    eexists. split_and!; [done| |done|done]. split; simpl.
    + intros s' t'. rewrite (elem_erase_from_bucket _ _ _ _ _ _ Hm'), elem_insert_in_bucket.
      destruct (decide (s' = s)) as [->|].
      * rewrite lookup_insert_eq. split; [intros [= <-]; naive_solver|].
        intros [[[-> _]|H] Hn]; [done|]. apply (wf_bucket q Hwf) in H. naive_solver.
      * rewrite lookup_insert_ne by done. rewrite (wf_bucket q Hwf). naive_solver.
    + eapply nonempty_erase_from_bucket; [done|]. apply nonempty_insert_in_bucket, Hwf.
  - eexists. split_and!; [done| |done|done]. split; simpl.
    + intros s' t'. rewrite elem_insert_in_bucket. destruct (decide (s' = s)) as [->|].
      * rewrite lookup_insert_eq. split; [intros [= <-]; naive_solver|].
        intros [[-> _]|H]; [done|]. apply (wf_bucket q Hwf) in H. naive_solver.
      * rewrite lookup_insert_ne by done. rewrite (wf_bucket q Hwf). naive_solver.
    + apply nonempty_insert_in_bucket, Hwf.
Qed.

Lemma remove_ok s q :
  Queue_wf q →
  ∃ q', remove s q = (q', Ret (bool_decide (is_Some (session_to_expiration_time q !! s))))
    ∧ Queue_wf q'
    ∧ session_to_expiration_time q' = delete s (session_to_expiration_time q)
    ∧ expiration_interval q' = expiration_interval q.
Proof.
  intros Hwf. unfold remove.
  destruct (session_to_expiration_time q !! s) as [t|] eqn:Hs.
  - rewrite bool_decide_eq_true_2 by eauto.
    pose proof Hs as (ss & Hss & Hin)%(wf_bucket q Hwf).
    destruct (erase_from_bucket_Ret t s _ _ Hss) as [m' Hm']. rewrite Hm'.
    eexists. split_and!; [done| |done|done]. split; simpl.
    + intros s' t'. rewrite (elem_erase_from_bucket _ _ _ _ _ _ Hm').
      destruct (decide (s' = s)) as [->|].
      * rewrite lookup_delete_eq. split; [done|]. intros [H Hn].
        apply (wf_bucket q Hwf) in H. naive_solver.
      * rewrite lookup_delete_ne by done. rewrite (wf_bucket q Hwf). naive_solver.
    + eapply nonempty_erase_from_bucket; [done|]. apply Hwf.
  - rewrite bool_decide_eq_false_2 by (by intros []).
    exists q. by rewrite delete_id.
Qed.

(** ** Expired sessions *)

Lemma buckets_perm q : buckets q ≡ₚ map_to_list (expiry_to_sessions q).
Proof. apply merge_sort_Permutation. Qed.

Lemma buckets_sorted q : StronglySorted key_le (buckets q).
Proof.
  apply StronglySorted_merge_sort.
  - intros a b c. unfold key_le. lia.
  - intros a b. unfold key_le. lia.
Qed.

Lemma elem_collect_expired now bs s :
  StronglySorted key_le bs →
  s ∈ collect_expired now bs ↔ ∃ t ss, (t, ss) ∈ bs ∧ t <= now ∧ s ∈ ss.
Proof.
  induction 1 as [|[t ss] bs Hs IH Hle]; simpl; [set_solver|].
  destruct (Z.leb_spec t now) as [Ht|Ht].
  - rewrite elem_of_app, elem_of_elements, IH. set_solver.
  - split; [set_solver|]. intros (t' & ss' & [?|Hin]%elem_of_cons & Hnow & _).
    + simplify_eq. lia.
    + rewrite Forall_forall in Hle. apply Hle in Hin. unfold key_le in Hin. simpl in Hin. lia.
Qed.

Lemma elem_expired now q s :
  Queue_wf q →
  s ∈ getExpiredSessions now q ↔
  ∃ t, session_to_expiration_time q !! s = Some t ∧ t <= now.
Proof.
  intros Hwf. unfold getExpiredSessions.
  rewrite elem_collect_expired by apply buckets_sorted.
  setoid_rewrite buckets_perm. setoid_rewrite elem_of_map_to_list.
  setoid_rewrite (wf_bucket q Hwf). naive_solver.
Qed.

(** The rounded time lies within one interval after the exact one. *)
Lemma roundToNextInterval_bounds time q :
  0 < expiration_interval q → 0 <= time →
  time + expiration_interval q < 2 ^ 63 →
  time < roundToNextInterval time q <= time + expiration_interval q.
Proof.
  intros Hi Ht Hmax. unfold roundToNextInterval.
  rewrite Z.quot_div_nonneg by lia.
  pose proof (Z.div_mod time (expiration_interval q)).
  pose proof (Z.mod_pos_bound time (expiration_interval q) Hi).
  rewrite wrap_s_id; [nia|lia|]. unfold in_s. nia.
Qed.

(** ** Properties *)

(** C35: a session refreshed at time [now] with timeout [t] gets an expiration
    time later than [now + t] and at most one interval later; no iterator past
    the end is dereferenced; no other session moves; and it is reported expired
    from that time on and never before. *)
Theorem session_expires_in_time now sid t q :
  Queue_wf q → 0 < expiration_interval q → 0 <= now + t → now + t + expiration_interval q < 2 ^ 63 →
  ∃ q' e, addNewSessionOrUpdate now sid t q = (q', Ret tt) ∧ Queue_wf q' ∧
    now + t < e <= now + t + expiration_interval q ∧
    (∀ later, sid ∈ getExpiredSessions later q' ↔ e <= later) ∧
    (∀ later k, k ≠ sid → k ∈ getExpiredSessions later q' ↔ k ∈ getExpiredSessions later q).
Proof.
  intros Hq Hi Hpos Hmax. unfold addNewSessionOrUpdate.
  rewrite (wrap_s_id 64) by (lia || (unfold in_s; lia)).
  pose proof (roundToNextInterval_bounds (now + t) q Hi Hpos Hmax) as Hb.
  set (e := roundToNextInterval (now + t) q) in *.
  destruct (setSessionExpirationTime_ok sid e q Hq) as (q' & E & Hq' & Hs & _).
  exists q', e. split_and!; try done; try lia.
  - intros later. rewrite elem_expired, Hs, lookup_insert_eq by done. naive_solver.
  - intros later k Hk. rewrite !elem_expired, Hs, lookup_insert_ne by done. done.
Qed.

Lemma session_expires_in_time_witness :
  ∃ q' e, addNewSessionOrUpdate 1000 7 3000 (Queue_new 500) = (q', Ret tt) ∧ Queue_wf q' ∧
    1000 + 3000 < e <= 1000 + 3000 + 500 ∧
    (∀ later, 7 ∈ getExpiredSessions later q' ↔ e <= later) ∧
    (∀ later k, k ≠ 7 → k ∈ getExpiredSessions later q' ↔ k ∈ getExpiredSessions later (Queue_new 500)).
Proof.
  apply (session_expires_in_time 1000 7 3000 (Queue_new 500)); [apply Queue_new_wf|done..].
Defined.

(** Removing a session reports whether it was there, dereferences no
    iterator past the end, and the session is not reported expired any more,
    while the others are as before. *)
Theorem removed_session_never_expires sid q :
  Queue_wf q →
  ∃ q', remove sid q = (q', Ret (bool_decide (is_Some (session_to_expiration_time q !! sid)))) ∧
    Queue_wf q' ∧ (∀ later, sid ∉ getExpiredSessions later q') ∧
    (∀ later k, k ≠ sid → k ∈ getExpiredSessions later q' ↔ k ∈ getExpiredSessions later q).
Proof.
  intros Hq. destruct (remove_ok sid q Hq) as (q' & E & Hq' & Hs & _). exists q'. split_and!; try done.
  - intros later. rewrite elem_expired, Hs, lookup_delete_eq by done. naive_solver.
  - intros later k Hk. rewrite !elem_expired, Hs, lookup_delete_ne by done. done.
Qed.
