(* ===== verification/KeeperPaths.v ===== *)
(** * Paths: the static helpers at the top of src/Service/KeeperStore.cpp

    [parentPath], [getBaseName] and the name of a sequential node.

    Theorems: a valid path is the join of its parent and its base name, the
    parent of a path extended by a suffix without a slash is unchanged, and the
    sequential suffixes of increasing counters are different and increase in
    the order clients sort names by. *)

From S2P Require Import Prelude.
From stdpp Require Import base list strings option pretty.
From Stdlib Require Import ZArith Lia Ascii.
Open Scope Z_scope.

#[local] Arguments String.append : simpl nomatch.

Definition slash : ascii := "/"%char.

(** [std::string::rfind(char)]: [None] is [npos]. *)
Fixpoint rfind (c : ascii) (s : string) : option nat :=
  match s with
  | EmptyString => None
  | String a s =>
      match rfind c s with
      | Some k => Some (S k)
      | None => if decide (a = c) then Some O else None
      end
  end.

(** [npos > 0], so a path without a slash is its own parent. *)
Definition parentPath (path : string) : string :=
  match rfind slash path with
  | Some O => "/"
  | Some k => String.substring 0 k path
  | None => path
  end.

(** [npos + 1 = 0]: the whole path when it has no slash. *)
Definition getBaseName (path : string) : string :=
  match rfind slash path with
  | Some k => String.substring (k + 1) (String.length path - k - 1) path
  | None => path
  end.

Fixpoint zeros (n : nat) : string :=
  match n with O => "" | S n => String "0"%char (zeros n) end.

(** [std::setw(10) << std::setfill('0') << seq_num] *)
Definition seq_num_str (seq_num : Z) : string :=
  let s := pretty seq_num in (zeros (10 - String.length s) +:+ s)%string.

(** A path the tree can hold: it starts with exactly one slash. *)
Definition valid_path (p : string) : bool :=
  match p with
  | String a (String b _) => bool_decide (a = slash) && negb (bool_decide (b = slash))
  | String a EmptyString => bool_decide (a = slash)
  | EmptyString => false
  end.

Definition joinPath (parent child : string) : string :=
  if decide (parent = "/") then String slash child
  else (parent +:+ String slash child)%string.

Fixpoint has_char (c : ascii) (s : string) : bool :=
  match s with
  | EmptyString => false
  | String a s => bool_decide (a = c) || has_char c s
  end.
Abbreviation has_slash := (has_char slash).

(** ** Strings *)

Lemma string_app_nil s : (s +:+ "")%string = s.
Proof. induction s; simpl; congruence. Qed.

Lemma string_app_assoc a b c : (a +:+ (b +:+ c))%string = ((a +:+ b) +:+ c)%string.
Proof. induction a; simpl; congruence. Qed.

Lemma length_string_app a b :
  String.length (a +:+ b)%string = (String.length a + String.length b)%nat.
Proof. induction a; simpl; congruence. Qed.

Lemma has_char_app c a b : has_char c (a +:+ b)%string = has_char c a || has_char c b.
Proof. induction a; simpl; [done|]. by rewrite IHa, orb_assoc. Qed.

Lemma substring_app_l a b : String.substring 0 (String.length a) (a +:+ b)%string = a.
Proof. induction a; simpl; [by destruct b|]. by rewrite IHa. Qed.

Lemma substring_all s : String.substring 0 (String.length s) s = s.
Proof. rewrite <-(string_app_nil s) at 2. apply substring_app_l. Qed.

Lemma substring_app_r a b n :
  String.substring (String.length a) n (a +:+ b)%string = String.substring 0 n b.
Proof. induction a; simpl; [done|]. apply IHa. Qed.

(** ** The last slash *)

Lemma rfind_None c s : rfind c s = None ↔ has_char c s = false.
Proof.
  induction s as [|a s IH]; simpl; [done|].
  destruct (rfind c s); [rewrite orb_false_iff; naive_solver|].
  destruct IH as [IH _]. rewrite (IH eq_refl), orb_false_r.
  case_decide; case_bool_decide; naive_solver.
Qed.

Lemma rfind_app_l c s1 s2 :
  has_char c s2 = false → rfind c (s1 +:+ s2)%string = rfind c s1.
Proof.
  intros H%rfind_None. induction s1 as [|a s1 IH]; simpl; [done|]. by rewrite IH.
Qed.

Lemma rfind_last c s1 s2 :
  has_char c s2 = false → rfind c (s1 +:+ String c s2)%string = Some (String.length s1).
Proof.
  intros H%rfind_None. induction s1 as [|a s1 IH]; simpl.
  - by rewrite H, decide_True.
  - by rewrite IH.
Qed.

Lemma rfind_Some c s k :
  rfind c s = Some k →
  ∃ s1 s2, s = (s1 +:+ String c s2)%string ∧ String.length s1 = k ∧ has_char c s2 = false.
Proof.
  revert k. induction s as [|a s IH]; intros k; simpl; [done|].
  destruct (rfind c s) as [j|] eqn:E.
  - intros [= <-]. destruct (IH j eq_refl) as (s1 & s2 & -> & <- & H).
    by exists (String a s1), s2.
  - case_decide; [|done]. intros [= <-]. subst. apply rfind_None in E.
    by exists "", s.
Qed.

(** Every path with a slash splits at its last one. *)
Lemma path_split p :
  has_slash p = true →
  ∃ s1 s2, p = (s1 +:+ String slash s2)%string ∧ has_slash s2 = false.
Proof.
  intros H. destruct (rfind slash p) as [k|] eqn:E.
  - apply rfind_Some in E as (s1 & s2 & -> & _ & ?). eauto.
  - apply rfind_None in E. congruence.
Qed.

Lemma parentPath_split s1 s2 :
  has_slash s2 = false →
  parentPath (s1 +:+ String slash s2)%string = if decide (s1 = "") then "/" else s1.
Proof.
  intros H. unfold parentPath. rewrite rfind_last by done.
  destruct s1 as [|a s1]; [done|]. rewrite decide_False by done.
  cbn [String.length]. change (S (String.length s1)) with (String.length (String a s1)).
  apply substring_app_l.
Qed.

Lemma getBaseName_split s1 s2 :
  has_slash s2 = false → getBaseName (s1 +:+ String slash s2)%string = s2.
Proof.
  intros H. unfold getBaseName. rewrite rfind_last by done.
  rewrite length_string_app. cbn [String.length].
  replace (String.length s1 + S (String.length s2) - String.length s1 - 1)%nat
    with (String.length s2) by lia.
  replace (s1 +:+ String slash s2)%string with ((s1 +:+ "/") +:+ s2)%string
    by (by rewrite <-string_app_assoc).
  replace (String.length s1 + 1)%nat with (String.length (s1 +:+ "/")%string)
    by (by rewrite length_string_app).
  rewrite substring_app_r. apply substring_all.
Qed.

Lemma valid_has_slash p : valid_path p = true → has_slash p = true.
Proof.
  destruct p as [|a p]; [done|]. simpl. destruct p; intros H; apply orb_true_iff; left; [done|].
  by apply andb_true_iff in H as [? _].
Qed.

(** ** Parent, base name, join *)

Lemma getBaseName_no_slash p : has_slash p = true → has_slash (getBaseName p) = false.
Proof. intros (s1 & s2 & -> & H)%path_split. by rewrite getBaseName_split. Qed.

Lemma parentPath_suffix p s :
  has_slash p = true → has_slash s = false → parentPath (p +:+ s)%string = parentPath p.
Proof.
  intros (s1 & s2 & -> & H)%path_split Hs.
  rewrite <-string_app_assoc. simpl. rewrite !parentPath_split; [done|done|].
  by rewrite has_char_app, H, Hs.
Qed.

Lemma getBaseName_suffix p s :
  has_slash p = true → has_slash s = false →
  getBaseName (p +:+ s)%string = (getBaseName p +:+ s)%string.
Proof.
  intros (s1 & s2 & -> & H)%path_split Hs.
  rewrite <-string_app_assoc. simpl. rewrite !getBaseName_split; [done|done|].
  by rewrite has_char_app, H, Hs.
Qed.

Lemma valid_split s1 s2 :
  valid_path (s1 +:+ String slash s2)%string = true →
  s1 = "" ∨ (valid_path s1 = true ∧ s1 ≠ "/").
Proof.
  destruct s1 as [|a [|b s1]]; simpl; [by left|..]; intros H; right.
  - by apply andb_true_iff in H as [_ H].
  - done.
Qed.

Lemma valid_parentPath p : valid_path p = true → valid_path (parentPath p) = true.
Proof.
  intros Hv. destruct (path_split p) as (s1 & s2 & -> & H); [by apply valid_has_slash|].
  rewrite parentPath_split by done. apply valid_split in Hv. case_decide; [done|naive_solver].
Qed.

Lemma joinPath_split p : valid_path p = true → joinPath (parentPath p) (getBaseName p) = p.
Proof.
  intros Hv. destruct (path_split p) as (s1 & s2 & -> & H); [by apply valid_has_slash|].
  rewrite parentPath_split, getBaseName_split by done. unfold joinPath.
  apply valid_split in Hv. destruct (decide (s1 = "")) as [->|]; [done|].
  rewrite decide_False by naive_solver. done.
Qed.

Lemma valid_path_inj p q :
  valid_path p = true → valid_path q = true →
  parentPath p = parentPath q → getBaseName p = getBaseName q → p = q.
Proof.
  intros Hp Hq E1 E2. rewrite <-(joinPath_split p), <-(joinPath_split q) by done. congruence.
Qed.

Lemma parentPath_join parent c :
  parent ≠ "" → has_slash c = false → parentPath (joinPath parent c) = parent.
Proof.
  intros Hp Hc. unfold joinPath. case_decide as E.
  - subst. apply (parentPath_split "" c Hc).
  - rewrite parentPath_split by done. by rewrite decide_False.
Qed.

Lemma getBaseName_join parent c : has_slash c = false → getBaseName (joinPath parent c) = c.
Proof.
  intros Hc. unfold joinPath. case_decide; [apply (getBaseName_split "" c Hc)|].
  by apply getBaseName_split.
Qed.

(** Only the root is its own parent. *)
Lemma parentPath_neq p : valid_path p = true → p ≠ "/" → parentPath p ≠ p.
Proof.
  intros Hv Hne. destruct (path_split p) as (s1 & s2 & -> & H); [by apply valid_has_slash|].
  rewrite parentPath_split by done. case_decide as E; [by subst|].
  intros E'. apply (f_equal String.length) in E'. rewrite length_string_app in E'.
  simpl in E'. lia.
Qed.

Lemma valid_path_nonempty p : valid_path p = true → p ≠ "".
Proof. by intros H ->. Qed.

Lemma valid_app p s :
  valid_path p = true → p ≠ "/" → valid_path (p +:+ s)%string = true.
Proof. destruct p as [|a [|b p]]; simpl; [done| |done]. intros ->%bool_decide_eq_true. done. Qed.

(** ** Sequential suffixes *)

Definition digit (c : ascii) : Z := Z.of_nat (nat_of_ascii c) - 48.

(** The number a digit string denotes, read after a prefix worth [v]. *)
Fixpoint dec_val (v : Z) (s : string) : Z :=
  match s with
  | EmptyString => v
  | String c s => dec_val (10 * v + digit c) s
  end.

Fixpoint all_digits (s : string) : bool :=
  match s with
  | EmptyString => true
  | String c s => (0 <=? digit c) && (digit c <? 10) && all_digits s
  end.

Lemma pretty_N_char_digit x : (x < 10)%N → digit (pretty_N_char x) = Z.of_N x.
Proof.
  intros H.
  assert (x = 0 ∨ x = 1 ∨ x = 2 ∨ x = 3 ∨ x = 4 ∨ x = 5 ∨ x = 6 ∨ x = 7 ∨ x = 8 ∨ x = 9)%N
    as Hx by lia.
  naive_solver.
Qed.

Lemma pretty_N_go_spec x s :
  dec_val 0 (pretty_N_go x s) = dec_val (Z.of_N x) s ∧
  (all_digits s = true → all_digits (pretty_N_go x s) = true).
Proof.
  revert s. induction (N.lt_wf_0 x) as [x _ IH]; intros s.
  destruct (decide (x = 0)%N) as [->|Hx]; [done|].
  rewrite pretty_N_go_step by lia.
  assert (x mod 10 < 10)%N as Hm by (by apply N.mod_lt).
  assert (x / 10 < x)%N as Hd by (apply N.div_lt; lia).
  destruct (IH (x / 10)%N Hd (String (pretty_N_char (x mod 10)) s)) as [-> H2].
  split.
  - cbn [dec_val]. rewrite pretty_N_char_digit by done. f_equal.
    pose proof (N.div_mod x 10). lia.
  - intros Hs. apply H2. cbn [all_digits]. rewrite pretty_N_char_digit by done.
    rewrite Hs. apply andb_true_iff; split; [|done].
    apply andb_true_iff; split; [apply Z.leb_le|apply Z.ltb_lt]; [apply N2Z.is_nonneg|].
    by apply (N2Z.inj_lt _ 10).
Qed.

Lemma length_pretty_N_go k x s :
  (x < 10 ^ N.of_nat k)%N → (String.length (pretty_N_go x s) ≤ k + String.length s)%nat.
Proof.
  revert x s. induction k as [|k IH]; intros x s Hx.
  - replace x with 0%N by (change (10 ^ N.of_nat 0)%N with 1%N in Hx; lia). done.
  - destruct (decide (x = 0)%N) as [->|]; [rewrite pretty_N_go_0; lia|].
    rewrite pretty_N_go_step by lia. etrans; [apply IH|simpl; lia].
    rewrite Nat2N.inj_succ, N.pow_succ_r in Hx by lia.
    apply N.Div0.div_lt_upper_bound; lia.
Qed.

Lemma pretty_nonneg n :
  0 ≤ n → pretty n = if decide (n = 0) then "0" else pretty_N_go (Z.to_N n) "".
Proof. intros H. destruct n as [|p|p]; [done| |lia]. by rewrite decide_False. Qed.

Lemma dec_val_zeros k s : dec_val 0 (zeros k +:+ s)%string = dec_val 0 s.
Proof. induction k as [|k IH]; [done|exact IH]. Qed.

Lemma all_digits_zeros k s : all_digits s = true → all_digits (zeros k +:+ s)%string = true.
Proof. intros. by induction k. Qed.

Lemma length_zeros k : String.length (zeros k) = k.
Proof. induction k; simpl; congruence. Qed.

Lemma seq_num_str_digits n :
  0 ≤ n → dec_val 0 (seq_num_str n) = n ∧ all_digits (seq_num_str n) = true.
Proof.
  intros H. unfold seq_num_str. rewrite dec_val_zeros.
  destruct (pretty_N_go_spec (Z.to_N n) "") as [E D].
  rewrite pretty_nonneg by done. case_decide; [by subst|].
  rewrite E. split; [simpl; lia|]. by apply all_digits_zeros, D.
Qed.

Lemma length_seq_num_str n :
  0 ≤ n < 10 ^ 10 → String.length (seq_num_str n) = 10%nat.
Proof.
  intros H. unfold seq_num_str. rewrite length_string_app, length_zeros.
  assert (String.length (pretty n) ≤ 10)%nat; [|lia].
  rewrite pretty_nonneg by lia. case_decide; [simpl; lia|].
  etrans; [apply (length_pretty_N_go 10)|simpl; lia]. simpl. lia.
Qed.

Lemma dec_val_bounds v s :
  all_digits s = true →
  v * 10 ^ Z.of_nat (String.length s) ≤ dec_val v s
    < (v + 1) * 10 ^ Z.of_nat (String.length s).
Proof.
  revert v. induction s as [|c s IH]; intros v H; cbn [dec_val String.length all_digits] in *; [lia|].
  apply andb_true_iff in H as [[? ?]%andb_true_iff ?].
  specialize (IH (10 * v + digit c) ltac:(done)).
  rewrite Nat2Z.inj_succ, Z.pow_succ_r by lia. nia.
Qed.

Lemma digit_compare c d :
  digit c < digit d → Ascii.compare c d = Lt.
Proof. unfold digit, Ascii.compare. intros H. apply N.compare_lt_iff. unfold nat_of_ascii in H. lia. Qed.

(** Of two digit strings of one length, the one worth less sorts first. *)
Lemma dec_val_compare v a b :
  all_digits a = true → all_digits b = true → String.length a = String.length b →
  dec_val v a < dec_val v b → String.compare a b = Lt.
Proof.
  revert v b. induction a as [|c a IH]; intros v [|d b] Ha Hb Hl Hlt; try done; [simpl in Hlt; lia|].
  cbn [dec_val String.length all_digits] in *. injection Hl as Hl.
  apply andb_true_iff in Ha as [_ Ha], Hb as [_ Hb]. cbn [String.compare].
  destruct (Z.lt_trichotomy (digit c) (digit d)) as [L|[E|L]].
  - by rewrite digit_compare.
  - assert (c = d) as <-.
    { rewrite <-(ascii_nat_embedding c), <-(ascii_nat_embedding d). unfold digit in E. f_equal. lia. }
    unfold Ascii.compare. rewrite N.compare_refl. by eapply IH.
  - exfalso. pose proof (dec_val_bounds (10 * v + digit c) a Ha).
    pose proof (dec_val_bounds (10 * v + digit d) b Hb). rewrite Hl in *. nia.
Qed.

Lemma all_digits_no_slash s : all_digits s = true → has_slash s = false.
Proof.
  induction s as [|c s IH]; simpl; [done|].
  intros [[H1 H2]%andb_true_iff H]%andb_true_iff. rewrite IH by done.
  rewrite bool_decide_eq_false_2; [done|]. intros ->. cbv in H1. done.
Qed.

Lemma seq_num_str_no_slash n : has_slash (seq_num_str n) = false.
Proof.
  destruct (decide (0 ≤ n)) as [H|H].
  - by apply all_digits_no_slash, seq_num_str_digits.
  - unfold seq_num_str. destruct n as [|p|p]; try lia.
    rewrite !has_char_app.
    replace (has_slash (zeros _)) with false
      by (symmetry; apply all_digits_no_slash; rewrite <-(string_app_nil (zeros _)); by apply all_digits_zeros).
    cbn. apply all_digits_no_slash.
    unfold pretty, pretty_positive, pretty, pretty_N. rewrite decide_False by done.
    by apply pretty_N_go_spec.
Qed.

Lemma compare_app s a b :
  String.compare (s +:+ a)%string (s +:+ b)%string = String.compare a b.
Proof.
  induction s; simpl; [done|]. unfold Ascii.compare. by rewrite N.compare_refl.
Qed.

Lemma seq_num_str_mono n m :
  0 ≤ n → n < m → m < 10 ^ 10 →
  String.compare (seq_num_str n) (seq_num_str m) = Lt.
Proof.
  intros Hn Hnm Hm.
  destruct (seq_num_str_digits n) as [Vn Dn]; [lia|].
  destruct (seq_num_str_digits m) as [Vm Dm]; [lia|].
  apply (dec_val_compare 0); [done|done| |lia].
  by rewrite !length_seq_num_str by lia.
Qed.

(** ** Paths of created nodes *)

(** The path begins with two slashes. *)
Definition double_slash (p : string) : bool :=
  match p with
  | String a (String b _) => bool_decide (a = slash) && bool_decide (b = slash)
  | _ => false
  end.

Lemma valid_no_slash_suffix p s :
  valid_path p = true → has_slash s = false → valid_path (p +:+ s)%string = true.
Proof.
  intros Hp Hs. destruct (decide (p = "/")) as [->|]; [|by apply valid_app].
  destruct s as [|a s]; [done|]. simpl in *. apply orb_false_iff in Hs as [-> _]. done.
Qed.

(** A path whose parent is a valid path is valid, unless it starts with two slashes. *)
Lemma valid_of_parent p :
  valid_path (parentPath p) = true → double_slash p = false → valid_path p = true.
Proof.
  intros Hv Hd. destruct (has_slash p) eqn:Hs.
  - destruct (path_split p Hs) as (s1 & s2 & -> & H2). rewrite parentPath_split in Hv by done.
    case_decide as E; [subst|].
    + destruct s2 as [|a s2]; [done|]. simpl in *. apply orb_false_iff in H2 as [-> _]. done.
    + destruct (decide (s1 = "/")) as [->|]; [done|]. by apply valid_app.
  - unfold parentPath in Hv. apply rfind_None in Hs as Hr. rewrite Hr in Hv.
    apply valid_has_slash in Hv. congruence.
Qed.
