(* ===== verification/KeeperNode.v ===== *)
(** * Znodes and their container: the first half of src/Service/KeeperStore.h

    [KeeperNode] with the statistics shown to clients, and [ConcurrentMap], the
    container of sixteen hash maps selected by the hash of the path.

    Theorems: the sharded container behaves as one finite map whatever the hash
    function is ([ConcurrentMap_laws]), and the child version a client sees counts the
    creations and removals below a node. *)

From S2P Require Import Prelude Types.
From stdpp Require Import base gmap sets list strings option.
From Stdlib Require Import ZArith Lia.
Open Scope Z_scope.

(** ** KeeperNode *)

Record KeeperNode : Type := mkNode {
  node_data : string;
  node_acl_id : Z;
  node_is_ephemeral : bool;
  node_is_sequental : bool;
  node_stat : Stat;
  node_children : gset string
}.

#[export] Instance KeeperNode_eq_dec : EqDecision KeeperNode.
Proof. solve_decision. Defined.

(** [std::make_shared<KeeperNode>()] *)
Definition KeeperNode_new : KeeperNode := mkNode "" 0 false false Stat_zero ∅.

Definition KeeperNode_clone (n : KeeperNode) : KeeperNode :=
  mkNode (node_data n) (node_acl_id n) (node_is_ephemeral n) (node_is_sequental n)
    (node_stat n) (node_children n).

Definition statForResponse (n : KeeperNode) : Stat :=
  let st := node_stat n in
  mkStat (czxid st) (mzxid st) (ctime st) (mtime st) (version st)
    (s32 (cversion st * 2 - numChildren st)) (aversion st) (ephemeralOwner st)
    (dataLength st) (s32 (Z.of_nat (size (node_children n)))) (pzxid st).

(** [KeeperNode::operator==] leaves the statistics out. *)
Definition KeeperNode_eqb (a b : KeeperNode) : bool :=
  bool_decide (node_data a = node_data b) && (node_acl_id a =? node_acl_id b)
  && Bool.eqb (node_is_ephemeral a) (node_is_ephemeral b)
  && Bool.eqb (node_is_sequental a) (node_is_sequental b)
  && bool_decide (node_children a = node_children b).

(** Field updates the handlers make. *)
Definition set_stat (f : Stat → Stat) (n : KeeperNode) : KeeperNode :=
  mkNode (node_data n) (node_acl_id n) (node_is_ephemeral n) (node_is_sequental n)
    (f (node_stat n)) (node_children n).
Definition set_children (f : gset string → gset string) (n : KeeperNode) : KeeperNode :=
  mkNode (node_data n) (node_acl_id n) (node_is_ephemeral n) (node_is_sequental n)
    (node_stat n) (f (node_children n)).

Definition stat_cversion (f : Z → Z) (st : Stat) : Stat :=
  mkStat (czxid st) (mzxid st) (ctime st) (mtime st) (version st) (f (cversion st))
    (aversion st) (ephemeralOwner st) (dataLength st) (numChildren st) (pzxid st).
Definition stat_numChildren (f : Z → Z) (st : Stat) : Stat :=
  mkStat (czxid st) (mzxid st) (ctime st) (mtime st) (version st) (cversion st)
    (aversion st) (ephemeralOwner st) (dataLength st) (f (numChildren st)) (pzxid st).
Definition stat_pzxid (z : Z) (st : Stat) : Stat :=
  mkStat (czxid st) (mzxid st) (ctime st) (mtime st) (version st) (cversion st)
    (aversion st) (ephemeralOwner st) (dataLength st) (numChildren st) z.

(** ** ConcurrentMap

    The interface the store programs against, with its laws in terms of the
    finite map the container stands for. *)

Class StringMap (V M : Type) : Type := {
  sm_get : string → M → option V;
  sm_emplace : string → V → M → M;
  sm_erase : string → M → M;
  sm_size : M → nat
}.

Class StringMapLaws (V M : Type) `{StringMap V M} (wf : M → Prop) (abs : M → gmap string V)
    : Prop := {
  law_get m k : wf m → sm_get k m = abs m !! k;
  law_emplace m k v : wf m → wf (sm_emplace k v m) ∧ abs (sm_emplace k v m) = <[k := v]> (abs m);
  law_erase m k : wf m → wf (sm_erase k m) ∧ abs (sm_erase k m) = delete k (abs m);
  law_size m : wf m → sm_size m = size (abs m)
}.

(** [maps_]: the array of inner maps. *)
Abbreviation ConcurrentMap V := (list (gmap string V)).

Section ConcurrentMap.
Context {V : Type} (NumBlocks : nat) (hash : string → Z).

Definition ConcurrentMap_new : ConcurrentMap V := replicate NumBlocks ∅.

(** The hash is a [size_t]. *)
Definition blockFor (key : string) : nat := Z.to_nat (u64 (hash key) mod Z.of_nat NumBlocks).

(** [mapFor]: the inner map of a key. *)
Definition mapFor (key : string) (m : ConcurrentMap V) : gmap string V :=
  default ∅ (m !! blockFor key).

Definition cm_get (key : string) (m : ConcurrentMap V) : option V := mapFor key m !! key.
Definition cm_count (key : string) (m : ConcurrentMap V) : Z :=
  if cm_get key m is Some _ then 1 else 0.

(** [emplace] returns whether the key is new, [erase] how many were removed. *)
Definition cm_emplace (key : string) (v : V) (m : ConcurrentMap V) : ConcurrentMap V * bool :=
  (<[blockFor key := <[key := v]> (mapFor key m)]> m,
   bool_decide (mapFor key m !! key = None)).
Definition cm_erase (key : string) (m : ConcurrentMap V) : ConcurrentMap V * bool :=
  (<[blockFor key := delete key (mapFor key m)]> m,
   bool_decide (is_Some (mapFor key m !! key))).

Definition cm_size (m : ConcurrentMap V) : nat := foldl (λ s im, s + size im)%nat O m.

(** [forEach] over every block: the elements in the order they are visited. *)
Definition cm_elements (m : ConcurrentMap V) : list (string * V) := m ≫= map_to_list.

#[export] Instance ConcurrentMap_StringMap : StringMap V (ConcurrentMap V) := {
  sm_get := cm_get;
  sm_emplace k v m := (cm_emplace k v m).1;
  sm_erase k m := (cm_erase k m).1;
  sm_size := cm_size
}.

(** Every key sits in the block its hash selects. *)
Definition ConcurrentMap_wf (m : ConcurrentMap V) : Prop :=
  length m = NumBlocks ∧
  ∀ i im k, m !! i = Some im → is_Some (im !! k) → i = blockFor k.

Definition ConcurrentMap_abs (m : ConcurrentMap V) : gmap string V := ⋃ m.

Context (Hblocks : (0 < NumBlocks)%nat).

Lemma blockFor_lt k : (blockFor k < NumBlocks)%nat.
Proof.
  unfold blockFor. pose proof (Z.mod_pos_bound (u64 (hash k)) (Z.of_nat NumBlocks)). lia.
Qed.

Lemma lookup_abs_list (l : list (gmap string V)) off k :
  (∀ i im, l !! i = Some im → is_Some (im !! k) → (off + i)%nat = blockFor k) →
  (⋃ l) !! k = (if decide (off ≤ blockFor k)%nat then l !! (blockFor k - off)%nat else None) ≫= (.!! k).
Proof.
  revert off. induction l as [|im l IH]; intros off H; simpl.
  { rewrite lookup_empty. by case_decide. }
  rewrite lookup_union, (IH (S off)).
  2:{ intros i im' Hi Hk. replace (S off + i)%nat with (off + S i)%nat by lia. eapply H; eauto. }
  destruct (im !! k) as [v|] eqn:Hk.
  - pose proof (H O im eq_refl ltac:(eauto)) as E.
    rewrite (decide_False (P := (S off ≤ blockFor k)%nat)), decide_True by lia.
    replace (blockFor k - off)%nat with O by lia. simpl. by rewrite Hk.
  - rewrite (left_id None union). repeat case_decide; try lia; simpl; [| |done].
    + by replace (blockFor k - off)%nat with (S (blockFor k - S off))%nat by lia.
    + replace (blockFor k - off)%nat with O by lia. simpl. by rewrite Hk.
Qed.

Lemma lookup_abs m k : ConcurrentMap_wf m → ConcurrentMap_abs m !! k = mapFor k m !! k.
Proof.
  intros [_ H]. unfold ConcurrentMap_abs.
  rewrite (lookup_abs_list m O) by (intros i im Hi Hk; by apply (H i im)).
  rewrite decide_True by lia. rewrite Nat.sub_0_r. unfold mapFor.
  destruct (m !! blockFor k); simpl; [done|]. by rewrite lookup_empty.
Qed.

(** Replacing the block of [k] by one that agrees with it off [k]. *)
Lemma replace_block m k im' :
  ConcurrentMap_wf m →
  (∀ j, j ≠ k → im' !! j = mapFor k m !! j) →
  ConcurrentMap_wf (<[blockFor k := im']> m) ∧
  ∀ j, ConcurrentMap_abs (<[blockFor k := im']> m) !! j =
       if decide (j = k) then im' !! k else ConcurrentMap_abs m !! j.
Proof.
  intros Hwf Him. pose proof Hwf as [Hl H].
  assert (blockFor k < length m)%nat as Hk by (rewrite Hl; apply blockFor_lt).
  assert (ConcurrentMap_wf (<[blockFor k := im']> m)) as Hwf'.
  { split; [by rewrite length_insert|]. intros i im j.
    destruct (decide (i = blockFor k)) as [->|Hne].
    - rewrite list_lookup_insert_eq by done. intros [= <-] Hj.
      destruct (decide (j = k)) as [->|Hjk]; [done|]. rewrite Him in Hj by done.
      unfold mapFor in Hj. destruct (m !! blockFor k) eqn:E; simpl in Hj.
      + by eapply H.
      + rewrite lookup_empty in Hj. by destruct Hj.
    - rewrite list_lookup_insert_ne by done. apply H. }
  split; [done|]. intros j. rewrite !lookup_abs by done. unfold mapFor at 1.
  destruct (decide (blockFor j = blockFor k)) as [E|E].
  - rewrite E, list_lookup_insert_eq by done. simpl. case_decide as Hj; [by subst|].
    rewrite Him by done. unfold mapFor. by rewrite E.
  - rewrite list_lookup_insert_ne by done. rewrite decide_False by congruence. done.
Qed.

Lemma foldl_size (l : list (gmap string V)) n :
  foldl (λ s im, s + size im)%nat n l = (n + sum_list_with size l)%nat.
Proof. revert n. induction l; intros n; simpl; [lia|]. rewrite IHl. lia. Qed.

Lemma size_union_disjoint_list (l : list (gmap string V)) :
  (∀ i j a b k, l !! i = Some a → l !! j = Some b → is_Some (a !! k) → is_Some (b !! k) → i = j) →
  size (⋃ l) = sum_list_with size l.
Proof.
  induction l as [|im l IH]; intros H; simpl; [apply map_size_empty|].
  assert (im ##ₘ ⋃ l) as Hd.
  { apply map_disjoint_spec. intros k x y Hx Hy.
    exfalso.
    assert (∃ j b, l !! j = Some b ∧ is_Some (b !! k)) as (j & b & Hj & Hb).
    { clear -Hy. induction l as [|b l IHl]; simpl in Hy; [by rewrite lookup_empty in Hy|].
      apply lookup_union_Some_raw in Hy as [Hy|[_ Hy]].
      - exists O, b. eauto.
      - destruct (IHl Hy) as (j & b' & Hj & Hb'). by exists (S j), b'. }
    by specialize (H O (S j) im b k eq_refl Hj ltac:(eauto) Hb). }
  rewrite map_size_disj_union by done. f_equal. apply IH.
  intros i j a b k Hi Hj Ha Hb. by specialize (H (S i) (S j) a b k Hi Hj Ha Hb) as [=].
Qed.

Lemma cm_size_abs m : ConcurrentMap_wf m → cm_size m = size (ConcurrentMap_abs m).
Proof.
  intros [_ H]. unfold cm_size, ConcurrentMap_abs. rewrite foldl_size, size_union_disjoint_list; [done|].
  intros i j a b k Hi Hj Ha Hb. rewrite (H i a k), (H j b k); done.
Qed.

Lemma ConcurrentMap_new_wf :
  ConcurrentMap_wf ConcurrentMap_new ∧ ConcurrentMap_abs ConcurrentMap_new = ∅.
Proof.
  assert (ConcurrentMap_wf ConcurrentMap_new) as Hwf.
  { split; [apply length_replicate|]. intros i im k [-> _]%lookup_replicate [x Hx].
    by rewrite lookup_empty in Hx. }
  split; [done|]. apply map_eq. intros k. rewrite lookup_abs, lookup_empty by done.
  unfold mapFor, ConcurrentMap_new. destruct (replicate NumBlocks ∅ !! _) as [im|] eqn:E; simpl.
  - apply lookup_replicate in E as [-> _]. apply lookup_empty.
  - apply lookup_empty.
Qed.

#[export] Instance ConcurrentMap_laws :
  StringMapLaws V (ConcurrentMap V) ConcurrentMap_wf ConcurrentMap_abs.
Proof.
  split; simpl.
  - intros m k Hwf. by rewrite lookup_abs.
  - intros m k v Hwf. destruct (replace_block m k (<[k := v]> (mapFor k m)) Hwf) as [H1 H2].
    { intros j Hj. by rewrite lookup_insert_ne. }
    split; [done|]. apply map_eq. intros j. rewrite H2. case_decide as E; [subst|].
    + by rewrite !lookup_insert_eq.
    + by rewrite lookup_insert_ne.
  - intros m k Hwf. destruct (replace_block m k (delete k (mapFor k m)) Hwf) as [H1 H2].
    { intros j Hj. by rewrite lookup_delete_ne. }
    split; [done|]. apply map_eq. intros j. rewrite H2. case_decide as E; [subst|].
    + by rewrite !lookup_delete_eq.
    + by rewrite lookup_delete_ne.
  - apply cm_size_abs.
Qed.
End ConcurrentMap.

(** ** Properties *)

(** The container of sixteen hash maps behaves as one finite map, whatever
    the hash function is: for any sequence of insertions and deletions, a lookup
    answers the last insertion not deleted since, and the size is the number of
    keys. *)
Theorem container_is_a_map {V} (hash : string → Z) (ops : list (string * option V)) k :
  let step m '(key, o) :=
    match o with Some v => (cm_emplace 16 hash key v m).1 | None => (cm_erase 16 hash key m).1 end in
  let spec m '(key, o) := match o with Some v => <[key := v]> m | None => delete key m end in
  let m := foldl step (ConcurrentMap_new 16) ops in
  let a := foldl spec (∅ : gmap string V) ops in
  cm_get 16 hash k m = a !! k ∧ cm_size m = size a.
Proof.
  intros step spec.
  pose proof (ConcurrentMap_laws (V := V) 16 hash ltac:(lia)) as L.
  assert (∀ ops m, ConcurrentMap_wf 16 hash m →
    ConcurrentMap_wf 16 hash (foldl step m ops) ∧
    ConcurrentMap_abs (foldl step m ops) = foldl spec (ConcurrentMap_abs m) ops) as H.
  { clear ops. intros ops. induction ops as [|[key [v|]] ops IH]; intros m Hm; [done|..]; cbn [foldl].
    - destruct (law_emplace (StringMapLaws := L) m key v Hm) as [W E]. destruct (IH _ W) as [W' E'].
      split; [done|]. etrans; [exact E'|]. f_equal. exact E.
    - destruct (law_erase (StringMapLaws := L) m key Hm) as [W E]. destruct (IH _ W) as [W' E'].
      split; [done|]. etrans; [exact E'|]. f_equal. exact E. }
  destruct (ConcurrentMap_new_wf (V := V) 16 hash ltac:(lia)) as [W E]. destruct (H ops _ W) as [W' E'].
  rewrite E in E'. cbn zeta. rewrite <-E'. 
  split; [exact (law_get (StringMapLaws := L) _ k W')|exact (law_size (StringMapLaws := L) _ W')].
Qed.
