(* ===== verification/KeeperStore.v ===== *)
(** * The data tree and the request handlers: src/Service/KeeperStore.{h,cpp}

    The state of a replica, one definition per handler ([process], [checkAuth],
    [processWatches] and the undo closures of every request class), the
    dispatch of [processRequest], and the session and introspection methods.

    Mutexes serialize the accesses and are left out. A [shared_ptr<KeeperNode>]
    of the container is a value of the map: no handler keeps a pointer to a
    node across a change of the same node made through another path. The
    response queue is the second component of the state of [processRequest].
    SHA-1 and Base64 (Poco) are parameters. *)

From S2P Require Import Prelude Types ACLMap SessionExpiryQueue KeeperPaths KeeperNode.
From stdpp Require Import base gmap sets list strings option sorting pretty.
From Stdlib Require Import ZArith Lia Ascii.
Open Scope Z_scope.

Abbreviation SessionIDs := (list Z).
Abbreviation Watches := (gmap string SessionIDs).

Record KeeperStore : Type := mkStore {
  session_id_counter : Z;
  session_and_auth : gmap Z AuthIDs;
  container : gmap string KeeperNode;
  ephemerals : gmap Z (gset string);
  session_expiry_queue : SessionExpiryQueue;
  session_and_timeout : gmap Z Z;
  sessions_and_watchers : gmap Z (gset string);
  watches : Watches;
  list_watches : Watches;
  acl_map : ACLMap;
  zxid : Z;
  finalized : bool;
  super_digest : string
}.

Definition KeeperStore_new (tick_time_ms : Z) (super_digest_ : string) : KeeperStore :=
  mkStore 1 ∅ {["/" := KeeperNode_new]} ∅ (Queue_new tick_time_ms) ∅ ∅ ∅ ∅ ACLMap_empty 0
    false super_digest_.

(** Field updates. *)
Definition upd_counter (f : Z → Z) (s : KeeperStore)
    : KeeperStore :=
  mkStore (f (session_id_counter s)) (session_and_auth s) (container s) (ephemerals s)
    (session_expiry_queue s) (session_and_timeout s) (sessions_and_watchers s) (watches s)
    (list_watches s) (acl_map s) (zxid s) (finalized s) (super_digest s).
Definition upd_auth (f : gmap Z AuthIDs → gmap Z AuthIDs) (s : KeeperStore)
    : KeeperStore :=
  mkStore (session_id_counter s) (f (session_and_auth s)) (container s) (ephemerals s)
    (session_expiry_queue s) (session_and_timeout s) (sessions_and_watchers s) (watches s)
    (list_watches s) (acl_map s) (zxid s) (finalized s) (super_digest s).
Definition upd_container (f : gmap string KeeperNode → gmap string KeeperNode) (s : KeeperStore)
    : KeeperStore :=
  mkStore (session_id_counter s) (session_and_auth s) (f (container s)) (ephemerals s)
    (session_expiry_queue s) (session_and_timeout s) (sessions_and_watchers s) (watches s)
    (list_watches s) (acl_map s) (zxid s) (finalized s) (super_digest s).
Definition upd_ephemerals (f : gmap Z (gset string) → gmap Z (gset string)) (s : KeeperStore)
    : KeeperStore :=
  mkStore (session_id_counter s) (session_and_auth s) (container s) (f (ephemerals s))
    (session_expiry_queue s) (session_and_timeout s) (sessions_and_watchers s) (watches s)
    (list_watches s) (acl_map s) (zxid s) (finalized s) (super_digest s).
Definition upd_expiry (q : SessionExpiryQueue) (s : KeeperStore)
    : KeeperStore :=
  mkStore (session_id_counter s) (session_and_auth s) (container s) (ephemerals s) (q)
    (session_and_timeout s) (sessions_and_watchers s) (watches s) (list_watches s) (acl_map s)
    (zxid s) (finalized s) (super_digest s).
Definition upd_timeout (f : gmap Z Z → gmap Z Z) (s : KeeperStore)
    : KeeperStore :=
  mkStore (session_id_counter s) (session_and_auth s) (container s) (ephemerals s)
    (session_expiry_queue s) (f (session_and_timeout s)) (sessions_and_watchers s) (watches s)
    (list_watches s) (acl_map s) (zxid s) (finalized s) (super_digest s).
Definition upd_watchers (f : gmap Z (gset string) → gmap Z (gset string)) (s : KeeperStore)
    : KeeperStore :=
  mkStore (session_id_counter s) (session_and_auth s) (container s) (ephemerals s)
    (session_expiry_queue s) (session_and_timeout s) (f (sessions_and_watchers s)) (watches s)
    (list_watches s) (acl_map s) (zxid s) (finalized s) (super_digest s).
Definition upd_watches (ws : Watches) (s : KeeperStore)
    : KeeperStore :=
  mkStore (session_id_counter s) (session_and_auth s) (container s) (ephemerals s)
    (session_expiry_queue s) (session_and_timeout s) (sessions_and_watchers s) (ws)
    (list_watches s) (acl_map s) (zxid s) (finalized s) (super_digest s).
Definition upd_list_watches (ws : Watches) (s : KeeperStore)
    : KeeperStore :=
  mkStore (session_id_counter s) (session_and_auth s) (container s) (ephemerals s)
    (session_expiry_queue s) (session_and_timeout s) (sessions_and_watchers s) (watches s) (ws)
    (acl_map s) (zxid s) (finalized s) (super_digest s).
Definition upd_acl (f : ACLMap → ACLMap) (s : KeeperStore)
    : KeeperStore :=
  mkStore (session_id_counter s) (session_and_auth s) (container s) (ephemerals s)
    (session_expiry_queue s) (session_and_timeout s) (sessions_and_watchers s) (watches s)
    (list_watches s) (f (acl_map s)) (zxid s) (finalized s) (super_digest s).
Definition upd_zxid (z : Z) (s : KeeperStore)
    : KeeperStore :=
  mkStore (session_id_counter s) (session_and_auth s) (container s) (ephemerals s)
    (session_expiry_queue s) (session_and_timeout s) (sessions_and_watchers s) (watches s)
    (list_watches s) (acl_map s) (z) (finalized s) (super_digest s).
Definition upd_finalized (v : bool) (s : KeeperStore)
    : KeeperStore :=
  mkStore (session_id_counter s) (session_and_auth s) (container s) (ephemerals s)
    (session_expiry_queue s) (session_and_timeout s) (sessions_and_watchers s) (watches s)
    (list_watches s) (acl_map s) (zxid s) (v) (super_digest s).

Abbreviation STS := (ST KeeperStore exn).
Abbreviation Undo := (STS unit).

(** ** Helpers *)

(** [container.at(path)->...]: a missing node is a null pointer. *)
Definition modify_node (path : string) (f : KeeperNode → KeeperNode) : STS unit := λ s,
  match container s !! path with
  | None => (s, Crash)
  | Some n => (upd_container <[path := f n]> s, Ret tt)
  end.

(** [sets[key].emplace(x)] and [sets[key].erase(x)] of a map of sets: the entry
    is created when it is missing. *)
Definition set_emplace (key : Z) (x : string) (m : gmap Z (gset string)) : gmap Z (gset string) :=
  <[key := {[x]} ∪ default ∅ (m !! key)]> m.
Definition set_erase (key : Z) (x : string) (m : gmap Z (gset string)) : gmap Z (gset string) :=
  <[key := default ∅ (m !! key) ∖ {[x]}]> m.

(** [watches[path].emplace_back(session_id)] *)
Definition watch_add (path : string) (session_id : Z) (ws : Watches) : Watches :=
  <[path := default [] (ws !! path) ++ [session_id]]> ws.

Fixpoint count_char (c : ascii) (s : string) : nat :=
  match s with
  | EmptyString => O
  | String a s => if bool_decide (a = c) then S (count_char c s) else count_char c s
  end.

(** What [boost::split] on a colon puts in the first slot. *)
Fixpoint before_colon (s : string) : string :=
  match s with
  | EmptyString => EmptyString
  | String a s => if bool_decide (a = ":"%char) then EmptyString else String a (before_colon s)
  end.

(** ** Access control *)

Definition checkACL (permission : Z) (node_acls : ACLs) (session_auths : AuthIDs) : bool :=
  if bool_decide (node_acls = []) then true
  else if existsb (λ a, bool_decide (auth_scheme a = "super")) session_auths then true
  else
    existsb (λ acl,
      negb (Z.land (acl_permissions acl) permission =? 0)
      && ((bool_decide (acl_scheme acl = "world") && bool_decide (acl_aid acl = "anyone"))
          || existsb (λ a, bool_decide (acl_scheme acl = auth_scheme a)
                           && bool_decide (acl_aid acl = auth_id a)) session_auths))
      node_acls.

(** The loop of [fixupACL] over the requested entries: [None] is the early
    [return false]. *)
Fixpoint fixupACL_loop (request_acls : ACLs) (current_ids : AuthIDs)
    (valid_found : bool) (result_acls : ACLs) : option (bool * ACLs) :=
  match request_acls with
  | [] => Some (valid_found, result_acls)
  | a :: rest =>
      if bool_decide (acl_scheme a = "auth") then
        fixupACL_loop rest current_ids
          (valid_found || negb (bool_decide (current_ids = [])))
          (result_acls ++ map (λ c, mkACL (acl_permissions a) (auth_scheme c) (auth_id c)) current_ids)
      else if bool_decide (acl_scheme a = "world") && bool_decide (acl_aid a = "anyone") then
        fixupACL_loop rest current_ids true (result_acls ++ [a])
      else if bool_decide (acl_scheme a = "digest") then
        if negb (Nat.eqb (count_char ":"%char (acl_aid a)) 1) then None
        else fixupACL_loop rest current_ids true (result_acls ++ [a])
      else fixupACL_loop rest current_ids valid_found result_acls
  end.

(** [fixupACL]: the returned flag and, when it is set, [result_acls]. *)
Definition fixupACL (request_acls : ACLs) (current_ids : AuthIDs) : option ACLs :=
  if bool_decide (request_acls = []) then Some []
  else
    match fixupACL_loop request_acls current_ids false [] with
    | Some (true, acls) => Some acls
    | Some (false, _) | None => None
    end.

(** The body shared by the [checkAuth] overrides: the permission is looked up in
    the ACL of [path], or of its parent. *)
Definition checkAuth_at (path : string) (permission : Z) (session_id : Z) (s : KeeperStore)
    : outcome exn bool :=
  match container s !! path with
  | None => Ret true
  | Some node =>
      match convertNumber (node_acl_id node) (acl_map s) with
      | Throw e => Throw e
      | Crash => Crash
      | Ret node_acls =>
          if bool_decide (node_acls = []) then Ret true
          else Ret (checkACL permission node_acls (default [] (session_and_auth s !! session_id)))
      end
  end.

(** [checkAuth] of a request that is not a multi. *)
Definition checkAuth_one (r : ZooKeeperRequest) (session_id : Z) (s : KeeperStore)
    : outcome exn bool :=
  match req_body r with
  | CreateRequest path _ _ _ _ => checkAuth_at (parentPath path) ACL_Create session_id s
  | RemoveRequest path _ => checkAuth_at (parentPath path) ACL_Delete session_id s
  | GetRequest path | ListRequest path | SimpleListRequest path | CheckRequest path _ =>
      checkAuth_at path ACL_Read session_id s
  | SetRequest path _ _ => checkAuth_at path ACL_Write session_id s
  | SetACLRequest path _ _ => checkAuth_at path ACL_Admin session_id s
  | GetACLRequest path => checkAuth_at path (Z.lor ACL_Admin ACL_Read) session_id s
  | _ => Ret true
  end.

Fixpoint checkAuth_all (rs : list ZooKeeperRequest) (session_id : Z) (s : KeeperStore)
    : outcome exn bool :=
  match rs with
  | [] => Ret true
  | r :: rs =>
      match checkAuth_one r session_id s with
      | Ret true => checkAuth_all rs session_id s
      | o => o
      end
  end.

Definition checkAuth (r : ZooKeeperRequest) (session_id : Z) (s : KeeperStore)
    : outcome exn bool :=
  match req_body r with
  | MultiRequest rs => checkAuth_all rs session_id s
  | _ => checkAuth_one r session_id s
  end.

(** ** Watches *)

Definition ResponseForSession : Type := Z * ZooKeeperResponse.

Definition watch_response (path : string) (event : Event) : ZooKeeperResponse :=
  mkResponse WATCH_XID (-1) ZOK 0 (WatchResponse (event_code event) STATE_CONNECTED path).

(** One lookup of [processWatchesImpl]: the sessions registered on [path] are
    notified and the registration is erased. *)
Definition fire (path : string) (event : Event) (ws : Watches)
    : list ResponseForSession * Watches :=
  match ws !! path with
  | None => ([], ws)
  | Some sessions => (map (λ sid, (sid, watch_response path event)) sessions, delete path ws)
  end.

Fixpoint fire_list (parent_path : string) (paths : list string) (ws : Watches)
    : list ResponseForSession * Watches :=
  match paths with
  | [] => ([], ws)
  | p :: paths =>
      let '(rs, ws) := fire p (if bool_decide (p = parent_path) then CHILD else DELETED) ws in
      let '(rs', ws) := fire_list parent_path paths ws in
      (rs ++ rs', ws)
  end.

Definition processWatchesImpl (path : string) (ws lws : Watches) (event_type : Event)
    : list ResponseForSession * Watches * Watches :=
  let '(result, ws) := fire path event_type ws in
  let parent_path := parentPath path in
  let paths_to_check_for_list_watches :=
    match event_type with
    | CREATED => [parent_path]
    | DELETED => [path; parent_path]
    | _ => []
    end in
  let '(result', lws) := fire_list parent_path paths_to_check_for_list_watches lws in
  (result ++ result', ws, lws).

Definition processWatches_one (r : ZooKeeperRequest) (ws lws : Watches)
    : list ResponseForSession * Watches * Watches :=
  match req_body r with
  | CreateRequest path _ _ _ _ => processWatchesImpl path ws lws CREATED
  | RemoveRequest path _ => processWatchesImpl path ws lws DELETED
  | SetRequest path _ _ => processWatchesImpl path ws lws CHANGED
  | _ => ([], ws, lws)
  end.

Fixpoint processWatches_all (rs : list ZooKeeperRequest) (ws lws : Watches)
    : list ResponseForSession * Watches * Watches :=
  match rs with
  | [] => ([], ws, lws)
  | r :: rs =>
      let '(res, ws, lws) := processWatches_one r ws lws in
      let '(res', ws, lws) := processWatches_all rs ws lws in
      (res ++ res', ws, lws)
  end.

Definition processWatches (r : ZooKeeperRequest) (ws lws : Watches)
    : list ResponseForSession * Watches * Watches :=
  match req_body r with
  | MultiRequest rs => processWatches_all rs ws lws
  | _ => processWatches_one r ws lws
  end.

Definition shouldIncreaseZxid (r : ZooKeeperRequest) : bool :=
  match req_body r with
  | GetRequest _ | SetWatchesRequest _ _ _ _ | ExistsRequest _ | AuthRequest _ _ _
  | HeartbeatRequest | ListRequest _ | SimpleListRequest _ => false
  | _ => true
  end.

(** ** Handlers

    A handler returns its response and, when it changed something a multi may
    have to take back, its undo closure. *)

Abbreviation Processed := (ZooKeeperResponse * option Undo)%type.

Definition fail (r : ZooKeeperRequest) (e : Error) : STS Processed :=
  mret (set_error e (makeResponse r), None).

Definition succeed (b : ResponseBody) (undo : option Undo) : STS Processed :=
  mret (new_response b, undo).

Definition process_heartbeat (r : ZooKeeperRequest) : STS Processed :=
  mret (makeResponse r, None).

Definition process_setwatches (r : ZooKeeperRequest) : STS Processed :=
  mret (makeResponse r, None).

Definition process_sync (r : ZooKeeperRequest) (path : string) : STS Processed :=
  succeed (SyncResponse path) None.

Definition process_setseqnum (r : ZooKeeperRequest) (path : string) (seq_num : Z)
    : STS Processed :=
  modify_node path (set_stat (stat_cversion (λ _, seq_num)));;
  mret (makeResponse r, None).

(** The ACL of a request for [session_id]: [None] when [fixupACL] refuses it.
    [session_and_auth[session_id]] creates the entry. *)
Definition resolve_acls (acls : ACLs) (session_id : Z) : STS (option Z) :=
  modify (upd_auth (λ m, <[session_id := default [] (m !! session_id)]> m));;
  s ← get;
  match fixupACL acls (default [] (session_and_auth s !! session_id)) with
  | None => mret None
  | Some node_acls =>
      let '(am, acl_id) := convertACLs node_acls (acl_map s) in
      modify (upd_acl (λ _, addUsage acl_id 1 am));;
      mret (Some acl_id)
  end.

(** The branch of a create request that has an ACL list. *)
Definition create_acl (acls : ACLs) (session_id : Z) : STS (option Z) :=
  if bool_decide (acls = []) then mret (Some 0) else resolve_acls acls session_id.

Definition create_node (data : string) (is_ephemeral is_sequential : bool)
    (acl_id zx session_id time : Z) : KeeperNode :=
  mkNode data acl_id is_ephemeral is_sequential
    (mkStat zx zx time time 0 0 0 (if is_ephemeral then session_id else 0)
       (s32 (Z.of_nat (String.length data))) 0 zx) ∅.

(** What a create does to the parent, and what its undo does. *)
Definition parent_add (child : string) (zx : Z) (n : KeeperNode) : KeeperNode :=
  set_stat (λ st, stat_pzxid zx (stat_numChildren (λ k, s32 (k + 1))
                    (stat_cversion (λ k, s32 (k + 1)) st)))
    (set_children (λ c, {[child]} ∪ c) n).
Definition parent_unadd (child : string) (zx : Z) (n : KeeperNode) : KeeperNode :=
  set_children (λ c, c ∖ {[child]})
    (set_stat (λ st, stat_pzxid zx (stat_numChildren (λ k, s32 (k - 1))
                       (stat_cversion (λ k, s32 (k - 1)) st))) n).

Definition create_undo (session_id : Z) (path_created : string) (pz : Z) (is_ephemeral : bool)
    (parent_path child_path : string) (acl_id : Z) : Undo :=
  modify (upd_container (delete path_created));;
  modify (upd_acl (removeUsage acl_id));;
  modify (λ s, if is_ephemeral then upd_ephemerals (set_erase session_id path_created) s else s);;
  modify_node parent_path (parent_unadd child_path pz).

Definition process_create (r : ZooKeeperRequest) (path data : string)
    (is_ephemeral is_sequential : bool) (acls : ACLs) (zx session_id time : Z)
    : STS Processed :=
  s ← get;
  match container s !! parentPath path with
  | None => fail r ZNONODE
  | Some parent =>
      if node_is_ephemeral parent then fail r ZNOCHILDRENFOREPHEMERALS
      else
        let path_created :=
          if is_sequential then (path +:+ seq_num_str (cversion (node_stat parent)))%string
          else path in
        if bool_decide (is_Some (container s !! path_created)) then fail r ZNODEEXISTS
        else
          let child_path := getBaseName path_created in
          if bool_decide (child_path = "") then fail r ZBADARGUMENTS
          else
            acl ← create_acl acls session_id;
            match acl with
            | None => fail r ZINVALIDACL
            | Some acl_id =>
                modify_node (parentPath path) (parent_add child_path zx);;
                modify (upd_container
                  <[path_created := create_node data is_ephemeral is_sequential acl_id zx session_id time]>);;
                modify (λ s, if is_ephemeral
                             then upd_ephemerals (set_emplace session_id path_created) s else s);;
                succeed (CreateResponse path_created)
                  (Some (create_undo session_id path_created (pzxid (node_stat parent)) is_ephemeral
                           (parentPath path) child_path acl_id))
            end
  end.

Definition process_get (r : ZooKeeperRequest) (path : string) : STS Processed :=
  s ← get;
  match container s !! path with
  | None => fail r ZNONODE
  | Some node => succeed (GetResponse (node_data node) (statForResponse node)) None
  end.

Definition parent_remove (child : string) (zx : Z) (n : KeeperNode) : KeeperNode :=
  set_children (λ c, c ∖ {[child]})
    (set_stat (λ st, stat_pzxid zx (stat_numChildren (λ k, s32 (k - 1)) st)) n).
Definition parent_unremove (child : string) (zx : Z) (n : KeeperNode) : KeeperNode :=
  set_children (λ c, {[child]} ∪ c)
    (set_stat (λ st, stat_pzxid zx (stat_numChildren (λ k, s32 (k + 1)) st)) n).

Definition remove_undo (prev_node : KeeperNode) (path : string) (pz : Z) (child_basename : string)
    : Undo :=
  modify (λ s, if node_is_ephemeral prev_node
               then upd_ephemerals (set_emplace (ephemeralOwner (node_stat prev_node)) path) s
               else s);;
  modify (upd_acl (addUsage (node_acl_id prev_node) 1));;
  modify (upd_container <[path := prev_node]>);;
  modify_node (parentPath path) (parent_unremove child_basename pz).

Definition process_remove (r : ZooKeeperRequest) (path : string) (ver zx : Z) : STS Processed :=
  s ← get;
  match container s !! path with
  | None => fail r ZNONODE
  | Some node =>
      if negb (ver =? -1) && negb (ver =? version (node_stat node)) then fail r ZBADVERSION
      else if negb (bool_decide (node_children node = ∅)) then fail r ZNOTEMPTY
      else
        let prev_node := KeeperNode_clone node in
        let child_basename := getBaseName path in
        match container s !! parentPath path with
        | None => crash
        | Some parent =>
            modify_node (parentPath path) (parent_remove child_basename zx);;
            modify (upd_acl (removeUsage (node_acl_id prev_node)));;
            modify (upd_container (delete path));;
            modify (λ s, if node_is_ephemeral prev_node
                         then upd_ephemerals (set_erase (ephemeralOwner (node_stat prev_node)) path) s
                         else s);;
            succeed RemoveResponse
              (Some (remove_undo prev_node path (pzxid (node_stat parent)) child_basename))
        end
  end.

Definition process_exists (r : ZooKeeperRequest) (path : string) : STS Processed :=
  s ← get;
  match container s !! path with
  | None => fail r ZNONODE
  | Some node => succeed (ExistsResponse (statForResponse node)) None
  end.

Definition node_set (data : string) (zx time : Z) (n : KeeperNode) : KeeperNode :=
  let st := node_stat n in
  mkNode data (node_acl_id n) (node_is_ephemeral n) (node_is_sequental n)
    (mkStat (czxid st) zx (ctime st) time (s32 (version st + 1)) (cversion st) (aversion st)
       (ephemeralOwner st) (s32 (Z.of_nat (String.length data))) (numChildren st) (pzxid st))
    (node_children n).

Definition set_undo (prev_node : KeeperNode) (path : string) : Undo :=
  modify (upd_container <[path := prev_node]>).

Definition process_set (r : ZooKeeperRequest) (path data : string) (ver zx time : Z)
    : STS Processed :=
  s ← get;
  match container s !! path with
  | None => fail r ZNONODE
  | Some node =>
      if (ver =? -1) || (ver =? version (node_stat node)) then
        let prev_node := KeeperNode_clone node in
        let node := node_set data zx time node in
        modify (upd_container <[path := node]>);;
        succeed (SetResponse (statForResponse node)) (Some (set_undo prev_node path))
      else fail r ZBADVERSION
  end.

(** [std::sort] on the names. *)
Definition name_le (a b : string) : Prop := String.leb a b = true.
#[export] Instance name_le_dec a b : Decision (name_le a b).
Proof. unfold name_le. apply _. Defined.

Definition process_list (r : ZooKeeperRequest) (path : string) : STS Processed :=
  s ← get;
  match container s !! path with
  | None => fail r ZNONODE
  | Some node =>
      if bool_decide (path = "") then throw LOGICAL_ERROR
      else
        succeed (ListResponse (merge_sort name_le (elements (node_children node)))
                     (statForResponse node)) None
  end.

Definition process_check (r : ZooKeeperRequest) (path : string) (ver : Z) : STS Processed :=
  s ← get;
  match container s !! path with
  | None => fail r ZNONODE
  | Some node =>
      if negb (ver =? -1) && negb (ver =? version (node_stat node)) then fail r ZBADVERSION
      else succeed CheckResponse None
  end.

Definition node_set_acl (acl_id : Z) (n : KeeperNode) : KeeperNode :=
  let st := node_stat n in
  mkNode (node_data n) acl_id (node_is_ephemeral n) (node_is_sequental n)
    (mkStat (czxid st) (mzxid st) (ctime st) (mtime st) (version st) (cversion st)
       (s32 (aversion st + 1)) (ephemeralOwner st) (dataLength st) (numChildren st) (pzxid st))
    (node_children n).

Definition process_setacl (r : ZooKeeperRequest) (path : string) (acls : ACLs)
    (ver session_id : Z) : STS Processed :=
  s ← get;
  match container s !! path with
  | None => fail r ZNONODE
  | Some node =>
      if negb (ver =? -1) && negb (ver =? aversion (node_stat node)) then fail r ZBADVERSION
      else
        acl ← resolve_acls acls session_id;
        match acl with
        | None => fail r ZINVALIDACL
        | Some acl_id =>
            let node := node_set_acl acl_id node in
            modify (upd_container <[path := node]>);;
            succeed (SetACLResponse (node_stat node)) None
        end
  end.

Definition process_getacl (r : ZooKeeperRequest) (path : string) : STS Processed :=
  s ← get;
  match container s !! path with
  | None => fail r ZNONODE
  | Some node =>
      acl ← lift (convertNumber (node_acl_id node) (acl_map s));
      succeed (GetACLResponse acl (node_stat node)) None
  end.

(** [processRequest] works on the store and the response queue. *)
Abbreviation Queue := (list ResponseForSession).
Abbreviation STQ := (ST (KeeperStore * Queue) exn).

Section Store.
(** [Poco::SHA1Engine] and [Poco::Base64Encoder]. *)
Context (getSHA1 base64Encode : string → string).

Definition generateDigest (userdata : string) : string :=
  (before_colon userdata +:+ ":" +:+ base64Encode (getSHA1 userdata))%string.

Definition process_auth (r : ZooKeeperRequest) (scheme data : string) (session_id : Z)
    : STS Processed :=
  if negb (bool_decide (scheme = "digest")) || negb (Nat.eqb (count_char ":"%char data) 1) then
    fail r ZAUTHFAILED
  else
    let digest := generateDigest data in
    s ← get;
    let ids := default [] (session_and_auth s !! session_id) in
    let auth := mkAuthID scheme digest in
    modify (upd_auth <[session_id :=
      if bool_decide (digest = super_digest s) then ids ++ [mkAuthID "super" EmptyString]
      else if bool_decide (auth ∈ ids) then ids
      else ids ++ [auth]]>);;
    mret (makeResponse r, None).

(** [process] of every request class but multi. *)
Definition process_one (r : ZooKeeperRequest) (zx session_id time : Z) : STS Processed :=
  match req_body r with
  | HeartbeatRequest => process_heartbeat r
  | SetWatchesRequest _ _ _ _ => process_setwatches r
  | SyncRequest path => process_sync r path
  | AuthRequest _ scheme data => process_auth r scheme data session_id
  | CloseRequest => throw LOGICAL_ERROR
  | CreateRequest path data eph seq acls => process_create r path data eph seq acls zx session_id time
  | RemoveRequest path ver => process_remove r path ver zx
  | ExistsRequest path => process_exists r path
  | GetRequest path => process_get r path
  | SetRequest path data ver => process_set r path data ver zx time
  | ListRequest path | SimpleListRequest path => process_list r path
  | CheckRequest path ver => process_check r path ver
  | SetACLRequest path acls ver => process_setacl r path acls ver session_id
  | GetACLRequest path => process_getacl r path
  | SetSeqNumRequest path n => process_setseqnum r path n
  | MultiRequest _ | SessionIDRequest _ _ _ => throw LOGICAL_ERROR
  end.

(** The undo closures run from the last one made to the first. *)
Fixpoint run_undos (undos : list Undo) : Undo :=
  match undos with
  | [] => mret tt
  | u :: undos => u;; run_undos undos
  end.

Definition error_response (e : Error) : ZooKeeperResponse := set_error e (new_response ErrorResponse).

(** The loop of a multi: [finished] are the responses of the requests that
    succeeded so far, [undos] their undo closures, latest first. The first
    failure turns every response into an error response and undoes the rest; an
    exception undoes it and is thrown again. *)
Fixpoint multi_loop (rs : list ZooKeeperRequest) (finished : list ZooKeeperResponse)
    (undos : list Undo) (zx session_id time : Z) : STS (list ZooKeeperResponse) :=
  match rs with
  | [] => mret finished
  | r :: rs => λ s,
      match process_one r zx session_id time s with
      | (s', Ret (response, undo)) =>
          if bool_decide (resp_error response = ZOK) then
            multi_loop rs (finished ++ [response]) (option_list undo ++ undos) zx session_id time s'
          else
            (run_undos undos;;
             mret (map (λ x, error_response (resp_error x)) (finished ++ [response])
                   ++ map (λ _, error_response ZRUNTIMEINCONSISTENCY) rs)) s'
      | (s', Throw e) => (run_undos undos;; throw e) s'
      | (s', Crash) => (s', Crash)
      end
  end.

Definition process_multi (rs : list ZooKeeperRequest) (zx session_id time : Z) : STS Processed :=
  responses ← multi_loop rs [] [] zx session_id time;
  mret (new_response (MultiResponse responses), None).

Definition process (r : ZooKeeperRequest) (zx session_id time : Z) : STS Processed :=
  match req_body r with
  | MultiRequest rs => process_multi rs zx session_id time
  | _ => process_one r zx session_id time
  end.

(** The requests the constructor of the multi wrapper accepts. *)
Definition multi_allowed (r : ZooKeeperRequest) : bool :=
  match req_body r with
  | CreateRequest _ _ _ _ _ | RemoveRequest _ _ | SetRequest _ _ _ | CheckRequest _ _ => true
  | _ => false
  end.

(** [NuKeeperWrapperFactory::get], with the constructor it calls. *)
Definition factory_get {S} (r : ZooKeeperRequest) : ST S exn unit :=
  match req_body r with
  | SessionIDRequest _ _ _ => throw LOGICAL_ERROR
  | MultiRequest rs => if forallb multi_allowed rs then mret tt else throw BAD_ARGUMENTS
  | _ => mret tt
  end.

(** ** processRequest *)

Definition on_store {A} (m : STS A) : STQ A := λ '(s, q),
  let '(s', o) := m s in ((s', q), o).

Definition get_store : STQ KeeperStore := on_store get.

Definition set_response (responses : list ResponseForSession) (ignore_response : bool) : STQ unit :=
  λ '(s, q), ((s, if ignore_response then q else q ++ responses), Ret tt).

(** [getZXID]: the counter before it is incremented. *)
Definition getZXID : STS Z :=
  s ← get; modify (upd_zxid (s64 (zxid s + 1)));; mret (zxid s).

Definition on_expiry {A} (m : ST SessionExpiryQueue exn A) : STS A := λ s,
  let '(q, o) := m (session_expiry_queue s) in (upd_expiry q s, o).

(** [processWatchesImpl] on the tables of the store. *)
Definition trigger (path : string) (event : Event) (ignore_response : bool) : STQ unit :=
  s ← get_store;
  let '(responses, ws, lws) := processWatchesImpl path (watches s) (list_watches s) event in
  on_store (modify (λ s, upd_list_watches lws (upd_watches ws s)));;
  set_response responses ignore_response.

(** The removal of the ephemeral nodes of a session: [crash_on_missing] tells
    the loop of [finalize], which does not check for a missing parent, from the
    one of a close request, which logs it. *)
Definition detach_child (path : string) (crash_on_missing : bool) : STS unit :=
  s ← get;
  (if bool_decide (is_Some (container s !! parentPath path)) then
     modify_node (parentPath path)
       (λ n, set_children (λ c, c ∖ {[getBaseName path]})
               (set_stat (stat_numChildren (λ k, s32 (k - 1))) n))
   else if crash_on_missing then crash else mret tt);;
  modify (upd_container (delete path)).

Fixpoint close_ephemerals (paths : list string) (ignore_response : bool) : STQ unit :=
  match paths with
  | [] => mret tt
  | p :: paths =>
      on_store (detach_child p false);;
      trigger p DELETED ignore_response;;
      close_ephemerals paths ignore_response
  end.

(** One path of [clearDeadWatches] in one of the two tables. *)
Definition clear_path (session_id : Z) (path : string) (ws : Watches) : Watches :=
  match ws !! path with
  | None => ws
  | Some sessions =>
      let sessions := filter (λ sid, sid ≠ session_id) sessions in
      if bool_decide (sessions = []) then delete path ws else <[path := sessions]> ws
  end.

Definition clearDeadWatches (session_id : Z) : STS unit :=
  s ← get;
  match sessions_and_watchers s !! session_id with
  | None => mret tt
  | Some paths =>
      let clear ws := foldr (clear_path session_id) ws (elements paths) in
      modify (λ s, upd_watchers (delete session_id)
                     (upd_list_watches (clear (list_watches s)) (upd_watches (clear (watches s)) s)))
  end.

(** The zxid of a response: the last applied one when it is dictated. *)
Definition response_zxid (new_last_zxid : option Z) (increase : bool) : STS Z :=
  if bool_decide (is_Some new_last_zxid) || negb increase then zxid <$> get else getZXID.

Definition process_close (r : ZooKeeperRequest) (session_id : Z) (new_last_zxid : option Z)
    (ignore_response : bool) : STQ unit :=
  s ← get_store;
  match ephemerals s !! session_id with
  | Some paths =>
      close_ephemerals (elements paths) ignore_response;;
      on_store (modify (upd_ephemerals (delete session_id)))
  | None => mret tt
  end;;
  on_store (clearDeadWatches session_id);;
  z ← on_store (response_zxid new_last_zxid true);
  on_store (on_expiry (SessionExpiryQueue.remove session_id));;
  on_store (modify (upd_timeout (delete session_id)));;
  on_store (modify (upd_auth (delete session_id)));;
  set_response [(session_id, set_header (req_xid r) z (new_response CloseResponse))] ignore_response.

(** Registration of a watch for a session. *)
Definition register_watch (is_list : bool) (path : string) (session_id : Z) : STS unit :=
  modify (λ s,
    upd_watchers (set_emplace session_id path)
      (if is_list then upd_list_watches (watch_add path session_id (list_watches s)) s
       else upd_watches (watch_add path session_id (watches s)) s)).

Fixpoint setwatches_data (relative_zxid : Z) (paths : list string) (session_id : Z)
    (ignore_response : bool) : STQ unit :=
  match paths with
  | [] => mret tt
  | p :: paths =>
      on_store (register_watch false p session_id);;
      s ← get_store;
      match container s !! p with
      | None => trigger p DELETED ignore_response
      | Some node =>
          if mzxid (node_stat node) >? relative_zxid then trigger p CHANGED ignore_response
          else mret tt
      end;;
      setwatches_data relative_zxid paths session_id ignore_response
  end.

Fixpoint setwatches_exist (paths : list string) (session_id : Z) (ignore_response : bool)
    : STQ unit :=
  match paths with
  | [] => mret tt
  | p :: paths =>
      on_store (register_watch false p session_id);;
      s ← get_store;
      match container s !! p with
      | Some _ => trigger p CREATED ignore_response
      | None => mret tt
      end;;
      setwatches_exist paths session_id ignore_response
  end.

Fixpoint setwatches_list (relative_zxid : Z) (paths : list string) (session_id : Z)
    (ignore_response : bool) : STQ unit :=
  match paths with
  | [] => mret tt
  | p :: paths =>
      on_store (register_watch true p session_id);;
      s ← get_store;
      match container s !! p with
      | None => trigger p DELETED ignore_response
      | Some node =>
          if pzxid (node_stat node) >? relative_zxid then trigger p CHILD ignore_response
          else mret tt
      end;;
      setwatches_list relative_zxid paths session_id ignore_response
  end.

(** The branch of heartbeats. *)
Definition process_heartbeat_request (r : ZooKeeperRequest) (session_id time : Z)
    (ignore_response : bool) : STQ unit :=
  factory_get r;;
  s ← get_store;
  '(response, _) ← on_store (process r (zxid s) session_id time);
  set_response [(session_id, set_header (req_xid r) (zxid s) response)] ignore_response.

(** The branch of [SetWatches]. *)
Definition process_setwatches_request (r : ZooKeeperRequest) (session_id time : Z)
    (ignore_response : bool) : STQ unit :=
  factory_get r;;
  s ← get_store;
  '(response, _) ← on_store (process r (zxid s) session_id time);
  match req_body r with
  | SetWatchesRequest relative_zxid data_ws exist_ws list_ws =>
      setwatches_data relative_zxid data_ws session_id ignore_response;;
      setwatches_exist exist_ws session_id ignore_response;;
      setwatches_list relative_zxid list_ws session_id ignore_response
  | _ => crash
  end;;
  set_response [(session_id, set_header (req_xid r) (zxid s) response)] ignore_response.

(** The watches a request registers or triggers, and its response, pushed after
    the watch events. *)
Definition finish_read (r : ZooKeeperRequest) (response : ZooKeeperResponse) (session_id : Z)
    (ignore_response : bool) : STQ unit :=
  (if req_has_watch r
      && (bool_decide (resp_error response = ZOK)
          || (bool_decide (resp_error response = ZNONODE) && bool_decide (getOpNum r = Op_Exists)))
   then
     on_store (register_watch
       (bool_decide (getOpNum r = Op_List) || bool_decide (getOpNum r = Op_SimpleList))
       (getPath r) session_id)
   else mret tt);;
  set_response [(session_id, response)] ignore_response.

Definition finish_write (r : ZooKeeperRequest) (response : ZooKeeperResponse) (session_id : Z)
    (ignore_response : bool) : STQ unit :=
  s ← get_store;
  (if (bool_decide (is_Some (watches s !! getPath r))
       || bool_decide (is_Some (list_watches s !! parentPath (getPath r))))
      && bool_decide (resp_error response = ZOK)
   then
     let '(responses, ws, lws) := processWatches r (watches s) (list_watches s) in
     on_store (modify (λ s, upd_list_watches lws (upd_watches ws s)));;
     set_response responses ignore_response
   else mret tt);;
  set_response [(session_id, response)] ignore_response.

(** The branch of every other request. *)
Definition process_other_request (r : ZooKeeperRequest) (session_id time : Z)
    (new_last_zxid : option Z) (check_acl ignore_response : bool) : STQ unit :=
  factory_get r;;
  s ← get_store;
  allowed ← (if check_acl then lift (checkAuth r session_id s) else mret true);
  response ← (if negb allowed then mret (set_error ZNOAUTH (makeResponse r))
              else fst <$> on_store (process r (zxid s) session_id time));
  z ← on_store (response_zxid new_last_zxid (shouldIncreaseZxid r));
  let response := set_header (req_xid r) z (set_time time response) in
  if isReadRequest r then finish_read r response session_id ignore_response
  else finish_write r response session_id ignore_response.

(** The session check that precedes every request but a close: [false] when
    the request is dropped. *)
Definition touch_session (now session_id : Z) (new_last_zxid : option Z) : STS bool :=
  s ← get;
  if bool_decide (session_and_timeout s !! session_id = None) && bool_decide (new_last_zxid = None)
  then mret false
  else
    modify (upd_timeout (λ m, <[session_id := default 0 (m !! session_id)]> m));;
    s ← get;
    on_expiry (addNewSessionOrUpdate now session_id (default 0 (session_and_timeout s !! session_id)));;
    mret true.

Definition advance_zxid (new_last_zxid : option Z) : STS unit :=
  match new_last_zxid with
  | None => mret tt
  | Some z =>
      s ← get;
      if zxid s >=? z then throw LOGICAL_ERROR else modify (upd_zxid z)
  end.

Definition processRequest (now : Z) (r : ZooKeeperRequest) (session_id time : Z)
    (new_last_zxid : option Z) (check_acl ignore_response : bool) : STQ unit :=
  on_store (advance_zxid new_last_zxid);;
  match getOpNum r with
  | Op_Close => process_close r session_id new_last_zxid ignore_response
  | op =>
      live ← on_store (touch_session now session_id new_last_zxid);
      if negb live then mret tt
      else
        match op with
        | Op_Heartbeat => process_heartbeat_request r session_id time ignore_response
        | Op_SetWatches => process_setwatches_request r session_id time ignore_response
        | _ => process_other_request r session_id time new_last_zxid check_acl ignore_response
        end
  end.

End Store.

(** ** Sessions *)

(** [emplace] keeps the timeout of a session that is already there. *)
Definition emplace_timeout (session_id timeout : Z) (m : gmap Z Z) : gmap Z Z :=
  match m !! session_id with Some _ => m | None => <[session_id := timeout]> m end.

Definition getSessionID (now session_timeout_ms : Z) : STS Z :=
  getZXID;;
  s ← get;
  let result := session_id_counter s in
  modify (upd_counter (λ c, s64 (c + 1)));;
  modify (upd_timeout (emplace_timeout result session_timeout_ms));;
  on_expiry (addNewSessionOrUpdate now result session_timeout_ms);;
  mret result.

Definition getSessionIDCounter (s : KeeperStore) : Z := session_id_counter s.

Definition updateSessionTimeout (now session_id : Z) : STS bool :=
  s ← get;
  match session_and_timeout s !! session_id with
  | None => mret false
  | Some timeout => on_expiry (addNewSessionOrUpdate now session_id timeout);; mret true
  end.

Definition addSessionID (now session_id session_timeout_ms : Z) : STS unit :=
  modify (upd_timeout (emplace_timeout session_id session_timeout_ms));;
  on_expiry (addNewSessionOrUpdate now session_id session_timeout_ms).

Definition getDeadSessions (now : Z) (s : KeeperStore) : list Z :=
  getExpiredSessions now (session_expiry_queue s).

Definition sessionToExpirationTime (s : KeeperStore) : gmap Z Z :=
  session_to_expiration_time (session_expiry_queue s).

Definition handleRemoteSession (session_id expiration_time : Z) : STS unit :=
  on_expiry (setSessionExpirationTime session_id expiration_time).

Definition containsSession (session_id : Z) (s : KeeperStore) : bool :=
  bool_decide (is_Some (session_and_timeout s !! session_id)).

(** ** Shutdown and snapshot restore *)

Fixpoint finalize_ephemerals (paths : list string) : STS unit :=
  match paths with
  | [] => mret tt
  | p :: paths => detach_child p true;; finalize_ephemerals paths
  end.

Definition finalize : STS unit :=
  s ← get;
  if finalized s then throw LOGICAL_ERROR
  else
    modify (upd_finalized true);;
    finalize_ephemerals (map_to_list (ephemerals s) ≫= λ '(_, paths), elements paths);;
    modify (upd_ephemerals (λ _, ∅));;
    modify (λ s, upd_watches ∅ (upd_list_watches ∅ (upd_watchers (λ _, ∅) s)));;
    modify (λ s, upd_expiry (clear (session_expiry_queue s)) s);;
    modify (upd_timeout (λ _, ∅));;
    modify (upd_auth (λ _, ∅)).

Fixpoint build_children (paths : list string) (from_zk_snapshot : bool) : STS unit :=
  match paths with
  | [] => mret tt
  | p :: paths =>
      (if bool_decide (p = "/") then mret tt
       else
         s ← get;
         if bool_decide (is_Some (container s !! parentPath p)) then
           modify_node (parentPath p)
             (λ n, set_stat (stat_numChildren (λ k, if from_zk_snapshot then s32 (k + 1) else k))
                     (set_children (λ c, {[getBaseName p]} ∪ c) n))
         else throw LOGICAL_ERROR);;
      build_children paths from_zk_snapshot
  end.

Definition buildPathChildren (from_zk_snapshot : bool) : STS unit :=
  s ← get; build_children (map_to_list (container s)).*1 from_zk_snapshot.

(** ** Introspection *)

Definition getNodesCount (s : KeeperStore) : Z := Z.of_nat (size (container s)).

Definition watch_count (ws : Watches) : nat :=
  foldr (λ '(_, ss) n, length ss + n)%nat O (map_to_list ws).
Definition getTotalWatchesCount (s : KeeperStore) : Z :=
  u64 (Z.of_nat (watch_count (watches s) + watch_count (list_watches s))).

Definition getWatchedPathsCount (s : KeeperStore) : Z :=
  u64 (Z.of_nat (size (watches s) + size (list_watches s))).

Definition watching_sessions (ws : Watches) : gset Z :=
  list_to_set (map_to_list ws ≫= λ '(_, ss), ss).
Definition getSessionsWithWatchesCount (s : KeeperStore) : Z :=
  Z.of_nat (size (watching_sessions (watches s) ∪ watching_sessions (list_watches s))).

Definition getSessionWithEphemeralNodesCount (s : KeeperStore) : Z :=
  Z.of_nat (size (ephemerals s)).

Definition getTotalEphemeralNodesCount (s : KeeperStore) : Z :=
  u64 (Z.of_nat (foldr (λ '(_, ps) n, size ps + n)%nat O (map_to_list (ephemerals s)))).
