(* ===== verification/StoreTree.v ===== *)
(** * The shape of the tree

    What the container and the table of ephemeral nodes of
    src/Service/KeeperStore.{h,cpp} always satisfy, independently of the
    handlers: the laws of inserting a child, deleting a leaf and updating a node
    in place. *)

From S2P Require Import Prelude Types ACLMap SessionExpiryQueue KeeperPaths KeeperNode KeeperStore.
From stdpp Require Import base gmap sets list strings option.
From Stdlib Require Import ZArith Lia.
Open Scope Z_scope.

Abbreviation Tree := (gmap string KeeperNode).
Abbreviation Ephemerals := (gmap Z (gset string)).

(** The ephemeral nodes of a session; a missing entry is an empty set. *)
Definition eph_of (e : Ephemerals) (sid : Z) : gset string := default ∅ (e !! sid).

(** Tables that give every session the same nodes. *)
Definition eph_equiv (e1 e2 : Ephemerals) : Prop := ∀ sid, eph_of e1 sid = eph_of e2 sid.

#[export] Instance eph_equiv_equivalence : Equivalence eph_equiv.
Proof.
  split.
  - by intros e sid.
  - by intros e1 e2 H sid.
  - intros e1 e2 e3 H1 H2 sid. by rewrite H1.
Qed.

(** A node whose counters agree with its set of children. *)
Record node_ok (n : KeeperNode) : Prop := {
  ok_numChildren : numChildren (node_stat n) = s32 (Z.of_nat (size (node_children n)));
  ok_cversion : in_s 32 (cversion (node_stat n));
  ok_ephemeral : node_is_ephemeral n = true → node_children n = ∅
}.

Record tree_wf (c : Tree) (e : Ephemerals) : Prop := {
  wf_root : ∃ n, c !! "/" = Some n ∧ node_is_ephemeral n = false;
  wf_valid p n : c !! p = Some n → valid_path p = true;
  wf_node p n : c !! p = Some n → node_ok n;
  (** Every node but the root is listed by its parent. *)
  wf_parent p n : c !! p = Some n → p ≠ "/" →
    ∃ pn, c !! parentPath p = Some pn ∧ getBaseName p ∈ node_children pn ∧ getBaseName p ≠ "";
  (** Every listed child exists. *)
  wf_child p n b : c !! p = Some n → b ∈ node_children n →
    has_slash b = false ∧ b ≠ "" ∧ is_Some (c !! joinPath p b);
  (** The table of ephemeral nodes is exact. *)
  wf_eph sid p : p ∈ eph_of e sid ↔
    ∃ n, c !! p = Some n ∧ node_is_ephemeral n = true ∧ ephemeralOwner (node_stat n) = sid
}.

#[export] Instance tree_wf_proper : Proper ((=) ==> eph_equiv ==> iff) tree_wf.
Proof.
  intros c ? <- e1 e2 He.
  split; intros H; split; try apply H; intros sid p.
  - rewrite <-He. apply H.
  - rewrite He. apply H.
Qed.

(** ** Helpers *)

Lemma eph_of_emplace e sid p k :
  eph_of (set_emplace sid p e) k = if decide (k = sid) then {[p]} ∪ eph_of e sid else eph_of e k.
Proof.
  unfold eph_of, set_emplace. case_decide as E.
  - subst. by rewrite lookup_insert_eq.
  - by rewrite lookup_insert_ne.
Qed.

Lemma eph_of_erase e sid p k :
  eph_of (set_erase sid p e) k = if decide (k = sid) then eph_of e sid ∖ {[p]} else eph_of e k.
Proof.
  unfold eph_of, set_erase. case_decide as E.
  - subst. by rewrite lookup_insert_eq.
  - by rewrite lookup_insert_ne.
Qed.

#[export] Instance set_emplace_proper sid p : Proper (eph_equiv ==> eph_equiv) (set_emplace sid p).
Proof. intros e1 e2 H k. rewrite !eph_of_emplace. case_decide; by rewrite H. Qed.

#[export] Instance set_erase_proper sid p : Proper (eph_equiv ==> eph_equiv) (set_erase sid p).
Proof. intros e1 e2 H k. rewrite !eph_of_erase. case_decide; by rewrite H. Qed.

Lemma emplace_erase e sid p : p ∈ eph_of e sid → eph_equiv (set_emplace sid p (set_erase sid p e)) e.
Proof.
  intros H k. rewrite eph_of_emplace, !eph_of_erase. repeat case_decide; subst; try done.
  apply set_eq. intros x. destruct (decide (x = p)); set_solver.
Qed.

Lemma erase_emplace e sid p : p ∉ eph_of e sid → eph_equiv (set_erase sid p (set_emplace sid p e)) e.
Proof.
  intros H k. rewrite eph_of_erase, !eph_of_emplace. repeat case_decide; subst; try done. set_solver.
Qed.

(** The node a path names is the child of its parent. *)
Lemma joinPath_of p : valid_path p = true → joinPath (parentPath p) (getBaseName p) = p.
Proof. apply joinPath_split. Qed.

Lemma not_listed c e p pn :
  tree_wf c e → valid_path p = true → c !! p = None → c !! parentPath p = Some pn →
  getBaseName p ∉ node_children pn.
Proof.
  intros Hwf Hv Hp Hpn Hin. destruct (wf_child _ _ Hwf _ _ _ Hpn Hin) as (_ & _ & [n Hn]).
  rewrite joinPath_of in Hn by done. congruence.
Qed.

(** ** Children *)

(** The base names of the paths directly below [p]. *)
Lemma children_spec c e p n b :
  tree_wf c e → c !! p = Some n →
  b ∈ node_children n ↔
    b ≠ "" ∧ ∃ q m, c !! q = Some m ∧ q ≠ "/" ∧ parentPath q = p ∧ getBaseName q = b.
Proof.
  intros Hwf Hp. split.
  - intros Hb. destruct (wf_child _ _ Hwf _ _ _ Hp Hb) as (Hs & Hne & [m Hm]). split; [done|].
    exists (joinPath p b), m.
    assert (p ≠ "") by (apply valid_path_nonempty, (wf_valid _ _ Hwf _ _ Hp)).
    split_and!; [done| |by apply parentPath_join|by apply getBaseName_join].
    intros E. apply (f_equal getBaseName) in E. rewrite getBaseName_join in E by done.
    change (getBaseName "/") with "" in E. congruence.
  - intros (Hne & q & m & Hq & Hroot & <- & <-).
    destruct (wf_parent _ _ Hwf _ _ Hq Hroot) as (pn & Hpn & Hin & _). congruence.
Qed.

(** ** Updating a node in place *)

(** The node keeps its children, its ephemeral mark and its owner. *)
Definition same_shape (n n' : KeeperNode) : Prop :=
  node_children n' = node_children n ∧ node_is_ephemeral n' = node_is_ephemeral n ∧
  ephemeralOwner (node_stat n') = ephemeralOwner (node_stat n) ∧ node_ok n'.

Lemma tree_wf_update c e p n n' :
  tree_wf c e → c !! p = Some n → same_shape n n' → tree_wf (<[p := n']> c) e.
Proof.
  intros Hwf Hp (Hc & He & Ho & Hok).
  assert (∀ q m, <[p := n']> c !! q = Some m →
    ∃ m0, c !! q = Some m0 ∧ node_children m = node_children m0 ∧
      node_is_ephemeral m = node_is_ephemeral m0 ∧
      ephemeralOwner (node_stat m) = ephemeralOwner (node_stat m0) ∧ node_ok m) as Hfwd.
  { intros q m. destruct (decide (q = p)) as [->|].
    - rewrite lookup_insert_eq. intros [= <-]. eauto 10.
    - rewrite lookup_insert_ne by done. intros Hq. exists m. split_and!; try done.
      by eapply wf_node. }
  assert (∀ q m0, c !! q = Some m0 →
    ∃ m, <[p := n']> c !! q = Some m ∧ node_children m = node_children m0 ∧
      node_is_ephemeral m = node_is_ephemeral m0 ∧
      ephemeralOwner (node_stat m) = ephemeralOwner (node_stat m0)) as Hbwd.
  { intros q m0 Hq. destruct (decide (q = p)) as [->|].
    - rewrite lookup_insert_eq. simplify_eq. eauto.
    - rewrite lookup_insert_ne by done. eauto. }
  split.
  - destruct (wf_root _ _ Hwf) as (r & Hr & Hre). apply Hbwd in Hr as (m & ? & ? & ? & ?).
    exists m. split; [done|]. congruence.
  - intros q m (m0 & ? & _)%Hfwd. by eapply wf_valid.
  - by intros q m (m0 & ? & ? & ? & ? & ?)%Hfwd.
  - intros q m (m0 & Hq & _)%Hfwd Hne. destruct (wf_parent _ _ Hwf _ _ Hq Hne) as (pn & Hpn & Hin & ?).
    apply Hbwd in Hpn as (m' & ? & Hc' & _). exists m'. by rewrite Hc'.
  - intros q m b (m0 & Hq & Hc' & _)%Hfwd. rewrite Hc'. intros Hb.
    destruct (wf_child _ _ Hwf _ _ _ Hq Hb) as (? & ? & [x Hx]).
    apply Hbwd in Hx as (m' & ? & _). eauto.
  - intros sid q. rewrite (wf_eph _ _ Hwf). split.
    + intros (m0 & (m & ? & ? & ? & ?)%Hbwd & ? & ?). exists m. split_and!; congruence.
    + intros (m & (m0 & ? & ? & ? & ? & ?)%Hfwd & ? & ?). exists m0. split_and!; congruence.
Qed.

(** ** Inserting a child *)

(** The table of ephemeral nodes after a node appeared at [p], or left it. *)
Definition eph_add (p : string) (n : KeeperNode) (e : Ephemerals) : Ephemerals :=
  if node_is_ephemeral n then set_emplace (ephemeralOwner (node_stat n)) p e else e.
Definition eph_del (p : string) (n : KeeperNode) (e : Ephemerals) : Ephemerals :=
  if node_is_ephemeral n then set_erase (ephemeralOwner (node_stat n)) p e else e.

Lemma elem_eph_add p n e sid q :
  q ∈ eph_of (eph_add p n e) sid ↔
  q ∈ eph_of e sid ∨ (q = p ∧ node_is_ephemeral n = true ∧ ephemeralOwner (node_stat n) = sid).
Proof.
  unfold eph_add. destruct (node_is_ephemeral n); [|naive_solver].
  rewrite eph_of_emplace. case_decide; set_solver.
Qed.

Lemma elem_eph_del p n e sid q :
  q ∈ eph_of (eph_del p n e) sid ↔
  q ∈ eph_of e sid ∧ ¬ (q = p ∧ node_is_ephemeral n = true ∧ ephemeralOwner (node_stat n) = sid).
Proof.
  unfold eph_del. destruct (node_is_ephemeral n); [|naive_solver].
  rewrite eph_of_erase. case_decide; set_solver.
Qed.

(** A parent that lists one more, or one less, child. *)
Definition gains (b : string) (n n' : KeeperNode) : Prop :=
  node_children n' = {[b]} ∪ node_children n ∧ node_is_ephemeral n' = node_is_ephemeral n ∧
  ephemeralOwner (node_stat n') = ephemeralOwner (node_stat n) ∧ node_ok n'.
Definition loses (b : string) (n n' : KeeperNode) : Prop :=
  node_children n' = node_children n ∖ {[b]} ∧ node_is_ephemeral n' = node_is_ephemeral n ∧
  ephemeralOwner (node_stat n') = ephemeralOwner (node_stat n) ∧ node_ok n'.

Lemma lookup_insert2 (c : Tree) p n pp pn' q :
  <[p := n]> (<[pp := pn']> c) !! q =
    if decide (q = p) then Some n else if decide (q = pp) then Some pn' else c !! q.
Proof. rewrite !lookup_insert. repeat case_decide; congruence. Qed.

Lemma lookup_delete_insert (c : Tree) p pp pn' q :
  delete p (<[pp := pn']> c) !! q =
    if decide (q = p) then None else if decide (q = pp) then Some pn' else c !! q.
Proof. rewrite lookup_delete, lookup_insert. repeat case_decide; congruence. Qed.

Lemma base_nonempty_neq_root p : getBaseName p ≠ "" → p ≠ "/".
Proof. by intros H ->. Qed.

(** A listed name determines the child. *)
Lemma listed_inj p q b :
  valid_path p = true → valid_path q = true → p = parentPath q → b = getBaseName q →
  joinPath p b = q.
Proof. intros _ Hq -> ->. by apply joinPath_of. Qed.

Section Insert.
Context (c : Tree) (e : Ephemerals) (p : string) (n pn pn' : KeeperNode).
Context (Hwf : tree_wf c e) (Hnone : c !! p = None) (Hv : valid_path p = true)
  (Hb : getBaseName p ≠ "") (Hpn : c !! parentPath p = Some pn)
  (Hpe : node_is_ephemeral pn = false) (Hg : gains (getBaseName p) pn pn')
  (Hleaf : node_children n = ∅) (Hok : node_ok n).
Let c' : Tree := <[p := n]> (<[parentPath p := pn']> c).

Local Lemma insert_cases q m :
  c' !! q = Some m →
  (q = p ∧ m = n) ∨ (q ≠ p ∧ q = parentPath p ∧ m = pn')
  ∨ (q ≠ p ∧ q ≠ parentPath p ∧ c !! q = Some m).
Proof. unfold c'. rewrite lookup_insert2. repeat case_decide; naive_solver. Qed.

Local Lemma insert_keeps q m : c !! q = Some m →
  ∃ m', c' !! q = Some m' ∧ node_children m ⊆ node_children m' ∧
    node_is_ephemeral m' = node_is_ephemeral m ∧
    ephemeralOwner (node_stat m') = ephemeralOwner (node_stat m).
Proof.
  intros Hq. unfold c'. rewrite lookup_insert2. destruct Hg as (Hc & He & Ho & _).
  repeat case_decide; subst; simplify_eq; eauto 10.
  eexists; split_and!; [done|set_solver|done|done].
Qed.

Lemma tree_wf_insert : tree_wf c' (eph_add p n e).
Proof.
  pose proof (base_nonempty_neq_root p Hb) as Hroot. destruct Hg as (Hc & He & Ho & Hok').
  split.
  - destruct (wf_root _ _ Hwf) as (r & Hr & Hre).
    apply insert_keeps in Hr as (m & ? & _ & ? & _). exists m. split; congruence.
  - intros q m [[-> ->]|[(? & -> & ->)|(? & ? & Hq)]]%insert_cases;
      eauto using valid_parentPath, wf_valid.
  - intros q m [[-> ->]|[(? & -> & ->)|(? & ? & Hq)]]%insert_cases; [done..|]. by eapply wf_node.
  - intros q m [[-> ->]|Hq]%insert_cases Hne.
    + exists pn'. unfold c'. rewrite lookup_insert2, decide_False by (by apply parentPath_neq).
      rewrite decide_True by done. rewrite Hc. set_solver.
    + assert (∃ m0, c !! q = Some m0) as [m0 Hq0] by naive_solver.
      destruct (wf_parent _ _ Hwf _ _ Hq0 Hne) as (qn & Hqn & Hin & ?).
      apply insert_keeps in Hqn as (m' & ? & ? & _). exists m'. set_solver.
  - intros q m b [[-> ->]|[(? & -> & ->)|(? & ? & Hq)]]%insert_cases Hin.
    + set_solver.
    + rewrite Hc in Hin. apply elem_of_union in Hin as [->%elem_of_singleton|Hin].
      * split_and!; [by apply getBaseName_no_slash, valid_has_slash|done|].
        rewrite joinPath_of by done. unfold c'. rewrite lookup_insert_eq. eauto.
      * destruct (wf_child _ _ Hwf _ _ _ Hpn Hin) as (? & ? & [x Hx]).
        apply insert_keeps in Hx as (m' & ? & _). eauto.
    + destruct (wf_child _ _ Hwf _ _ _ Hq Hin) as (? & ? & [x Hx]).
      apply insert_keeps in Hx as (m' & ? & _). eauto.
  - intros sid q. rewrite elem_eph_add, (wf_eph _ _ Hwf). split.
    + intros [(m & (m' & ? & _ & ? & ?)%insert_keeps & ? & ?)|(-> & ? & ?)].
      * exists m'. split_and!; congruence.
      * exists n. unfold c'. by rewrite lookup_insert_eq.
    + intros (m & [[-> ->]|[(? & -> & ->)|(? & ? & Hq)]]%insert_cases & ? & ?);
        [naive_solver| |naive_solver]. left. exists pn. split_and!; congruence.
Qed.
End Insert.

Section Delete.
Context (c : Tree) (e : Ephemerals) (p : string) (n pn pn' : KeeperNode).
Context (Hwf : tree_wf c e) (Hp : c !! p = Some n) (Hroot : p ≠ "/")
  (Hleaf : node_children n = ∅) (Hpn : c !! parentPath p = Some pn)
  (Hl : loses (getBaseName p) pn pn').
Let c' : Tree := delete p (<[parentPath p := pn']> c).

Local Lemma delete_cases q m :
  c' !! q = Some m →
  q ≠ p ∧ ((q = parentPath p ∧ m = pn') ∨ (q ≠ parentPath p ∧ c !! q = Some m)).
Proof. unfold c'. rewrite lookup_delete_insert. repeat case_decide; naive_solver. Qed.

Local Lemma delete_keeps q m : q ≠ p → c !! q = Some m →
  ∃ m', c' !! q = Some m' ∧ node_is_ephemeral m' = node_is_ephemeral m ∧
    ephemeralOwner (node_stat m') = ephemeralOwner (node_stat m) ∧
    node_children m' = if decide (q = parentPath p) then node_children m ∖ {[getBaseName p]}
                       else node_children m.
Proof.
  intros Hqp Hq. unfold c'. rewrite lookup_delete_insert. destruct Hl as (Hc & He & Ho & _).
  rewrite decide_False by done. repeat case_decide; subst; simplify_eq; eauto 10.
Qed.

Lemma tree_wf_delete : tree_wf c' (eph_del p n e).
Proof.
  pose proof (wf_valid _ _ Hwf _ _ Hp) as Hv. destruct Hl as (Hc & He & Ho & Hok').
  split.
  - destruct (wf_root _ _ Hwf) as (r & Hr & Hre).
    apply delete_keeps in Hr as (m & ? & ? & _); [|done]. exists m. split; congruence.
  - intros q m [? [[-> ->]|[? Hq]]]%delete_cases; eauto using valid_parentPath, wf_valid.
  - intros q m [? [[-> ->]|[? Hq]]]%delete_cases; [done|]. by eapply wf_node.
  - intros q m [Hqp Hq]%delete_cases Hne.
    assert (∃ m0, c !! q = Some m0) as [m0 Hq0] by naive_solver.
    destruct (wf_parent _ _ Hwf _ _ Hq0 Hne) as (qn & Hqn & Hin & ?).
    assert (parentPath q ≠ p) as Hpq by (intros E; rewrite E in Hqn; simplify_eq; set_solver).
    apply delete_keeps in Hqn as (m' & ? & _ & _ & Hch); [|done]. exists m'.
    split_and!; [done| |done]. rewrite Hch. case_decide as E; [|done].
    apply elem_of_difference; split; [done|]. rewrite elem_of_singleton. intros Eb.
    apply Hqp, valid_path_inj; try done. by eapply wf_valid.
  - intros q m b [Hqp Hq]%delete_cases Hin.
    assert (∃ m0, c !! q = Some m0 ∧ b ∈ node_children m0 ∧
      (q = parentPath p → b ≠ getBaseName p)) as (m0 & Hq0 & Hin0 & Hbp).
    { destruct Hq as [[-> ->]|[? Hq]]; [|naive_solver]. exists pn. set_solver. }
    destruct (wf_child _ _ Hwf _ _ _ Hq0 Hin0) as (Hbs & ? & [x Hx]).
    split_and!; [done..|]. apply delete_keeps in Hx as (m' & ? & _); [eauto|].
    intros E. assert (q ≠ "") by (by eapply valid_path_nonempty, wf_valid).
    apply Hbp; rewrite <-E; [by rewrite parentPath_join|by rewrite getBaseName_join].
  - intros sid q. rewrite elem_eph_del, (wf_eph _ _ Hwf). split.
    + intros [(m & Hq & ? & ?) Hn]. assert (q ≠ p) by naive_solver.
      apply delete_keeps in Hq as (m' & ? & ? & ? & _); [|done]. exists m'. split_and!; congruence.
    + intros (m & [? [[-> ->]|[? Hq]]]%delete_cases & ? & ?); [|naive_solver].
      split; [|naive_solver]. exists pn. split_and!; congruence.
Qed.
End Delete.
