(* ===== verification/StoreInv.v ===== *)
(** * Handlers preserve the tree, and undo closures undo

    Every handler of src/Service/KeeperStore.cpp changes the tree by one of
    four effects; the closures handed to a multi take them back. *)

From S2P Require Import Prelude Types ACLMap SessionExpiryQueue KeeperPaths KeeperNode KeeperStore StoreTree.
From stdpp Require Import base gmap sets list strings option.
From Stdlib Require Import ZArith Lia.
Open Scope Z_scope.

(** The requests the handlers keep the tree well formed on: a created path does
    not start with two slashes, the root is not removed, and numbers read from
    the wire have their width. *)
Definition one_valid (r : ZooKeeperRequest) : bool :=
  match req_body r with
  | CreateRequest path _ _ _ _ => negb (double_slash path)
  | RemoveRequest path _ => negb (bool_decide (path = "/"))
  | SetSeqNumRequest _ n => bool_decide (in_s 32 n)
  | _ => true
  end.
Definition request_valid (r : ZooKeeperRequest) : bool :=
  match req_body r with
  | MultiRequest rs => forallb one_valid rs
  | _ => one_valid r
  end.

(** The part of the state no handler touches. *)
Definition rest (s : KeeperStore) :=
  (session_id_counter s, session_expiry_queue s, session_and_timeout s, sessions_and_watchers s,
   (watches s, list_watches s, zxid s, finalized s, super_digest s)).

(** ** Effects on the tree *)

Inductive effect (c : Tree) (e : Ephemerals) : Tree → Ephemerals → Prop :=
| eff_none : effect c e c e
| eff_insert p n pn pn' :
    c !! p = None → valid_path p = true → getBaseName p ≠ "" →
    c !! parentPath p = Some pn → node_is_ephemeral pn = false →
    gains (getBaseName p) pn pn' → node_children n = ∅ → node_ok n →
    effect c e (<[p := n]> (<[parentPath p := pn']> c)) (eph_add p n e)
| eff_delete p n pn pn' :
    c !! p = Some n → p ≠ "/" → node_children n = ∅ → c !! parentPath p = Some pn →
    loses (getBaseName p) pn pn' →
    effect c e (delete p (<[parentPath p := pn']> c)) (eph_del p n e)
| eff_update p n n' :
    c !! p = Some n → same_shape n n' → effect c e (<[p := n']> c) e.

Lemma effect_wf c e c' e' : tree_wf c e → effect c e c' e' → tree_wf c' e'.
Proof.
  intros Hwf []; [done|eapply tree_wf_insert|eapply tree_wf_delete|eapply tree_wf_update]; eauto.
Qed.

(** ** Node updates *)

Lemma parent_add_gains b zx n :
  node_ok n → node_is_ephemeral n = false → b ∉ node_children n → gains b n (parent_add b zx n).
Proof.
  intros [H1 H2 H3] He Hb. split_and!; try done. split; simpl.
  - rewrite H1, wrap_s_add_l, size_union, size_singleton by (lia || set_solver). f_equal. lia.
  - apply wrap_s_range. lia.
  - congruence.
Qed.

Lemma size_remove (b : string) (X : gset string) :
  b ∈ X → Z.of_nat (size (X ∖ {[b]})) = Z.of_nat (size X) - 1.
Proof.
  intros Hb. rewrite size_difference, size_singleton by set_solver.
  assert (size X ≠ 0)%nat; [|lia]. intros E%size_empty_inv. set_solver.
Qed.

Lemma s32_pred k : s32 (s32 k - 1) = s32 (k - 1).
Proof. rewrite <-!Z.add_opp_r. apply wrap_s_add_l. lia. Qed.

Lemma shrink_ok b (f : Stat → Stat) n :
  node_ok n → b ∈ node_children n →
  (∀ st, numChildren (f st) = s32 (numChildren st - 1)) →
  (∀ st, in_s 32 (cversion st) → in_s 32 (cversion (f st))) →
  (∀ st, ephemeralOwner (f st) = ephemeralOwner st) →
  loses b n (set_children (λ c, c ∖ {[b]}) (set_stat f n)).
Proof.
  intros [H1 H2 H3] Hb Hn Hc Ho. split_and!; try done; [by apply Ho|]. split; simpl.
  - rewrite Hn, H1, s32_pred, size_remove by done. done.
  - by apply Hc.
  - intros E. apply H3 in E. set_solver.
Qed.

Lemma parent_remove_loses b zx n :
  node_ok n → b ∈ node_children n → loses b n (parent_remove b zx n).
Proof. intros Hn Hb. by apply shrink_ok. Qed.

Lemma create_node_ok data eph seq acl zx sid time :
  node_ok (create_node data eph seq acl zx sid time).
Proof. split; simpl; [done|unfold in_s; lia|done]. Qed.

(** The counters survive an update that leaves the children alone. *)
Lemma same_shape_stat n n' :
  node_ok n → node_children n' = node_children n → node_is_ephemeral n' = node_is_ephemeral n →
  ephemeralOwner (node_stat n') = ephemeralOwner (node_stat n) →
  numChildren (node_stat n') = numChildren (node_stat n) →
  in_s 32 (cversion (node_stat n')) → same_shape n n'.
Proof.
  intros [H1 H2 H3] Hc He Ho Hn Hv. split_and!; try done. split; try done.
  - by rewrite Hn, H1, Hc.
  - by rewrite Hc, He.
Qed.

(** ** Handlers *)

Lemma resolve_acls_frame acls sid s :
  ∃ s' o, resolve_acls acls sid s = (s', Ret o) ∧
    container s' = container s ∧ ephemerals s' = ephemerals s ∧ rest s' = rest s.
Proof.
  unfold resolve_acls, mbind, ST_bind, modify, get; simpl.
  destruct (fixupACL _ _); [|by eexists _, _].
  destruct (convertACLs _ _) as [am id]. by eexists _, _.
Qed.

Lemma create_acl_frame acls sid s :
  ∃ s' o, create_acl acls sid s = (s', Ret o) ∧
    container s' = container s ∧ ephemerals s' = ephemerals s ∧ rest s' = rest s.
Proof.
  unfold create_acl. case_bool_decide; [by eexists _, _|]. apply resolve_acls_frame.
Qed.

(** The path a create request makes. *)
Definition created_path (path : string) (is_sequential : bool) (parent : KeeperNode) : string :=
  if is_sequential then (path +:+ seq_num_str (cversion (node_stat parent)))%string else path.

Lemma created_path_ok c e path seq pn :
  tree_wf c e → double_slash path = false → c !! parentPath path = Some pn →
  valid_path (created_path path seq pn) = true ∧
  parentPath (created_path path seq pn) = parentPath path.
Proof.
  intros Hwf Hd Hp. assert (valid_path path = true) as Hv.
  { apply valid_of_parent; [|done]. by eapply wf_valid. }
  unfold created_path. destruct seq; [|done]. pose proof (seq_num_str_no_slash (cversion (node_stat pn))).
  split; [by apply valid_no_slash_suffix|]. apply parentPath_suffix; [|done]. by apply valid_has_slash.
Qed.

(** The closures, run on any state with the same tree, give back the tree
    from before the handler. *)
Definition tree_eq (s1 s2 : KeeperStore) : Prop :=
  container s1 = container s2 ∧ eph_equiv (ephemerals s1) (ephemerals s2) ∧ rest s1 = rest s2.

#[export] Instance tree_eq_equivalence : Equivalence tree_eq.
Proof.
  unfold tree_eq. split.
  - intros s. by split_and!.
  - intros s1 s2 (? & ? & ?). by split_and!.
  - intros s1 s2 s3 (? & H1 & ?) (? & H2 & ?). split_and!; [congruence|by rewrite H1|congruence].
Qed.

Definition undoes (u : Undo) (s1 s : KeeperStore) : Prop :=
  ∀ s1', tree_eq s1' s1 → ∃ s2, u s1' = (s2, Ret tt) ∧ tree_eq s2 s.

Definition undo_ok (u : option Undo) (s1 s : KeeperStore) : Prop :=
  match u with Some u => undoes u s1 s | None => tree_eq s1 s end.

Lemma undoes_bind u v s2 s1 s :
  undoes u s2 s1 → undoes v s1 s → undoes (u;; v) s2 s.
Proof.
  intros Hu Hv x Hx. destruct (Hu x Hx) as (y & Ey & Hy). destruct (Hv y Hy) as (z & Ez & Hz).
  exists z. split; [|done]. unfold mbind, ST_bind. by rewrite Ey.
Qed.

(** Evaluate the field updates of a node given field by field. *)
Ltac node_simpl :=
  cbv [parent_unadd parent_add parent_remove parent_unremove set_children set_stat stat_pzxid
       stat_numChildren stat_cversion node_stat node_children node_data node_acl_id
       node_is_ephemeral node_is_sequental czxid mzxid ctime mtime version cversion aversion
       ephemeralOwner dataLength numChildren pzxid] in *.

Lemma parent_unadd_add b zx n :
  node_ok n → b ∉ node_children n →
  parent_unadd b (pzxid (node_stat n)) (parent_add b zx n) = n.
Proof.
  intros [H1 H2 _] Hb. destruct n as [d a ie sq [f1 f2 f3 f4 f5 cv f7 f8 f9 nc f11] ch].
  node_simpl. rewrite !s32_pred, !Z.add_simpl_r. rewrite (wrap_s_id 32 cv) by (exact H2 || lia).
  rewrite (wrap_s_id 32 nc) by (lia || (rewrite H1; apply wrap_s_range; lia)).
  replace (({[b]} ∪ ch) ∖ {[b]}) with ch by set_solver. reflexivity.
Qed.

Lemma parent_unremove_remove b zx n :
  node_ok n → b ∈ node_children n →
  parent_unremove b (pzxid (node_stat n)) (parent_remove b zx n) = n.
Proof.
  intros [H1 _ _] Hb. destruct n as [d a ie sq [f1 f2 f3 f4 f5 cv f7 f8 f9 nc f11] ch].
  node_simpl. rewrite wrap_s_add_l, Z.sub_add by lia.
  rewrite (wrap_s_id 32 nc) by (lia || (rewrite H1; apply wrap_s_range; lia)).
  replace ({[b]} ∪ ch ∖ {[b]}) with ch; [reflexivity|].
  apply set_eq. intros x. destruct (decide (x = b)); set_solver.
Qed.

(** ** What a handler may do *)

Definition same_tree (s s' : KeeperStore) : Prop :=
  container s' = container s ∧ ephemerals s' = ephemerals s ∧ rest s' = rest s.

Lemma same_tree_eq s s' : same_tree s s' → tree_eq s' s.
Proof. intros (H1 & H2 & H3). split_and!; [done|by rewrite H2|done]. Qed.

(** The tree changes by one effect; a response with an error, or an exception,
    comes with no change; the undo closure of a request allowed in a multi
    takes the change back. *)
Record handled (r : ZooKeeperRequest) (s s' : KeeperStore) (o : outcome exn Processed) : Prop := {
  hd_rest : rest s' = rest s;
  hd_effect : effect (container s) (ephemerals s) (container s') (ephemerals s');
  hd_outcome :
    match o with
    | Ret (resp, u) =>
        (resp_error resp ≠ ZOK → same_tree s s') ∧ (multi_allowed r = true → undo_ok u s' s)
    | Throw _ => same_tree s s'
    | Crash => ∃ p n, req_body r = SetSeqNumRequest p n ∧ container s !! p = None
    end
}.

Lemma handled_same r s s' o :
  same_tree s s' →
  match o with Ret (_, u) => u = None | Throw _ => True | Crash => False end →
  handled r s s' o.
Proof.
  intros Hs Ho. pose proof Hs as (H1 & H2 & H3). split; [done|rewrite H1, H2; constructor|].
  destruct o as [[resp u]|e|]; [subst|done|done]. split; [done|]. intros _. by apply same_tree_eq.
Qed.

Lemma same_tree_refl s : same_tree s s.
Proof. by split_and!. Qed.

Lemma handled_fail r e s s' : same_tree s s' → handled r s s' (Ret (set_error e (makeResponse r), None)).
Proof. intros. by apply handled_same. Qed.

Create HintDb store discriminated.
#[export] Hint Resolve same_tree_refl handled_fail : store.
#[export] Hint Extern 1 (handled _ ?s ?s _) => (apply handled_same; [apply same_tree_refl|done]) : store.

Lemma modify_node_Some p f s n :
  container s !! p = Some n → modify_node p f s = (upd_container <[p := f n]> s, Ret tt).
Proof. intros H. unfold modify_node. by rewrite H. Qed.

Ltac run := unfold mbind, ST_bind, get, modify, fail, succeed, mret, ST_ret, throw, lift; cbn beta iota.

Lemma create_undo_undoes s s1 path pn n zx acl_id sid :
  tree_wf (container s) (ephemerals s) → container s !! path = None → valid_path path = true →
  container s !! parentPath path = Some pn → parentPath path ≠ path →
  (node_is_ephemeral n = true → ephemeralOwner (node_stat n) = sid) →
  container s1 = <[path := n]> (<[parentPath path := parent_add (getBaseName path) zx pn]> (container s)) →
  ephemerals s1 = eph_add path n (ephemerals s) → rest s1 = rest s →
  undoes (create_undo sid path (pzxid (node_stat pn)) (node_is_ephemeral n) (parentPath path)
            (getBaseName path) acl_id) s1 s.
Proof.
  intros Hwf Hnone Hv Hpn Hne Hown Hc He Hr s1' (Hc' & He' & Hr').
  unfold create_undo; run.
  erewrite modify_node_Some.
  2:{ destruct (node_is_ephemeral n); simpl; rewrite Hc', Hc, lookup_delete_ne, lookup_insert_ne,
        lookup_insert_eq by done; done. }
  eexists; split; [done|]. unfold tree_eq. split_and!.
  - transitivity (<[parentPath path := pn]> (delete path (container s1'))).
    { rewrite parent_unadd_add; [by destruct (node_is_ephemeral n)| |]; [by eapply wf_node|].
      by eapply not_listed. }
    rewrite Hc', Hc. apply map_eq. intros q. rewrite lookup_insert, lookup_delete, lookup_insert2.
    repeat case_decide; subst; congruence.
  - assert (eph_equiv (ephemerals s1') (eph_add path n (ephemerals s))) as E by (by rewrite He', He).
    unfold eph_add in E. destruct (node_is_ephemeral n); cbn; rewrite E; [|done].
    rewrite Hown by done. apply erase_emplace. rewrite (wf_eph _ _ Hwf). naive_solver.
  - destruct (node_is_ephemeral n); rewrite <-Hr, <-Hr'; done.
Qed.

Lemma process_create_handled r path data eph sq acls zx sid time s s' o :
  tree_wf (container s) (ephemerals s) → req_body r = CreateRequest path data eph sq acls →
  double_slash path = false → process_create r path data eph sq acls zx sid time s = (s', o) →
  handled r s s' o.
Proof.
  intros Hwf Hr Hd. unfold process_create; run.
  destruct (container s !! parentPath path) as [pn|] eqn:Hpn; [|intros [= <- <-]; auto with store].
  destruct (node_is_ephemeral pn) eqn:Hpe; [intros [= <- <-]; auto with store|].
  fold (created_path path sq pn).
  destruct (created_path_ok _ _ path sq pn Hwf Hd Hpn) as [Hv Hpp].
  set (pc := created_path path sq pn) in *.
  case_bool_decide as Hex; [intros [= <- <-]; auto with store|].
  case_bool_decide as Hbase; [intros [= <- <-]; auto with store|].
  assert (container s !! pc = None) as Hnone by (by apply eq_None_not_Some).
  destruct (create_acl_frame acls sid s) as (s1 & [acl_id|] & -> & Hc1 & He1 & Hr1);
    [|intros [= <- <-]; by apply handled_fail].
  rewrite <-Hpp in *.
  erewrite modify_node_Some by (rewrite Hc1; exact Hpn).
  set (n := create_node data eph sq acl_id zx sid time).
  intros [= Es <-].
  assert (container s' = <[pc := n]> (<[parentPath pc := parent_add (getBaseName pc) zx pn]> (container s)))
    as Hcs by (rewrite <-Es, <-Hc1; by destruct eph).
  assert (ephemerals s' = eph_add pc n (ephemerals s)) as Hes
    by (rewrite <-Es, <-He1; by destruct eph).
  assert (rest s' = rest s) as Hrs by (rewrite <-Es; by destruct eph).
  assert (Hg := parent_add_gains (getBaseName pc) zx pn ltac:(by eapply wf_node) Hpe
                  ltac:(by eapply not_listed)).
  assert (parentPath pc ≠ pc) as Hne by (intros E; rewrite E in Hpn; congruence).
  split; [done| |].
  - rewrite Hcs, Hes. eapply eff_insert; eauto using create_node_ok.
  - split; [done|]. intros _. cbn [undo_ok].
    apply (create_undo_undoes s s' pc pn n zx acl_id sid); try done. cbn. by intros ->.
Qed.

(** A create that succeeded, and what it left. *)
Lemma process_create_success r path data eph sq acls zx sid time s s' p u :
  process_create r path data eph sq acls zx sid time s = (s', Ret (new_response (CreateResponse p), u)) →
  ∃ pn a, container s !! parentPath path = Some pn ∧ node_is_ephemeral pn = false ∧
    p = created_path path sq pn ∧ container s !! p = None ∧ getBaseName p ≠ "" ∧
    container s' = <[p := create_node data eph sq a zx sid time]>
                     (<[parentPath path := parent_add (getBaseName p) zx pn]> (container s)).
Proof.
  assert (∀ e, e ≠ ZOK → set_error e (makeResponse r) ≠ new_response (CreateResponse p)) as Hne.
  { intros e He E%(f_equal resp_error). by destruct (makeResponse r). }
  unfold process_create; run.
  destruct (container s !! parentPath path) as [pn|] eqn:Hpn; [|by intros [=]; edestruct Hne; [|eassumption]].
  destruct (node_is_ephemeral pn) eqn:Hpe; [by intros [=]; edestruct Hne; [|eassumption]|].
  fold (created_path path sq pn). set (pc := created_path path sq pn).
  case_bool_decide as Hex; [by intros [=]; edestruct Hne; [|eassumption]|].
  case_bool_decide as Hbase; [by intros [=]; edestruct Hne; [|eassumption]|].
  destruct (create_acl_frame acls sid s) as (s1 & [a|] & -> & Hc1 & _); [|by intros [=]; edestruct Hne; [|eassumption]].
  erewrite modify_node_Some by (rewrite Hc1; exact Hpn). intros [= Es <- _].
  exists pn, a. split_and!; try done; [by apply eq_None_not_Some|].
  rewrite <-Hc1, <-Es. by destruct eph.
Qed.

Lemma clone_id n : KeeperNode_clone n = n.
Proof. by destruct n. Qed.

Lemma remove_undo_undoes s s1 path pn n zx :
  tree_wf (container s) (ephemerals s) → container s !! path = Some n → path ≠ "/" →
  container s !! parentPath path = Some pn →
  container s1 = delete path (<[parentPath path := parent_remove (getBaseName path) zx pn]> (container s)) →
  ephemerals s1 = eph_del path n (ephemerals s) → rest s1 = rest s →
  undoes (remove_undo n path (pzxid (node_stat pn)) (getBaseName path)) s1 s.
Proof.
  intros Hwf Hn Hroot Hpn Hc He Hr s1' (Hc' & He' & Hr').
  pose proof (parentPath_neq path ltac:(by eapply wf_valid) Hroot) as Hne.
  assert (getBaseName path ∈ node_children pn) as Hin.
  { destruct (wf_parent _ _ Hwf _ _ Hn Hroot) as (? & ? & ? & _). congruence. }
  unfold remove_undo; run.
  erewrite modify_node_Some.
  2:{ destruct (node_is_ephemeral n); simpl; rewrite Hc', Hc, lookup_insert_ne, lookup_delete_ne,
        lookup_insert_eq by done; done. }
  eexists; split; [done|]. unfold tree_eq. split_and!.
  - transitivity (<[parentPath path := pn]> (<[path := n]> (container s1'))).
    { rewrite parent_unremove_remove; [by destruct (node_is_ephemeral n)| |done]. by eapply wf_node. }
    rewrite Hc', Hc. apply map_eq. intros q. rewrite !lookup_insert, lookup_delete_insert.
    repeat case_decide; subst; congruence.
  - assert (eph_equiv (ephemerals s1') (eph_del path n (ephemerals s))) as E by (by rewrite He', He).
    unfold eph_del in E. destruct (node_is_ephemeral n) eqn:Hen; cbn; rewrite E; [|done].
    apply emplace_erase. rewrite (wf_eph _ _ Hwf). eauto.
  - destruct (node_is_ephemeral n); rewrite <-Hr, <-Hr'; done.
Qed.

Lemma process_remove_handled r path ver zx s s' o :
  tree_wf (container s) (ephemerals s) → path ≠ "/" →
  process_remove r path ver zx s = (s', o) → handled r s s' o.
Proof.
  intros Hwf Hroot. unfold process_remove; run.
  destruct (container s !! path) as [n|] eqn:Hn; [|intros [= <- <-]; auto with store].
  case_match; [intros [= <- <-]; auto with store|].
  case_bool_decide as Hleaf; cbn; [|intros [= <- <-]; auto with store].
  destruct (wf_parent _ _ Hwf _ _ Hn Hroot) as (pn & Hpn & Hin & Hb). rewrite Hpn.
  erewrite modify_node_Some by exact Hpn. rewrite clone_id. intros [= Es <-].
  assert (container s' = delete path (<[parentPath path := parent_remove (getBaseName path) zx pn]> (container s)))
    as Hcs by (rewrite <-Es; by destruct (node_is_ephemeral n)).
  assert (ephemerals s' = eph_del path n (ephemerals s)) as Hes
    by (rewrite <-Es; unfold eph_del; by destruct (node_is_ephemeral n)).
  assert (rest s' = rest s) as Hrs by (rewrite <-Es; by destruct (node_is_ephemeral n)).
  split; [done| |].
  - rewrite Hcs, Hes. eapply eff_delete; eauto. eapply parent_remove_loses; [by eapply wf_node|done].
  - split; [done|]. intros _. by eapply remove_undo_undoes.
Qed.

Lemma node_set_shape data zx time n : node_ok n → same_shape n (node_set data zx time n).
Proof. intros Hn. apply same_shape_stat; try done. apply Hn. Qed.

Lemma process_set_handled r path data ver zx time s s' o :
  tree_wf (container s) (ephemerals s) →
  process_set r path data ver zx time s = (s', o) → handled r s s' o.
Proof.
  intros Hwf. unfold process_set; run.
  destruct (container s !! path) as [n|] eqn:Hn; [|intros [= <- <-]; auto with store].
  case_match; [|intros [= <- <-]; auto with store].
  rewrite clone_id. intros [= <- <-]. split; [done| |].
  - apply (eff_update _ _ path n); [done|]. apply node_set_shape. by eapply wf_node.
  - split; [done|]. intros _ s1' (Hc & He & Hr). unfold set_undo; run.
    eexists; split; [done|]. split_and!; [|done|done]. cbn in *. rewrite Hc.
    apply map_eq. intros q. rewrite !lookup_insert. repeat case_decide; congruence.
Qed.

Lemma process_setacl_handled r path acls ver sid s s' o :
  tree_wf (container s) (ephemerals s) → req_body r = SetACLRequest path acls ver →
  process_setacl r path acls ver sid s = (s', o) → handled r s s' o.
Proof.
  intros Hwf Hr. unfold process_setacl; run.
  destruct (container s !! path) as [n|] eqn:Hn; [|intros [= <- <-]; auto with store].
  case_match; [intros [= <- <-]; auto with store|].
  destruct (resolve_acls_frame acls sid s) as (s1 & [acl_id|] & -> & Hc1 & He1 & Hr1);
    [|intros [= <- <-]; by apply handled_fail].
  intros [= <- <-]. split; [done| |].
  - cbn. rewrite Hc1, He1. apply (eff_update _ _ path n); [done|].
    apply same_shape_stat; try done; [|apply (ok_cversion n)]; by eapply wf_node.
  - split; [done|]. unfold multi_allowed. by rewrite Hr.
Qed.

Lemma process_setseqnum_handled r path k s s' o :
  tree_wf (container s) (ephemerals s) → req_body r = SetSeqNumRequest path k → in_s 32 k →
  process_setseqnum r path k s = (s', o) → handled r s s' o.
Proof.
  intros Hwf Hr Hk. unfold process_setseqnum, modify_node; run.
  destruct (container s !! path) as [n|] eqn:Hn; intros [= <- <-].
  - split; [done| |].
    + apply (eff_update _ _ path n); [done|]. apply same_shape_stat; try done. by eapply wf_node.
    + split; [by destruct r as [? ? []]|]. unfold multi_allowed. by rewrite Hr.
  - split; [done|constructor|]. eauto.
Qed.

Section Process.
Context (getSHA1 base64Encode : string → string).
Abbreviation process_one := (process_one getSHA1 base64Encode).
Abbreviation multi_loop := (multi_loop getSHA1 base64Encode).
Abbreviation process := (process getSHA1 base64Encode).

(** The handlers that change nothing. *)
Lemma read_only_handled r zx sid time s s' o :
  match req_body r with
  | CreateRequest _ _ _ _ _ | RemoveRequest _ _ | SetRequest _ _ _ | SetACLRequest _ _ _
  | SetSeqNumRequest _ _ => False
  | _ => True
  end →
  process_one r zx sid time s = (s', o) → handled r s s' o.
Proof.
  intros Hr. unfold KeeperStore.process_one.
  destruct (req_body r) eqn:E; try done;
    unfold process_heartbeat, process_setwatches, process_sync, process_auth, process_exists,
      process_get, process_list, process_check, process_getacl; run;
    repeat (case_match; try done); intros; simplify_eq; auto with store;
    first [by exfalso; eapply convertNumber_no_crash | apply handled_same; [by split_and!|done]].
Qed.

Lemma process_one_handled r zx sid time s s' o :
  tree_wf (container s) (ephemerals s) → one_valid r = true →
  process_one r zx sid time s = (s', o) → handled r s s' o.
Proof.
  intros Hwf Hv Hp. unfold one_valid in Hv.
  destruct (req_body r) eqn:E; try (by (eapply read_only_handled; [|exact Hp]; by rewrite E));
    unfold KeeperStore.process_one in Hp; rewrite E in Hp.
  - eapply process_create_handled; eauto. by apply negb_true_iff.
  - eapply process_remove_handled; eauto. by case_bool_decide.
  - by eapply process_set_handled.
  - by eapply process_setacl_handled.
  - eapply process_setseqnum_handled; eauto. by apply bool_decide_eq_true in Hv.
Qed.

(** ** Multi *)

Lemma run_undos_one (u : option Undo) (undos : list Undo) s2 s1 s :
  undo_ok u s2 s1 → undoes (run_undos undos) s1 s → undoes (run_undos (option_list u ++ undos)) s2 s.
Proof.
  intros Hu Hus. destruct u as [u|]; cbn in *; [by eapply undoes_bind|].
  intros x Hx. apply Hus. by rewrite Hx.
Qed.

(** The loop, started [undos] away from [s0], either performs every request or
    goes back to the tree of [s0]. *)
Definition loop_result (s0 s s' : KeeperStore) (rs : list ZooKeeperRequest)
    (o : outcome exn (list ZooKeeperResponse)) (finished : list ZooKeeperResponse) : Prop :=
  tree_wf (container s') (ephemerals s') ∧ rest s' = rest s0 ∧
  match o with
  | Ret resps =>
      length resps = (length finished + length rs)%nat ∧
      (tree_eq s' s0 ∧ Exists (λ x, resp_error x ≠ ZOK) resps
       ∨ ∃ more, resps = finished ++ more ∧ Forall (λ x, resp_error x = ZOK) more)
  | Throw _ => tree_eq s' s0
  | Crash => False
  end.

Lemma tree_eq_wf s s' :
  tree_eq s' s → tree_wf (container s) (ephemerals s) → tree_wf (container s') (ephemerals s').
Proof. intros (H1 & H2 & _). by rewrite H1, H2. Qed.

Lemma multi_loop_result rs finished undos zx sid time s0 s s' o :
  forallb one_valid rs = true → forallb multi_allowed rs = true →
  tree_wf (container s0) (ephemerals s0) → tree_wf (container s) (ephemerals s) →
  rest s = rest s0 → undoes (run_undos undos) s s0 →
  multi_loop rs finished undos zx sid time s = (s', o) →
  loop_result s0 s s' rs o finished.
Proof.
  revert finished undos s. induction rs as [|r rs IH]; intros fin us s Hv Ha Hwf0 Hwf Hr Hu; cbn.
  { intros [= <- <-]. split_and!; try done. right. exists []. by rewrite app_nil_r. }
  cbn in Hv, Ha. apply andb_true_iff in Hv as [Hv1 Hv], Ha as [Ha1 Ha].
  destruct (process_one r zx sid time s) as [s1 o1] eqn:Hp.
  destruct (process_one_handled r zx sid time s s1 o1 Hwf Hv1 Hp) as [Hr1 Heff Hout].
  pose proof (effect_wf _ _ _ _ Hwf Heff) as Hwf1.
  destruct o1 as [[resp u]|e|].
  - destruct Hout as [Herr Hundo]. specialize (Hundo Ha1).
    case_bool_decide as Hok.
    + intros Hl. eapply IH in Hl as (Hw & Hrs & Hres); eauto using run_undos_one; [|congruence].
      split_and!; [done..|]. destruct o; [|done|done]. destruct Hres as [Hlen Hres].
      rewrite length_app in Hlen. cbn in *. split; [lia|].
      destruct Hres as [?|(more & -> & Hmore)]; [by left|]. right. exists (resp :: more).
      rewrite <-app_assoc. auto.
    + destruct (Hu s1) as (s2 & E & Heq); [by apply same_tree_eq, Herr|].
      unfold mbind, ST_bind. rewrite E. intros [= <- <-].
      split_and!; [by eapply tree_eq_wf|apply Heq| |].
      { rewrite length_app, !length_map, length_app. cbn. lia. }
      left. split; [done|]. rewrite map_app, Exists_app. left. rewrite Exists_app. right.
      apply Exists_cons. left. done.
  - destruct (Hu s1) as (s2 & E & Heq); [by apply same_tree_eq|].
    unfold mbind, ST_bind. rewrite E. intros [= <- <-].
    split_and!; [by eapply tree_eq_wf|apply Heq|done].
  - destruct Hout as (p & n & Hb & _). unfold multi_allowed in Ha1. by rewrite Hb in Ha1.
Qed.

(** ** Any request *)

Lemma process_wf r zx sid time s s' o :
  tree_wf (container s) (ephemerals s) → request_valid r = true →
  (∀ rs, req_body r = MultiRequest rs → forallb multi_allowed rs = true) →
  process r zx sid time s = (s', o) →
  tree_wf (container s') (ephemerals s') ∧ rest s' = rest s ∧
  (o = Crash → ∃ p n, req_body r = SetSeqNumRequest p n ∧ container s !! p = None).
Proof.
  intros Hwf Hv Hm. unfold KeeperStore.process, request_valid in *.
  destruct (req_body r) as [| | | | | | | | | | | | | | |rs| |] eqn:E;
    try (intros Hp; pose proof (process_one_handled _ _ _ _ _ _ _ Hwf Hv Hp) as [H1 H2 H3];
         split_and!; [by eapply effect_wf|done|]; intros ->; by rewrite E in H3).
  unfold process_multi, mbind, ST_bind.
  destruct (multi_loop rs [] [] zx sid time s) as [s1 o1] eqn:Hl.
  assert (undoes (run_undos []) s s) as Hu.
  { intros x Hx. by exists x. }
  apply (multi_loop_result rs [] [] zx sid time s s s1 o1) in Hl as (H1 & H2 & H3); auto.
  destruct o1; intros [= <- <-]; by split_and!.
Qed.
End Process.
