(* ===== verification/StoreRequest.v ===== *)
(** * processRequest keeps the store consistent

    The invariant of the whole store of src/Service/KeeperStore.{h,cpp}, kept
    by [processRequest], by the session methods and by [finalize]. *)

From S2P Require Import Prelude Types ACLMap SessionExpiryQueue KeeperPaths KeeperNode KeeperStore StoreTree StoreInv.
From stdpp Require Import base gmap sets list strings option.
From Stdlib Require Import ZArith Lia.
Open Scope Z_scope.

(** The sessions watching a path. *)
Definition watchers (ws : Watches) (p : string) : list Z := default [] (ws !! p).

(** Every watch of a session is recorded under the session, so that closing the
    session finds it. *)
Definition watch_wf (s : KeeperStore) : Prop :=
  ∀ p sid, sid ∈ watchers (watches s) p ∨ sid ∈ watchers (list_watches s) p →
    p ∈ eph_of (sessions_and_watchers s) sid.

(** Every session with a timeout has an expiration time. *)
Definition session_wf (s : KeeperStore) : Prop :=
  Queue_wf (session_expiry_queue s) ∧
  dom (session_and_timeout s) ⊆ dom (session_to_expiration_time (session_expiry_queue s)).

Record store_wf (s : KeeperStore) : Prop := {
  wf_tree : tree_wf (container s) (ephemerals s);
  wf_watch : watch_wf s;
  wf_session : session_wf s
}.

(** ** Computations that keep a property of the store *)

Definition keeps {A} (I : KeeperStore → Prop) (m : STQ A) : Prop :=
  ∀ s q s' q' o, I s → m (s, q) = ((s', q'), o) → I s' ∧ o ≠ Crash.

Lemma keeps_bind {A B} I (m : STQ A) (k : A → STQ B) :
  keeps I m → (∀ a, keeps I (k a)) → keeps I (m ≫= k).
Proof.
  intros Hm Hk s q s' q' o Hs. unfold mbind, ST_bind.
  destruct (m (s, q)) as [[s1 q1] o1] eqn:E. destruct (Hm _ _ _ _ _ Hs E) as [H1 Ho].
  destruct o1; [by apply Hk|by intros [= <- <- <-]|done].
Qed.

Lemma keeps_ret {A} I (a : A) : keeps I (mret a).
Proof. by intros s q s' q' o Hs [= <- <- <-]. Qed.

Lemma keeps_throw {A} I e : keeps I (throw e : STQ A).
Proof. by intros s q s' q' o Hs [= <- <- <-]. Qed.

Lemma keeps_throw_bind {A B} I e (k : A → STQ B) : keeps I (throw e ≫= k).
Proof. by intros s q s' q' o Hs [= <- <- <-]. Qed.

Lemma keeps_get I : keeps I get_store.
Proof. by intros s q s' q' o Hs [= <- <- <-]. Qed.

(** Reading the store tells the continuation that the property holds. *)
Lemma keeps_get_bind {B} I (k : KeeperStore → STQ B) :
  (∀ s, I s → keeps I (k s)) → keeps I (get_store ≫= k).
Proof. intros Hk s q s' q' o Hs E. exact (Hk s Hs s q s' q' o Hs E). Qed.

Lemma keeps_response I rs ig : keeps I (set_response rs ig).
Proof. by intros s q s' q' o Hs [= <- <- <-]. Qed.

Lemma keeps_on_store {A} (I : KeeperStore → Prop) (m : STS A) :
  (∀ s s' o, I s → m s = (s', o) → I s' ∧ o ≠ Crash) → keeps I (on_store m).
Proof.
  intros H s q s' q' o Hs. unfold on_store. destruct (m s) as [s1 o1] eqn:E.
  intros [= <- <- <-]. by eapply H.
Qed.

Lemma keeps_modify (I : KeeperStore → Prop) f : (∀ s, I s → I (f s)) → keeps I (on_store (modify f)).
Proof. intros H. apply keeps_on_store. intros s s' o Hs [= <- <-]. auto. Qed.

Lemma on_store_Ret {A} (m : STS A) s q s' o : m s = (s', o) → on_store m (s, q) = ((s', q), o).
Proof. intros E. unfold on_store. by rewrite E. Qed.

Create HintDb keeps discriminated.
#[export] Hint Resolve keeps_ret keeps_throw keeps_get keeps_response : keeps.

(** ** Watches *)

Definition sub_watches (ws' ws : Watches) : Prop :=
  ∀ p sid, sid ∈ watchers ws' p → sid ∈ watchers ws p.

#[export] Instance sub_watches_preorder : PreOrder sub_watches.
Proof. split; [by intros ws p sid|]. intros a b c H1 H2 p sid H. by apply H2, H1. Qed.

Lemma sub_watches_delete p ws : sub_watches (delete p ws) ws.
Proof.
  intros q sid. unfold watchers. destruct (decide (q = p)) as [->|].
  - rewrite lookup_delete_eq. set_solver.
  - by rewrite lookup_delete_ne.
Qed.

Lemma fire_sub p ev ws : sub_watches (fire p ev ws).2 ws.
Proof. unfold fire. destruct (ws !! p); [apply sub_watches_delete|done]. Qed.

Lemma fire_list_sub pp ps ws : sub_watches (fire_list pp ps ws).2 ws.
Proof.
  revert ws. induction ps as [|p ps IH]; intros ws; cbn; [done|].
  set (ev := if bool_decide (p = pp) then CHILD else DELETED). pose proof (fire_sub p ev ws) as H1.
  destruct (fire p ev ws) as [rs ws1]. pose proof (IH ws1) as H2.
  destruct (fire_list pp ps ws1). cbn in *. by transitivity ws1.
Qed.

Definition sub_tables (t t' : list ResponseForSession * Watches * Watches) : Prop :=
  sub_watches t.1.2 t'.1.2 ∧ sub_watches t.2 t'.2.

Lemma processWatchesImpl_sub p ws lws ev :
  sub_tables (processWatchesImpl p ws lws ev) ([], ws, lws).
Proof.
  unfold processWatchesImpl. pose proof (fire_sub p ev ws). destruct (fire p ev ws) as [rs ws1].
  set (ps := match ev with CREATED => _ | DELETED => _ | _ => _ end).
  pose proof (fire_list_sub (parentPath p) ps lws). by destruct (fire_list (parentPath p) ps lws).
Qed.

Lemma processWatches_one_sub r ws lws : sub_tables (processWatches_one r ws lws) ([], ws, lws).
Proof. unfold processWatches_one. case_match; try done; apply processWatchesImpl_sub. Qed.

Lemma processWatches_all_sub rs ws lws : sub_tables (processWatches_all rs ws lws) ([], ws, lws).
Proof.
  revert ws lws. induction rs as [|x rs IH]; intros ws lws; cbn; [done|].
  pose proof (processWatches_one_sub x ws lws) as [H1 H2].
  destruct (processWatches_one x ws lws) as [[? ws1] lws1]. pose proof (IH ws1 lws1) as [H3 H4].
  destruct (processWatches_all rs ws1 lws1) as [[? ?] ?]. cbn in *.
  split; cbn; [by transitivity ws1|by transitivity lws1].
Qed.

Lemma processWatches_sub r ws lws : sub_tables (processWatches r ws lws) ([], ws, lws).
Proof.
  unfold processWatches. case_match; apply processWatches_one_sub || apply processWatches_all_sub.
Qed.

Lemma watch_wf_sub s ws lws :
  watch_wf s → sub_watches ws (watches s) → sub_watches lws (list_watches s) →
  watch_wf (upd_list_watches lws (upd_watches ws s)).
Proof. intros H H1 H2 p sid [Hin|Hin]; apply H; [left; by apply H1|right; by apply H2]. Qed.

Lemma watchers_add p sid ws q k :
  k ∈ watchers (watch_add p sid ws) q ↔ k ∈ watchers ws q ∨ (q = p ∧ k = sid).
Proof.
  unfold watchers, watch_add. destruct (decide (q = p)) as [->|].
  - rewrite lookup_insert_eq. cbn. rewrite elem_of_app, list_elem_of_singleton. naive_solver.
  - rewrite lookup_insert_ne by done. naive_solver.
Qed.

Lemma register_watch_wf b p sid s :
  watch_wf s → watch_wf (register_watch b p sid s).1.
Proof.
  intros H q k Hin.
  assert (q ∈ eph_of (sessions_and_watchers s) k ∨ (q = p ∧ k = sid)) as Hq.
  { pose proof (H q k). destruct b; cbn in Hin; rewrite watchers_add in Hin; naive_solver. }
  destruct b; cbn; rewrite eph_of_emplace; case_decide; subst; set_solver.
Qed.

Lemma watchers_clear_path sid p ws q k :
  k ∈ watchers (clear_path sid p ws) q ↔ k ∈ watchers ws q ∧ ¬ (q = p ∧ k = sid).
Proof.
  unfold watchers, clear_path. destruct (ws !! p) as [l|] eqn:E.
  - destruct (decide (q = p)) as [->|].
    + case_bool_decide as Hf.
      * rewrite lookup_delete_eq, E. cbn. split; [set_solver|]. intros [Hk Hn].
        assert (k ∈ filter (λ x, x ≠ sid) l) by (apply list_elem_of_filter; naive_solver).
        rewrite Hf in *. set_solver.
      * rewrite lookup_insert_eq, E. cbn. rewrite list_elem_of_filter. naive_solver.
    + case_bool_decide; rewrite ?lookup_delete_ne, ?lookup_insert_ne by done; naive_solver.
  - split; [|naive_solver]. intros Hk. split; [done|]. intros [-> ->]. rewrite E in Hk. set_solver.
Qed.

Lemma watchers_clear_paths sid ps ws q k :
  k ∈ watchers (foldr (clear_path sid) ws ps) q ↔ k ∈ watchers ws q ∧ ¬ (q ∈ ps ∧ k = sid).
Proof.
  induction ps as [|p ps IH]; cbn; [set_solver|]. rewrite watchers_clear_path, IH. set_solver.
Qed.

(** ** The parts of processRequest *)

(** The node a [SetSeqNum] request names is there: the handler dereferences it. *)
Definition seqnum_target (r : ZooKeeperRequest) (s : KeeperStore) : Prop :=
  match req_body r with SetSeqNumRequest p _ => is_Some (container s !! p) | _ => True end.

Definition store_ok (r : ZooKeeperRequest) (s : KeeperStore) : Prop :=
  store_wf s ∧ seqnum_target r s.

(** Watches and sessions are not touched by a handler. *)
Lemma rest_wf s s' :
  rest s' = rest s → tree_wf (container s') (ephemerals s') → store_wf s → store_wf s'.
Proof.
  unfold rest. intros [= H1 H2 H3 H4 H5 H6 H7 H8 H9] Ht [_ Hw Hs]. split; [done| |].
  - unfold watch_wf. by rewrite H4, H5, H6.
  - unfold session_wf. by rewrite H2, H3.
Qed.

Lemma on_expiry_ok {A} (m : ST SessionExpiryQueue exn A) s q o :
  m (session_expiry_queue s) = (q, o) → on_expiry m s = (upd_expiry q s, o).
Proof. intros E. unfold on_expiry. by rewrite E. Qed.

Lemma addNewSessionOrUpdate_ok now sid t q :
  Queue_wf q →
  ∃ q' e, addNewSessionOrUpdate now sid t q = (q', Ret tt) ∧ Queue_wf q'
    ∧ session_to_expiration_time q' = <[sid := e]> (session_to_expiration_time q).
Proof.
  intros Hq. unfold addNewSessionOrUpdate.
  destruct (setSessionExpirationTime_ok sid (roundToNextInterval (s64 (now + t)) q) q Hq)
    as (q' & ? & ? & ? & _). eauto.
Qed.

(** Giving a session a timeout together with an expiration time. *)
Lemma session_wf_add s sid q e f :
  session_wf s → Queue_wf q →
  session_to_expiration_time q = <[sid := e]> (session_to_expiration_time (session_expiry_queue s)) →
  dom (f (session_and_timeout s)) ⊆ {[sid]} ∪ dom (session_and_timeout s) →
  session_wf (upd_expiry q (upd_timeout f s)).
Proof.
  intros [Hq Hd] Hq' E Hf. split; [done|]. cbn. rewrite E, dom_insert_L. set_solver.
Qed.

Lemma touch_session_spec now sid z s s' o :
  store_wf s → touch_session now sid z s = (s', o) →
  o ≠ Crash ∧ store_wf s' ∧ container s' = container s ∧ ephemerals s' = ephemerals s ∧
  (o = Ret false → s' = s).
Proof.
  intros [Ht Hw Hs]. unfold touch_session; run. case_match; [by intros [= <- <-]|].
  set (s1 := upd_timeout (λ m, <[sid := default 0 (m !! sid)]> m) s).
  destruct (addNewSessionOrUpdate_ok now sid (default 0 (session_and_timeout s1 !! sid))
    (session_expiry_queue s1) ltac:(apply Hs)) as (q' & e & E & Hq' & Hdom).
  rewrite (on_expiry_ok _ _ _ _ E). intros [= <- <-]. split_and!; try done.
  split; [done|exact Hw|]. eapply session_wf_add; [done..|]. by rewrite dom_insert_L.
Qed.

Lemma touch_keeps r now sid z : keeps (store_ok r) (on_store (touch_session now sid z)).
Proof.
  apply keeps_on_store. intros s s' o [Hs Hr] E.
  destruct (touch_session_spec _ _ _ _ _ _ Hs E) as (? & ? & Hc & _). split; [|done].
  split; [done|]. unfold seqnum_target in *. by rewrite Hc.
Qed.

Lemma advance_keeps r z : keeps (store_ok r) (on_store (advance_zxid z)).
Proof.
  apply keeps_on_store. intros s s' o [[] Hr]. unfold advance_zxid; run.
  destruct z; [case_match|]; by intros [= <- <-].
Qed.

Lemma response_zxid_keeps r z b : keeps (store_ok r) (on_store (response_zxid z b)).
Proof.
  apply keeps_on_store. intros s s' o [[] Hr]. unfold response_zxid, getZXID; run.
  case_match; by intros [= <- <-].
Qed.

Lemma register_keeps r b p sid : keeps (store_ok r) (on_store (register_watch b p sid)).
Proof.
  apply keeps_on_store. intros s s' o [[Ht Hw Hs] Hr] E.
  pose proof (register_watch_wf b p sid s Hw) as Hw'. rewrite E in Hw'.
  unfold register_watch, modify in E. injection E as <- <-.
  by destruct b.
Qed.

Lemma tables_keeps r ws lws s0 :
  watch_wf s0 →
  sub_watches ws (watches s0) → sub_watches lws (list_watches s0) →
  ∀ s q s' q' o, store_ok r s → s = s0 →
    on_store (modify (λ s, upd_list_watches lws (upd_watches ws s))) (s, q) = ((s', q'), o) →
    store_ok r s' ∧ o ≠ Crash.
Proof.
  intros Hw0 H1 H2 s q s' q' o [[Ht Hw Hs] Hr] -> [= <- <- <-].
  split; [|done]. split; [|done]. split; [done|by apply watch_wf_sub|done].
Qed.

(** Replacing the watch tables by smaller ones, computed from the store. *)
Lemma shrink_tables_keeps {B} r (t : KeeperStore → list ResponseForSession * Watches * Watches)
    (k : KeeperStore → list ResponseForSession → STQ B) :
  (∀ s, sub_tables (t s) ([], watches s, list_watches s)) →
  (∀ s rs, keeps (store_ok r) (k s rs)) →
  keeps (store_ok r)
    (s ← get_store;
     let '(rs, ws, lws) := t s in
     on_store (modify (λ s, upd_list_watches lws (upd_watches ws s)));; k s rs).
Proof.
  intros Hsub Hk s q s' q' o Hs. unfold mbind, ST_bind. cbn.
  pose proof (Hsub s) as [H1 H2]. destruct (t s) as [[rs ws] lws]. cbn in *.
  intros E. eapply Hk; [|exact E].
  exact (proj1 (tables_keeps r ws lws s (wf_watch _ (proj1 Hs)) H1 H2 s q _ q _ Hs eq_refl eq_refl)).
Qed.

Lemma trigger_keeps r p ev ig : keeps (store_ok r) (trigger p ev ig).
Proof.
  unfold trigger.
  apply (shrink_tables_keeps r (λ s, processWatchesImpl p (watches s) (list_watches s) ev)
           (λ _ rs, set_response rs ig)); eauto with keeps.
  intros s. apply processWatchesImpl_sub.
Qed.
#[export] Hint Resolve touch_keeps advance_keeps response_zxid_keeps register_keeps trigger_keeps : keeps.

Lemma finish_read_keeps r x resp sid ig : keeps (store_ok r) (finish_read x resp sid ig).
Proof. unfold finish_read. apply keeps_bind; [case_match|]; eauto with keeps. Qed.

Lemma finish_write_keeps r x resp sid ig : keeps (store_ok r) (finish_write x resp sid ig).
Proof.
  unfold finish_write. intros s q s' q' o Hs E.
  assert (∃ m : STQ unit, keeps (store_ok r) m ∧
    m (s, q) = ((s', q'), o)) as (m & Hm & Em); [|by eapply Hm].
  destruct ((bool_decide (is_Some (watches s !! getPath x)) ||
    bool_decide (is_Some (list_watches s !! parentPath (getPath x))))
    && bool_decide (resp_error resp = ZOK)) eqn:G.
  - exists (s ← get_store;
      let '(rs, ws, lws) := processWatches x (watches s) (list_watches s) in
      on_store (modify (λ s, upd_list_watches lws (upd_watches ws s)));;
      (set_response rs ig;; set_response [(sid, resp)] ig)). split.
    + apply (shrink_tables_keeps r (λ s, processWatches x (watches s) (list_watches s))
        (λ _ rs, set_response rs ig;; set_response [(sid, resp)] ig)).
      * intros. apply processWatches_sub.
      * intros. apply keeps_bind; eauto with keeps.
    + rewrite <-E. unfold mbind, ST_bind. cbn. rewrite G.
      by destruct (processWatches x (watches s) (list_watches s)) as [[? ?] ?].
  - exists (set_response [(sid, resp)] ig). split; [eauto with keeps|].
    rewrite <-E. unfold mbind, ST_bind. cbn. by rewrite G.
Qed.
#[export] Hint Resolve finish_read_keeps finish_write_keeps : keeps.

(** ** Closing a session *)

(** The ephemeral nodes of the tree leave it one by one; [e] is the table that
    matches the tree, while the one of the store still lists them. *)
Lemma detach_child_wf b p n e s s' o :
  tree_wf (container s) e → container s !! p = Some n → p ≠ "/" → node_children n = ∅ →
  detach_child p b s = (s', o) →
  o = Ret tt ∧ tree_wf (container s') (eph_del p n e) ∧ ephemerals s' = ephemerals s ∧
  rest s' = rest s ∧ session_and_auth s' = session_and_auth s ∧ acl_map s' = acl_map s ∧
  (∀ q, q ≠ p → q ≠ parentPath p → container s' !! q = container s !! q).
Proof.
  intros Hwf Hp Hroot Hleaf. destruct (wf_parent _ _ Hwf _ _ Hp Hroot) as (pn & Hpn & Hin & _).
  unfold detach_child; run. rewrite bool_decide_eq_true_2 by eauto.
  erewrite modify_node_Some by exact Hpn. intros [= <- <-]. split_and!; try done; cbn.
  - eapply tree_wf_delete; eauto. apply shrink_ok; try done. by eapply wf_node.
  - intros q H1 H2. by rewrite lookup_delete_ne, lookup_insert_ne.
Qed.

Lemma trigger_frame p ev ig s q :
  ∃ ws lws q', trigger p ev ig (s, q) = ((upd_list_watches lws (upd_watches ws s), q'), Ret tt) ∧
    sub_watches ws (watches s) ∧ sub_watches lws (list_watches s).
Proof.
  unfold trigger, mbind, ST_bind. cbn.
  pose proof (processWatchesImpl_sub p (watches s) (list_watches s) ev) as [H1 H2].
  destruct (processWatchesImpl p (watches s) (list_watches s) ev) as [[rs ws] lws].
  cbn in *. by eexists ws, lws, _.
Qed.

Lemma close_ephemerals_wf sid ps ig e s q :
  tree_wf (container s) e → watch_wf s → session_wf s → NoDup ps → (∀ p, p ∈ ps → p ∈ eph_of e sid) →
  ∃ s' q' e', close_ephemerals ps ig (s, q) = ((s', q'), Ret tt) ∧
    tree_wf (container s') e' ∧ watch_wf s' ∧ session_wf s' ∧ ephemerals s' = ephemerals s ∧
    (∀ k, eph_of e' k = if decide (k = sid) then eph_of e sid ∖ list_to_set ps else eph_of e k) ∧
    sub_watches (watches s') (watches s) ∧ sub_watches (list_watches s') (list_watches s) ∧
    sessions_and_watchers s' = sessions_and_watchers s.
Proof.
  revert e s q. induction ps as [|p ps IH]; intros e s q Ht Hw Hs Hnd Hin.
  { exists s, q, e. split_and!; try done. intros k. case_decide; [subst; set_solver|done]. }
  inversion_clear Hnd as [|? ? Hp Hnd'].
  destruct (proj1 (wf_eph _ _ Ht sid p) (Hin p ltac:(set_solver))) as (n & Hn & Hen & Hon).
  assert (p ≠ "/") as Hroot.
  { intros ->. destruct (wf_root _ _ Ht) as (m & Hm & ?). congruence. }
  assert (node_children n = ∅) as Hleaf by (by apply (wf_node _ _ Ht _ _ Hn)).
  cbn. destruct (detach_child p false s) as [s1 o1] eqn:E1.
  destruct (detach_child_wf _ _ _ _ _ _ _ Ht Hn Hroot Hleaf E1)
    as (-> & Ht1 & He1 & Hr1 & _). injection Hr1 as H1 H2 H3 H4 H5 H6 H7 H8 H9.
  destruct (trigger_frame p DELETED ig s1 q) as (ws & lws & q1 & E2 & Hsw & Hslw).
  assert (eph_del p n e = set_erase sid p e) as Ee by (unfold eph_del; by rewrite Hen, Hon).
  set (s2 := upd_list_watches lws (upd_watches ws s1)) in *.
  destruct (IH (eph_del p n e) s2 q1) as (s' & q' & e' & E3 & ? & ? & ? & He' & Hk & Hw1 & Hw2 & Hsw'); try done.
  - apply watch_wf_sub; try done. unfold watch_wf. by rewrite H4, H5, H6.
  - unfold session_wf, s2. cbn. by rewrite H2, H3.
  - intros x Hx. rewrite Ee, eph_of_erase, decide_True by done. set_solver.
  - exists s', q', e'. split_and!; try done.
    + unfold mbind, ST_bind at 1. unfold on_store at 1. rewrite E1. unfold ST_bind. by rewrite E2.
    + by rewrite He'.
    + intros k. rewrite Hk, Ee, !eph_of_erase. repeat case_decide; subst; try done. set_solver.
    + etrans; [apply Hw1|]. cbn. by rewrite <-H5.
    + etrans; [apply Hw2|]. cbn. by rewrite <-H6.
    + by rewrite Hsw'.
Qed.

Lemma clearDeadWatches_spec sid s :
  ∃ s', clearDeadWatches sid s = (s', Ret tt) ∧
    container s' = container s ∧ ephemerals s' = ephemerals s ∧
    session_expiry_queue s' = session_expiry_queue s ∧ session_and_timeout s' = session_and_timeout s ∧
    zxid s' = zxid s ∧ session_and_auth s' = session_and_auth s ∧
    (watch_wf s → watch_wf s' ∧
      (∀ p, (sid ∉ watchers (watches s') p) ∧ (sid ∉ watchers (list_watches s') p))).
Proof.
  unfold clearDeadWatches; run. destruct (sessions_and_watchers s !! sid) as [ps|] eqn:E.
  - eexists. split_and!; try done. intros Hw.
    assert (∀ p k, k ∈ watchers (watches s) p ∨ k ∈ watchers (list_watches s) p →
      k = sid → p ∈ elements ps) as Hps.
    { intros p k Hin ->. apply Hw in Hin. unfold eph_of in Hin. rewrite E in Hin. set_solver. }
    split.
    + intros p k. cbn. rewrite !watchers_clear_paths. intros Hin.
      assert (k ≠ sid) as Hne by (intros ->; naive_solver).
      unfold eph_of. rewrite lookup_delete_ne by done. apply Hw. naive_solver.
    + intros p. cbn. rewrite !watchers_clear_paths. naive_solver.
  - eexists. split_and!; try done. intros Hw. split; [done|].
    intros p. split; intros Hin; [pose proof (Hw p sid (or_introl Hin))|pose proof (Hw p sid (or_intror Hin))];
      unfold eph_of in *; rewrite E in *; set_solver.
Qed.

(** Nothing of the session is left. *)
Record session_gone (sid : Z) (s : KeeperStore) : Prop := {
  gone_ephemerals : ephemerals s !! sid = None;
  gone_nodes p n : container s !! p = Some n → node_is_ephemeral n = true →
    ephemeralOwner (node_stat n) ≠ sid;
  gone_watches p : (sid ∉ watchers (watches s) p) ∧ (sid ∉ watchers (list_watches s) p);
  gone_timeout : session_and_timeout s !! sid = None;
  gone_expiry : session_to_expiration_time (session_expiry_queue s) !! sid = None;
  gone_auth : session_and_auth s !! sid = None
}.

(** The first step of a close: the ephemeral nodes of the session. *)
Definition close_step1 (sid : Z) (ig : bool) (s : KeeperStore) : STQ unit :=
  match ephemerals s !! sid with
  | Some paths =>
      close_ephemerals (elements paths) ig;; on_store (modify (upd_ephemerals (delete sid)))
  | None => mret tt
  end.

Lemma close_step1_wf sid ig s q :
  store_wf s →
  ∃ s' q', close_step1 sid ig s (s, q) = ((s', q'), Ret tt) ∧ store_wf s' ∧
    ephemerals s' = delete sid (ephemerals s).
Proof.
  intros [Ht Hw Hs]. unfold close_step1. destruct (ephemerals s !! sid) as [ps|] eqn:E.
  - destruct (close_ephemerals_wf sid (elements ps) ig (ephemerals s) s q)
      as (s1 & q1 & e' & E1 & Ht1 & Hw1 & Hs1 & He1 & Hk & _); try done.
    { apply NoDup_elements. }
    { intros p Hp. unfold eph_of. rewrite E. set_solver. }
    unfold mbind, ST_bind. rewrite E1. cbn. eexists _, _. split_and!; [done| |cbn; by rewrite He1].
    split; [|done|done]. cbn. rewrite He1.
    assert (eph_equiv e' (delete sid (ephemerals s))) as <-; [|done].
    intros k. rewrite Hk. unfold eph_of. case_decide as Ek.
    + subst. rewrite lookup_delete_eq, E. cbn. apply set_eq. set_solver.
    + by rewrite lookup_delete_ne.
  - exists s, q. split_and!; try done. by rewrite delete_id.
Qed.

(** A close request removes the session and everything it owned, and answers. *)
Lemma process_close_spec r sid z ig s q :
  store_wf s →
  ∃ s' q', process_close r sid z ig (s, q) = ((s', q'), Ret tt) ∧ store_wf s' ∧ session_gone sid s'.
Proof.
  intros Hwf. destruct (close_step1_wf sid ig s q Hwf) as (s1 & q1 & E1 & [Ht1 Hw1 Hs1] & He1).
  destruct (clearDeadWatches_spec sid s1) as (s2 & E2 & Hc2 & He2 & Hq2 & Hto2 & Hz2 & Ha2 & Hw2).
  destruct (Hw2 Hw1) as [Hww Hno].
  assert (∃ s3 zz, response_zxid z true s2 = (s3, Ret zz) ∧ s3 = upd_zxid (zxid s3) s2) as (s3 & zz & E3 & Hs3).
  { unfold response_zxid, getZXID; run. destruct z; cbn; eexists _, _; (split; [done|]); by destruct s2. }
  destruct Hs1 as [Hqwf Hdom].
  destruct (SessionExpiryQueue.remove_ok sid (session_expiry_queue s3)) as (q4 & E4 & Hq4 & Hd4 & _).
  { rewrite Hs3. cbn. by rewrite Hq2. }
  assert (on_expiry (SessionExpiryQueue.remove sid) s3 = (upd_expiry q4 s3, Ret
    (bool_decide (is_Some (session_to_expiration_time (session_expiry_queue s3) !! sid))))) as E5.
  { unfold on_expiry. by rewrite E4. }
  eexists _, _. split_and!.
  - unfold process_close. rewrite (bind_Ret get_store _ (s, q) (s, q) s) by done.
    rewrite (bind_Ret (close_step1 sid ig s) _ _ _ _ E1).
    erewrite bind_Ret by (by apply on_store_Ret). erewrite bind_Ret by (by apply on_store_Ret).
    erewrite bind_Ret by (by apply on_store_Ret). reflexivity.
  - rewrite Hs3. split; cbn.
    + by rewrite Hc2, He2.
    + exact Hww.
    + split; cbn; [done|]. rewrite Hd4, !dom_delete_L, Hto2. rewrite Hs3. cbn. rewrite Hq2. set_solver.
  - rewrite Hs3. split; cbn.
    + by rewrite He2, He1, lookup_delete_eq.
    + rewrite Hc2. intros p n Hp Hen <-.
      assert (p ∈ eph_of (ephemerals s1) (ephemeralOwner (node_stat n))) as Hin
        by (apply (wf_eph _ _ Ht1); eauto).
      rewrite He1 in Hin. unfold eph_of in Hin. rewrite lookup_delete_eq in Hin. set_solver.
    + apply Hno.
    + apply lookup_delete_eq.
    + rewrite Hd4. apply lookup_delete_eq.
    + apply lookup_delete_eq.
Qed.

(** ** processRequest *)

Section Requests.
Context (getSHA1 base64Encode : string → string).
Abbreviation process := (process getSHA1 base64Encode).
Abbreviation processRequest := (processRequest getSHA1 base64Encode).

Lemma factory_get_cases {S} (r : ZooKeeperRequest) :
  (∃ e, factory_get (S := S) r = throw e) ∨
  (factory_get (S := S) r = mret tt ∧
   ∀ rs, req_body r = MultiRequest rs → forallb multi_allowed rs = true).
Proof.
  unfold factory_get. destruct (req_body r); try (right; by split); [|by left; eauto].
  destruct (forallb multi_allowed _) eqn:E; [right; split; [done|]; naive_solver|left; eauto].
Qed.

Lemma process_keeps r zx sid time :
  request_valid r = true →
  (∀ rs, req_body r = MultiRequest rs → forallb multi_allowed rs = true) →
  keeps (store_ok r) (on_store (process r zx sid time)).
Proof.
  intros Hv Hm. apply keeps_on_store. intros s s' o [Hwf Hr] E.
  destruct (process_wf _ _ _ _ _ _ _ _ _ (wf_tree _ Hwf) Hv Hm E) as (Ht & Hrest & Hc).
  split; [split; [by eapply rest_wf|]|].
  - unfold seqnum_target in *. destruct (req_body r) as [| | | | | | | | | | | | | | | | |p k] eqn:B; try done.
    unfold KeeperStore.process, KeeperStore.process_one in E. rewrite B in E.
    destruct Hr as [n Hn]. unfold process_setseqnum, modify_node, mbind, ST_bind in E.
    rewrite Hn in E. injection E as <- <-. cbn. rewrite lookup_insert_eq. eauto.
  - intros ->. destruct (Hc eq_refl) as (p & n & B & Hnone). unfold seqnum_target in Hr.
    rewrite B, Hnone in Hr. by destruct Hr.
Qed.

Lemma checkAuth_no_crash r sid s : checkAuth r sid s ≠ Crash.
Proof.
  assert (∀ x, checkAuth_one x sid s ≠ Crash) as H1.
  { intros x. unfold checkAuth_one, checkAuth_at.
    repeat case_match; try done; by edestruct convertNumber_no_crash. }
  unfold checkAuth. case_match; try done. clear -H1.
  match goal with l : list ZooKeeperRequest |- _ => induction l as [|x l IH] end; [done|].
  cbn. specialize (H1 x). repeat case_match; done.
Qed.

Lemma process_other_keeps r sid time z ca ig :
  request_valid r = true →
  keeps (store_ok r) (process_other_request getSHA1 base64Encode r sid time z ca ig).
Proof.
  intros Hv. unfold process_other_request.
  destruct (factory_get_cases (S := KeeperStore * Queue) r) as [[e ->]|[-> Hm]].
  { apply keeps_throw_bind. }
  apply keeps_bind; [eauto with keeps|]. intros _. apply keeps_get_bind. intros s _.
  apply keeps_bind.
  { destruct ca; [|eauto with keeps]. intros s0 q s' q' o Hs [= <- <- <-]. split; [done|].
    apply checkAuth_no_crash. }
  intros allowed. apply keeps_bind.
  { destruct allowed; cbn; [|eauto with keeps].
    intros s0 q s' q' o Hs. unfold fmap, ST_fmap.
    destruct (on_store (process r (zxid s) sid time) (s0, q)) as [[s1 q1] o1] eqn:E.
    destruct (process_keeps r (zxid s) sid time Hv Hm _ _ _ _ _ Hs E).
    destruct o1; by intros [= <- <- <-]. }
  intros resp. apply keeps_bind; [eauto with keeps|]. intros zz.
  case_match; eauto with keeps.
Qed.

(** The three loops register a watch, look the node up and may trigger. *)
Ltac keeps_loop ps :=
  induction ps as [|p ps IH]; cbn; [eauto with keeps|];
  apply keeps_bind; [eauto with keeps|intros _]; apply keeps_get_bind; intros ? _;
  apply keeps_bind; [repeat case_match; eauto with keeps|done].

Lemma setwatches_data_keeps r rel ps sid ig : keeps (store_ok r) (setwatches_data rel ps sid ig).
Proof. keeps_loop ps. Qed.
Lemma setwatches_exist_keeps r ps sid ig : keeps (store_ok r) (setwatches_exist ps sid ig).
Proof. keeps_loop ps. Qed.
Lemma setwatches_list_keeps r rel ps sid ig : keeps (store_ok r) (setwatches_list rel ps sid ig).
Proof. keeps_loop ps. Qed.
#[local] Hint Resolve setwatches_data_keeps setwatches_exist_keeps setwatches_list_keeps : keeps.

Lemma process_setwatches_keeps r sid time ig :
  request_valid r = true → getOpNum r = Op_SetWatches →
  keeps (store_ok r) (process_setwatches_request getSHA1 base64Encode r sid time ig).
Proof.
  intros Hv Hop. unfold process_setwatches_request.
  destruct (factory_get_cases (S := KeeperStore * Queue) r) as [[e ->]|[-> Hm]].
  { apply keeps_throw_bind. }
  apply keeps_bind; [eauto with keeps|]. intros _. apply keeps_get_bind. intros s _.
  apply keeps_bind; [by apply process_keeps|]. intros [resp u].
  apply keeps_bind; [|eauto with keeps].
  unfold getOpNum in Hop. destruct (req_body r) as [|rel dw ew lw| | | | | | | | | | | | | | | |]; try done.
  repeat (apply keeps_bind; [eauto with keeps|intros _]). eauto with keeps.
Qed.

Lemma process_heartbeat_keeps r sid time ig :
  request_valid r = true →
  keeps (store_ok r) (process_heartbeat_request getSHA1 base64Encode r sid time ig).
Proof.
  intros Hv. unfold process_heartbeat_request.
  destruct (factory_get_cases (S := KeeperStore * Queue) r) as [[e ->]|[-> Hm]].
  { apply keeps_throw_bind. }
  apply keeps_bind; [eauto with keeps|]. intros _. apply keeps_get_bind. intros s _.
  apply keeps_bind; [by apply process_keeps|]. intros [resp u]. eauto with keeps.
Qed.

Lemma process_close_keeps r sid z ig : getOpNum r = Op_Close →
  keeps (store_ok r) (process_close r sid z ig).
Proof.
  intros Hop s q s' q' o [Hwf _] E.
  destruct (process_close_spec r sid z ig s q Hwf) as (s1 & q1 & E1 & H1 & _).
  rewrite E1 in E. injection E as <- <- <-. split; [|done]. split; [done|].
  unfold seqnum_target. unfold getOpNum in Hop. by destruct (req_body r).
Qed.

Lemma processRequest_keeps now r sid time z ca ig :
  request_valid r = true → keeps (store_ok r) (processRequest now r sid time z ca ig).
Proof.
  intros Hv. unfold KeeperStore.processRequest. apply keeps_bind; [eauto with keeps|]. intros _.
  destruct (getOpNum r) eqn:Hop;
    try (by apply process_close_keeps);
    (apply keeps_bind; [eauto with keeps|]; intros live; destruct live; cbn; [|eauto with keeps]);
    first [by apply process_other_keeps | by apply process_setwatches_keeps
          | by apply process_heartbeat_keeps].
Qed.
End Requests.

(** ** The other methods *)

Lemma KeeperStore_new_wf tick digest : store_wf (KeeperStore_new tick digest).
Proof.
  split.
  - assert (∀ p n, ({["/" := KeeperNode_new]} : Tree) !! p = Some n → p = "/" ∧ n = KeeperNode_new) as H.
    { intros p n. rewrite lookup_singleton_Some. naive_solver. }
    split; cbn.
    + by exists KeeperNode_new.
    + by intros p n [-> ->]%H.
    + intros p n [-> ->]%H. by split.
    + by intros p n [-> ->]%H.
    + intros p n b [-> ->]%H. set_solver.
    + intros sid p. split; [set_solver|]. by intros (n & [-> ->]%H & ? & ?).
  - intros p sid [H|H]; cbn in H; unfold watchers in H; rewrite lookup_empty in H; set_solver.
  - split; cbn; [apply Queue_new_wf|set_solver].
Qed.

Lemma dom_emplace_timeout sid t m : dom (emplace_timeout sid t m) = {[sid]} ∪ dom m.
Proof.
  unfold emplace_timeout. destruct (m !! sid) eqn:E; [|by rewrite dom_insert_L].
  apply elem_of_dom_2 in E. set_solver.
Qed.

(** Entering a session: its timeout and its expiration time appear together. *)
Lemma enter_session_wf now sid t s :
  store_wf s →
  ∃ s', (modify (upd_timeout (emplace_timeout sid t));;
         on_expiry (addNewSessionOrUpdate now sid t)) s = (s', Ret tt) ∧
    store_wf s' ∧ container s' = container s ∧ is_Some (session_and_timeout s' !! sid) ∧
    session_id_counter s' = session_id_counter s ∧ zxid s' = zxid s ∧
    (∀ k, k ≠ sid → session_and_timeout s' !! k = session_and_timeout s !! k).
Proof.
  intros [Ht Hw Hs]. run. set (s1 := upd_timeout _ s).
  destruct (addNewSessionOrUpdate_ok now sid t (session_expiry_queue s1) ltac:(apply Hs))
    as (q' & e & E & Hq' & Hdom).
  rewrite (on_expiry_ok _ _ _ _ E). eexists. split_and!; [done| |done| |done|done|].
  - split; [done|exact Hw|]. eapply session_wf_add; [done..|]. by rewrite dom_emplace_timeout.
  - apply elem_of_dom. cbn. rewrite dom_emplace_timeout. set_solver.
  - intros k Hk. cbn. unfold emplace_timeout. case_match; [done|]. by rewrite lookup_insert_ne.
Qed.

Lemma getSessionID_wf now t s :
  store_wf s →
  ∃ s', getSessionID now t s = (s', Ret (session_id_counter s)) ∧ store_wf s' ∧
    container s' = container s ∧ is_Some (session_and_timeout s' !! session_id_counter s) ∧
    session_id_counter s' = s64 (session_id_counter s + 1) ∧ zxid s' = s64 (zxid s + 1) ∧
    (∀ k, k ≠ session_id_counter s → session_and_timeout s' !! k = session_and_timeout s !! k).
Proof.
  intros [Ht Hw Hs].
  destruct (enter_session_wf now (session_id_counter s) t
    (upd_counter (λ c, s64 (c + 1)) (upd_zxid (s64 (zxid s + 1)) s)) ltac:(by split))
    as (s' & E & Hwf & Hc & Hin & Hcnt & Hz & Hk).
  exists s'. split_and!; try done. unfold getSessionID, getZXID.
  unfold mbind, ST_bind, modify, get, mret, ST_ret in *. cbn in *.
  destruct (on_expiry _ _) as [s1 [[]|e|]]; naive_solver.
Qed.

Lemma addSessionID_wf now sid t s :
  store_wf s → ∃ s', addSessionID now sid t s = (s', Ret tt) ∧ store_wf s'.
Proof.
  intros H. destruct (enter_session_wf now sid t s H) as (s' & E & Hwf & _). by exists s'.
Qed.

(** Refreshing an expiration time never removes a session from the queue. *)
Lemma session_wf_expiry s q sid e :
  session_wf s → Queue_wf q →
  session_to_expiration_time q = <[sid := e]> (session_to_expiration_time (session_expiry_queue s)) →
  session_wf (upd_expiry q s).
Proof. intros [Hq Hd] Hq' E. split; [done|]. cbn. rewrite E, dom_insert_L. set_solver. Qed.

Lemma updateSessionTimeout_wf now sid s :
  store_wf s →
  ∃ s', updateSessionTimeout now sid s =
      (s', Ret (bool_decide (is_Some (session_and_timeout s !! sid)))) ∧ store_wf s' ∧
    container s' = container s.
Proof.
  intros [Ht Hw Hs]. unfold updateSessionTimeout; run.
  destruct (session_and_timeout s !! sid) as [t|] eqn:E.
  - rewrite bool_decide_eq_true_2 by eauto.
    destruct (addNewSessionOrUpdate_ok now sid t (session_expiry_queue s) ltac:(apply Hs))
      as (q' & e & E' & Hq' & Hdom).
    rewrite (on_expiry_ok _ _ _ _ E'). eexists. split_and!; [done| |done].
    split; [done|exact Hw|by eapply session_wf_expiry].
  - rewrite bool_decide_eq_false_2 by (by intros []). by eexists.
Qed.

Lemma handleRemoteSession_wf sid e s :
  store_wf s → ∃ s', handleRemoteSession sid e s = (s', Ret tt) ∧ store_wf s' ∧ container s' = container s.
Proof.
  intros [Ht Hw Hs]. unfold handleRemoteSession.
  destruct (setSessionExpirationTime_ok sid e (session_expiry_queue s) ltac:(apply Hs))
    as (q' & E & Hq' & Hdom & _).
  rewrite (on_expiry_ok _ _ _ _ E). eexists. split_and!; [done| |done].
  split; [done|exact Hw|by eapply session_wf_expiry].
Qed.

(** ** Reachable stores *)

Section Reachable.
Context (getSHA1 base64Encode : string → string).

(** What the state machine does to a store: requests in log order, new
    sessions, and the session refreshes of the leader and of peers. *)
Inductive store_step (s : KeeperStore) : KeeperStore → Prop :=
| step_request now r sid time z ca ig q s' q' o :
    request_valid r = true → seqnum_target r s →
    processRequest getSHA1 base64Encode now r sid time z ca ig (s, q) = ((s', q'), o) →
    store_step s s'
| step_session now t s' o : getSessionID now t s = (s', o) → store_step s s'
| step_add now sid t s' o : addSessionID now sid t s = (s', o) → store_step s s'
| step_update now sid s' o : updateSessionTimeout now sid s = (s', o) → store_step s s'
| step_remote sid e s' o : handleRemoteSession sid e s = (s', o) → store_step s s'.

Definition reachable (s : KeeperStore) : Prop :=
  ∃ tick digest, rtc store_step (KeeperStore_new tick digest) s.

Lemma store_step_wf s s' : store_wf s → store_step s s' → store_wf s'.
Proof.
  intros Hwf Hstep.
  destruct Hstep as [now r sid time z ca ig q s' q' o Hv Ht E|now t s' o E|now sid t s' o E
    |now sid s' o E|sid e s' o E].
  - by eapply (processRequest_keeps getSHA1 base64Encode now r sid time z ca ig Hv) in E as [[H _] _].
  - destruct (getSessionID_wf now t s Hwf) as (? & ? & ? & _). congruence.
  - destruct (addSessionID_wf now sid t s Hwf) as (? & ? & ?). congruence.
  - destruct (updateSessionTimeout_wf now sid s Hwf) as (? & ? & ? & _). congruence.
  - destruct (handleRemoteSession_wf sid e s Hwf) as (? & ? & ? & _). congruence.
Qed.

Lemma reachable_wf s : reachable s → store_wf s.
Proof.
  intros (tick & digest & H). assert (store_wf (KeeperStore_new tick digest)) as H0
    by apply KeeperStore_new_wf.
  induction H; eauto using store_step_wf.
Qed.
End Reachable.
