(* ===== verification/KeeperSpec.v ===== *)
(** * What the tree promises, and that the handlers keep it

    The specification is the ZooKeeper data model: a finite map from paths to
    nodes in which the children of a node are the paths below it, counted on
    demand, and a node counts the changes of its children. It has no set of
    children, no [numChildren] field and no table of ephemeral nodes. The
    refinement theorem [process_refines] says that the bookkeeping of the
    handlers of src/Service/KeeperStore.cpp gives the answers and the new trees of the
    specification. *)

From S2P Require Import Prelude Types ACLMap SessionExpiryQueue KeeperPaths KeeperNode KeeperStore StoreTree StoreInv.
From stdpp Require Import base gmap sets list strings option sorting.
From Stdlib Require Import ZArith Lia.
Open Scope Z_scope.

Record ZNode : Type := mkZ {
  z_data : string;
  z_acl : Z;
  z_ephemeral : option Z;        (* the owner *)
  z_czxid : Z; z_mzxid : Z; z_pzxid : Z;
  z_ctime : Z; z_mtime : Z;
  z_version : Z; z_aversion : Z;
  z_owner_field : Z; z_dataLength : Z;
  z_created : Z;                 (* children ever created: the sequence counter *)
  z_changes : Z                  (* creations and removals of children *)
}.

Abbreviation ZTree := (gmap string ZNode).

(** The names of the nodes directly below [p]. *)
Definition is_child (p q : string) : bool :=
  negb (bool_decide (q = "/")) && bool_decide (parentPath q = p).
Definition z_children (t : ZTree) (p : string) : gset string :=
  list_to_set (map getBaseName (filter (λ q, is_child p q = true) (elements (dom t)))).

Definition z_stat (t : ZTree) (p : string) (z : ZNode) : Stat :=
  mkStat (z_czxid z) (z_mzxid z) (z_ctime z) (z_mtime z) (z_version z) (z_changes z)
    (z_aversion z) (z_owner_field z) (z_dataLength z)
    (s32 (Z.of_nat (size (z_children t p)))) (z_pzxid z).

Definition z_new (data : string) (eph : bool) (acl zx sid time : Z) : ZNode :=
  mkZ data acl (if eph then Some sid else None) zx zx zx time time 0 0
    (if eph then sid else 0) (s32 (Z.of_nat (String.length data))) 0 0.

(** A child was created, or removed, at [zx]. *)
Definition z_child_created (zx : Z) (z : ZNode) : ZNode :=
  mkZ (z_data z) (z_acl z) (z_ephemeral z) (z_czxid z) (z_mzxid z) zx (z_ctime z) (z_mtime z)
    (z_version z) (z_aversion z) (z_owner_field z) (z_dataLength z)
    (s32 (z_created z + 1)) (s32 (z_changes z + 1)).
Definition z_child_removed (zx : Z) (z : ZNode) : ZNode :=
  mkZ (z_data z) (z_acl z) (z_ephemeral z) (z_czxid z) (z_mzxid z) zx (z_ctime z) (z_mtime z)
    (z_version z) (z_aversion z) (z_owner_field z) (z_dataLength z)
    (z_created z) (s32 (z_changes z + 1)).
Definition z_written (data : string) (zx time : Z) (z : ZNode) : ZNode :=
  mkZ data (z_acl z) (z_ephemeral z) (z_czxid z) zx (z_pzxid z) (z_ctime z) time
    (s32 (z_version z + 1)) (z_aversion z) (z_owner_field z)
    (s32 (Z.of_nat (String.length data))) (z_created z) (z_changes z).

Definition version_matches (ver actual : Z) : bool := (ver =? -1) || (ver =? actual).

(** An operation gives the new tree and an error or an answer. *)
Abbreviation spec_result := (ZTree * (Error + ResponseBody))%type.

Definition spec_create (path data : string) (eph sq : bool) (acl : option Z) (zx sid time : Z)
    (t : ZTree) : spec_result :=
  match t !! parentPath path with
  | None => (t, inl ZNONODE)
  | Some parent =>
      let pc := if sq then (path +:+ seq_num_str (z_created parent))%string else path in
      if bool_decide (z_ephemeral parent ≠ None) then (t, inl ZNOCHILDRENFOREPHEMERALS)
      else if bool_decide (is_Some (t !! pc)) then (t, inl ZNODEEXISTS)
      else if bool_decide (getBaseName pc = "") then (t, inl ZBADARGUMENTS)
      else
        match acl with
        | None => (t, inl ZINVALIDACL)
        | Some a =>
            (<[pc := z_new data eph a zx sid time]> (<[parentPath path := z_child_created zx parent]> t),
             inr (CreateResponse pc))
        end
  end.

Definition spec_remove (path : string) (ver zx : Z) (t : ZTree) : spec_result :=
  match t !! path with
  | None => (t, inl ZNONODE)
  | Some z =>
      if negb (version_matches ver (z_version z)) then (t, inl ZBADVERSION)
      else if negb (bool_decide (z_children t path = ∅)) then (t, inl ZNOTEMPTY)
      else (delete path (alter (z_child_removed zx) (parentPath path) t), inr RemoveResponse)
  end.

Definition spec_set (path data : string) (ver zx time : Z) (t : ZTree) : spec_result :=
  match t !! path with
  | None => (t, inl ZNONODE)
  | Some z =>
      if version_matches ver (z_version z) then
        let z := z_written data zx time z in
        (<[path := z]> t, inr (SetResponse (z_stat t path z)))
      else (t, inl ZBADVERSION)
  end.

Definition spec_check (path : string) (ver : Z) (t : ZTree) : spec_result :=
  match t !! path with
  | None => (t, inl ZNONODE)
  | Some z => (t, if version_matches ver (z_version z) then inr CheckResponse else inl ZBADVERSION)
  end.

(** The lookups: [f] is the answer for an existing node. *)
Definition spec_read (path : string) (f : ZNode → ResponseBody) (t : ZTree) : spec_result :=
  (t, match t !! path with None => inl ZNONODE | Some z => inr (f z) end).

Definition spec_one (r : ZooKeeperRequest) (acl : option Z) (zx sid time : Z) (t : ZTree)
    : option spec_result :=
  match req_body r with
  | CreateRequest p d eph sq _ => Some (spec_create p d eph sq acl zx sid time t)
  | RemoveRequest p v => Some (spec_remove p v zx t)
  | SetRequest p d v => Some (spec_set p d v zx time t)
  | CheckRequest p v => Some (spec_check p v t)
  | GetRequest p => Some (spec_read p (λ z, GetResponse (z_data z) (z_stat t p z)) t)
  | ExistsRequest p => Some (spec_read p (λ z, ExistsResponse (z_stat t p z)) t)
  | ListRequest p | SimpleListRequest p =>
      Some (spec_read p (λ z, ListResponse (merge_sort name_le (elements (z_children t p)))
                                (z_stat t p z)) t)
  | _ => None
  end.

(** ** The abstraction *)

Definition abs_node (n : KeeperNode) : ZNode :=
  let st := node_stat n in
  mkZ (node_data n) (node_acl_id n)
    (if node_is_ephemeral n then Some (ephemeralOwner st) else None)
    (czxid st) (mzxid st) (pzxid st) (ctime st) (mtime st) (version st) (aversion st)
    (ephemeralOwner st) (dataLength st) (cversion st) (s32 (cversion st * 2 - numChildren st)).

Definition abs_tree (c : Tree) : ZTree := abs_node <$> c.

(** An error, or an answer without one. *)
Definition answers (r : ZooKeeperRequest) (resp : ZooKeeperResponse) (a : Error + ResponseBody) : Prop :=
  match a with
  | inl e => resp = set_error e (makeResponse r)
  | inr b => resp = new_response b
  end.

(** ** Refinement *)

Lemma lookup_abs_tree c p : abs_tree c !! p = abs_node <$> c !! p.
Proof. apply lookup_fmap. Qed.

Lemma is_child_spec p q : is_child p q = true ↔ q ≠ "/" ∧ parentPath q = p.
Proof.
  unfold is_child. rewrite andb_true_iff, negb_true_iff, bool_decide_eq_true, bool_decide_eq_false. done.
Qed.

Lemma elem_z_children t p b :
  b ∈ z_children t p ↔ ∃ q z, t !! q = Some z ∧ q ≠ "/" ∧ parentPath q = p ∧ getBaseName q = b.
Proof.
  unfold z_children. rewrite elem_of_list_to_set, list_elem_of_fmap.
  setoid_rewrite list_elem_of_filter. setoid_rewrite elem_of_elements. setoid_rewrite elem_of_dom.
  setoid_rewrite is_child_spec. split.
  - intros (q & -> & [? ?] & [z ?]). eauto 10.
  - intros (q & z & ? & ? & ? & <-). eauto 10.
Qed.

(** The set of children of a node is the set of names below it. *)
Lemma z_children_abs c e p n :
  tree_wf c e → c !! p = Some n → z_children (abs_tree c) p = node_children n.
Proof.
  intros Hwf Hp. apply set_eq. intros b.
  rewrite elem_z_children, (children_spec _ _ _ _ _ Hwf Hp). split.
  - intros (q & z & Hq & Hroot & Hpar & <-). rewrite lookup_abs_tree in Hq.
    destruct (c !! q) as [m|] eqn:Hm; [|done]. split; [|eauto 10].
    by destruct (wf_parent _ _ Hwf _ _ Hm Hroot) as (_ & _ & _ & ?).
  - intros (_ & q & m & Hq & ? & ? & ?). exists q, (abs_node m). rewrite lookup_abs_tree, Hq. auto.
Qed.

Lemma z_stat_abs c e p n :
  tree_wf c e → c !! p = Some n → z_stat (abs_tree c) p (abs_node n) = statForResponse n.
Proof. intros Hwf Hp. unfold z_stat. by erewrite z_children_abs. Qed.

Lemma s32_mod_ext a b : a mod 2 ^ 32 = b mod 2 ^ 32 → s32 a = s32 b.
Proof. apply wrap_s_mod. lia. Qed.

Lemma s32_mod a : s32 a mod 2 ^ 32 = a mod 2 ^ 32.
Proof. apply wrap_s_idemp_mod. lia. Qed.

(** The visible child version grows by one with each creation and removal. *)
Lemma changes_created cv nc :
  s32 (s32 (cv + 1) * 2 - s32 (nc + 1)) = s32 (s32 (cv * 2 - nc) + 1).
Proof.
  rewrite wrap_s_add_l by lia. apply s32_mod_ext.
  rewrite Zminus_mod, Zmult_mod, !s32_mod, <-Zmult_mod, <-Zminus_mod. f_equal. lia.
Qed.

Lemma changes_removed cv nc : s32 (cv * 2 - s32 (nc - 1)) = s32 (s32 (cv * 2 - nc) + 1).
Proof.
  rewrite wrap_s_add_l by lia. apply s32_mod_ext.
  rewrite Zminus_mod, s32_mod, <-Zminus_mod. f_equal. lia.
Qed.

Ltac z_simpl :=
  cbv [abs_node z_child_created z_child_removed z_data z_acl z_ephemeral z_czxid z_mzxid z_pzxid
       z_ctime z_mtime z_version z_aversion z_owner_field z_dataLength z_created z_changes] in *.

Lemma abs_parent_add b zx n : abs_node (parent_add b zx n) = z_child_created zx (abs_node n).
Proof.
  destruct n as [d a ie sq [f1 f2 f3 f4 f5 cv f7 f8 f9 nc f11] ch]. z_simpl. node_simpl.
  by rewrite changes_created.
Qed.

Lemma abs_parent_remove b zx n : abs_node (parent_remove b zx n) = z_child_removed zx (abs_node n).
Proof.
  destruct n as [d a ie sq [f1 f2 f3 f4 f5 cv f7 f8 f9 nc f11] ch]. z_simpl. node_simpl.
  by rewrite changes_removed.
Qed.

Lemma abs_create_node data eph sq acl zx sid time :
  abs_node (create_node data eph sq acl zx sid time) = z_new data eph acl zx sid time.
Proof. by destruct eph. Qed.

Lemma abs_node_set data zx time n : abs_node (node_set data zx time n) = z_written data zx time (abs_node n).
Proof. by destruct n as [d a ie sq [] ch]. Qed.

(** What a handler computes agrees with the specification. *)
Definition refines (r : ZooKeeperRequest) (s : KeeperStore) (x : KeeperStore * outcome exn Processed)
    (a : spec_result) : Prop :=
  ∃ s' resp u, x = (s', Ret (resp, u)) ∧ abs_tree (container s') = a.1 ∧ answers r resp a.2.

Lemma refines_same r s x e :
  x = (s, Ret (set_error e (makeResponse r), None)) → refines r s x (abs_tree (container s), inl e).
Proof. intros ->. by eexists _, _, _. Qed.

(** The ACL a create request resolves to. *)
Definition acl_of (r : ZooKeeperRequest) (sid : Z) (s : KeeperStore) : option Z :=
  match req_body r with
  | CreateRequest _ _ _ _ acls => match create_acl acls sid s with (_, Ret o) => o | _ => None end
  | _ => None
  end.

Lemma create_refines r path data eph sq acls zx sid time s :
  req_body r = CreateRequest path data eph sq acls →
  refines r s (process_create r path data eph sq acls zx sid time s)
    (spec_create path data eph sq (acl_of r sid s) zx sid time (abs_tree (container s))).
Proof.
  intros Hr. unfold process_create, spec_create, acl_of; run. rewrite Hr, lookup_abs_tree.
  destruct (container s !! parentPath path) as [pn|] eqn:Hpn; [|by apply refines_same].
  cbn [fmap option_fmap option_map].
  destruct (node_is_ephemeral pn) eqn:Hpe.
  { rewrite bool_decide_eq_true_2; [by apply refines_same|]. cbn. by rewrite Hpe. }
  rewrite (bool_decide_eq_false_2 (z_ephemeral (abs_node pn) ≠ None)) by (cbn; rewrite Hpe; naive_solver).
  change (z_created (abs_node pn)) with (cversion (node_stat pn)).
  set (pc := if sq then _ else path). rewrite lookup_abs_tree.
  destruct (container s !! pc) as [m|] eqn:Hpc.
  { rewrite !bool_decide_eq_true_2 by (cbn; eauto). by apply refines_same. }
  rewrite !(bool_decide_eq_false_2 (is_Some _)) by (by intros []).
  case_bool_decide as Hb; [by apply refines_same|].
  destruct (create_acl_frame acls sid s) as (s1 & o & E & Hc1 & _). rewrite E.
  destruct o as [acl_id|].
  - erewrite modify_node_Some by (by rewrite Hc1). eexists _, _, _. split_and!; [done| |done].
    assert (container (if eph then
        upd_ephemerals (set_emplace sid pc)
          (upd_container <[pc := create_node data eph sq acl_id zx sid time]>
             (upd_container <[parentPath path := parent_add (getBaseName pc) zx pn]> s1))
        else upd_container <[pc := create_node data eph sq acl_id zx sid time]>
             (upd_container <[parentPath path := parent_add (getBaseName pc) zx pn]> s1))
      = <[pc := create_node data eph sq acl_id zx sid time]>
          (<[parentPath path := parent_add (getBaseName pc) zx pn]> (container s))) as ->
      by (rewrite <-Hc1; by destruct eph).
    unfold abs_tree. rewrite !fmap_insert, abs_create_node, abs_parent_add. done.
  - eexists _, _, _. split_and!; [done|by rewrite Hc1|done].
Qed.

Lemma version_matches_negb ver v : negb (version_matches ver v) = negb (ver =? -1) && negb (ver =? v).
Proof. apply negb_orb. Qed.

Lemma remove_refines r path ver zx s :
  tree_wf (container s) (ephemerals s) → path ≠ "/" →
  refines r s (process_remove r path ver zx s) (spec_remove path ver zx (abs_tree (container s))).
Proof.
  intros Hwf Hroot. unfold process_remove, spec_remove; run. rewrite lookup_abs_tree.
  destruct (container s !! path) as [n|] eqn:Hn; [|by apply refines_same].
  cbn [fmap option_fmap option_map]. rewrite version_matches_negb.
  change (z_version (abs_node n)) with (version (node_stat n)).
  case_match; [by apply refines_same|]. erewrite z_children_abs by done.
  case_bool_decide as Hleaf; cbn; [|by apply refines_same].
  destruct (wf_parent _ _ Hwf _ _ Hn Hroot) as (pn & Hpn & Hin & Hb). rewrite Hpn.
  erewrite modify_node_Some by done. rewrite clone_id. eexists _, _, _. split_and!; [done| |done].
  assert (∀ s0, container (if node_is_ephemeral n
      then upd_ephemerals (set_erase (ephemeralOwner (node_stat n)) path) s0 else s0) = container s0) as ->
    by (by destruct (node_is_ephemeral n)).
  cbn. unfold abs_tree. rewrite fmap_delete. f_equal.
  apply map_eq. intros q. rewrite lookup_alter, !lookup_fmap, lookup_insert.
  case_decide; [|done]. subst. by rewrite Hpn; cbn; rewrite abs_parent_remove.
Qed.

Lemma set_refines r path data ver zx time s :
  tree_wf (container s) (ephemerals s) →
  refines r s (process_set r path data ver zx time s)
    (spec_set path data ver zx time (abs_tree (container s))).
Proof.
  intros Hwf. unfold process_set, spec_set; run. rewrite lookup_abs_tree.
  destruct (container s !! path) as [n|] eqn:Hn; [|by apply refines_same].
  cbn [fmap option_fmap option_map]. unfold version_matches.
  change (z_version (abs_node n)) with (version (node_stat n)).
  case_match; [|by apply refines_same]. rewrite clone_id. eexists _, _, _. split_and!; [done|..].
  - cbn. unfold abs_tree. by rewrite fmap_insert, abs_node_set.
  - cbn. unfold z_stat. rewrite (z_children_abs _ _ _ _ Hwf Hn). reflexivity.
Qed.

Section Refinement.
Context (getSHA1 base64Encode : string → string).

(** The handlers refine the specification: whatever operation of the tree it
    is, the handler returns, its answer is the specified one, and the tree it
    leaves abstracts to the specified tree. *)
Lemma process_one_refines r zx sid time s a :
  tree_wf (container s) (ephemerals s) → one_valid r = true →
  spec_one r (acl_of r sid s) zx sid time (abs_tree (container s)) = Some a →
  refines r s (process_one getSHA1 base64Encode r zx sid time s) a.
Proof.
  intros Hwf Hv. unfold spec_one, process_one. destruct (req_body r) eqn:E; try done; intros [= <-].
  - by eapply create_refines.
  - apply remove_refines; [done|]. unfold one_valid in Hv. rewrite E in Hv. by case_bool_decide.
  - unfold process_exists, spec_read; run. rewrite lookup_abs_tree.
    destruct (container s !! path) as [n|] eqn:Hn; [|by apply refines_same].
    eexists _, _, _. split_and!; [done..|]. cbn. by erewrite z_stat_abs.
  - unfold process_get, spec_read; run. rewrite lookup_abs_tree.
    destruct (container s !! path) as [n|] eqn:Hn; [|by apply refines_same].
    eexists _, _, _. split_and!; [done..|]. cbn. by erewrite z_stat_abs.
  - by apply set_refines.
  - unfold process_list, spec_read; run. rewrite lookup_abs_tree.
    destruct (container s !! path) as [n|] eqn:Hn; [|by apply refines_same].
    rewrite bool_decide_eq_false_2 by (by eapply valid_path_nonempty, wf_valid).
    eexists _, _, _. split_and!; [done..|]. cbn. by erewrite z_stat_abs, z_children_abs.
  - unfold process_list, spec_read; run. rewrite lookup_abs_tree.
    destruct (container s !! path) as [n|] eqn:Hn; [|by apply refines_same].
    rewrite bool_decide_eq_false_2 by (by eapply valid_path_nonempty, wf_valid).
    eexists _, _, _. split_and!; [done..|]. cbn. by erewrite z_stat_abs, z_children_abs.
  - unfold process_check, spec_check; run. rewrite lookup_abs_tree.
    destruct (container s !! path) as [n|] eqn:Hn; [|by apply refines_same].
    cbn [fmap option_fmap option_map]. rewrite <-version_matches_negb.
    change (z_version (abs_node n)) with (Types.version (node_stat n)).
    destruct (version_matches _ _); [|by apply refines_same]. by eexists _, _, _.
Qed.
End Refinement.
