(* ===== verification/StoreReplica.v ===== *)
(** * Replicas that apply the same requests agree

    The state of src/Service/KeeperStore.h has a replicated part and a part that
    belongs to one server: the watches of its clients and the expiration times
    it computed with its own clock. [processRequest] never lets the second
    influence the first. *)

From S2P Require Import Prelude Types ACLMap SessionExpiryQueue KeeperPaths KeeperNode KeeperStore StoreTree StoreInv StoreRequest.
From stdpp Require Import base gmap sets list strings option.
From Stdlib Require Import ZArith Lia.
Open Scope Z_scope.

(** The replicated part. *)
Definition replicated (s : KeeperStore) :=
  (session_id_counter s, session_and_auth s, container s, ephemerals s,
   (session_and_timeout s, acl_map s, zxid s, finalized s, super_digest s)).

Definition agree (s1 s2 : KeeperStore) : Prop := replicated s1 = replicated s2.

#[export] Instance agree_equivalence : Equivalence agree.
Proof. unfold agree. split; congruence. Qed.

(** [s] with the server's own part of [l]. *)
Definition graft (s l : KeeperStore) : KeeperStore :=
  mkStore (session_id_counter s) (session_and_auth s) (container s) (ephemerals s)
    (session_expiry_queue l) (session_and_timeout s) (sessions_and_watchers l) (watches l)
    (list_watches l) (acl_map s) (zxid s) (finalized s) (super_digest s).

Lemma agree_graft s1 s2 : agree s1 s2 → s2 = graft s1 s2.
Proof.
  unfold agree, replicated, graft. destruct s1, s2; cbn. by intros [= <- <- <- <- <- <- <- <- <-].
Qed.

Lemma graft_agree s l : agree (graft s l) s.
Proof. done. Qed.

(** ** Handlers ignore the server's own part *)

Definition commutes {A} (m : STS A) : Prop :=
  ∀ s l, m (graft s l) = (graft (m s).1 l, (m s).2).

Lemma commutes_bind {A B} (m : STS A) (k : A → STS B) :
  commutes m → (∀ a, commutes (k a)) → commutes (m ≫= k).
Proof.
  intros Hm Hk s l. unfold mbind, ST_bind. rewrite Hm.
  destruct (m s) as [s' [a|e|]]; cbn; [apply Hk|done|done].
Qed.

Lemma commutes_get {B} (k : KeeperStore → STS B) :
  (∀ s l, k (graft s l) = k s) → (∀ s, commutes (k s)) → commutes (get ≫= k).
Proof. intros Hk Hc s l. unfold mbind, ST_bind, get. rewrite Hk. apply Hc. Qed.

Lemma commutes_ret {A} (a : A) : commutes (mret a : STS A).
Proof. done. Qed.
Lemma commutes_throw {A} e : commutes (throw e : STS A).
Proof. done. Qed.
Lemma commutes_crash {A} : commutes (crash : STS A).
Proof. done. Qed.
Lemma commutes_lift {A} o : commutes (lift o : STS A).
Proof. done. Qed.
Lemma commutes_auth f : commutes (modify (upd_auth f)).
Proof. done. Qed.
Lemma commutes_acl f : commutes (modify (upd_acl f)).
Proof. done. Qed.
Lemma commutes_container f : commutes (modify (upd_container f)).
Proof. done. Qed.
Lemma commutes_ephemerals (b : bool) f :
  commutes (modify (λ s, if b then upd_ephemerals f s else s)).
Proof. by destruct b. Qed.
Lemma commutes_ephemerals' f : commutes (modify (upd_ephemerals f)).
Proof. done. Qed.
Lemma commutes_timeout f : commutes (modify (upd_timeout f)).
Proof. done. Qed.
Lemma commutes_modify_node p f : commutes (modify_node p f).
Proof.
  intros s l. unfold modify_node. change (container (graft s l)) with (container s).
  by destruct (container s !! p).
Qed.

Create HintDb commutes discriminated.
#[export] Hint Resolve commutes_ret commutes_throw commutes_crash commutes_lift commutes_auth
  commutes_acl commutes_container commutes_ephemerals commutes_ephemerals' commutes_timeout
  commutes_modify_node : commutes.

(** Walk through the structure of a handler. *)
Ltac commute :=
  repeat first
    [ solve [eauto with commutes]
    | lazymatch goal with
      | |- commutes (get ≫= _) => apply commutes_get; [reflexivity|intros ?]
      | |- commutes (_ ≫= _) => apply commutes_bind; [|intros ?]
      | _ => case_match
      end ].

Lemma fail_commutes r e : commutes (fail r e).
Proof. done. Qed.
Lemma succeed_commutes b u : commutes (succeed b u).
Proof. done. Qed.
#[export] Hint Resolve fail_commutes succeed_commutes : commutes.

Lemma resolve_acls_commutes acls sid : commutes (resolve_acls acls sid).
Proof. unfold resolve_acls. commute. Qed.
#[export] Hint Resolve resolve_acls_commutes : commutes.

Lemma create_undo_commutes sid p pz eph pp b acl : commutes (create_undo sid p pz eph pp b acl).
Proof. unfold create_undo. commute. Qed.
Lemma remove_undo_commutes n p pz b : commutes (remove_undo n p pz b).
Proof. unfold remove_undo. commute. Qed.
Lemma set_undo_commutes n p : commutes (set_undo n p).
Proof. unfold set_undo. commute. Qed.

Section Agree.
Context (getSHA1 base64Encode : string → string).

Lemma process_one_commutes r zx sid time :
  commutes (process_one getSHA1 base64Encode r zx sid time).
Proof.
  unfold process_one, process_heartbeat, process_setwatches, process_sync, process_auth,
    process_create, create_acl, process_remove, process_exists, process_get, process_set,
    process_list, process_check, process_setacl, process_getacl, process_setseqnum.
  commute.
Qed.

(** The undo closure of any handler, too. *)
Definition undo_commutes (x : KeeperStore * outcome exn Processed) : Prop :=
  match x.2 with Ret (_, Some u) => commutes u | _ => True end.

Lemma process_one_undo r zx sid time s :
  undo_commutes (process_one getSHA1 base64Encode r zx sid time s).
Proof.
  unfold undo_commutes, process_one, process_heartbeat, process_setwatches, process_sync, process_auth,
    process_create, create_acl, process_remove, process_exists, process_get, process_set,
    process_list, process_check, process_setacl, process_getacl, process_setseqnum; run.
  repeat (case_match; simplify_eq/=; try done);
    eauto using create_undo_commutes, remove_undo_commutes, set_undo_commutes.
Qed.

Lemma run_undos_commutes undos : Forall commutes undos → commutes (run_undos undos).
Proof. induction 1; cbn; [done|]. by apply commutes_bind. Qed.

Lemma multi_loop_commutes rs fin undos zx sid time :
  Forall commutes undos →
  commutes (multi_loop getSHA1 base64Encode rs fin undos zx sid time).
Proof.
  revert fin undos. induction rs as [|r rs IH]; intros fin undos Hu; cbn; [done|].
  intros s l. rewrite (process_one_commutes r zx sid time s l).
  pose proof (process_one_undo r zx sid time s) as Hun. unfold undo_commutes in Hun.
  destruct (process_one getSHA1 base64Encode r zx sid time s) as [s' [[resp u]|e|]]; cbn in *.
  - case_bool_decide.
    + apply IH. destruct u; [by constructor|done].
    + apply (commutes_bind _ _ (run_undos_commutes _ Hu)). done.
  - apply (commutes_bind _ _ (run_undos_commutes _ Hu)). done.
  - done.
Qed.

Lemma process_commutes r zx sid time : commutes (process getSHA1 base64Encode r zx sid time).
Proof.
  unfold process. case_match; try apply process_one_commutes.
  unfold process_multi. apply commutes_bind; [by apply multi_loop_commutes|done].
Qed.
End Agree.

(** ** processRequest *)

Definition outcome_rel {A} (R : A → A → Prop) (o1 o2 : outcome exn A) : Prop :=
  match o1, o2 with
  | Ret a, Ret b => R a b
  | Throw e, Throw e' => e = e'
  | Crash, Crash => True
  | _, _ => False
  end.

Definition own_wf (s : KeeperStore) : Prop := Queue_wf (session_expiry_queue s).

(** Two computations on agreeing replicas, each with its own queue, agree. *)
Definition agrees {A} (R : A → A → Prop) (m1 m2 : STQ A) : Prop :=
  ∀ s1 q1 s2 q2, agree s1 s2 → own_wf s1 → own_wf s2 →
    agree (m1 (s1, q1)).1.1 (m2 (s2, q2)).1.1 ∧
    own_wf (m1 (s1, q1)).1.1 ∧ own_wf (m2 (s2, q2)).1.1 ∧
    outcome_rel R (m1 (s1, q1)).2 (m2 (s2, q2)).2.

Lemma agrees_bind {A B} (R : A → A → Prop) (R' : B → B → Prop) m1 m2 (k1 k2 : A → STQ B) :
  agrees R m1 m2 → (∀ a b, R a b → agrees R' (k1 a) (k2 b)) → agrees R' (m1 ≫= k1) (m2 ≫= k2).
Proof.
  intros Hm Hk s1 q1 s2 q2 Ha H1 H2.
  destruct (Hm s1 q1 s2 q2 Ha H1 H2) as (Ha' & H1' & H2' & Ho). unfold mbind, ST_bind.
  destruct (m1 (s1, q1)) as [[s1' q1'] [a|e|]], (m2 (s2, q2)) as [[s2' q2'] [b|e'|]];
    cbn in *; try done. by apply Hk.
Qed.

Lemma agrees_ret {A} (R : A → A → Prop) a b : R a b → agrees R (mret a) (mret b).
Proof. by intros H s1 q1 s2 q2. Qed.
Lemma agrees_throw {A} (R : A → A → Prop) e : agrees R (throw e) (throw e).
Proof. by intros s1 q1 s2 q2. Qed.
Lemma agrees_crash {A} (R : A → A → Prop) : agrees R crash crash.
Proof. by intros s1 q1 s2 q2. Qed.
Lemma agrees_get : agrees agree get_store get_store.
Proof. by intros s1 q1 s2 q2. Qed.
Lemma agrees_response rs1 rs2 i1 i2 : agrees (λ _ _, True) (set_response rs1 i1) (set_response rs2 i2).
Proof. by intros s1 q1 s2 q2. Qed.
Lemma agrees_weaken {A} (R R' : A → A → Prop) m1 m2 :
  (∀ a b, R a b → R' a b) → agrees R m1 m2 → agrees R' m1 m2.
Proof.
  intros HR Hm s1 q1 s2 q2 Ha H1 H2. destruct (Hm s1 q1 s2 q2 Ha H1 H2) as (? & ? & ? & Ho).
  split_and!; try done. unfold outcome_rel in *. repeat case_match; naive_solver.
Qed.

(** What ignores the server's own part agrees. *)
Lemma agrees_commutes {A} (m : STS A) : commutes m → agrees eq (on_store m) (on_store m).
Proof.
  intros Hm s1 q1 s2 q2 Ha H1 H2. apply agree_graft in Ha as E. unfold on_store.
  rewrite E, (Hm s1 s2). assert (own_wf (m s1).1 ∧ True) as [Hw _].
  { split; [|done]. pose proof (Hm s1 s1) as Hself.
    replace (graft s1 s1) with s1 in Hself by (by destruct s1).
    rewrite Hself. done. }
  destruct (m s1) as [s1' o]. cbn. split_and!; [by symmetry; apply graft_agree|done|done|].
  by destruct o.
Qed.

(** What only changes the server's own part agrees with anything of the kind. *)
Definition local {A} (R : A → A → Prop) (m : STQ A) : Prop :=
  ∀ s q, own_wf s → agree (m (s, q)).1.1 s ∧ own_wf (m (s, q)).1.1 ∧
    ∃ a, (m (s, q)).2 = Ret a ∧ R a a.

Lemma agrees_local (m1 m2 : STQ unit) :
  local (λ _ _, True) m1 → local (λ _ _, True) m2 → agrees (λ _ _, True) m1 m2.
Proof.
  intros L1 L2 s1 q1 s2 q2 Ha H1 H2.
  destruct (L1 s1 q1 H1) as (A1 & W1 & a & E1 & _), (L2 s2 q2 H2) as (A2 & W2 & b & E2 & _).
  rewrite E1, E2. split_and!; try done. by rewrite A1, A2.
Qed.

Lemma local_bind {A B} (R : A → A → Prop) (R' : B → B → Prop) (m : STQ A) (k : A → STQ B) :
  local R m → (∀ a, local R' (k a)) → local R' (m ≫= k).
Proof.
  intros Hm Hk s q Hw. destruct (Hm s q Hw) as (Ha & Hw' & a & E & _). unfold mbind, ST_bind.
  destruct (m (s, q)) as [[s' q'] o]. cbn in *. subst o.
  destruct (Hk a s' q' Hw') as (? & ? & ?). split_and!; try done. by etrans.
Qed.

Abbreviation anyR := (λ _ _, True).

Lemma local_ret {A} (a : A) : local anyR (mret a).
Proof. intros s q H. split_and!; try done. by exists a. Qed.
Lemma local_response rs ig : local anyR (set_response rs ig).
Proof. intros s q H. split_and!; try done. by exists tt. Qed.
Lemma local_get : local anyR get_store.
Proof. intros s q H. split_and!; try done. by exists s. Qed.
Lemma local_register b p sid : local anyR (on_store (register_watch b p sid)).
Proof. intros s q H. by destruct b; split_and!; try done; exists tt. Qed.

Lemma local_trigger p ev ig : local anyR (trigger p ev ig).
Proof.
  intros s q H. destruct (trigger_frame p ev ig s q) as (ws & lws & q' & E & _).
  rewrite E. split_and!; try done. by exists tt.
Qed.

Lemma local_clear sid : local anyR (on_store (clearDeadWatches sid)).
Proof.
  intros s q H. unfold on_store, clearDeadWatches; run.
  destruct (sessions_and_watchers s !! sid); cbn; split_and!; try done; by exists tt.
Qed.

Lemma local_tables ws lws :
  local anyR (on_store (modify (λ s, upd_list_watches lws (upd_watches ws s)))).
Proof. intros s q H. split_and!; try done. by exists tt. Qed.

Create HintDb local discriminated.
#[export] Hint Resolve local_ret local_response local_get local_register local_trigger local_clear
  local_tables : local.

Ltac localize :=
  repeat first
    [ solve [eauto with local]
    | lazymatch goal with
      | |- local _ (_ ≫= _) => eapply (local_bind anyR); [|intros ?]
      | _ => case_match
      end ].

Lemma local_finish_read r resp sid ig : local anyR (finish_read r resp sid ig).
Proof. unfold finish_read. localize. Qed.
Lemma local_finish_write r resp sid ig : local anyR (finish_write r resp sid ig).
Proof. unfold finish_write. localize. Qed.
Lemma local_setwatches_data rel ps sid ig : local anyR (setwatches_data rel ps sid ig).
Proof. induction ps; cbn; localize. Qed.
Lemma local_setwatches_exist ps sid ig : local anyR (setwatches_exist ps sid ig).
Proof. induction ps; cbn; localize. Qed.
Lemma local_setwatches_list rel ps sid ig : local anyR (setwatches_list rel ps sid ig).
Proof. induction ps; cbn; localize. Qed.
#[export] Hint Resolve local_finish_read local_finish_write local_setwatches_data
  local_setwatches_exist local_setwatches_list : local.

Lemma checkAuth_graft r sid s l : checkAuth r sid (graft s l) = checkAuth r sid s.
Proof.
  unfold checkAuth. case_match; try done. clear.
  match goal with rs : list ZooKeeperRequest |- _ => induction rs as [|x rs IH] end; [done|].
  cbn. by rewrite IH.
Qed.

Lemma agrees_lift {A} (o : outcome exn A) : agrees eq (lift o) (lift o).
Proof. intros s1 q1 s2 q2 Ha H1 H2. split_and!; try done. by destruct o. Qed.

Lemma agrees_touch now1 now2 sid z :
  agrees eq (on_store (touch_session now1 sid z)) (on_store (touch_session now2 sid z)).
Proof.
  intros s1 q1 s2 q2 Ha H1 H2. pose proof (agree_graft _ _ Ha) as E. unfold on_store, touch_session; run.
  rewrite E. cbn. destruct (_ && _); [done|].
  unfold on_expiry. cbn. set (m := <[sid := default 0 (session_and_timeout s1 !! sid)]> _).
  clearbody m.
  destruct (addNewSessionOrUpdate_ok now1 sid (default 0 (m !! sid)) (session_expiry_queue s1) H1)
    as (qa & ? & Ea & Wa & _).
  destruct (addNewSessionOrUpdate_ok now2 sid (default 0 (m !! sid)) (session_expiry_queue s2) H2)
    as (qb & ? & Eb & Wb & _).
  rewrite Ea, Eb. by split_and!.
Qed.

Lemma detach_child_commutes p b : commutes (detach_child p b).
Proof. unfold detach_child. commute. Qed.

Lemma advance_zxid_commutes z : commutes (advance_zxid z).
Proof. unfold advance_zxid. commute. done. Qed.

Lemma response_zxid_commutes z b : commutes (response_zxid z b).
Proof. unfold response_zxid, getZXID. by case_match. Qed.

Lemma local_expiry_remove sid : local anyR (on_store (on_expiry (SessionExpiryQueue.remove sid))).
Proof.
  intros s q H. unfold on_store, on_expiry.
  destruct (SessionExpiryQueue.remove_ok sid (session_expiry_queue s) H) as (q' & E & Hq & _).
  rewrite E. cbn. split_and!; try done. eauto.
Qed.

Create HintDb agrees discriminated.
#[export] Hint Resolve agrees_get agrees_response agrees_throw agrees_crash agrees_lift agrees_touch : agrees.
#[export] Hint Extern 2 (agrees _ (mret _) (mret _)) => (by apply agrees_ret) : agrees.

Lemma agrees_store {A B} (R : B → B → Prop) (m : STS A) (k1 k2 : A → STQ B) :
  commutes m → (∀ a, agrees R (k1 a) (k2 a)) → agrees R (on_store m ≫= k1) (on_store m ≫= k2).
Proof. intros Hm Hk. eapply agrees_bind; [by apply agrees_commutes|]. by intros a b <-. Qed.

Lemma agrees_own {A B} (R : B → B → Prop) (m1 m2 : STQ A) (k1 k2 : A → STQ B) :
  local anyR m1 → local anyR m2 → (∀ a b, agrees R (k1 a) (k2 b)) → agrees R (m1 ≫= k1) (m2 ≫= k2).
Proof.
  intros L1 L2 Hk. eapply (agrees_bind anyR); [|by intros; apply Hk].
  intros s1 q1 s2 q2 Ha H1 H2.
  destruct (L1 s1 q1 H1) as (A1 & W1 & a & E1 & _), (L2 s2 q2 H2) as (A2 & W2 & b & E2 & _).
  rewrite E1, E2. split_and!; try done. by rewrite A1, A2.
Qed.

Section AgreeRequest.
Context (getSHA1 base64Encode : string → string).
Abbreviation processRequest := (processRequest getSHA1 base64Encode).

Lemma agrees_close_ephemerals ps i1 i2 : agrees anyR (close_ephemerals ps i1) (close_ephemerals ps i2).
Proof.
  induction ps as [|p ps IH]; cbn; [by apply agrees_ret|].
  apply agrees_store; [apply detach_child_commutes|intros _].
  apply agrees_own; eauto with local.
Qed.

Lemma agrees_close r sid z i1 i2 : agrees anyR (process_close r sid z i1) (process_close r sid z i2).
Proof.
  unfold process_close. eapply agrees_bind; [apply agrees_get|]. intros s1 s2 Ha.
  rewrite (agree_graft _ _ Ha). cbn. eapply (agrees_bind anyR).
  { destruct (ephemerals s1 !! sid); [|by apply agrees_ret].
    eapply (agrees_bind anyR); [apply agrees_close_ephemerals|]. intros _ _ _.
    eapply agrees_weaken; [done|]. apply agrees_commutes. eauto with commutes. }
  intros _ _ _. apply agrees_own; [eauto with local..|]. intros _ _.
  apply agrees_store; [apply response_zxid_commutes|]. intros zz.
  apply agrees_own; [apply local_expiry_remove..|]. intros _ _.
  apply agrees_store; [eauto with commutes|]. intros _.
  apply agrees_store; [eauto with commutes|]. intros _. apply agrees_response.
Qed.

(** The branches that start by making the wrapper and reading the zxid. *)
Lemma agrees_start r (R : unit → unit → Prop) (k1 k2 : KeeperStore → STQ unit) :
  (∀ s1 s2, agree s1 s2 → agrees R (k1 s1) (k2 s2)) →
  agrees R (factory_get r;; s ← get_store; k1 s) (factory_get r;; s ← get_store; k2 s).
Proof.
  intros Hk. destruct (factory_get_cases (S := KeeperStore * Queue) r) as [[e ->]|[-> _]].
  - by intros s1 q1 s2 q2.
  - eapply agrees_bind; [by apply (agrees_ret eq)|]. intros _ _ _.
    eapply agrees_bind; [apply agrees_get|done].
Qed.

Lemma agrees_other r sid time z ca i1 i2 :
  agrees anyR (process_other_request getSHA1 base64Encode r sid time z ca i1)
    (process_other_request getSHA1 base64Encode r sid time z ca i2).
Proof.
  unfold process_other_request. apply (agrees_start r anyR). intros s1 s2 Ha.
  rewrite (agree_graft _ _ Ha), checkAuth_graft. cbn [graft zxid].
  eapply (agrees_bind eq); [destruct ca; eauto with agrees|]. intros allowed _ <-.
  eapply (agrees_bind eq).
  { destruct (negb allowed); [by apply agrees_ret|].
    intros x1 p1 x2 p2 Hx H1 H2. unfold fmap, ST_fmap.
    destruct (agrees_commutes _ (process_commutes getSHA1 base64Encode r (zxid s1) sid time) x1 p1 x2 p2 Hx H1 H2)
      as (A & W1 & W2 & O).
    destruct (on_store _ (x1, p1)) as [[? ?] [[]| |]], (on_store _ (x2, p2)) as [[? ?] [[]| |]];
      cbn in *; naive_solver. }
  intros resp _ <-. apply agrees_store; [apply response_zxid_commutes|]. intros zz.
  case_match; apply agrees_local; eauto with local.
Qed.

Lemma agrees_processed r zx sid time (k1 k2 : Processed → STQ unit) :
  (∀ x, agrees anyR (k1 x) (k2 x)) →
  agrees anyR (on_store (process getSHA1 base64Encode r zx sid time) ≫= k1)
    (on_store (process getSHA1 base64Encode r zx sid time) ≫= k2).
Proof. apply agrees_store, process_commutes. Qed.

Lemma processRequest_agrees now1 now2 r sid time z ca i1 i2 :
  agrees anyR (processRequest now1 r sid time z ca i1) (processRequest now2 r sid time z ca i2).
Proof.
  unfold KeeperStore.processRequest. apply agrees_store; [apply advance_zxid_commutes|]. intros _.
  assert (∀ k1 k2 : STQ unit, agrees anyR k1 k2 →
    agrees anyR (live ← on_store (touch_session now1 sid z); if negb live then mret tt else k1)
      (live ← on_store (touch_session now2 sid z); if negb live then mret tt else k2)) as Hlive.
  { intros k1 k2 Hk. eapply agrees_bind; [apply agrees_touch|]. intros live _ <-.
    destruct live; cbn; [done|by apply agrees_ret]. }
  destruct (getOpNum r) eqn:Hop;
    first [apply agrees_close | apply Hlive]; try apply agrees_other.
  - unfold process_heartbeat_request. apply (agrees_start r anyR). intros s1 s2 Ha.
    rewrite (agree_graft _ _ Ha). cbn [graft zxid]. apply agrees_processed. intros [resp u].
    apply agrees_response.
  - unfold process_setwatches_request. apply (agrees_start r anyR). intros s1 s2 Ha.
    rewrite (agree_graft _ _ Ha). cbn [graft zxid]. apply agrees_processed. intros [resp u].
    eapply (agrees_bind anyR); [|intros; apply agrees_response].
    case_match; try apply agrees_crash. apply agrees_local; localize.
Qed.
End AgreeRequest.

(** ** A log applied by two replicas *)

Record entry : Type := mkEntry {
  e_request : ZooKeeperRequest;
  e_session : Z;
  e_time : Z;
  e_zxid : option Z
}.

(** The entries in order; an exception of one does not stop the next. The
    replica reads its own clock for each. *)
Fixpoint apply_log (getSHA1 base64Encode : string → string) (clock : nat → Z) (ca ig : bool)
    (log : list entry) (x : KeeperStore * Queue) : KeeperStore * Queue :=
  match log with
  | [] => x
  | e :: log =>
      apply_log getSHA1 base64Encode clock ca ig log
        (processRequest getSHA1 base64Encode (clock (length log)) (e_request e) (e_session e)
           (e_time e) (e_zxid e) ca ig x).1
  end.

Lemma apply_log_agrees sha b64 clock1 clock2 ca i1 i2 log s1 q1 s2 q2 :
  agree s1 s2 → own_wf s1 → own_wf s2 →
  agree (apply_log sha b64 clock1 ca i1 log (s1, q1)).1 (apply_log sha b64 clock2 ca i2 log (s2, q2)).1.
Proof.
  revert s1 q1 s2 q2. induction log as [|e log IH]; intros s1 q1 s2 q2 Ha H1 H2; cbn; [done|].
  destruct (processRequest_agrees sha b64 (clock1 (length log)) (clock2 (length log)) (e_request e)
    (e_session e) (e_time e) (e_zxid e) ca i1 i2 s1 q1 s2 q2 Ha H1 H2) as (A & W1 & W2 & _).
  destruct (processRequest sha b64 (clock1 (length log)) _ _ _ _ _ i1 (s1, q1)) as [[s1' q1'] o1].
  destruct (processRequest sha b64 (clock2 (length log)) _ _ _ _ _ i2 (s2, q2)) as [[s2' q2'] o2].
  by apply IH.
Qed.
