(* ===== verification/StoreResponse.v ===== *)
(** * Answers, zxids and watch events of processRequest

    What [processRequest] of src/Service/KeeperStore.cpp pushes on the response
    queue and how it moves the zxid. *)

From S2P Require Import Prelude Types ACLMap SessionExpiryQueue KeeperPaths KeeperNode KeeperStore StoreTree StoreInv StoreRequest.
From stdpp Require Import base gmap sets list strings option.
From Stdlib Require Import ZArith Lia.
Open Scope Z_scope.

(** Watch events have the reserved xid and no zxid. *)
Definition is_event (x : ResponseForSession) : Prop :=
  ∃ p ev, x.2 = watch_response p ev.

Abbreviation events := (Forall is_event).

Lemma fire_events p ev ws : events (fire p ev ws).1.
Proof.
  unfold fire. destruct (ws !! p) as [l|]; cbn; [|done].
  induction l; cbn; constructor; [by exists p, ev|done].
Qed.

Lemma fire_list_events pp ps ws : events (fire_list pp ps ws).1.
Proof.
  revert ws. induction ps as [|p ps IH]; intros ws; cbn; [done|].
  set (ev := if bool_decide (p = pp) then CHILD else DELETED). pose proof (fire_events p ev ws).
  destruct (fire p ev ws) as [rs ws1]. specialize (IH ws1).
  destruct (fire_list pp ps ws1). cbn in *. by apply Forall_app.
Qed.

Lemma processWatchesImpl_events p ws lws ev : events (processWatchesImpl p ws lws ev).1.1.
Proof.
  unfold processWatchesImpl. pose proof (fire_events p ev ws). destruct (fire p ev ws) as [rs ws1].
  set (ps := match ev with CREATED => _ | DELETED => _ | _ => _ end).
  pose proof (fire_list_events (parentPath p) ps lws). destruct (fire_list (parentPath p) ps lws).
  by apply Forall_app.
Qed.

Lemma processWatches_one_events r ws lws : events (processWatches_one r ws lws).1.1.
Proof. unfold processWatches_one. case_match; try done; apply processWatchesImpl_events. Qed.

Lemma processWatches_all_events rs ws lws : events (processWatches_all rs ws lws).1.1.
Proof.
  revert ws lws. induction rs as [|x rs IH]; intros ws lws; cbn; [done|].
  pose proof (processWatches_one_events x ws lws).
  destruct (processWatches_one x ws lws) as [[? ws1] lws1]. pose proof (IH ws1 lws1).
  destruct (processWatches_all rs ws1 lws1) as [[? ?] ?]. cbn in *. by apply Forall_app.
Qed.

Lemma processWatches_events r ws lws : events (processWatches r ws lws).1.1.
Proof.
  unfold processWatches.
  case_match; apply processWatches_one_events || apply processWatches_all_events.
Qed.

(** ** Computations that push nothing but events and keep the zxid *)

Definition quiet {A} (m : STQ A) : Prop :=
  ∀ s q s' q' o, m (s, q) = ((s', q'), o) →
    zxid s' = zxid s ∧ ∃ evs, q' = q ++ evs ∧ events evs.

Lemma quiet_bind {A B} (m : STQ A) (k : A → STQ B) :
  quiet m → (∀ a, quiet (k a)) → quiet (m ≫= k).
Proof.
  intros Hm Hk s q s' q' o. unfold mbind, ST_bind.
  destruct (m (s, q)) as [[s1 q1] o1] eqn:E. destruct (Hm _ _ _ _ _ E) as (Hz & evs & -> & Hev).
  destruct o1 as [a|e|].
  - intros E2. destruct (Hk a _ _ _ _ _ E2) as (Hz' & evs' & -> & Hev').
    split; [congruence|]. exists (evs ++ evs'). by rewrite app_assoc, Forall_app.
  - intros [= <- <- <-]. eauto.
  - intros [= <- <- <-]. eauto.
Qed.

Lemma quiet_nil {A} (m : STQ A) :
  (∀ s q s' q' o, m (s, q) = ((s', q'), o) → zxid s' = zxid s ∧ q' = q) → quiet m.
Proof.
  intros H s q s' q' o E. destruct (H _ _ _ _ _ E) as [? ->]. split; [done|].
  exists []. by rewrite app_nil_r.
Qed.

Lemma quiet_ret {A} (a : A) : quiet (mret a).
Proof. apply quiet_nil. by intros ? ? ? ? ? [= <- <- <-]. Qed.
Lemma quiet_throw {A} e : quiet (throw e : STQ A).
Proof. apply quiet_nil. by intros ? ? ? ? ? [= <- <- <-]. Qed.
Lemma quiet_crash {A} : quiet (crash : STQ A).
Proof. apply quiet_nil. by intros ? ? ? ? ? [= <- <- <-]. Qed.
Lemma quiet_get : quiet get_store.
Proof. apply quiet_nil. by intros ? ? ? ? ? [= <- <- <-]. Qed.
Lemma quiet_store {A} (m : STS A) :
  (∀ s s' o, m s = (s', o) → zxid s' = zxid s) → quiet (on_store m).
Proof.
  intros H. apply quiet_nil. intros s q s' q' o. unfold on_store. destruct (m s) as [s1 o1] eqn:E.
  intros [= <- <- <-]. eauto.
Qed.
Lemma quiet_modify f : (∀ s, zxid (f s) = zxid s) → quiet (on_store (modify f)).
Proof. intros H. apply quiet_store. intros s s' o [= <- _]. apply H. Qed.
Lemma quiet_push rs ig : events rs → quiet (set_response rs ig).
Proof.
  intros H s q s' q' o [= <- <- <-]. split; [done|]. destruct ig; [exists []|eauto].
  by rewrite app_nil_r.
Qed.

Create HintDb quiet discriminated.
#[export] Hint Resolve quiet_ret quiet_throw quiet_crash quiet_get : quiet.
#[export] Hint Extern 2 (quiet (on_store (modify _))) => (apply quiet_modify; reflexivity) : quiet.

Lemma quiet_trigger p ev ig : quiet (trigger p ev ig).
Proof.
  unfold trigger. apply quiet_bind; [eauto with quiet|]. intros s.
  pose proof (processWatchesImpl_events p (watches s) (list_watches s) ev).
  destruct (processWatchesImpl p (watches s) (list_watches s) ev) as [[rs ws] lws].
  apply quiet_bind; [eauto with quiet|]. intros _. by apply quiet_push.
Qed.

Lemma quiet_register b p sid : quiet (on_store (register_watch b p sid)).
Proof. apply quiet_modify. by destruct b. Qed.

Lemma modify_node_zxid p f s s' o : modify_node p f s = (s', o) → zxid s' = zxid s.
Proof. unfold modify_node. case_match; by intros [= <- <-]. Qed.

Lemma quiet_detach p b : quiet (on_store (detach_child p b)).
Proof.
  apply quiet_store. intros s s' o. unfold detach_child; run.
  case_bool_decide; [|destruct b; by intros [= <- <-]].
  destruct (modify_node _ _ s) as [s1 o1] eqn:E. apply modify_node_zxid in E.
  destruct o1; intros [= <- <-]; done.
Qed.

Lemma quiet_clear sid : quiet (on_store (clearDeadWatches sid)).
Proof.
  apply quiet_store. intros s s' o E. destruct (clearDeadWatches_spec sid s) as (s1 & E1 & H).
  rewrite E1 in E. injection E as <- <-. apply H.
Qed.
#[export] Hint Resolve quiet_trigger quiet_register quiet_detach quiet_clear : quiet.

Lemma quiet_expiry {A} (m : ST SessionExpiryQueue exn A) : quiet (on_store (on_expiry m)).
Proof.
  apply quiet_store. intros s s' o. unfold on_expiry.
  destruct (m (session_expiry_queue s)). by intros [= <- <-].
Qed.
#[export] Hint Resolve @quiet_expiry : quiet.

Ltac hush :=
  repeat first
    [ solve [eauto with quiet]
    | lazymatch goal with
      | |- quiet (_ ≫= _) => apply quiet_bind; [|intros ?]
      | _ => case_match
      end ].

Lemma quiet_close_ephemerals ps ig : quiet (close_ephemerals ps ig).
Proof. induction ps; cbn; hush. Qed.
Lemma quiet_setwatches_data rel ps sid ig : quiet (setwatches_data rel ps sid ig).
Proof. induction ps; cbn; hush. Qed.
Lemma quiet_setwatches_exist ps sid ig : quiet (setwatches_exist ps sid ig).
Proof. induction ps; cbn; hush. Qed.
Lemma quiet_setwatches_list rel ps sid ig : quiet (setwatches_list rel ps sid ig).
Proof. induction ps; cbn; hush. Qed.
#[export] Hint Resolve quiet_close_ephemerals quiet_setwatches_data quiet_setwatches_exist
  quiet_setwatches_list : quiet.

(** ** The answer *)

(** The queue got watch events and then one answer, for the session and the
    xid of the request, stamped with [zx]. *)
Definition answered (r : ZooKeeperRequest) (sid zx : Z) (P : ZooKeeperResponse → Prop)
    (q q' : Queue) : Prop :=
  ∃ evs resp, q' = q ++ evs ++ [(sid, resp)] ∧ events evs ∧
    resp_xid resp = req_xid r ∧ resp_zxid resp = zx ∧ P resp.

(** [m] answers with the zxid it starts from, and moves it on if [inc]. *)
Definition replies (r : ZooKeeperRequest) (sid : Z) (inc : bool) (P : ZooKeeperResponse → Prop)
    (m : STQ unit) : Prop :=
  ∀ s q s' q', m (s, q) = ((s', q'), Ret tt) →
    answered r sid (zxid s) P q q' ∧ zxid s' = if inc then s64 (zxid s + 1) else zxid s.

Lemma quiet_replies {A} r sid inc P (m : STQ A) (k : A → STQ unit) :
  quiet m → (∀ a, replies r sid inc P (k a)) → replies r sid inc P (m ≫= k).
Proof.
  intros Hm Hk s q s' q'. unfold mbind, ST_bind.
  destruct (m (s, q)) as [[s1 q1] [a|e|]] eqn:E; [|done|done].
  destruct (Hm _ _ _ _ _ E) as (Hz & evs & -> & Hev). intros E2.
  destruct (Hk a _ _ _ _ E2) as [(evs' & resp & -> & Hev' & Hx & Hzx & HP) Hz'].
  rewrite <-Hz. split; [|done]. exists (evs ++ evs'), resp.
  by rewrite <-!app_assoc, Forall_app.
Qed.

(** [m] pushes events, then one answer stamped with [zx]. *)
Definition pushes (r : ZooKeeperRequest) (sid zx : Z) (P : ZooKeeperResponse → Prop) (m : STQ unit)
    : Prop :=
  ∀ s q s' q', m (s, q) = ((s', q'), Ret tt) → answered r sid zx P q q' ∧ zxid s' = zxid s.

Lemma pushes_answer r sid zx (P : ZooKeeperResponse → Prop) resp :
  resp_xid resp = req_xid r → resp_zxid resp = zx → P resp →
  pushes r sid zx P (set_response [(sid, resp)] false).
Proof. intros Hx Hz HP s q s' q' [= <- <-]. split; [|done]. by exists [], resp. Qed.

Lemma pushes_bind {A} r sid zx P (m : STQ A) (k : A → STQ unit) :
  quiet m → (∀ a, pushes r sid zx P (k a)) → pushes r sid zx P (m ≫= k).
Proof.
  intros Hm Hk s q s' q'. unfold mbind, ST_bind.
  destruct (m (s, q)) as [[s1 q1] [a|e|]] eqn:E; [|done|done].
  destruct (Hm _ _ _ _ _ E) as (<- & evs & -> & Hev). intros E2.
  destruct (Hk a _ _ _ _ E2) as [(evs' & resp & -> & Hev' & ? & ? & ?) Hz']. split; [|done].
  exists (evs ++ evs'), resp. by rewrite <-!app_assoc, Forall_app.
Qed.

(** A continuation that answers with the zxid drawn by [response_zxid]. *)
Lemma replies_zxid r sid z inc P (k : Z → STQ unit) :
  (∀ zx, pushes r sid zx P (k zx)) →
  replies r sid (inc && bool_decide (z = None)) P (on_store (response_zxid z inc) ≫= k).
Proof.
  intros Hk s q s' q'. unfold mbind, ST_bind, on_store, response_zxid, getZXID; run.
  destruct z as [z|], inc; cbn; intros E; destruct (Hk _ _ _ _ _ E) as [Ha Hz]; by split.
Qed.

Lemma pushes_finish_read r resp sid zx (P : ZooKeeperResponse → Prop) :
  resp_xid resp = req_xid r → resp_zxid resp = zx → P resp →
  pushes r sid zx P (finish_read r resp sid false).
Proof.
  intros. unfold finish_read. apply pushes_bind; [hush|]. intros _. by apply pushes_answer.
Qed.

Lemma pushes_finish_write r resp sid zx (P : ZooKeeperResponse → Prop) :
  resp_xid resp = req_xid r → resp_zxid resp = zx → P resp →
  pushes r sid zx P (finish_write r resp sid false).
Proof.
  intros. unfold finish_write. apply pushes_bind; [eauto with quiet|]. intros s.
  apply pushes_bind; [|intros _; by apply pushes_answer].
  pose proof (processWatches_events r (watches s) (list_watches s)).
  destruct (processWatches r (watches s) (list_watches s)) as [[rs ws] lws]. cbn in *.
  case_match; hush. by apply quiet_push.
Qed.

Lemma close_replies r sid z :
  replies r sid (true && bool_decide (z = None)) (λ x, resp_error x = ZOK) (process_close r sid z false).
Proof.
  unfold process_close. apply quiet_replies; [eauto with quiet|]. intros s.
  apply quiet_replies; [hush|]. intros _. apply quiet_replies; [eauto with quiet|]. intros _.
  apply replies_zxid. intros zx.
  repeat (apply pushes_bind; [eauto with quiet|intros _]). by apply pushes_answer.
Qed.

Section Answers.
Context (getSHA1 base64Encode : string → string).
Abbreviation process := (process getSHA1 base64Encode).
Abbreviation processRequest := (processRequest getSHA1 base64Encode).

Lemma process_zxid r zx sid time s s' o :
  tree_wf (container s) (ephemerals s) → request_valid r = true →
  (∀ rs, req_body r = MultiRequest rs → forallb multi_allowed rs = true) →
  process r zx sid time s = (s', o) → zxid s' = zxid s.
Proof.
  intros Hwf Hv Hm E. destruct (process_wf _ _ _ _ _ _ _ _ _ Hwf Hv Hm E) as (_ & Hr & _).
  unfold rest in Hr. congruence.
Qed.

(** The answer of the general branch: denied, or what the handler answered. *)
Definition other_answer (r : ZooKeeperRequest) (sid time : Z) (ca : bool) (s : KeeperStore)
    (resp : ZooKeeperResponse) : Prop :=
  if ca then
    match checkAuth r sid s with
    | Ret false => resp_error resp = ZNOAUTH
    | Ret true => ∃ s' x u, process r (zxid s) sid time s = (s', Ret (x, u)) ∧
        resp_error resp = resp_error x ∧ resp_body resp = resp_body x
    | _ => False
    end
  else ∃ s' x u, process r (zxid s) sid time s = (s', Ret (x, u)) ∧
        resp_error resp = resp_error x ∧ resp_body resp = resp_body x.

Lemma header_facts xid zx t r :
  resp_xid (set_header xid zx (set_time t r)) = xid ∧
  resp_zxid (set_header xid zx (set_time t r)) = zx ∧
  resp_error (set_header xid zx (set_time t r)) = resp_error r ∧
  resp_body (set_header xid zx (set_time t r)) = resp_body r.
Proof. by destruct r. Qed.

Lemma process_other_answers r sid time z ca s q s' q' :
  tree_wf (container s) (ephemerals s) → request_valid r = true →
  process_other_request getSHA1 base64Encode r sid time z ca false (s, q) = ((s', q'), Ret tt) →
  answered r sid (zxid s) (other_answer r sid time ca s) q q' ∧
  zxid s' = if shouldIncreaseZxid r && bool_decide (z = None) then s64 (zxid s + 1) else zxid s.
Proof.
  intros Hwf Hv. unfold process_other_request.
  destruct (factory_get_cases (S := KeeperStore * Queue) r) as [[e ->]|[-> Hm]]; [done|].
  rewrite (bind_Ret (mret tt) _ (s, q) (s, q) tt) by done.
  rewrite (bind_Ret get_store _ (s, q) (s, q) s) by done. intros E.
  apply bind_inv_Ret in E as (x1 & allowed & E1 & E).
  apply bind_inv_Ret in E as (x2 & resp & E2 & E).
  assert (x1 = (s, q) ∧ (allowed = true ∨ (ca = true ∧ checkAuth r sid s = Ret false ∧ allowed = false))
    ∧ (ca = true → checkAuth r sid s = Ret allowed)) as (-> & Hal & Hca).
  { destruct ca; [|injection E1 as <- <-; split_and!; [done|by left|done]]. unfold lift in E1.
    injection E1 as <- E1. split; [done|]. destruct allowed; auto. }
  assert (∃ s2, x2 = (s2, q) ∧ zxid s2 = zxid s ∧ ∀ zx,
    other_answer r sid time ca s (set_header (req_xid r) zx (set_time time resp))) as (s2 & -> & Hz2 & HP).
  { unfold other_answer. destruct allowed; cbn [negb] in E2.
    - unfold fmap, ST_fmap, on_store in E2.
      destruct (process r (zxid s) sid time s) as [s2 o2] eqn:Ep.
      pose proof (process_zxid _ _ _ _ _ _ _ Hwf Hv Hm Ep) as Hz2.
      destruct o2 as [[x u]|e|]; [|done|done]. injection E2 as <- <-. exists s2.
      split_and!; [done..|]. intros zx. destruct (header_facts (req_xid r) zx time x) as (_ & _ & ? & ?).
      destruct ca; [rewrite (Hca eq_refl)|]; eauto 10.
    - injection E2 as <- <-. exists s. split_and!; [done..|]. intros zx.
      destruct Hal as [|(-> & -> & _)]; [done|].
      destruct (header_facts (req_xid r) zx time (set_error ZNOAUTH (makeResponse r))) as (_ & _ & -> & _).
      by destruct (makeResponse r). }
  rewrite <-Hz2. revert E. apply (replies_zxid r sid z (shouldIncreaseZxid r)).
  intros zx. destruct (header_facts (req_xid r) zx time resp) as (H1 & H2 & _ & _).
  destruct (isReadRequest r); [apply pushes_finish_read|apply pushes_finish_write]; auto.
Qed.

(** A request for a live session, or a close, gets one answer. *)
Definition live (sid : Z) (z : option Z) (r : ZooKeeperRequest) (s : KeeperStore) : Prop :=
  getOpNum r = Op_Close ∨ is_Some (session_and_timeout s !! sid) ∨ is_Some z.

Lemma advance_zxid_Ret z s s' :
  advance_zxid z s = (s', Ret tt) → s' = upd_zxid (default (zxid s) z) s ∧ zxid s <= default (zxid s) z.
Proof.
  unfold advance_zxid; run. destruct z as [z|]; cbn.
  - destruct (Z.geb_spec (zxid s) z); intros [= <-]. split; [done|lia].
  - intros [= <-]. split; [by destruct s|lia].
Qed.

Lemma process_trivial r zx sid time s s' x u :
  getOpNum r = Op_Heartbeat ∨ getOpNum r = Op_SetWatches →
  process r zx sid time s = (s', Ret (x, u)) → s' = s ∧ resp_error x = ZOK.
Proof.
  unfold getOpNum, KeeperStore.process, KeeperStore.process_one. destruct r as [? ? b].
  intros [Hop|Hop]; destruct b; try done; by intros [= <- <- <-].
Qed.

(** The two branches that answer with the current zxid. *)
Lemma trivial_replies r sid time (k : STQ unit) :
  getOpNum r = Op_Heartbeat ∨ getOpNum r = Op_SetWatches → quiet k →
  replies r sid false (λ x, resp_error x = ZOK)
    (factory_get r;;
     s ← get_store;
     '(response, _) ← on_store (process r (zxid s) sid time);
     k;;
     set_response [(sid, set_header (req_xid r) (zxid s) response)] false).
Proof.
  intros Hop Hk s q s' q'.
  destruct (factory_get_cases (S := KeeperStore * Queue) r) as [[e ->]|[-> Hm]]; [done|].
  rewrite (bind_Ret (mret tt) _ (s, q) (s, q) tt) by done.
  rewrite (bind_Ret get_store _ (s, q) (s, q) s) by done. intros E.
  apply bind_inv_Ret in E as (x1 & [resp u] & E1 & E). unfold on_store in E1.
  destruct (process r (zxid s) sid time s) as [s1 [[x v]|e|]] eqn:Ep; simplify_eq.
  destruct (process_trivial _ _ _ _ _ _ _ _ Hop Ep) as [-> Hok].
  revert E. apply pushes_bind; [done|]. intros _.
  apply pushes_answer; by destruct resp.
Qed.

Lemma touch_session_live now sid z r s s' b :
  live sid z r s → getOpNum r ≠ Op_Close → touch_session now sid z s = (s', Ret b) →
  b = true ∧ zxid s' = zxid s ∧ session_and_auth s' = session_and_auth s ∧ acl_map s' = acl_map s.
Proof.
  intros [|Hl] Hop; [done|]. unfold touch_session; run.
  destruct (_ && _) eqn:C.
  { apply andb_true_iff in C as [C1%bool_decide_eq_true C2%bool_decide_eq_true].
    rewrite C1, C2 in Hl. destruct Hl as [[? ?]|[? ?]]; done. }
  unfold on_expiry. destruct (addNewSessionOrUpdate _ _ _ _) as [q' [[]|e|]]; by intros [= <- <-].
Qed.

(** The branch of a request that is not a close. *)
Definition branch (r : ZooKeeperRequest) (sid time : Z) (z : option Z) (ca ig : bool) : STQ unit :=
  match getOpNum r with
  | Op_Heartbeat => process_heartbeat_request getSHA1 base64Encode r sid time ig
  | Op_SetWatches => process_setwatches_request getSHA1 base64Encode r sid time ig
  | _ => process_other_request getSHA1 base64Encode r sid time z ca ig
  end.

(** A request that completes, taken apart: the zxid, the session, the branch. *)
Lemma processRequest_inv now r sid time z ca ig s q s' q' :
  store_wf s → live sid z r s →
  processRequest now r sid time z ca ig (s, q) = ((s', q'), Ret tt) →
  let s1 := upd_zxid (default (zxid s) z) s in
  (getOpNum r = Op_Close ∧ process_close r sid z ig (s1, q) = ((s', q'), Ret tt)) ∨
  (getOpNum r ≠ Op_Close ∧ ∃ s2, store_wf s2 ∧ zxid s2 = zxid s1 ∧ container s2 = container s ∧
     ephemerals s2 = ephemerals s ∧ session_and_auth s2 = session_and_auth s ∧
     acl_map s2 = acl_map s ∧ branch r sid time z ca ig (s2, q) = ((s', q'), Ret tt)).
Proof.
  intros Hwf Hl. unfold KeeperStore.processRequest. intros E.
  apply bind_inv_Ret in E as ([s1 q1] & [] & E1 & E). unfold on_store in E1.
  destruct (advance_zxid z s) as [s1' o1] eqn:E2. simplify_eq.
  apply advance_zxid_Ret in E2 as [-> _]. set (s1 := upd_zxid _ s) in *. cbn zeta.
  destruct (decide (getOpNum r = Op_Close)) as [Hop|Hop]; [left; by rewrite Hop in E|right].
  split; [done|]. unfold branch.
  assert ((live ← on_store (touch_session now sid z);
    if negb live then mret tt else branch r sid time z ca ig) (s1, q1) = ((s', q'), Ret tt)) as E'.
  { unfold branch. by destruct (getOpNum r). }
  clear E. apply bind_inv_Ret in E' as ([s2 q2] & lv & E3 & E). unfold on_store in E3.
  destruct (touch_session now sid z s1) as [s2' o2] eqn:E4. simplify_eq.
  assert (live sid z r s1) as Hl1 by exact Hl. assert (store_wf s1) as Hwf1 by (by destruct Hwf).
  destruct (touch_session_live _ _ _ r _ _ _ Hl1 Hop E4) as (-> & Hz2 & Hau & Hac).
  destruct (touch_session_spec _ _ _ _ _ _ Hwf1 E4) as (_ & Hwf2 & Hc & He & _). by exists s2.
Qed.

Lemma answered_weaken r sid zx (P Q : ZooKeeperResponse → Prop) q q' :
  (∀ x, P x → Q x) → answered r sid zx P q q' → answered r sid zx Q q q'.
Proof. intros H (evs & resp & ? & ? & ? & ? & ?). exists evs, resp. naive_solver. Qed.

Lemma branch_replies r sid time z ca s q s' q' :
  store_wf s → request_valid r = true → getOpNum r ≠ Op_Close →
  branch r sid time z ca false (s, q) = ((s', q'), Ret tt) →
  answered r sid (zxid s) (λ _, True) q q' ∧
  zxid s' = if shouldIncreaseZxid r && bool_decide (z = None) then s64 (zxid s + 1) else zxid s.
Proof.
  intros Hwf Hv Hop E. unfold branch in E.
  assert (∀ k, getOpNum r = Op_Heartbeat ∨ getOpNum r = Op_SetWatches →
    replies r sid false (λ x, resp_error x = ZOK) k → k (s, q) = ((s', q'), Ret tt) →
    answered r sid (zxid s) (λ _, True) q q' ∧
    zxid s' = if shouldIncreaseZxid r && bool_decide (z = None) then s64 (zxid s + 1) else zxid s) as Htriv.
  { intros k Hk Hm Ek. replace (shouldIncreaseZxid r) with false
      by (unfold shouldIncreaseZxid, getOpNum in *; destruct (req_body r); naive_solver).
    destruct (Hm _ _ _ _ Ek) as [Ha Hz]. split; [by eapply answered_weaken|done]. }
  destruct (getOpNum r) eqn:G; try done;
    try (destruct (process_other_answers r sid time z ca _ _ _ _ (wf_tree _ Hwf) Hv E) as [Ha Hz];
         split; [by eapply answered_weaken|done]).
  - refine (Htriv _ (or_introl eq_refl) _ E).
    intros ? ? ? ? Ek.
    exact (trivial_replies r sid time (mret tt) (or_introl G) (quiet_ret tt) _ _ _ _ Ek).
  - refine (Htriv _ (or_intror eq_refl) _ E).
    apply (trivial_replies r sid time); [auto|]. case_match; hush.
Qed.

Lemma processRequest_replies now r sid time z ca s q s' q' :
  store_wf s → request_valid r = true → live sid z r s →
  processRequest now r sid time z ca false (s, q) = ((s', q'), Ret tt) →
  let zx := default (zxid s) z in
  answered r sid zx (λ _, True) q q' ∧
  zxid s' = if shouldIncreaseZxid r && bool_decide (z = None) then s64 (zx + 1) else zx.
Proof.
  intros Hwf Hv Hl E.
  destruct (processRequest_inv _ _ _ _ _ _ _ _ _ _ _ Hwf Hl E) as [[Hop Ec]|(Hop & s2 & Hwf2 & Hz & _ & _ & _ & _ & Eb)].
  - destruct (close_replies r sid z _ _ _ _ Ec) as [Ha Hz].
    replace (shouldIncreaseZxid r) with true
      by (unfold shouldIncreaseZxid, getOpNum in *; by destruct (req_body r)).
    split; [by eapply answered_weaken|done].
  - cbn zeta. change (default (zxid s) z) with (zxid (upd_zxid (default (zxid s) z) s)).
    rewrite <-Hz. by apply (branch_replies r sid time z ca).
Qed.

(** ** Denied requests *)

Lemma checkAuth_ext r sid s1 s2 :
  container s1 = container s2 → acl_map s1 = acl_map s2 →
  session_and_auth s1 = session_and_auth s2 → checkAuth r sid s1 = checkAuth r sid s2.
Proof.
  intros Hc Ha Hu.
  assert (∀ x, checkAuth_one x sid s1 = checkAuth_one x sid s2) as H1.
  { intros x. unfold checkAuth_one, checkAuth_at. by rewrite Hc, Ha, Hu. }
  unfold checkAuth. case_match; auto. clear -H1.
  match goal with l : list ZooKeeperRequest |- _ => induction l as [|x l IH] end; [done|].
  cbn. by rewrite H1, IH.
Qed.

(** Without an answer that succeeded, the last step of a request only pushes it. *)
Lemma finish_error r resp sid ig s q :
  resp_error resp = ZNOAUTH →
  finish_read r resp sid ig (s, q) = set_response [(sid, resp)] ig (s, q) ∧
  finish_write r resp sid ig (s, q) = set_response [(sid, resp)] ig (s, q).
Proof.
  intros He. unfold finish_read, finish_write. rewrite He, !andb_false_r. split; [done|].
  unfold mbind, ST_bind. cbn. by rewrite andb_false_r.
Qed.

Lemma other_denied r sid time z ig s q s' q' :
  checkAuth r sid s = Ret false →
  process_other_request getSHA1 base64Encode r sid time z true ig (s, q) = ((s', q'), Ret tt) →
  (∃ resp, resp_error resp = ZNOAUTH ∧ q' = if ig then q else q ++ [(sid, resp)]) ∧
  ∃ zx, s' = upd_zxid zx s.
Proof.
  intros Hd. unfold process_other_request.
  destruct (factory_get_cases (S := KeeperStore * Queue) r) as [[e ->]|[-> Hm]]; [done|].
  rewrite (bind_Ret (mret tt) _ (s, q) (s, q) tt) by done.
  rewrite (bind_Ret get_store _ (s, q) (s, q) s) by done.
  rewrite (bind_Ret (lift (checkAuth r sid s)) _ (s, q) (s, q) false) by (unfold lift; by rewrite Hd).
  cbn [negb].
  rewrite (bind_Ret (mret (set_error ZNOAUTH (makeResponse r))) _ (s, q) (s, q)
             (set_error ZNOAUTH (makeResponse r))) by done.
  intros E. apply bind_inv_Ret in E as (x & zx & E1 & E).
  assert (∃ zx', x = (upd_zxid zx' s, q)) as [zx' ->].
  { unfold on_store, response_zxid, getZXID in E1. revert E1; run. destruct (_ || _); intros [=]; subst.
    - exists (zxid s). by destruct s.
    - eauto. }
  set (resp := set_header _ _ _) in E. assert (resp_error resp = ZNOAUTH) as He.
  { unfold resp. by destruct (makeResponse r). }
  destruct (finish_error r resp sid ig (upd_zxid zx' s) q He) as [F1 F2].
  destruct (isReadRequest r); [rewrite F1 in E|rewrite F2 in E]; injection E as <- <-; eauto.
Qed.

Lemma processRequest_denied now r sid time z ig s q s' q' :
  store_wf s → live sid z r s → checkAuth r sid s = Ret false →
  processRequest now r sid time z true ig (s, q) = ((s', q'), Ret tt) →
  (∃ resp, resp_error resp = ZNOAUTH ∧ q' = if ig then q else q ++ [(sid, resp)]) ∧
  container s' = container s ∧ ephemerals s' = ephemerals s ∧ acl_map s' = acl_map s ∧
  session_and_auth s' = session_and_auth s.
Proof.
  intros Hwf Hl Hd E.
  assert (getOpNum r ≠ Op_Close ∧ getOpNum r ≠ Op_Heartbeat ∧ getOpNum r ≠ Op_SetWatches) as (H1 & H2 & H3).
  { unfold checkAuth, checkAuth_one, getOpNum in *. by destruct (req_body r). }
  destruct (processRequest_inv _ _ _ _ _ _ _ _ _ _ _ Hwf Hl E)
    as [[? _]|(_ & s2 & Hwf2 & Hz & Hc & He & Hu & Ha & Eb)]; [done|].
  assert (process_other_request getSHA1 base64Encode r sid time z true ig (s2, q) = ((s', q'), Ret tt)) as Eo.
  { unfold branch in Eb. by destruct (getOpNum r). }
  apply other_denied in Eo as [Hresp [zx ->]]; [|rewrite <-Hd; by apply checkAuth_ext].
  by split_and!.
Qed.
End Answers.
