(* ===== verification/StoreAcl.v ===== *)
(** * ACL numbers of the nodes

    Nodes hold numbers into the [ACLMap]. The invariant that the numbers in use
    resolve, kept by every request that is not a multi; a multi that is rolled
    back breaks it (see the findings in [StoreFindings]). *)

From S2P Require Import Prelude Types ACLMap SessionExpiryQueue KeeperPaths KeeperNode KeeperStore StoreTree StoreInv.
From stdpp Require Import base gmap sets list strings option fin_maps.
From Stdlib Require Import ZArith Lia.
Open Scope Z_scope.

(** How many nodes use a number. *)
Definition acl_count (c : Tree) (id : Z) : Z :=
  Z.of_nat (size (filter (λ x, node_acl_id x.2 = id) c)).

Record acl_inv (c : Tree) (m : ACLMap) : Prop := {
  inv_map : ACLMap_wf m;
  inv_count id : id ≠ 0 → acl_count c id <= usage m id;
  inv_mapped id : 0 < usage m id → is_Some (num_to_acl m !! id)
}.

(** The counters have room for one more. *)
Definition acl_room (m : ACLMap) : Prop :=
  max_acl_id m < 2 ^ 64 - 1 ∧ ∀ id, usage m id < 2 ^ 64 - 1.

(** ** Counting *)

Definition one_if (b : bool) : Z := if b then 1 else 0.

Lemma acl_count_insert c p n id :
  c !! p = None →
  acl_count (<[p := n]> c) id = acl_count c id + one_if (node_acl_id n =? id).
Proof.
  intros Hp. unfold acl_count, one_if. destruct (Z.eqb_spec (node_acl_id n) id) as [E|E].
  - rewrite map_filter_insert_True by done. rewrite map_size_insert_None; [lia|].
    apply map_lookup_filter_None. by left.
  - rewrite map_filter_insert_False by done. rewrite delete_id by done. lia.
Qed.

Lemma acl_count_delete c p n id :
  c !! p = Some n → acl_count (delete p c) id = acl_count c id - one_if (node_acl_id n =? id).
Proof.
  intros Hp. pose proof (acl_count_insert (delete p c) p n id (lookup_delete_eq _ _)) as H.
  rewrite insert_delete_id in H by done. lia.
Qed.

Lemma acl_count_update c p n n' id :
  c !! p = Some n →
  acl_count (<[p := n']> c) id =
    acl_count c id - one_if (node_acl_id n =? id) + one_if (node_acl_id n' =? id).
Proof.
  intros Hp. rewrite <-insert_delete_eq, acl_count_insert by apply lookup_delete_eq.
  by rewrite (acl_count_delete _ _ _ _ Hp).
Qed.

Lemma acl_count_pos c p n : c !! p = Some n → 0 < acl_count c (node_acl_id n).
Proof.
  intros Hp. assert (H := acl_count_delete c p n (node_acl_id n) Hp).
  unfold one_if in H. rewrite Z.eqb_refl in H. unfold acl_count in *. lia.
Qed.

(** ** The invariant resolves numbers *)

Lemma acl_resolves c m p n :
  acl_inv c m → c !! p = Some n → ∃ acls, convertNumber (node_acl_id n) m = Ret acls ∧ acls ≠ [].
Proof.
  intros H Hp. unfold convertNumber. destruct (Z.eqb_spec (node_acl_id n) 0); [by exists default_acls|].
  pose proof (inv_count _ _ H (node_acl_id n) ltac:(done)). pose proof (acl_count_pos _ _ _ Hp).
  destruct (inv_mapped _ _ H (node_acl_id n)) as [acls E]; [lia|]. rewrite E.
  exists acls. split; [done|]. by eapply (wf_named m (inv_map _ _ H)).
Qed.

Lemma usage_nonneg m id : ACLMap_wf m → 0 <= usage m id.
Proof.
  intros Hwf. unfold usage. destruct (usage_counter m !! id) eqn:E; cbn; [|lia].
  apply (wf_usage m Hwf) in E. lia.
Qed.

(** A list taken into use. *)
Lemma acl_take c m acls :
  acl_inv c m → acl_room m →
  let '(m', id) := convertACLs acls m in
  acl_inv c (addUsage id 1 m') ∧ (id ≠ 0 → acl_count c id + 1 <= usage (addUsage id 1 m') id).
Proof.
  intros H [Hmax Hroom]. destruct (convertACLs acls m) as [m' id] eqn:E.
  pose proof (convertACLs_wf _ _ _ _ (inv_map _ _ H) Hmax E) as Hwf'.
  assert (usage m' = usage m) as Hu by (by rewrite <-(usage_convertACLs acls m), E).
  assert (∀ k a, num_to_acl m !! k = Some a → num_to_acl m' !! k = Some a) as Hsub.
  { intros k a Hk. pose proof (num_to_acl_convertACLs acls m k a (inv_map _ _ H) Hk) as Hk'. by rewrite E in Hk'. }
  destruct (convertACLs_num _ _ _ _ (inv_map _ _ H) E) as [(-> & -> & _)|[Hid Hn]]; [by split|].
  assert (usage m' id + 1 < 2 ^ 64) as Hr by (rewrite Hu; specialize (Hroom id); lia).
  assert (∀ k, usage (addUsage id 1 m') k = if decide (k = id) then usage m' id + 1 else usage m' k) as Hadd.
  { intros k. apply usage_addUsage; (done || lia). }
  split.
  - split.
    + apply addUsage_wf; [done|right; eauto|lia|exact Hr].
    + intros k Hk. rewrite Hadd, Hu. pose proof (inv_count _ _ H k Hk). case_decide; subst; lia.
    + intros k. rewrite Hadd, num_to_acl_addUsage. case_decide; [subst; eauto|]. rewrite Hu.
      intros Hk. destruct (inv_mapped _ _ H k Hk) as [a Ha]. eauto.
  - intros _. rewrite Hadd, decide_True, Hu by done. pose proof (inv_count _ _ H id). lia.
Qed.

(** A number given back after its node left the tree. *)
Lemma acl_release c c' m id :
  acl_inv c m → (∀ k, acl_count c' k = acl_count c k - one_if (id =? k)) → acl_inv c' (removeUsage id m).
Proof.
  intros H Hc. pose proof (inv_map _ _ H) as Hwf. split.
  - by apply removeUsage_wf.
  - intros k Hk. rewrite usage_removeUsage, Hc by done. pose proof (inv_count _ _ H k Hk).
    unfold one_if. case_decide; subst; [rewrite Z.eqb_refl; lia|].
    destruct (Z.eqb_spec id k); subst; [done|lia].
  - intros k. rewrite usage_removeUsage, num_to_acl_removeUsage by done. intros Hk.
    rewrite decide_False.
    + apply (inv_mapped _ _ H). pose proof (usage_nonneg m id Hwf). case_decide; subst; lia.
    + intros [-> E]. rewrite decide_True, E in Hk by done. lia.
Qed.

Lemma acl_inv_count c c' m : (∀ k, acl_count c' k <= acl_count c k) → acl_inv c m → acl_inv c' m.
Proof.
  intros Hc [H1 H2 H3]. split; try done. intros id Hid. specialize (H2 id Hid). specialize (Hc id). lia.
Qed.

(** ** Handlers *)

Definition store_acl_inv (s : KeeperStore) : Prop := acl_inv (container s) (acl_map s).

Lemma resolve_acls_inv acls sid s s' o :
  store_acl_inv s → acl_room (acl_map s) → resolve_acls acls sid s = (s', Ret o) →
  store_acl_inv s' ∧ container s' = container s ∧
  ∀ id, o = Some id → id ≠ 0 → acl_count (container s') id + 1 <= usage (acl_map s') id.
Proof.
  intros H Hroom. unfold resolve_acls; run. cbn.
  destruct (fixupACL _ _) as [node_acls|]; [|by intros [= <- <-]].
  pose proof (acl_take (container s) (acl_map s) node_acls H Hroom) as Ht.
  destruct (convertACLs node_acls (acl_map s)) as [m' id]. destruct Ht as [H1 H2].
  intros [= <- <-]. split_and!; try done. cbn. by intros k [= <-].
Qed.

(** Inserting a node under a number already taken. *)
Lemma acl_inv_add c m c' id :
  acl_inv c m → (id ≠ 0 → acl_count c id + 1 <= usage m id) →
  (∀ k, acl_count c' k <= acl_count c k + one_if (id =? k)) → acl_inv c' m.
Proof.
  intros [H1 H2 H3] Hid Hc. split; try done. intros k Hk. specialize (Hc k). specialize (H2 k Hk).
  unfold one_if in Hc. destruct (Z.eqb_spec id k); subst; [specialize (Hid Hk)|]; lia.
Qed.

Lemma create_acl_inv acls sid s s' o :
  store_acl_inv s → acl_room (acl_map s) → create_acl acls sid s = (s', Ret o) →
  store_acl_inv s' ∧ container s' = container s ∧
  ∀ id, o = Some id → id ≠ 0 → acl_count (container s') id + 1 <= usage (acl_map s') id.
Proof.
  intros H Hroom. unfold create_acl. case_bool_decide; [|by apply resolve_acls_inv].
  intros [= <- <-]. split_and!; try done. by intros id [= <-].
Qed.

Lemma process_create_acl r path data eph sq acls zx sid time s s' o :
  store_acl_inv s → acl_room (acl_map s) →
  process_create r path data eph sq acls zx sid time s = (s', o) → store_acl_inv s'.
Proof.
  intros H Hroom. unfold process_create; run.
  destruct (container s !! parentPath path) as [pn|] eqn:Hpn; [|by intros [= <- <-]].
  destruct (node_is_ephemeral pn); [by intros [= <- <-]|]. set (pc := if sq then _ else path).
  case_bool_decide as Hex; [by intros [= <- <-]|]. apply eq_None_not_Some in Hex.
  case_bool_decide; [by intros [= <- <-]|].
  destruct (create_acl_frame acls sid s) as (s1 & oid & E & _). rewrite E.
  destruct (create_acl_inv _ _ _ _ _ H Hroom E) as (H1 & Hc1 & Hid).
  destruct oid as [id|]; [|by intros [= <- <-]].
  erewrite modify_node_Some by (by rewrite Hc1). intros [= <- _].
  assert (acl_inv (<[pc := create_node data eph sq id zx sid time]>
    (<[parentPath path := parent_add (getBaseName pc) zx pn]> (container s1))) (acl_map s1)) as Hinv.
  { eapply acl_inv_add; [exact H1|by apply Hid|]. intros k.
    rewrite acl_count_insert, (acl_count_update _ _ pn).
    - cbn. lia.
    - by rewrite Hc1.
    - rewrite lookup_insert_ne, Hc1; [done|]. intros Ep. rewrite <-Ep in Hex. congruence. }
  by destruct eph.
Qed.

Lemma process_remove_acl r path ver zx s s' o :
  tree_wf (container s) (ephemerals s) → path ≠ "/" → store_acl_inv s →
  process_remove r path ver zx s = (s', o) → store_acl_inv s'.
Proof.
  intros Hwf Hroot H. unfold process_remove; run.
  destruct (container s !! path) as [n|] eqn:Hn; [|by intros [= <- <-]].
  case_match; [by intros [= <- <-]|]. case_bool_decide; cbn; [|by intros [= <- <-]].
  destruct (wf_parent _ _ Hwf _ _ Hn Hroot) as (pn & Hpn & _). rewrite Hpn.
  erewrite modify_node_Some by exact Hpn. intros [= <- _].
  assert (parentPath path ≠ path) as Hne by (apply parentPath_neq; [by eapply wf_valid|done]).
  assert (acl_inv (delete path (<[parentPath path := parent_remove (getBaseName path) zx pn]> (container s)))
    (removeUsage (node_acl_id n) (acl_map s))) as Hinv.
  { eapply acl_release; [exact H|]. intros k.
    rewrite (acl_count_delete _ _ n), (acl_count_update _ _ pn); [cbn; lia|done|].
    by rewrite lookup_insert_ne. }
  by destruct (node_is_ephemeral n).
Qed.

Lemma process_setacl_acl r path acls ver sid s s' o :
  store_acl_inv s → acl_room (acl_map s) →
  process_setacl r path acls ver sid s = (s', o) → store_acl_inv s'.
Proof.
  intros H Hroom. unfold process_setacl; run.
  destruct (container s !! path) as [n|] eqn:Hn; [|by intros [= <- <-]].
  case_match; [by intros [= <- <-]|].
  destruct (resolve_acls_frame acls sid s) as (s1 & oid & E & _). rewrite E.
  destruct (resolve_acls_inv _ _ _ _ _ H Hroom E) as (H1 & Hc1 & Hid).
  destruct oid as [id|]; [|by intros [= <- <-]]. intros [= <- _].
  unfold store_acl_inv. cbn. eapply acl_inv_add; [exact H1|by apply Hid|]. intros k.
  rewrite (acl_count_update _ _ n) by (by rewrite Hc1). cbn. unfold one_if at 1. case_match; lia.
Qed.

Section Handlers.
Context (getSHA1 base64Encode : string → string).

(** Every handler but multi keeps the numbers of the nodes resolvable. *)
Lemma process_one_acl r zx sid time s s' o :
  tree_wf (container s) (ephemerals s) → one_valid r = true → store_acl_inv s → acl_room (acl_map s) →
  process_one getSHA1 base64Encode r zx sid time s = (s', o) → store_acl_inv s'.
Proof.
  intros Hwf Hv H Hroom Hp. unfold process_one, one_valid in *.
  destruct (req_body r) eqn:E;
    try (revert Hp; unfold process_heartbeat, process_setwatches, process_sync, process_auth,
      process_exists, process_get, process_list, process_check, process_getacl; run;
      repeat (case_match; try done); intros; simplify_eq; exact H).
  - by eapply process_create_acl.
  - eapply process_remove_acl; [done| |done|done]. by case_bool_decide.
  - revert Hp. unfold process_set; run. destruct (container s !! path) as [n|] eqn:Hn; [|by intros [= <- <-]].
    case_match; [|by intros [= <- <-]]. intros [= <- _]. unfold store_acl_inv. cbn.
    eapply acl_inv_count; [|exact H]. intros k. rewrite (acl_count_update _ _ n) by done. cbn. lia.
  - by eapply process_setacl_acl.
  - revert Hp. unfold process_setseqnum, modify_node; run.
    destruct (container s !! path) as [n|] eqn:Hn; [|by intros [= <- <-]]. intros [= <- _].
    unfold store_acl_inv. cbn. eapply acl_inv_count; [|exact H]. intros k.
    rewrite (acl_count_update _ _ n) by done. cbn. lia.
Qed.
End Handlers.

Lemma KeeperStore_new_acl tick digest : store_acl_inv (KeeperStore_new tick digest).
Proof.
  split; [apply ACLMap_empty_wf|..].
  - intros id Hid. unfold acl_count. cbn. rewrite <-insert_empty, map_filter_insert_False by (cbn; lia).
    rewrite delete_empty, map_filter_empty, map_size_empty. unfold usage. cbn. by rewrite lookup_empty.
  - intros id. unfold usage. cbn. rewrite lookup_empty. cbn. lia.
Qed.

(** With the invariant no ACL check and no [getACL] throws. *)
Lemma checkAuth_at_total path perm sid s :
  store_acl_inv s → ∃ b, checkAuth_at path perm sid s = Ret b.
Proof.
  intros H. unfold checkAuth_at. destruct (container s !! path) as [n|] eqn:E; [|eauto].
  destruct (acl_resolves _ _ _ _ H E) as (acls & -> & _). case_bool_decide; eauto.
Qed.

Lemma checkAuth_one_total r sid s : store_acl_inv s → ∃ b, checkAuth_one r sid s = Ret b.
Proof. intros H. unfold checkAuth_one. case_match; eauto using checkAuth_at_total. Qed.

Lemma checkAuth_total r sid s : store_acl_inv s → ∃ b, checkAuth r sid s = Ret b.
Proof.
  intros H. unfold checkAuth. case_match; eauto using checkAuth_one_total. clear -H.
  match goal with l : list ZooKeeperRequest |- _ => induction l as [|x l [b IH]] end; cbn; [eauto|].
  destruct (checkAuth_one_total x sid s H) as [[|] ->]; eauto.
Qed.

(** ** Round trips *)

(** What [fixupACL] can resolve a request to: a requested entry, or one of the
    credentials of the session in place of an entry of scheme [auth]. *)
Definition resolved (req : ACLs) (ids : AuthIDs) (a : ACL) : Prop :=
  (a ∈ req ∧ acl_scheme a ≠ "auth")
  ∨ ∃ r i, r ∈ req ∧ acl_scheme r = "auth" ∧ i ∈ ids ∧
      a = mkACL (acl_permissions r) (auth_scheme i) (auth_id i).

Lemma resolved_cons x req ids l : Forall (resolved req ids) l → Forall (resolved (x :: req) ids) l.
Proof. intros H. eapply Forall_impl; [exact H|]. unfold resolved. set_solver. Qed.

Lemma fixupACL_loop_sound req ids v acc b acls :
  fixupACL_loop req ids v acc = Some (b, acls) →
  ∃ more, acls = acc ++ more ∧ Forall (resolved req ids) more ∧ (b = true → v = true ∨ more ≠ []).
Proof.
  revert v acc. induction req as [|a req IH]; intros v acc; cbn.
  { intros [= <- <-]. exists []. rewrite app_nil_r. auto. }
  case_bool_decide as Ha.
  { intros (more & -> & Hm & Hb)%IH. eexists. rewrite <-app_assoc. split_and!; [done|..].
    - apply Forall_app. split; [|by apply resolved_cons].
      apply Forall_forall. intros x Hx.
      apply list_elem_of_fmap in Hx as (i & -> & Hi). right. exists a, i. set_solver.
    - intros Hbt. destruct (Hb Hbt) as [Hv|Hne]; [|right; by destruct ids].
      apply orb_true_iff in Hv as [|Hv]; [by left|right]. by destruct ids. }
  assert (∀ v', fixupACL_loop req ids v' (acc ++ [a]) = Some (b, acls) →
    ∃ more, acls = acc ++ more ∧ Forall (resolved (a :: req) ids) more ∧ (b = true → v = true ∨ more ≠ []))
    as Hkeep.
  { intros v' (more & -> & Hm & Hb)%IH. exists (a :: more). rewrite <-app_assoc.
    split_and!; [done| |by right]. constructor; [left; set_solver|by apply resolved_cons]. }
  destruct (bool_decide (acl_scheme a = "world") && _); [by apply Hkeep|].
  case_bool_decide; [destruct (negb _); [done|by apply Hkeep]|].
  intros (more & -> & Hm & Hb)%IH. exists more. split_and!; [done|by apply resolved_cons|done].
Qed.

Lemma fixupACL_sound req ids acls :
  fixupACL req ids = Some acls → Forall (resolved req ids) acls ∧ (req ≠ [] → acls ≠ []).
Proof.
  unfold fixupACL. case_bool_decide as E; [by intros [= <-]|].
  destruct (fixupACL_loop req ids false []) as [[[|] acls']|] eqn:El; intros [= <-].
  apply fixupACL_loop_sound in El as (more & -> & Hm & Hb). split; [done|]. naive_solver.
Qed.

(** Setting an ACL and reading it back: number 0 stands for the open list. *)
Lemma setacl_getacl r r' path acls ver sid s s' resp u n :
  store_acl_inv s → acl_room (acl_map s) → container s !! path = Some n →
  process_setacl r path acls ver sid s = (s', Ret (resp, u)) → resp_error resp = ZOK →
  ∃ node_acls st, fixupACL acls (default [] (session_and_auth s !! sid)) = Some node_acls ∧
    process_getacl r' path s' =
      (s', Ret (new_response (GetACLResponse
          (if decide (node_acls = []) then default_acls else node_acls) st), None)) ∧
    aversion st = s32 (aversion (node_stat n) + 1).
Proof.
  intros Hinv [Hmax Hroom] Hn. unfold process_setacl; run. rewrite Hn.
  assert (∀ e, e ≠ ZOK → resp_error (set_error e (makeResponse r)) ≠ ZOK) as Herr
    by (intros e He; by destruct (makeResponse r)).
  case_match; [intros [= <- <- <-] Hok; by apply Herr in Hok|].
  unfold resolve_acls; run. cbn. rewrite lookup_insert_eq. cbn.
  destruct (fixupACL acls _) as [node_acls|] eqn:Ef; [|intros [= <- <- <-] Hok; by apply Herr in Hok].
  destruct (convertACLs node_acls (acl_map s)) as [m' id] eqn:Ec.
  intros [= <- <- <-] _. exists node_acls, (node_stat (node_set_acl id n)). unfold process_getacl; run. cbn. rewrite lookup_insert_eq. cbn.
  pose proof (convertACLs_num _ _ _ _ (inv_map _ _ Hinv) Ec) as Hc. unfold convertNumber.
  destruct Hc as [(-> & -> & Hd)|[Hid Hnum]]; cbn.
  - split_and!; [done| |done]. case_decide; [done|]. by destruct Hd as [?| ->].
  - destruct (Z.eqb_spec id 0); [lia|]. rewrite num_to_acl_addUsage, Hnum. cbn.
    split_and!; [done| |done]. rewrite decide_False; [done|].
    pose proof (convertACLs_wf _ _ _ _ (inv_map _ _ Hinv) Hmax Ec) as Hwf'.
    by apply (wf_named m' Hwf' _ _ Hnum).
Qed.
