(* ===== verification/StoreRestore.v ===== *)
(** * Rebuilding the tree, and shutting down

    [buildPathChildren], which recomputes the sets of children after a snapshot
    was loaded, and [finalize], of src/Service/KeeperStore.cpp. *)

From S2P Require Import Prelude Types ACLMap SessionExpiryQueue KeeperPaths KeeperNode KeeperStore StoreTree StoreInv StoreRequest KeeperSpec.
From stdpp Require Import base gmap sets list strings option fin_maps.
From Stdlib Require Import ZArith Lia.
Open Scope Z_scope.

(** ** buildPathChildren *)

(** What one path adds to the node of its parent. *)
Definition attach_node (from_zk : bool) (q : string) (n : KeeperNode) : KeeperNode :=
  set_stat (stat_numChildren (λ k, if from_zk then s32 (k + 1) else k))
    (set_children (λ c, {[getBaseName q]} ∪ c) n).

Definition attach (from_zk : bool) (c : Tree) (q : string) : Tree :=
  if bool_decide (q = "/") then c else alter (attach_node from_zk q) (parentPath q) c.

Lemma dom_attach b c q : dom (attach b c q) = dom c.
Proof. unfold attach. case_bool_decide; [done|apply dom_alter_L]. Qed.

Lemma build_children_fold b ps s :
  (∀ p, p ∈ ps → p ≠ "/" → parentPath p ∈ dom (container s)) →
  build_children ps b s = (upd_container (λ c, foldl (attach b) c ps) s, Ret tt).
Proof.
  revert s. induction ps as [|p ps IH]; intros s H; cbn; [by destruct s|].
  assert ((if bool_decide (p = "/") then mret tt
    else s ← get; if bool_decide (is_Some (container s !! parentPath p)) then
      modify_node (parentPath p) (attach_node b p) else throw LOGICAL_ERROR) s
    = (upd_container (λ c, attach b c p) s, Ret tt)) as E.
  { unfold attach. case_bool_decide as Hp; [by destruct s|]. run.
    assert (parentPath p ∈ dom (container s)) as [n Hn]%elem_of_dom by (apply H; set_solver).
    rewrite bool_decide_eq_true_2 by eauto. erewrite modify_node_Some by exact Hn.
    f_equal. unfold upd_container. f_equal. apply map_eq. intros q.
    rewrite lookup_insert, lookup_alter. case_decide; [subst|done]. by rewrite Hn. }
  etrans; [exact (bind_Ret _ _ _ _ _ E)|]. rewrite IH; [by destruct s|].
  intros q Hq Hne. cbn. rewrite dom_attach. apply H; set_solver.
Qed.

(** The names [ps] puts below [p], in order. *)
Definition names_below (p : string) (ps : list string) : list string :=
  filter (λ q, is_child p q = true) ps.

Lemma lookup_attach_all b ps c p :
  foldl (attach b) c ps !! p = (λ n, foldl (λ n q, attach_node b q n) n (names_below p ps)) <$> c !! p.
Proof.
  revert c. induction ps as [|q ps IH]; intros c; cbn [foldl]; [by destruct (c !! p)|].
  rewrite IH. unfold names_below. rewrite filter_cons. unfold attach.
  destruct (decide (is_child p q = true)) as [Hc|Hc]; rewrite is_child_spec in Hc.
  - destruct Hc as [Hne <-]. rewrite bool_decide_eq_false_2 by done.
    rewrite lookup_alter_eq. by destruct (c !! parentPath q).
  - case_bool_decide; [done|]. rewrite lookup_alter_ne; [done|]. naive_solver.
Qed.

(** The snapshot holds nodes without children; one imported from ZooKeeper also
    has no child counter. *)
Definition strip (from_zk : bool) (n : KeeperNode) : KeeperNode :=
  set_stat (stat_numChildren (λ k, if from_zk then 0 else k)) (set_children (λ _, ∅) n).

Lemma attach_names b qs n :
  foldl (λ n q, attach_node b q n) n qs =
    set_stat (stat_numChildren (λ k, if b then Nat.iter (length qs) (λ k, s32 (k + 1)) k else k))
      (set_children (λ c, list_to_set (map getBaseName qs) ∪ c) n).
Proof.
  revert n. induction qs as [|q qs IH]; intros n; cbn [foldl map list_to_set length].
  - destruct n as [d a ie sq [] ch], b; unfold set_stat, set_children, stat_numChildren; cbn;
      f_equal; set_solver.
  - rewrite IH. destruct n as [d a ie sq [f1 f2 f3 f4 f5 cv f7 f8 f9 nc f11] ch].
    unfold attach_node, set_stat, set_children, stat_numChildren; cbn. f_equal.
    + f_equal. destruct b; [|done]. exact (Nat.iter_swap _ _ (λ k, s32 (k + 1)) nc).
    + set_solver.
Qed.

Lemma iter_count k : Nat.iter k (λ x, s32 (x + 1)) 0 = s32 (Z.of_nat k).
Proof.
  induction k as [|k IH]; [done|].
  change (s32 (Nat.iter k (λ x, s32 (x + 1)) 0 + 1) = s32 (Z.of_nat (S k))). rewrite IH, wrap_s_add_l by lia. f_equal. lia.
Qed.

(** The names below a path of a well-formed tree, without repetition. *)
Lemma names_below_ok c e p n ps :
  tree_wf c e → c !! p = Some n → NoDup ps → (∀ q, q ∈ ps ↔ q ∈ dom c) →
  (list_to_set (map getBaseName (names_below p ps)) : gset string) = node_children n ∧
  length (names_below p ps) = size (node_children n).
Proof.
  intros Hwf Hp Hnd Hps.
  assert (∀ q, q ∈ names_below p ps ↔ q ∈ dom c ∧ q ≠ "/" ∧ parentPath q = p) as Hin.
  { intros q. unfold names_below. rewrite list_elem_of_filter, is_child_spec, Hps. naive_solver. }
  assert ((list_to_set (map getBaseName (names_below p ps)) : gset string) = node_children n) as E.
  { apply set_eq. intros b. rewrite elem_of_list_to_set, list_elem_of_fmap.
    rewrite (children_spec _ _ _ _ _ Hwf Hp). split.
    - intros (q & -> & [[m Hm]%elem_of_dom [Hne Hpar]]%Hin). split; [|eauto 10].
      by destruct (wf_parent _ _ Hwf _ _ Hm Hne) as (_ & _ & _ & ?).
    - intros (_ & q & m & Hq & ? & ? & <-). exists q. rewrite Hin, elem_of_dom. eauto. }
  split; [done|]. rewrite <-E, size_list_to_set, length_map; [done|].
  apply NoDup_fmap_2_strong.
  - intros x y [[mx Hx]%elem_of_dom [? Hpx]]%Hin [[my Hy]%elem_of_dom [? Hpy]]%Hin Exy.
    apply valid_path_inj; [by eapply wf_valid|by eapply wf_valid|congruence|done].
  - by apply NoDup_filter.
Qed.

Lemma buildPathChildren_exact from_zk c e s :
  tree_wf c e → container s = strip from_zk <$> c →
  buildPathChildren from_zk s = (upd_container (λ _, c) s, Ret tt).
Proof.
  intros Hwf Hc. unfold buildPathChildren, mbind, ST_bind, get.
  set (ps := (map_to_list (container s)).*1).
  assert (∀ q, q ∈ ps ↔ q ∈ dom c) as Hps.
  { intros q. unfold ps. rewrite list_elem_of_fmap. split.
    - intros ([k v] & -> & Hkv%elem_of_map_to_list). rewrite Hc, lookup_fmap in Hkv.
      apply elem_of_dom. destruct (c !! k) eqn:Ek; [eauto|done].
    - intros [n Hn]%elem_of_dom. exists (q, strip from_zk n). split; [done|].
      apply elem_of_map_to_list. by rewrite Hc, lookup_fmap, Hn. }
  rewrite build_children_fold.
  2:{ intros p Hp Hne. apply Hps, elem_of_dom in Hp as [n Hn]. rewrite Hc, dom_fmap_L.
      destruct (wf_parent _ _ Hwf _ _ Hn Hne) as (pn & Hpn & _). by eapply elem_of_dom_2. }
  unfold upd_container. do 2 f_equal. apply map_eq. intros p. rewrite lookup_attach_all, Hc, lookup_fmap.
  destruct (c !! p) as [n|] eqn:Hp; cbn; [|done]. f_equal. rewrite attach_names.
  destruct (names_below_ok c e p n ps Hwf Hp (NoDup_fst_map_to_list _) Hps) as [-> ->].
  destruct (wf_node _ _ Hwf _ _ Hp) as [Hnc _ _]. rewrite <-iter_count in Hnc.
  destruct n as [d a ie sq [f1 f2 f3 f4 f5 cv f7 f8 f9 nc f11] ch].
  unfold strip, set_stat, set_children, stat_numChildren. cbn in *. f_equal; [|set_solver].
  f_equal. by destruct from_zk.
Qed.

Lemma buildPathChildren_restores from_zk c e s :
  tree_wf c e → container s = strip from_zk <$> c →
  ∃ s', buildPathChildren from_zk s = (s', Ret tt) ∧ container s' = c.
Proof. intros Hwf Hc. exists (upd_container (λ _, c) s). by rewrite (buildPathChildren_exact _ _ _ _ Hwf Hc). Qed.

(** ** finalize *)

Lemma finalize_ephemerals_wf ps e s :
  tree_wf (container s) e → NoDup ps →
  (∀ p, p ∈ ps → ∃ n, container s !! p = Some n ∧ node_is_ephemeral n = true) →
  ∃ s' e', finalize_ephemerals ps s = (s', Ret tt) ∧ tree_wf (container s') e' ∧
    ephemerals s' = ephemerals s ∧ rest s' = rest s ∧ session_and_auth s' = session_and_auth s ∧
    (∀ p n, container s' !! p = Some n → node_is_ephemeral n = true →
       (p ∉ ps) ∧ ∃ n0, container s !! p = Some n0 ∧ node_is_ephemeral n0 = true).
Proof.
  revert e s. induction ps as [|p ps IH]; intros e s Ht Hnd Hin.
  { exists s, e. split_and!; try done. intros p n Hp He. split; [set_solver|eauto]. }
  inversion_clear Hnd as [|? ? Hp Hnd'].
  destruct (Hin p ltac:(set_solver)) as (n & Hn & Hen).
  assert (p ≠ "/") as Hroot.
  { intros ->. destruct (wf_root _ _ Ht) as (m & Hm & ?). congruence. }
  assert (node_children n = ∅) as Hleaf by (by apply (wf_node _ _ Ht _ _ Hn)).
  destruct (detach_child p true s) as [s1 o1] eqn:E1.
  destruct (detach_child_wf _ _ _ _ _ _ _ Ht Hn Hroot Hleaf E1)
    as (-> & Ht1 & He1 & Hr1 & Hau1 & _ & Hother).
  destruct (wf_parent _ _ Ht _ _ Hn Hroot) as (pn & Hpn & Hpin & _).
  assert (node_is_ephemeral pn = false) as Hpe.
  { destruct (node_is_ephemeral pn) eqn:E; [|done]. apply (wf_node _ _ Ht _ _ Hpn) in E. set_solver. }
  destruct (IH (eph_del p n e) s1 Ht1 Hnd') as (s' & e' & E2 & Ht2 & He2 & Hr2 & Hau2 & Hno).
  { intros q Hq. destruct (Hin q ltac:(set_solver)) as (m & Hm & Hem). exists m. split; [|done].
    rewrite Hother; [done|congruence|]. intros ->. congruence. }
  exists s', e'. split_and!; try congruence.
  - cbn. unfold mbind, ST_bind. by rewrite E1.
  - intros q m Hq Hem. destruct (Hno q m Hq Hem) as (Hqps & n0 & Hq0 & Hn0).
    assert (q ≠ p) as Hqp.
    { intros ->. unfold detach_child in E1. revert E1; run.
      rewrite bool_decide_eq_true_2 by eauto. erewrite modify_node_Some by exact Hpn.
      intros [= <-]. cbn in Hq0. by rewrite lookup_delete_eq in Hq0. }
    split; [set_solver|]. destruct (decide (q = parentPath p)) as [->|].
    + revert E1. unfold detach_child; run. rewrite bool_decide_eq_true_2 by eauto.
      erewrite modify_node_Some by exact Hpn. intros [= <-]. cbn in Hq0.
      rewrite lookup_delete_ne, lookup_insert_eq in Hq0 by done. injection Hq0 as <-. cbn in Hn0. congruence.
    + rewrite Hother in Hq0 by done. eauto.
Qed.

Lemma all_ephemerals_nodup c e :
  tree_wf c e → NoDup (map_to_list e ≫= λ '(_, ps), elements ps).
Proof.
  intros Hwf.
  assert (∀ k ps p, (k, ps) ∈ map_to_list e → p ∈ elements ps → ∃ n, c !! p = Some n ∧
    ephemeralOwner (node_stat n) = k) as Hown.
  { intros k ps p Hk%elem_of_map_to_list Hp%elem_of_elements.
    destruct (proj1 (wf_eph _ _ Hwf k p)) as (n & ? & _ & ?); [|eauto].
    unfold eph_of. by rewrite Hk. }
  apply NoDup_bind.
  - intros [k1 ps1] [k2 ps2] p H1 H2 Hp1 Hp2.
    destruct (Hown _ _ _ H1 Hp1) as (n1 & E1 & <-), (Hown _ _ _ H2 Hp2) as (n2 & E2 & <-).
    rewrite E1 in E2. injection E2 as <-. apply elem_of_map_to_list in H1, H2. congruence.
  - intros [k ps] _. apply NoDup_elements.
  - apply NoDup_map_to_list.
Qed.

Lemma finalize_spec s :
  store_wf s → finalized s = false →
  ∃ s', finalize s = (s', Ret tt) ∧ tree_wf (container s') ∅ ∧
    (∀ p n, container s' !! p = Some n → node_is_ephemeral n = false) ∧
    ephemerals s' = ∅ ∧ watches s' = ∅ ∧ list_watches s' = ∅ ∧ sessions_and_watchers s' = ∅ ∧
    session_and_timeout s' = ∅ ∧ session_and_auth s' = ∅ ∧
    session_to_expiration_time (session_expiry_queue s') = ∅ ∧
    finalize s' = (s', Throw LOGICAL_ERROR).
Proof.
  intros [Ht Hw Hs] Hf. unfold finalize at 1. rewrite (bind_Ret get _ s s s), Hf by done.
  rewrite (bind_Ret (modify (upd_finalized true)) _ s (upd_finalized true s) tt) by done.
  set (ps := map_to_list (ephemerals s) ≫= λ '(_, paths), elements paths). set (s0 := upd_finalized true s).
  destruct (finalize_ephemerals_wf ps (ephemerals s) s0 Ht (all_ephemerals_nodup _ _ Ht))
    as (s1 & e' & E & Ht1 & He1 & Hr1 & _ & Hno).
  { intros p Hp. unfold ps in Hp. apply list_elem_of_bind in Hp as ([k qs] & Hp & Hk).
    apply elem_of_map_to_list in Hk. apply elem_of_elements in Hp.
    destruct (proj1 (wf_eph _ _ Ht k p)) as (n & ? & ? & _); [unfold eph_of; by rewrite Hk|eauto]. }
  rewrite (bind_Ret _ _ _ _ _ E). assert (∀ p n, container s1 !! p = Some n → node_is_ephemeral n = false) as Hnone.
  { intros p n Hp. destruct (node_is_ephemeral n) eqn:Hen; [|done].
    destruct (Hno p n Hp Hen) as (Hnot & n0 & Hp0 & Hen0). destruct Hnot. unfold ps.
    apply list_elem_of_bind. set (k := ephemeralOwner (node_stat n0)).
    assert (p ∈ eph_of (ephemerals s) k) as Hin by (apply (wf_eph _ _ Ht); eauto).
    unfold eph_of in Hin. destruct (ephemerals s !! k) as [qs|] eqn:Ek; [|set_solver].
    exists (k, qs). split; [by apply elem_of_elements|by apply elem_of_map_to_list]. }
  eexists. split_and!; try done.
  - split; try apply Ht1. intros k p. split; [set_solver|]. intros (n & Hp & Hen & _).
    by rewrite (Hnone p n Hp) in Hen.
  - unfold finalize; run. cbn. unfold rest in Hr1. assert (finalized s1 = true) as -> by (injection Hr1; auto).
    done.
Qed.
