(* ===== verification/StoreProps.v ===== *)
(** * Properties of the store

    The theorems about src/Service/KeeperStore.cpp that clients of the store
    rely on, proved from the lemmas of the files before this one. *)

From S2P Require Import Prelude Types ACLMap SessionExpiryQueue KeeperPaths KeeperNode KeeperStore StoreTree StoreInv StoreRequest KeeperSpec StoreReplica StoreResponse StoreAcl StoreRestore.
From stdpp Require Import base gmap sets list strings option sorting.
From Stdlib Require Import ZArith Lia.
Open Scope Z_scope.

(** ** A small run, for the witnesses

    Session 1 is opened, creates [/a] and, below it, an ephemeral node. *)

Module Demo.
Definition sha (s : string) : string := s.
Definition b64 (s : string) : string := s.

Definition req (b : RequestBody) : ZooKeeperRequest := mkRequest 7 false b.
Definition run (r : ZooKeeperRequest) (s : KeeperStore) : KeeperStore :=
  (processRequest sha b64 1000 r 1 1000 None true false (s, [])).1.1.

Definition store0 : KeeperStore := KeeperStore_new 500 "".
Definition store1 : KeeperStore := (getSessionID 1000 30000 store0).1.
Definition create_a : ZooKeeperRequest := req (CreateRequest "/a" "x" false false []).
Definition create_e : ZooKeeperRequest := req (CreateRequest "/a/e" "y" true false []).
Definition store2 : KeeperStore := run create_a store1.
Definition store3 : KeeperStore := run create_e store2.
Definition multi : ZooKeeperRequest :=
  req (MultiRequest [req (CreateRequest "/b" "" false false []);
                     req (SetRequest "/a" "z" (-1)); req (RemoveRequest "/a" (-1))]).

(** The response of a handler that returned. *)
Definition answer_of (x : KeeperStore * outcome exn Processed) : option ZooKeeperResponse :=
  match x.2 with Ret (resp, _) => Some resp | _ => None end.

Lemma answer_of_Some x resp : answer_of x = Some resp → ∃ u, x = (x.1, Ret (resp, u)).
Proof. unfold answer_of. destruct x as [s [[r u]|e|]]; intros [= <-]; eauto. Qed.

Definition create_n : ZooKeeperRequest := req (CreateRequest "/a/n" "" false true []).
Definition make_n (s : KeeperStore) : KeeperStore * outcome exn Processed :=
  process_create create_n "/a/n" "" false true [] 5 1 9 s.

Lemma run_step r s :
  request_valid r = true → seqnum_target r s → store_step sha b64 s (run r s).
Proof.
  intros Hv Ht. unfold run.
  destruct (processRequest sha b64 1000 r 1 1000 None true false (s, [])) as [[s' q'] o] eqn:E.
  by eapply step_request.
Qed.

Lemma store2_reachable : reachable sha b64 store2.
Proof.
  exists 500, "". apply (rtc_l _ _ store1);
    [exact (step_session _ _ _ 1000 30000 _ _ (surjective_pairing _))|].
  apply rtc_once. by apply run_step.
Qed.

Lemma store3_reachable : reachable sha b64 store3.
Proof.
  destruct store2_reachable as (tick & digest & H). exists tick, digest.
  apply (rtc_r _ store2); [done|]. by apply run_step.
Qed.

Lemma store2_wf : store_wf store2.
Proof. exact (reachable_wf sha b64 store2 store2_reachable). Qed.
Lemma store3_wf : store_wf store3.
Proof. exact (reachable_wf sha b64 store3 store3_reachable). Qed.
End Demo.

(** ** Consistency *)

(** C1: every store the state machine can reach, from an empty one and by any
    sequence of valid requests, new sessions and session refreshes, is well
    formed: each node but the root is listed by its parent and each listed name
    exists, the child counter is the number of children, the table of ephemeral
    nodes is exact, every watch is recorded under its session, and every session
    has an expiration time. *)
Theorem reachable_consistent sha b64 s : reachable sha b64 s → store_wf s.
Proof. apply reachable_wf. Qed.

Lemma reachable_consistent_witness : store_wf Demo.store3.
Proof. exact (reachable_consistent Demo.sha Demo.b64 _ Demo.store3_reachable). Defined.

(** C26: on a well-formed store, no valid request makes [processRequest]
    dereference a missing node or an iterator past the end. *)
Theorem processRequest_no_crash sha b64 now r sid time z ca ig s q s' q' o :
  store_wf s → request_valid r = true → seqnum_target r s →
  processRequest sha b64 now r sid time z ca ig (s, q) = ((s', q'), o) →
  o ≠ Crash ∧ store_wf s'.
Proof.
  intros Hs Hv Ht E.
  by destruct (processRequest_keeps sha b64 now r sid time z ca ig Hv _ _ _ _ _ (conj Hs Ht) E) as [[? _] ?].
Qed.

Lemma processRequest_no_crash_witness :
  (Ret tt : outcome exn unit) ≠ Crash ∧ store_wf (Demo.run Demo.multi Demo.store3).
Proof.
  apply (processRequest_no_crash Demo.sha Demo.b64 1000 Demo.multi 1 1000 None true false
           Demo.store3 [] _ (processRequest Demo.sha Demo.b64 1000 Demo.multi 1 1000 None true false
              (Demo.store3, [])).1.2).
  - exact Demo.store3_wf.
  - reflexivity.
  - exact I.
  - vm_compute. reflexivity.
Defined.

(** ** Multi *)



(** ** The data model *)

(** C3: the handlers implement the ZooKeeper data model of [KeeperSpec]: on a
    well-formed store, create, remove, set, get, exists, list and check return,
    answer what the specification answers (errors included), and leave a tree
    that abstracts to the specified one. In particular the child counter and
    the child version of an answer are the number of nodes below the path and
    the number of creations and removals there. *)
Theorem handlers_refine_model sha b64 r zx sid time s a :
  store_wf s → one_valid r = true →
  spec_one r (acl_of r sid s) zx sid time (abs_tree (container s)) = Some a →
  ∃ s' resp u, process_one sha b64 r zx sid time s = (s', Ret (resp, u)) ∧
    abs_tree (container s') = a.1 ∧ answers r resp a.2.
Proof. intros Hs Hv Ha. exact (process_one_refines sha b64 r zx sid time s a (wf_tree _ Hs) Hv Ha). Qed.

Lemma handlers_refine_model_witness :
  let r := Demo.req (RemoveRequest "/a" (-1)) in
  ∃ s' resp u, process_one Demo.sha Demo.b64 r 5 1 1000 Demo.store3 = (s', Ret (resp, u)) ∧
    abs_tree (container s') = abs_tree (container Demo.store3) ∧ answers r resp (inl ZNOTEMPTY).
Proof.
  apply (handlers_refine_model Demo.sha Demo.b64 (Demo.req (RemoveRequest "/a" (-1))) 5 1 1000 Demo.store3
           (abs_tree (container Demo.store3), inl ZNOTEMPTY)).
  - exact Demo.store3_wf.
  - reflexivity.
  - vm_compute. reflexivity.
Defined.

#[local] Instance name_le_total : Total name_le.
Proof.
  intros a b. unfold name_le. destruct (String.leb_total a b); auto.
Qed.

(** C28: listing an existing node answers, without changing the store, its
    children in sorted order and without repetition: exactly the base names of
    the nodes whose parent is that path, with their number as [numChildren]. *)
Theorem list_names_exact r path s n :
  store_wf s → container s !! path = Some n →
  ∃ names st, process_list r path s = (s, Ret (new_response (ListResponse names st), None)) ∧
    Sorted name_le names ∧ NoDup names ∧
    (∀ b, b ∈ names ↔ ∃ q m, container s !! q = Some m ∧ q ≠ "/" ∧ parentPath q = path ∧ getBaseName q = b) ∧
    numChildren st = s32 (Z.of_nat (length names)).
Proof.
  intros Hs Hn. pose proof (wf_tree _ Hs) as Ht. unfold process_list; run. rewrite Hn.
  rewrite bool_decide_eq_false_2 by (by eapply valid_path_nonempty, wf_valid).
  eexists _, _. split_and!; [done|apply Sorted_merge_sort, _|..].
  - rewrite merge_sort_Permutation. apply NoDup_elements.
  - intros b. rewrite merge_sort_Permutation, elem_of_elements, (children_spec _ _ _ _ _ Ht Hn).
    split; [naive_solver|]. intros (q & m & Hq & Hroot & ? & <-). split; [|eauto 10].
    by destruct (wf_parent _ _ Ht _ _ Hq Hroot) as (_ & _ & _ & ?).
  - cbn. by rewrite merge_sort_Permutation.
Qed.

Lemma list_names_exact_witness :
  ∃ names st, process_list (Demo.req (ListRequest "/a")) "/a" Demo.store3
      = (Demo.store3, Ret (new_response (ListResponse names st), None)) ∧
    Sorted name_le names ∧ NoDup names ∧
    (∀ b, b ∈ names ↔ ∃ q m, container Demo.store3 !! q = Some m ∧ q ≠ "/" ∧ parentPath q = "/a"
      ∧ getBaseName q = b) ∧
    numChildren st = s32 (Z.of_nat (length names)).
Proof.
  eapply (list_names_exact (Demo.req (ListRequest "/a")) "/a" Demo.store3).
  - exact Demo.store3_wf.
  - vm_compute. reflexivity.
Defined.

(** ** Sessions *)

(** C25: closing a session on a well-formed store always completes and leaves
    nothing of it: no ephemeral node, no entry of the ephemeral table, no watch,
    no timeout, no expiration time and no credentials; the store stays well
    formed. *)
Theorem close_leaves_nothing sha b64 now r sid time ca ig s q :
  store_wf s → getOpNum r = Op_Close →
  ∃ s' q', processRequest sha b64 now r sid time None ca ig (s, q) = ((s', q'), Ret tt) ∧
    session_gone sid s' ∧ store_wf s'.
Proof.
  intros Hs Hop. unfold processRequest. rewrite Hop.
  rewrite (bind_Ret (on_store (advance_zxid None)) _ (s, q) (s, q) tt) by done.
  destruct (process_close_spec r sid None ig s q Hs) as (s' & q' & E & H1 & H2).
  exists s', q'. by split_and!.
Qed.

Lemma close_leaves_nothing_witness :
  ∃ s' q', processRequest Demo.sha Demo.b64 2000 (Demo.req CloseRequest) 1 2000 None true false
      (Demo.store3, []) = ((s', q'), Ret tt) ∧ session_gone 1 s' ∧ store_wf s'.
Proof.
  apply (close_leaves_nothing Demo.sha Demo.b64 2000 (Demo.req CloseRequest) 1 2000 true false Demo.store3 []).
  - exact Demo.store3_wf.
  - reflexivity.
Defined.

(** A request of a session that has no timeout (it expired or was closed)
    and that carries no zxid of its own is dropped: the store and the response
    queue stay exactly as they were. *)
Theorem expired_session_ignored sha b64 now r sid time ca ig s q :
  session_and_timeout s !! sid = None → getOpNum r ≠ Op_Close →
  processRequest sha b64 now r sid time None ca ig (s, q) = ((s, q), Ret tt).
Proof.
  intros Hs Hop. unfold processRequest.
  rewrite (bind_Ret (on_store (advance_zxid None)) _ (s, q) (s, q) tt) by done.
  assert (on_store (touch_session now sid None) (s, q) = ((s, q), Ret false)) as E.
  { unfold on_store, touch_session; run. by rewrite Hs. }
  destruct (getOpNum r) eqn:G; try done; unfold mbind, ST_bind; by rewrite E.
Qed.



(** ** Replication *)

(** C4: two replicas whose replicated parts agree (tree, ephemeral nodes,
    sessions, credentials, ACL numbering, zxid) still agree after applying the
    same log, whatever their clocks, their watches, their expiration times and
    their pending responses are, and whether or not they answer. *)
Theorem replicas_agree sha b64 clock1 clock2 ca i1 i2 log s1 q1 s2 q2 :
  agree s1 s2 → own_wf s1 → own_wf s2 →
  agree (apply_log sha b64 clock1 ca i1 log (s1, q1)).1
        (apply_log sha b64 clock2 ca i2 log (s2, q2)).1.
Proof. apply apply_log_agrees. Qed.

Lemma replicas_agree_witness :
  let log := [mkEntry Demo.create_e 1 1000 None; mkEntry Demo.multi 1 1001 None;
              mkEntry (Demo.req CloseRequest) 1 1002 None] in
  agree (apply_log Demo.sha Demo.b64 (λ _, 1000) true false log (Demo.store2, [])).1
        (apply_log Demo.sha Demo.b64 (λ _, 9000) true true log
           (upd_watches {["/a" := [4]]} Demo.store2, [])).1.
Proof.
  apply (replicas_agree Demo.sha Demo.b64); [reflexivity|exact (proj1 (wf_session _ Demo.store2_wf))..].
Defined.

(** ** Access control *)

(** C29: a request whose ACL check fails is answered with [ZNOAUTH] and nothing
    else, and the tree, the ephemeral nodes, the ACL numbering and the
    credentials stay as they were. *)
Theorem denied_changes_nothing sha b64 now r sid time z s q s' q' :
  store_wf s → live sid z r s → checkAuth r sid s = Ret false →
  processRequest sha b64 now r sid time z true false (s, q) = ((s', q'), Ret tt) →
  (∃ resp, resp_error resp = ZNOAUTH ∧ q' = q ++ [(sid, resp)]) ∧
  container s' = container s ∧ ephemerals s' = ephemerals s ∧ acl_map s' = acl_map s ∧
  session_and_auth s' = session_and_auth s.
Proof. apply processRequest_denied. Qed.

(** A node only its owner may write. *)
Definition locked_store : KeeperStore :=
  Demo.run (Demo.req (CreateRequest "/l" "" false false [mkACL ACL_Read "world" "anyone"])) Demo.store2.

Lemma locked_store_wf : store_wf locked_store.
Proof.
  apply (store_step_wf Demo.sha Demo.b64 _ _ Demo.store2_wf). by apply Demo.run_step.
Qed.

Lemma denied_changes_nothing_witness :
  let x := processRequest Demo.sha Demo.b64 2000 (Demo.req (SetRequest "/l" "z" (-1))) 1 2000 None true false
             (locked_store, []) in
  (∃ resp, resp_error resp = ZNOAUTH ∧ x.1.2 = [] ++ [(1, resp)]) ∧
  container x.1.1 = container locked_store ∧ ephemerals x.1.1 = ephemerals locked_store ∧
  acl_map x.1.1 = acl_map locked_store ∧ session_and_auth x.1.1 = session_and_auth locked_store.
Proof.
  refine (denied_changes_nothing Demo.sha Demo.b64 2000 (Demo.req (SetRequest "/l" "z" (-1))) 1 2000 None
    locked_store [] _ _ locked_store_wf (or_intror (or_introl _)) _ _).
  - vm_compute. eauto.
  - vm_compute. reflexivity.
  - vm_compute. reflexivity.
Defined.

(** ** Sequential nodes *)



(** ** Watches *)


(** ** ACL numbers *)

(** C34: no request outside a multi leaves a node with an ACL number that does
    not resolve: afterwards every ACL check of every request still answers yes
    or no instead of throwing. *)
Theorem acl_numbers_resolve sha b64 r zx sid time s s' o :
  store_wf s → store_acl_inv s → acl_room (acl_map s) → one_valid r = true →
  process_one sha b64 r zx sid time s = (s', o) →
  store_acl_inv s' ∧ ∀ r' sid', ∃ b, checkAuth r' sid' s' = Ret b.
Proof.
  intros Hs Ha Hroom Hv E.
  pose proof (process_one_acl sha b64 r zx sid time s s' o (wf_tree _ Hs) Hv Ha Hroom E) as Ha'.
  split; [done|]. intros r' sid'. by apply checkAuth_total.
Qed.

Lemma store0_room : acl_room (acl_map Demo.store0).
Proof. split; [done|]. intros id. unfold usage. cbn. by rewrite lookup_empty. Qed.

Lemma acl_numbers_resolve_witness :
  let r := Demo.req (CreateRequest "/l" "" false false [mkACL ACL_Read "world" "anyone"]) in
  let s := (process_one Demo.sha Demo.b64 r 1 1 1000 Demo.store0).1 in
  store_acl_inv s ∧ ∀ r' sid', ∃ b, checkAuth r' sid' s = Ret b.
Proof.
  refine (acl_numbers_resolve Demo.sha Demo.b64
    (Demo.req (CreateRequest "/l" "" false false [mkACL ACL_Read "world" "anyone"])) 1 1 1000 Demo.store0 _ _
    (KeeperStore_new_wf 500 "") (KeeperStore_new_acl 500 "") store0_room eq_refl (surjective_pairing _)).
Defined.

(** After a successful [SetACL], [GetACL] on the path answers the list that
    was set, with entries of scheme [auth] replaced by the credentials of the
    session (the open list when nothing was requested), and the ACL version has
    moved on by one. *)
Theorem getACL_after_setACL r r' path acls ver sid s s' resp u n :
  store_acl_inv s → acl_room (acl_map s) → container s !! path = Some n →
  process_setacl r path acls ver sid s = (s', Ret (resp, u)) → resp_error resp = ZOK →
  ∃ node_acls st, fixupACL acls (default [] (session_and_auth s !! sid)) = Some node_acls ∧
    process_getacl r' path s' =
      (s', Ret (new_response (GetACLResponse
          (if decide (node_acls = []) then default_acls else node_acls) st), None)) ∧
    aversion st = s32 (aversion (node_stat n) + 1).
Proof. apply setacl_getacl. Qed.

(** ** Snapshots and shutdown *)

(** The sets of children are redundant. Take any well-formed tree, drop the
    sets of children as a snapshot does (and, for one imported from ZooKeeper,
    the child counters): [buildPathChildren] succeeds and gives back exactly the
    original tree. *)
Theorem buildPathChildren_roundtrip from_zk c e s :
  tree_wf c e → container s = strip from_zk <$> c →
  ∃ s', buildPathChildren from_zk s = (s', Ret tt) ∧ container s' = c.
Proof. apply buildPathChildren_restores. Qed.

(** [finalize] on a well-formed store completes, removes every ephemeral
    node, keeps the rest of the tree well formed, and clears the sessions, the
    watches and the credentials; a second call is refused with an exception. *)
Theorem finalize_clears s :
  store_wf s → finalized s = false →
  ∃ s', finalize s = (s', Ret tt) ∧ tree_wf (container s') ∅ ∧
    (∀ p n, container s' !! p = Some n → node_is_ephemeral n = false) ∧
    ephemerals s' = ∅ ∧ watches s' = ∅ ∧ list_watches s' = ∅ ∧ sessions_and_watchers s' = ∅ ∧
    session_and_timeout s' = ∅ ∧ session_and_auth s' = ∅ ∧
    session_to_expiration_time (session_expiry_queue s') = ∅ ∧
    finalize s' = (s', Throw LOGICAL_ERROR).
Proof. apply finalize_spec. Qed.
