(* ===== verification/StoreTyped.v ===== *)
(** * The numbers of the store keep to their types

    The fields of src/Service/KeeperStore.h have machine types: whatever requests
    and sessions do, also a multi that is taken back, every stat fits the wire
    format, an ephemeral node has an owner and no other node has one, and ACL
    numbers fit 64 bits. *)

From S2P Require Import Prelude Types ZkIO ACLMap SessionExpiryQueue KeeperPaths KeeperNode KeeperStore StoreTree StoreInv StoreRequest StoreProps.
From stdpp Require Import base gmap sets list strings option.
From Stdlib Require Import ZArith Lia.
Open Scope Z_scope.

Record node_typed (n : KeeperNode) : Prop := {
  nt_stat : Stat_ok (node_stat n);
  nt_owner : node_is_ephemeral n = true ↔ ephemeralOwner (node_stat n) ≠ 0;
  nt_acl : in_u 64 (node_acl_id n)
}.

Record acl_typed (m : ACLMap) : Prop := {
  at_max : in_u 64 (max_acl_id m);
  at_num acls n : acl_to_num m !! acls = Some n → in_u 64 n
}.

Record store_typed (s : KeeperStore) : Prop := {
  ty_nodes p n : container s !! p = Some n → node_typed n;
  ty_zxid : in_s 64 (zxid s);
  ty_counter : in_s 64 (session_id_counter s);
  ty_sessions sid t : session_and_timeout s !! sid = Some t → in_s 64 sid ∧ in_s 64 t;
  ty_acl : acl_typed (acl_map s)
}.

(** ** Computations that keep a property *)

Definition stays {S A} (I : S → Prop) (m : ST S exn A) (Q : A → Prop) : Prop :=
  ∀ s, I s → I (m s).1 ∧ ∀ a, (m s).2 = Ret a → Q a.

Section stays.
Context {S : Type} (I : S → Prop).

Lemma stays_bind {A B} (m : ST S exn A) (k : A → ST S exn B) Q R :
  stays I m Q → (∀ a, Q a → stays I (k a) R) → stays I (m ≫= k) R.
Proof.
  intros Hm Hk s Hs. destruct (Hm s Hs) as [H1 H2]. unfold mbind, ST_bind. destruct (m s) as [s' [a|e|]]; [|done..]. by apply Hk, H1; apply H2.
Qed.
Lemma stays_ret {A} (a : A) (Q : A → Prop) : Q a → stays I (mret a) Q.
Proof. intros Ha s Hs. split; [done|]. by intros ? [= <-]. Qed.
Lemma stays_throw {A} e (Q : A → Prop) : stays I (throw e) Q.
Proof. by intros s Hs. Qed.
Lemma stays_crash {A} (Q : A → Prop) : stays I crash Q.
Proof. by intros s Hs. Qed.
Lemma stays_lift {A} (o : outcome exn A) (Q : A → Prop) : (∀ a, o = Ret a → Q a) → stays I (lift o) Q.
Proof. intros Ho s Hs. by destruct o. Qed.
Lemma stays_get : stays I get I.
Proof. intros s Hs. split; [done|]. by intros ? [= <-]. Qed.
Lemma stays_modify f : (∀ s, I s → I (f s)) → stays I (modify f) (λ _, True).
Proof. intros Hf s Hs. split; [by apply Hf|done]. Qed.
Lemma stays_weaken {A} (m : ST S exn A) (Q R : A → Prop) : (∀ a, Q a → R a) → stays I m Q → stays I m R.
Proof. intros HQ Hm s Hs. destruct (Hm s Hs). naive_solver. Qed.
Lemma stays_fmap {A B} (f : A → B) (m : ST S exn A) : stays I m (λ _, True) → stays I (f <$> m) (λ _, True).
Proof. intros Hm s Hs. destruct (Hm s Hs) as [H1 _]. unfold fmap, ST_fmap. destruct (m s) as [s' [a|e|]]; done. Qed.
End stays.

Create HintDb typed discriminated.
#[export] Hint Resolve stays_ret stays_throw stays_crash stays_get stays_modify stays_fmap I : typed.

(** One statement, then the rest. *)
Ltac then_typed := eapply stays_bind; [|intros ? ?].

(** ** Parts of the store *)

Lemma typed_same s s' :
  container s' = container s → zxid s' = zxid s → session_id_counter s' = session_id_counter s →
  session_and_timeout s' = session_and_timeout s → acl_map s' = acl_map s → store_typed s → store_typed s'.
Proof. intros H1 H2 H3 H4 H5 []. split; by rewrite ?H1, ?H2, ?H3, ?H4, ?H5. Qed.

Lemma typed_insert p n s : node_typed n → store_typed s → store_typed (upd_container <[p := n]> s).
Proof. intros Hn [H1 H2 H3 H4 H5]. split; [|done..]. intros q m. cbn. rewrite lookup_insert_Some. intros [[_ <-]|[_ ?]]; eauto. Qed.
Lemma typed_delete p s : store_typed s → store_typed (upd_container (delete p) s).
Proof. intros [H1 H2 H3 H4 H5]. split; [|done..]. intros q m. cbn. rewrite lookup_delete_Some. intros [_ ?]; eauto. Qed.
Lemma typed_zxid z s : in_s 64 z → store_typed s → store_typed (upd_zxid z s).
Proof. intros Hz [H1 H2 H3 H4 H5]. exact (Build_store_typed (upd_zxid z s) H1 Hz H3 H4 H5). Qed.
Lemma typed_counter f s : (∀ c, in_s 64 (f c)) → store_typed s → store_typed (upd_counter f s).
Proof. intros Hf [H1 H2 H3 H4 H5]. exact (Build_store_typed (upd_counter f s) H1 H2 (Hf _) H4 H5). Qed.
Lemma typed_timeout f s :
  (∀ m : gmap Z Z, (∀ k t, m !! k = Some t → in_s 64 k ∧ in_s 64 t) → ∀ k t, f m !! k = Some t → in_s 64 k ∧ in_s 64 t) →
  store_typed s → store_typed (upd_timeout f s).
Proof. intros Hf [H1 H2 H3 H4 H5]. exact (Build_store_typed (upd_timeout f s) H1 H2 H3 (Hf _ H4) H5). Qed.
Lemma typed_acl f s : (∀ m, acl_typed m → acl_typed (f m)) → store_typed s → store_typed (upd_acl f s).
Proof. intros Hf [H1 H2 H3 H4 H5]. exact (Build_store_typed (upd_acl f s) H1 H2 H3 H4 (Hf _ H5)). Qed.

Lemma typed_ephemerals f s : store_typed s → store_typed (upd_ephemerals f s).
Proof. by apply typed_same. Qed.
Lemma typed_auth f s : store_typed s → store_typed (upd_auth f s).
Proof. by apply typed_same. Qed.
Lemma typed_expiry q s : store_typed s → store_typed (upd_expiry q s).
Proof. by apply typed_same. Qed.
Lemma typed_watchers f s : store_typed s → store_typed (upd_watchers f s).
Proof. by apply typed_same. Qed.
Lemma typed_watches w s : store_typed s → store_typed (upd_watches w s).
Proof. by apply typed_same. Qed.
Lemma typed_list_watches w s : store_typed s → store_typed (upd_list_watches w s).
Proof. by apply typed_same. Qed.
#[export] Hint Resolve typed_insert typed_delete typed_zxid typed_acl typed_ephemerals typed_auth typed_expiry typed_watchers typed_watches typed_list_watches : typed.

Lemma on_expiry_typed {A} (m : ST SessionExpiryQueue exn A) : stays store_typed (on_expiry m) (λ _, True).
Proof. intros s Hs. unfold on_expiry. destruct (m _) as [q o]. split; [by apply typed_expiry|done]. Qed.

Lemma modify_node_typed p f : (∀ n, node_typed n → node_typed (f n)) → stays store_typed (modify_node p f) (λ _, True).
Proof.
  intros Hf s Hs. unfold modify_node. destruct (container s !! p) as [n|] eqn:Hn; [|done]. split; [|done].
  apply typed_insert; [|done]. by apply Hf, (ty_nodes s Hs p).
Qed.
#[export] Hint Resolve on_expiry_typed modify_node_typed : typed.

(** ACL numbers. *)
Lemma removeUsage_typed id m : acl_typed m → acl_typed (removeUsage id m).
Proof.
  intros Hm. unfold removeUsage. destruct (usage_counter m !! id); [|done]. destruct (_ =? 0); destruct Hm as [H1 H2]; split; cbn; try done.
  intros acls n. rewrite lookup_delete_Some. intros [_ ?]; eauto.
Qed.
Lemma addUsage_typed id c m : acl_typed m → acl_typed (addUsage id c m).
Proof. intros Hm. unfold addUsage. destruct (id =? 0); [done|]. destruct Hm. by split. Qed.
Lemma convertACLs_typed acls m : acl_typed m → acl_typed (convertACLs acls m).1 ∧ in_u 64 (convertACLs acls m).2.
Proof.
  intros Hm. pose proof Hm as [H1 H2]. unfold convertACLs. destruct (_ || _); [split; [done|]; unfold in_u; cbn; lia|].
  destruct (acl_to_num m !! acls) as [n|] eqn:E; [split; [done|by eapply H2]|]. split; [|done]. split; cbn.
  - apply wrap_u_range. lia.
  - intros acls' n. rewrite lookup_insert_Some. intros [[_ <-]|[_ ?]]; eauto.
Qed.

(** ** Nodes *)

Lemma s32_ok z : in_s 32 (s32 z).
Proof. apply wrap_s_range. lia. Qed.
Lemma s64_ok z : in_s 64 (s64 z).
Proof. apply wrap_s_range. lia. Qed.
#[export] Hint Resolve s32_ok s64_ok : typed.

(** A node with the same owner and other numbers. *)
Lemma retyped n n' :
  Stat_ok (node_stat n') → node_is_ephemeral n' = node_is_ephemeral n → ephemeralOwner (node_stat n') = ephemeralOwner (node_stat n) →
  in_u 64 (node_acl_id n') → node_typed n → node_typed n'.
Proof. intros H1 H2 H3 H4 []. split; [done| |done]. by rewrite H2, H3. Qed.

Ltac retype := intros n Hn; pose proof Hn as [(?&?&?&?&?&?&?&?&?&?&?) _ ?];
  apply (retyped n); [split_and!; cbn; auto with typed|done|done|done|done].

Section nodes.
Context (zx : Z) (Hzx : in_s 64 zx).

Lemma parent_add_typed c n : node_typed n → node_typed (parent_add c zx n).
Proof. revert n. retype. Qed.
Lemma parent_unadd_typed c n : node_typed n → node_typed (parent_unadd c zx n).
Proof. revert n. retype. Qed.
Lemma parent_remove_typed c n : node_typed n → node_typed (parent_remove c zx n).
Proof. revert n. retype. Qed.
Lemma parent_unremove_typed c n : node_typed n → node_typed (parent_unremove c zx n).
Proof. revert n. retype. Qed.
Lemma node_set_typed data time n : in_s 64 time → node_typed n → node_typed (node_set data zx time n).
Proof. intros Ht. revert n. retype. Qed.
Lemma create_node_typed data eph seq acl sid time :
  in_u 64 acl → in_s 64 sid → sid ≠ 0 → in_s 64 time → node_typed (create_node data eph seq acl zx sid time).
Proof.
  intros Ha Hs Hne Ht. split; [|cbn; by destruct eph|done].
  unfold Stat_ok. cbn. split_and!; try done; [by destruct eph|apply s32_ok].
Qed.
End nodes.
Lemma node_set_acl_typed acl n : in_u 64 acl → node_typed n → node_typed (node_set_acl acl n).
Proof. intros Ha. revert n. retype. Qed.
Lemma set_cversion_typed v n : in_s 32 v → node_typed n → node_typed (set_stat (stat_cversion (λ _, v)) n).
Proof. intros Ha. revert n. retype. Qed.
Lemma detach_typed c n : node_typed n → node_typed (set_children (λ cs, cs ∖ {[c]}) (set_stat (stat_numChildren (λ k, s32 (k - 1))) n)).
Proof. revert n. retype. Qed.
Lemma clone_typed n : node_typed n → node_typed (KeeperNode_clone n).
Proof. by destruct n. Qed.
#[export] Hint Resolve parent_add_typed parent_unadd_typed parent_remove_typed parent_unremove_typed node_set_typed create_node_typed node_set_acl_typed set_cversion_typed detach_typed clone_typed removeUsage_typed addUsage_typed : typed.

(** ** Handlers *)

(** The arguments of a handler have their types; session 0 owns no node. *)
Record args_typed (zx sid time : Z) : Prop := {
  ag_zxid : in_s 64 zx;
  ag_session : in_s 64 sid ∧ sid ≠ 0;
  ag_time : in_s 64 time
}.

Definition undo_typed (u : option Undo) : Prop := ∀ m, u = Some m → stays store_typed m (λ _, True).

Lemma no_undo : undo_typed None.
Proof. done. Qed.
Lemma some_undo m : stays store_typed m (λ _, True) → undo_typed (Some m).
Proof. by intros Hm ? [= <-]. Qed.
#[export] Hint Resolve no_undo some_undo : typed.

Abbreviation handled m := (stays store_typed m (λ x : Processed, undo_typed x.2)).

Lemma fail_typed r e : handled (fail r e).
Proof. apply stays_ret. apply no_undo. Qed.
Lemma succeed_typed b u : undo_typed u → handled (succeed b u).
Proof. intros Hu. by apply stays_ret. Qed.
#[export] Hint Resolve fail_typed succeed_typed : typed.

Lemma resolve_acls_typed acls sid : stays store_typed (resolve_acls acls sid) (λ o, ∀ id, o = Some id → in_u 64 id).
Proof.
  unfold resolve_acls. then_typed; [eauto with typed|]. then_typed; [apply stays_get|]. rename a0 into s.
  destruct (fixupACL _ _) as [l|]; [|by apply stays_ret].
  destruct (convertACLs_typed l (acl_map s) (ty_acl _ ltac:(eassumption))) as [H1 H2]. destruct (convertACLs l (acl_map s)) as [am id].
  then_typed; [apply stays_modify; intros; apply typed_acl; eauto with typed|]. apply stays_ret. by intros ? [= <-].
Qed.

Lemma create_acl_typed acls sid : stays store_typed (create_acl acls sid) (λ o, ∀ id, o = Some id → in_u 64 id).
Proof.
  unfold create_acl. case_bool_decide; [|apply resolve_acls_typed]. apply stays_ret. intros ? [= <-]. unfold in_u. lia.
Qed.

Lemma if_ephemeral_typed (b : bool) f : stays store_typed (modify (λ s, if b then upd_ephemerals f s else s)) (λ _, True).
Proof. apply stays_modify. intros s Hs. destruct b; [by apply typed_ephemerals|done]. Qed.
#[export] Hint Resolve if_ephemeral_typed : typed.

Section handlers.
Context (zx sid time : Z) (Hargs : args_typed zx sid time).

Lemma process_create_typed r path data eph seq acls : handled (process_create r path data eph seq acls zx sid time).
Proof.
  destruct Hargs as [Hz [Hs Hne] Ht]. unfold process_create. then_typed; [apply stays_get|]. rename a into s.
  destruct (container s !! parentPath path) as [parent|] eqn:Hp; [|apply fail_typed].
  assert (node_typed parent) as Hpar by (by eapply ty_nodes). destruct Hpar as [Hst _ _].
  destruct (node_is_ephemeral parent); [apply fail_typed|]. set (p := if seq then _ else path).
  case_bool_decide; [apply fail_typed|]. case_bool_decide; [apply fail_typed|].
  then_typed; [apply create_acl_typed|]. destruct a as [id|]; [|apply fail_typed].
  then_typed; [eauto with typed|]. then_typed; [eauto 6 with typed|]. then_typed; [eauto with typed|].
  apply succeed_typed, some_undo. unfold create_undo. then_typed; [eauto with typed|]. then_typed; [eauto with typed|].
  then_typed; [eauto with typed|]. apply modify_node_typed. intros m Hm. apply parent_unadd_typed; [apply Hst|done].
Qed.

Lemma process_remove_typed r path ver : handled (process_remove r path ver zx).
Proof.
  destruct Hargs as [Hz _ _]. unfold process_remove. then_typed; [apply stays_get|]. rename a into s.
  destruct (container s !! path) as [n|] eqn:Hn; [|apply fail_typed]. assert (node_typed n) as Hnt by (by eapply ty_nodes).
  destruct (negb _ && _); [apply fail_typed|]. destruct (negb _); [apply fail_typed|].
  destruct (container s !! parentPath path) as [parent|] eqn:Hp; [|apply stays_crash].
  assert (node_typed parent) as [Hst _ _] by (by eapply ty_nodes).
  then_typed; [eauto with typed|]. then_typed; [eauto with typed|]. then_typed; [eauto with typed|]. then_typed; [eauto with typed|].
  apply succeed_typed, some_undo. unfold remove_undo. then_typed; [eauto with typed|]. then_typed; [eauto with typed|].
  then_typed; [eauto 6 with typed|]. apply modify_node_typed. intros m Hm. apply parent_unremove_typed; [apply Hst|done].
Qed.

Lemma process_set_typed r path data ver : handled (process_set r path data ver zx time).
Proof.
  destruct Hargs as [Hz _ Ht]. unfold process_set. then_typed; [apply stays_get|]. rename a into s.
  destruct (container s !! path) as [n|] eqn:Hn; [|apply fail_typed]. assert (node_typed n) as Hnt by (by eapply ty_nodes).
  destruct (_ || _); [|apply fail_typed]. then_typed; [eauto 6 with typed|]. apply succeed_typed, some_undo. unfold set_undo. eauto 6 with typed.
Qed.

Lemma process_setacl_typed r path acls ver : handled (process_setacl r path acls ver sid).
Proof.
  unfold process_setacl. then_typed; [apply stays_get|]. rename a into s.
  destruct (container s !! path) as [n|] eqn:Hn; [|apply fail_typed]. assert (node_typed n) as Hnt by (by eapply ty_nodes).
  destruct (negb _ && _); [apply fail_typed|]. then_typed; [apply resolve_acls_typed|]. destruct a as [id|]; [|apply fail_typed].
  then_typed; [eauto 6 with typed|]. eauto with typed.
Qed.

Definition one_typed (r : ZooKeeperRequest) : Prop := match req_body r with SetSeqNumRequest _ n => in_s 32 n | _ => True end.

Context (getSHA1 base64Encode : string → string).

Lemma process_one_typed r : one_typed r → handled (process_one getSHA1 base64Encode r zx sid time).
Proof.
  intros Hr. unfold one_typed in Hr. unfold process_one.
  destruct (req_body r); try (apply stays_throw); try (by apply stays_ret, no_undo);
    try (by apply process_create_typed); try (by apply process_remove_typed); try (by apply process_set_typed); try (by apply process_setacl_typed).
  - unfold process_auth. destruct (_ || _); [apply fail_typed|]. then_typed; [apply stays_get|]. then_typed; [eauto with typed|]. by apply stays_ret.
  - unfold process_exists. then_typed; [apply stays_get|]. case_match; eauto with typed.
  - unfold process_get. then_typed; [apply stays_get|]. case_match; eauto with typed.
  - unfold process_list. then_typed; [apply stays_get|]. repeat case_match; eauto with typed.
  - unfold process_list. then_typed; [apply stays_get|]. repeat case_match; eauto with typed.
  - unfold process_check. then_typed; [apply stays_get|]. repeat case_match; eauto with typed.
  - unfold process_getacl. then_typed; [apply stays_get|]. case_match; [|eauto with typed].
    then_typed; [by apply (stays_lift _ _ (λ _, True))|]. eauto with typed.
  - unfold process_setseqnum. then_typed; [eauto with typed|]. by apply stays_ret.
Qed.

Lemma run_undos_typed us : Forall (λ u, stays store_typed u (λ _, True)) us → stays store_typed (run_undos us) (λ _, True).
Proof. induction 1 as [|u us Hu Hus IH]; cbn [run_undos]; [eauto with typed|]. then_typed; [exact Hu|exact IH]. Qed.

Lemma multi_loop_typed rs : Forall one_typed rs → ∀ finished undos, Forall (λ u, stays store_typed u (λ _, True)) undos →
  stays store_typed (multi_loop getSHA1 base64Encode rs finished undos zx sid time) (λ _, True).
Proof.
  induction 1 as [|r rs Hr Hrs IH]; intros finished undos Hu; cbn [multi_loop]; [eauto with typed|].
  intros s Hs. destruct (process_one_typed r Hr s Hs) as [H1 H2]. destruct (process_one _ _ r zx sid time s) as [s' [[resp undo]|e|]]; cbn in H1.
  - case_bool_decide.
    + apply IH; [|done]. apply Forall_app. split; [|done]. specialize (H2 _ eq_refl). cbn in H2. destruct undo; [|done]. constructor; [by apply H2|constructor].
    + eapply stays_bind; [by apply run_undos_typed| |done]. intros _ _. by apply stays_ret.
  - eapply stays_bind; [by apply run_undos_typed| |done]. intros _ _. apply stays_throw.
  - done.
Qed.

Definition request_typed (r : ZooKeeperRequest) : Prop :=
  one_typed r ∧ match req_body r with MultiRequest rs => Forall one_typed rs | _ => True end.

Lemma process_typed r : request_typed r → stays store_typed (process getSHA1 base64Encode r zx sid time) (λ _, True).
Proof.
  intros [H1 H2]. pose proof (process_one_typed r H1) as Hp. unfold process.
  destruct (req_body r); try (by eapply stays_weaken; [|exact Hp]). unfold process_multi.
  then_typed; [by apply multi_loop_typed|]. by apply stays_ret.
Qed.
End handlers.

(** ** processRequest *)

Abbreviation queue_typed := (λ x : KeeperStore * Queue, store_typed x.1).

Lemma on_store_typed {A} (m : STS A) Q : stays store_typed m Q → stays queue_typed (on_store m) Q.
Proof. intros Hm [s q] Hs. destruct (Hm s Hs) as [H1 H2]. unfold on_store. by destruct (m s). Qed.
Lemma get_store_typed : stays queue_typed get_store store_typed.
Proof. apply on_store_typed, stays_get. Qed.
Lemma set_response_typed rs ig : stays queue_typed (set_response rs ig) (λ _, True).
Proof. by intros [s q] Hs. Qed.
Lemma on_modify_typed f : (∀ s, store_typed s → store_typed (f s)) → stays queue_typed (on_store (modify f)) (λ _, True).
Proof. intros Hf. by apply on_store_typed, stays_modify. Qed.
#[export] Hint Resolve on_store_typed get_store_typed set_response_typed on_modify_typed : typed.

Lemma tables_typed ws lws s : store_typed s → store_typed (upd_list_watches lws (upd_watches ws s)).
Proof. by apply typed_same. Qed.

Lemma trigger_typed p ev ig : stays queue_typed (trigger p ev ig) (λ _, True).
Proof.
  unfold trigger. then_typed; [eauto with typed|]. destruct (processWatchesImpl _ _ _ _) as [[rs ws] lws].
  then_typed; [apply on_modify_typed; intros; by apply tables_typed|]. eauto with typed.
Qed.
Lemma register_typed b p sid : stays store_typed (register_watch b p sid) (λ _, True).
Proof. apply stays_modify. intros s Hs. destruct b; by apply (typed_same s). Qed.
Lemma getZXID_typed : stays store_typed getZXID (in_s 64).
Proof.
  unfold getZXID. then_typed; [apply stays_get|]. then_typed; [apply stays_modify; intros; apply typed_zxid; eauto with typed|].
  apply stays_ret. by apply ty_zxid.
Qed.
Lemma response_zxid_typed z b : stays store_typed (response_zxid z b) (λ _, True).
Proof.
  unfold response_zxid. destruct (_ || _); [apply stays_fmap; eapply stays_weaken; [|apply stays_get]; done|].
  eapply stays_weaken; [|apply getZXID_typed]. done.
Qed.
#[export] Hint Resolve trigger_typed register_typed response_zxid_typed : typed.

Lemma detach_child_typed p b : stays store_typed (detach_child p b) (λ _, True).
Proof.
  unfold detach_child. then_typed; [apply stays_get|]. then_typed.
  - case_bool_decide; [apply modify_node_typed; intros; by apply detach_typed|]. destruct b; eauto with typed.
  - eauto with typed.
Qed.

Lemma close_ephemerals_typed ps ig : stays queue_typed (close_ephemerals ps ig) (λ _, True).
Proof.
  induction ps as [|p ps IH]; cbn [close_ephemerals]; [eauto with typed|].
  then_typed; [apply on_store_typed, detach_child_typed|]. then_typed; [eauto with typed|exact IH].
Qed.

Lemma clearDeadWatches_typed sid : stays store_typed (clearDeadWatches sid) (λ _, True).
Proof.
  unfold clearDeadWatches. then_typed; [apply stays_get|]. case_match; [|eauto with typed]. apply stays_modify. intros s Hs. by apply (typed_same s).
Qed.

Lemma process_close_typed r sid z ig : stays queue_typed (process_close r sid z ig) (λ _, True).
Proof.
  unfold process_close. then_typed; [eauto with typed|]. eapply (stays_bind _ _ _ (λ _, True)).
  { case_match; [|eauto with typed]. then_typed; [apply close_ephemerals_typed|]. eauto with typed. }
  intros ? _. then_typed; [apply on_store_typed, clearDeadWatches_typed|]. then_typed; [eauto with typed|]. then_typed; [eauto with typed|].
  then_typed; [apply on_modify_typed; intros; apply typed_timeout; [|done]|].
  { intros m Hm k t. rewrite lookup_delete_Some. intros [_ ?]; eauto. }
  then_typed; [eauto with typed|]. eauto with typed.
Qed.

(** The three loops register a watch, look the node up and may trigger. *)
Ltac typed_loop ps :=
  induction ps as [|p ps IH]; cbn; [eauto with typed|];
  then_typed; [eauto with typed|]; then_typed; [eauto with typed|];
  eapply (stays_bind _ _ _ (λ _, True)); [repeat case_match; eauto with typed|intros _ _; exact IH].

Lemma setwatches_data_typed rel ps sid ig : stays queue_typed (setwatches_data rel ps sid ig) (λ _, True).
Proof. typed_loop ps. Qed.
Lemma setwatches_exist_typed ps sid ig : stays queue_typed (setwatches_exist ps sid ig) (λ _, True).
Proof. typed_loop ps. Qed.
Lemma setwatches_list_typed rel ps sid ig : stays queue_typed (setwatches_list rel ps sid ig) (λ _, True).
Proof. typed_loop ps. Qed.
#[export] Hint Resolve setwatches_data_typed setwatches_exist_typed setwatches_list_typed : typed.

Lemma factory_get_typed {S} (I : S → Prop) r : stays I (factory_get r) (λ _, True).
Proof. unfold factory_get. repeat case_match; eauto with typed. Qed.

Lemma finish_read_typed r resp sid ig : stays queue_typed (finish_read r resp sid ig) (λ _, True).
Proof. unfold finish_read. eapply (stays_bind _ _ _ (λ _, True)); [case_match|intros _ _]; eauto with typed. Qed.
Lemma finish_write_typed r resp sid ig : stays queue_typed (finish_write r resp sid ig) (λ _, True).
Proof.
  unfold finish_write. then_typed; [eauto with typed|]. eapply (stays_bind _ _ _ (λ _, True)); [|intros _ _; eauto with typed].
  destruct (_ && _); [|eauto with typed]. destruct (processWatches _ _ _) as [[rs ws] lws].
  then_typed; [apply on_modify_typed; intros; by apply tables_typed|]. eauto with typed.
Qed.

Lemma touch_session_typed now sid z : in_s 64 sid → stays store_typed (touch_session now sid z) (λ _, True).
Proof.
  intros Hsid. unfold touch_session. then_typed; [apply stays_get|]. destruct (_ && _); [eauto with typed|].
  then_typed; [apply stays_modify; intros; apply typed_timeout; [|done]|].
  { intros m Hm k t. rewrite lookup_insert_Some. intros [[<- <-]|[_ ?]]; [|eauto]. destruct (m !! sid) eqn:E; cbn; [eauto|]. split; [done|unfold in_s; lia]. }
  then_typed; [apply stays_get|]. then_typed; [eauto with typed|]. eauto with typed.
Qed.

Lemma advance_typed z : (∀ x, z = Some x → in_s 64 x) → stays store_typed (advance_zxid z) (λ _, True).
Proof.
  intros Hz. unfold advance_zxid. destruct z as [x|]; [|eauto with typed]. then_typed; [apply stays_get|]. destruct (_ >=? _); eauto with typed.
Qed.

Section requests.
Context (getSHA1 base64Encode : string → string).

Lemma process_now_typed r sid time s :
  request_typed r → in_s 64 sid → sid ≠ 0 → in_s 64 time → store_typed s →
  stays queue_typed (on_store (process getSHA1 base64Encode r (zxid s) sid time)) (λ _, True).
Proof. intros Hr H1 H2 H3 Hs. apply on_store_typed, process_typed; [split; [by apply ty_zxid|done|done]|done]. Qed.

Lemma process_other_typed r sid time z ca ig :
  request_typed r → in_s 64 sid → sid ≠ 0 → in_s 64 time →
  stays queue_typed (process_other_request getSHA1 base64Encode r sid time z ca ig) (λ _, True).
Proof.
  intros Hr H1 H2 H3. unfold process_other_request. then_typed; [apply factory_get_typed|]. then_typed; [apply get_store_typed|].
  eapply (stays_bind _ _ _ (λ _, True)); [destruct ca; [by apply stays_lift|by apply stays_ret]|]. intros ok _.
  eapply (stays_bind _ _ _ (λ _, True)); [destruct ok; cbn [negb]; [apply stays_fmap; by apply process_now_typed|by apply stays_ret]|]. intros resp _.
  then_typed; [eauto with typed|]. case_match; [apply finish_read_typed|apply finish_write_typed].
Qed.

Lemma processRequest_typed now r sid time z ca ig :
  request_typed r → in_s 64 sid → sid ≠ 0 → in_s 64 time → (∀ x, z = Some x → in_s 64 x) →
  stays queue_typed (processRequest getSHA1 base64Encode now r sid time z ca ig) (λ _, True).
Proof.
  intros Hr H1 H2 H3 Hz. unfold processRequest. then_typed; [apply on_store_typed; by apply advance_typed|].
  assert (stays queue_typed (process_heartbeat_request getSHA1 base64Encode r sid time ig) (λ _, True)) as Hh.
  { unfold process_heartbeat_request. then_typed; [apply factory_get_typed|]. then_typed; [apply get_store_typed|].
    then_typed; [by apply process_now_typed|]. case_match. eauto with typed. }
  assert (stays queue_typed (process_setwatches_request getSHA1 base64Encode r sid time ig) (λ _, True)) as Hw.
  { unfold process_setwatches_request. then_typed; [apply factory_get_typed|]. then_typed; [apply get_store_typed|].
    then_typed; [by apply process_now_typed|]. case_match. eapply (stays_bind _ _ _ (λ _, True)); [|intros _ _; eauto with typed].
    case_match; try apply stays_crash. then_typed; [eauto with typed|]. then_typed; [eauto with typed|]. eauto with typed. }
  destruct (getOpNum r); try (by apply process_close_typed);
    (then_typed; [apply on_store_typed; by apply touch_session_typed|]); (case_match; [eauto with typed|]);
    first [exact Hh | exact Hw | by apply process_other_typed].
Qed.

(** ** Reachable stores *)

(** What the state machine does to a store, with arguments of their types. *)
Inductive typed_step (s : KeeperStore) : KeeperStore → Prop :=
| tstep_request now r sid time z ca ig q s' q' o :
    request_typed r → in_s 64 sid → sid ≠ 0 → in_s 64 time → (∀ x, z = Some x → in_s 64 x) →
    processRequest getSHA1 base64Encode now r sid time z ca ig (s, q) = ((s', q'), o) →
    typed_step s s'
| tstep_session now t s' o : in_s 64 t → getSessionID now t s = (s', o) → typed_step s s'
| tstep_add now sid t s' o : in_s 64 sid → in_s 64 t → addSessionID now sid t s = (s', o) → typed_step s s'
| tstep_update now sid s' o : updateSessionTimeout now sid s = (s', o) → typed_step s s'
| tstep_remote sid e s' o : handleRemoteSession sid e s = (s', o) → typed_step s s'.

Lemma enter_typed now sid t :
  in_s 64 sid → in_s 64 t →
  stays store_typed (modify (upd_timeout (emplace_timeout sid t));; on_expiry (addNewSessionOrUpdate now sid t)) (λ _, True).
Proof.
  intros H1 H2. then_typed; [apply stays_modify; intros; apply typed_timeout; [|done]|eauto with typed].
  intros m Hm k t'. unfold emplace_timeout. destruct (m !! sid); [apply Hm|]. rewrite lookup_insert_Some. intros [[<- <-]|[_ ?]]; eauto.
Qed.

Lemma getSessionID_typed now t : in_s 64 t → stays store_typed (getSessionID now t) (λ _, True).
Proof.
  intros Ht. unfold getSessionID. then_typed; [apply getZXID_typed|]. eapply (stays_bind _ _ _ store_typed); [apply stays_get|]. intros s Hs.
  then_typed; [apply stays_modify; intros; apply typed_counter; [intros; apply s64_ok|done]|].
  then_typed; [apply stays_modify; intros; apply typed_timeout; [|done]|then_typed; eauto with typed].
  intros m Hm k t'. unfold emplace_timeout. destruct (m !! session_id_counter s); [apply Hm|]. rewrite lookup_insert_Some.
  intros [[<- <-]|[_ ?]]; [split; [by apply ty_counter|done]|eauto].
Qed.

Lemma typed_step_typed s s' : store_typed s → typed_step s s' → store_typed s'.
Proof.
  intros Hs Hstep. destruct Hstep as [now r sid time z ca ig q s' q' o Hr H1 H2 H3 Hz E|now t s' o Ht E|now sid t s' o H1 H2 E|now sid s' o E|sid e s' o E].
  - pose proof (proj1 (processRequest_typed now r sid time z ca ig Hr H1 H2 H3 Hz (s, q) Hs)) as H. by rewrite E in H.
  - pose proof (proj1 (getSessionID_typed now t Ht s Hs)) as H. by rewrite E in H.
  - pose proof (proj1 (enter_typed now sid t H1 H2 s Hs)) as H. unfold addSessionID in E. by rewrite E in H.
  - assert (stays store_typed (updateSessionTimeout now sid) (λ _, True)) as Hu.
    { unfold updateSessionTimeout. then_typed; [apply stays_get|]. case_match; [|eauto with typed]. then_typed; eauto with typed. }
    pose proof (proj1 (Hu s Hs)) as H. by rewrite E in H.
  - pose proof (proj1 (on_expiry_typed (setSessionExpirationTime sid e) s Hs)) as H. unfold handleRemoteSession in E. by rewrite E in H.
Qed.

Lemma KeeperStore_new_typed tick digest : store_typed (KeeperStore_new tick digest).
Proof.
  split; cbn; try (unfold in_s; lia).
  - intros p n Hn. apply lookup_singleton_Some in Hn as [_ <-]. split; cbn; [|done|unfold in_u; lia].
    unfold Stat_ok, in_s. cbn. lia.
  - intros sid t Hn. by rewrite lookup_empty in Hn.
  - split; cbn; [unfold in_u; lia|]. intros acls n Hn. by rewrite lookup_empty in Hn.
Qed.
End requests.

(** C17: the data of the store keeps to its types. Whatever sequence of requests,
    also with multis that are taken back, of new sessions and of session refreshes
    a server applies to a new store, every field of every stat is within the width
    of its C++ type and fits the wire format, ACL numbers are 64-bit numbers,
    exactly the ephemeral nodes have an owner, and session ids, timeouts and
    counters are 64-bit numbers. *)
Theorem reachable_typed sha b64 tick digest s :
  rtc (typed_step sha b64) (KeeperStore_new tick digest) s → store_typed s.
Proof.
  intros Hr. assert (store_typed (KeeperStore_new tick digest)) as Hs by apply KeeperStore_new_typed.
  induction Hr as [|x y z Hxy _ IH]; [done|]. by apply IH, (typed_step_typed sha b64 x).
Qed.

Lemma typed_run_step r s :
  request_typed r → typed_step Demo.sha Demo.b64 s (Demo.run r s).
Proof.
  intros Hr. unfold Demo.run. destruct (processRequest Demo.sha Demo.b64 1000 r 1 1000 None true false (s, [])) as [[s' q'] o] eqn:E.
  eapply tstep_request; [exact Hr| | | | |exact E]; done.
Qed.

Lemma reachable_typed_witness : store_typed (Demo.run Demo.multi Demo.store3).
Proof.
  apply (reachable_typed Demo.sha Demo.b64 500 ""). apply (rtc_l _ _ Demo.store1).
  { exact (tstep_session _ _ _ 1000 30000 _ _ ltac:(unfold in_s; lia) (surjective_pairing _)). }
  apply (rtc_l _ _ Demo.store2); [by apply typed_run_step|]. apply (rtc_l _ _ Demo.store3); [by apply typed_run_step|].
  apply rtc_once, typed_run_step. split; [done|]. by repeat constructor.
Defined.
