(* ===== verification/StoreFindings.v ===== *)
(** * What modelling the store showed

    Runs of [processRequest] of src/Service/KeeperStore.cpp on concrete stores,
    evaluated, in which the code does something else than it means to. *)

From S2P Require Import Prelude Types ACLMap SessionExpiryQueue KeeperPaths KeeperNode KeeperStore StoreTree StoreInv StoreRequest StoreAcl StoreProps.
From stdpp Require Import base gmap sets list strings option.
From Stdlib Require Import ZArith Lia.
Import Demo.
Open Scope Z_scope.

Definition watch_req (b : RequestBody) : ZooKeeperRequest := mkRequest 8 true b.

(** The responses of one request. *)
Definition responses (r : ZooKeeperRequest) (s : KeeperStore) : list ResponseForSession :=
  (processRequest sha b64 1000 r 1 1000 None true false (s, [])).1.2.
Definition outcome_of (r : ZooKeeperRequest) (s : KeeperStore) : outcome exn unit :=
  (processRequest sha b64 1000 r 1 1000 None true false (s, [])).2.

(** Was a watch event pushed? *)
Definition has_event (rs : list ResponseForSession) : bool :=
  existsb (λ x, resp_xid x.2 =? WATCH_XID) rs.

(** A multi request has an empty path, so the test that guards the delivery of
    watches never looks at the paths it changed: no event is sent. *)
Lemma multi_delivers_no_watch r rs resp sid ig s q :
  req_body r = MultiRequest rs → watches s !! "" = None → list_watches s !! "" = None →
  finish_write r resp sid ig (s, q) = set_response [(sid, resp)] ig (s, q).
Proof.
  intros Hr H1 H2. unfold finish_write. rewrite (bind_Ret get_store _ (s, q) (s, q) s) by done.
  unfold getPath. rewrite Hr. cbn [body_getPath]. change (parentPath "") with "".
  by rewrite H1, H2.
Qed.

(** The same change alone delivers one. *)
Example multi_watch_lost :
  let s := run (watch_req (GetRequest "/a")) store2 in
  has_event (responses (req (SetRequest "/a" "z" (-1))) s) = true ∧
  has_event (responses (req (MultiRequest [req (SetRequest "/a" "z" (-1))])) s) = false.
Proof. split; vm_compute; reflexivity. Qed.

(** A failed multi answers [ZOK] at the top; with a watch on the empty path the
    guard passes and the events of changes that were rolled back are sent. *)
Example rolled_back_multi_delivers :
  let s := run (watch_req (ExistsRequest "")) (run (watch_req (GetRequest "/a")) store2) in
  let m := req (MultiRequest [req (SetRequest "/a" "z" (-1)); req (RemoveRequest "/nope" (-1))]) in
  has_event (responses m s) = true ∧
  (node_data <$> container (run m s) !! "/a") = Some "x"%string.
Proof. split; vm_compute; reflexivity. Qed.

(** Children of [/a] changed after the zxid the client had seen, yet
    re-registering the list watch sends no event: [CHILD] does not reach the
    list watches. *)
Example setwatches_list_event_lost :
  let r := req (SetWatchesRequest 1 [] [] ["/a"]) in
  (pzxid ∘ node_stat <$> container store3 !! "/a") = Some 2 ∧
  has_event (responses r store3) = false.
Proof. split; vm_compute; reflexivity. Qed.

(** A watch on the children of a node is not told that the node was deleted,
    unless its data or the children of its parent are watched too. *)
Example delete_list_watch_lost :
  let s := run (watch_req (ListRequest "/a")) store2 in
  has_event (responses (req (RemoveRequest "/a" (-1))) s) = false.
Proof. vm_compute. reflexivity. Qed.

(** Rolling back the removal of the last node with an ACL restores the usage
    counter and not the list: the node can no longer be used. *)
Example rolled_back_remove_loses_acl :
  let m := req (MultiRequest [req (RemoveRequest "/l" (-1)); req (RemoveRequest "/nope" (-1))]) in
  let s := run m locked_store in
  outcome_of (req (GetRequest "/l")) locked_store = Ret tt ∧
  is_Some (container s !! "/l") ∧
  outcome_of (req (GetRequest "/l")) s = Throw LOGICAL_ERROR.
Proof. split_and!; vm_compute; eauto. Qed.

(** The root can be removed while it has no children; nothing can be created
    afterwards. *)
Example root_removed :
  let s := run (req (RemoveRequest "/" (-1))) store1 in
  container s = ∅ ∧ map (resp_error ∘ snd) (responses create_a s) = [ZNONODE].
Proof. split; vm_compute; reflexivity. Qed.

(** [//a] and [/a] are different nodes with the same parent and the same name;
    removing the first takes the second out of the listing. *)
Example double_slash_unlists :
  let s := run (req (RemoveRequest "//a" (-1)))
             (run (req (CreateRequest "//a" "" false false [])) store2) in
  is_Some (container s !! "/a") ∧
  (node_children <$> container s !! "/") = Some ∅.
Proof. split; vm_compute; eauto. Qed.

(** A [SetSeqNum] request for a missing node dereferences a null pointer. *)
Example setseqnum_missing_crashes :
  outcome_of (req (SetSeqNumRequest "/nope" 5)) store1 = Crash.
Proof. vm_compute. reflexivity. Qed.

(** [GetACL] is a read, yet it moves the zxid, against the comment above
    [shouldIncreaseZxid]. *)
Example getacl_moves_zxid :
  let r := req (GetACLRequest "/a") in
  isReadRequest r = true ∧ zxid (run r store2) = zxid store2 + 1.
Proof. split; vm_compute; reflexivity. Qed.

(** [SetACL] answers the raw statistics: after a child was removed its child
    version is not the one [Exists] answers. *)
Example setacl_answers_raw_stat :
  let s := run (req (RemoveRequest "/a/e" (-1))) store3 in
  let cv b := match b with SetACLResponse st | ExistsResponse st => Some (cversion st) | _ => None end in
  map (cv ∘ resp_body ∘ snd) (responses (req (SetACLRequest "/a" default_acls (-1))) s) = [Some 1] ∧
  map (cv ∘ resp_body ∘ snd) (responses (req (ExistsRequest "/a")) s) = [Some 2].
Proof. split; vm_compute; reflexivity. Qed.

(** [SetACL] does not give back the number it replaces: the list stays. *)
Example setacl_leaks_usage :
  let s := run (req (SetACLRequest "/l" default_acls (-1)))
             (run (req (SetACLRequest "/l" [mkACL ACL_All "world" "anyone"; mkACL ACL_Read "world" "anyone"] (-1)))
                (run (req (CreateRequest "/l" "" false false
                    [mkACL ACL_All "world" "anyone"; mkACL ACL_Admin "world" "anyone"])) store2)) in
  (node_acl_id <$> container s !! "/l") = Some 0 ∧
  size (num_to_acl (acl_map s)) = 2%nat ∧ usage (acl_map s) 1 = 1 ∧ usage (acl_map s) 2 = 1.
Proof. split_and!; vm_compute; reflexivity. Qed.
