(* ===== verification/RequestsQueue.v ===== *)
(** * The queues of the pipeline: src/Common/ConcurrentBoundedQueue.h,
      src/Service/ThreadSafeQueue.h and src/Service/RequestsQueue.h

    A queue is the list of its elements, the oldest first. The operations take
    the lock of the queue for their whole body, so each is one atomic step; a
    call that waits on a condition variable is [None] while it would wait, and
    a timed wait that runs out returns [false]. That distributing requests over
    several queues keeps the order of the requests of every session is part of
    the invariant of ProcessorOrder.v. *)

From S2P Require Import Prelude Types.
From stdpp Require Import base gmap sets list option.
From Stdlib Require Import ZArith Lia.
Open Scope Z_scope.

(** ** ConcurrentBoundedQueue *)

Record BoundedQueue (T : Type) : Type := mkBQ {
  bq_items : list T;
  bq_finished : bool;
  bq_max_fill : Z
}.
Arguments mkBQ {T}. Arguments bq_items {T}. Arguments bq_finished {T}. Arguments bq_max_fill {T}.

Section BoundedQueue.
Context {T : Type}.
Implicit Types q : BoundedQueue T.

Definition bq_new (max_fill : Z) : BoundedQueue T := mkBQ [] false max_fill.

Definition bq_size q : Z := Z.of_nat (length (bq_items q)).
Definition bq_empty q : bool := bool_decide (bq_items q = []).

(** [emplaceImpl]: the wait is over when the queue is finished or has room. *)
Definition bq_can_push q : bool := bq_finished q || (bq_size q <? bq_max_fill q).

Definition bq_emplace (x : T) q : BoundedQueue T * bool :=
  if bq_finished q then (q, false)
  else (mkBQ (bq_items q ++ [x]) (bq_finished q) (bq_max_fill q), true).

(** [push] waits without limit and answers [true] whatever [emplaceImpl] says. *)
Definition bq_push (x : T) q : option (BoundedQueue T * bool) :=
  if bq_can_push q then Some ((bq_emplace x q).1, true) else None.

(** [tryPush] whose wait ends in the given state. *)
Definition bq_tryPush (x : T) q : BoundedQueue T * bool :=
  if bq_can_push q then bq_emplace x q else (q, false).

Definition bq_tryPop q : BoundedQueue T * option T :=
  match bq_items q with
  | [] => (q, None)
  | x :: l => (mkBQ l (bq_finished q) (bq_max_fill q), Some x)
  end.

(** [pop] waits without limit for an element or the end of the queue. *)
Definition bq_pop q : option (BoundedQueue T * option T) :=
  if bq_finished q || negb (bq_empty q) then Some (bq_tryPop q) else None.

Definition bq_peek q : option T := head (bq_items q).

Definition bq_finish q : BoundedQueue T * bool :=
  if bq_finished q then (q, true) else (mkBQ (bq_items q) true (bq_max_fill q), false).

Definition bq_clear q : BoundedQueue T :=
  if bq_finished q then q else mkBQ [] (bq_finished q) (bq_max_fill q).

Definition bq_clearAndFinish q : BoundedQueue T := mkBQ [] true (bq_max_fill q).
End BoundedQueue.

(** ** ThreadSafeQueue *)

Section ThreadSafeQueue.
Context {T : Type}.
Implicit Types q : list T.

Definition tsq_push (x : T) q : list T := q ++ [x].

(** [pop_front] of an empty deque is undefined. *)
Definition tsq_pop : ST (list T) exn unit := λ q,
  match q with [] => (q, Crash) | _ :: l => (l, Ret tt) end.

Definition tsq_tryPop q : list T * option T :=
  match q with [] => (q, None) | x :: l => (l, Some x) end.

Definition tsq_peek q : option T := head q.

Definition tsq_remove q : list T * bool :=
  match q with [] => (q, false) | _ :: l => (l, true) end.

(** [forEach] stops at the first element its function refuses; the result is
    the list of the elements it visited. *)
Fixpoint tsq_forEach (f : T → bool) q : list T :=
  match q with
  | [] => []
  | x :: l => if f x then x :: tsq_forEach f l else [x]
  end.

Definition tsq_size q : Z := Z.of_nat (length q).
Definition tsq_empty q : bool := tsq_size q =? 0.
End ThreadSafeQueue.

(** ** KeeperStore::RequestForSession *)

Record RequestForSession : Type := mkRFS {
  rs_session_id : Z;
  rs_request : ZooKeeperRequest;
  rs_create_time : Z;
  rs_server_id : Z;
  rs_client_id : Z
}.

Definition isForwardRequest (r : RequestForSession) : bool :=
  (rs_server_id r >? -1) && (rs_client_id r >? -1).

(** ** RequestsQueue *)

Abbreviation RequestsQueue := (list (BoundedQueue RequestForSession)).

(** The constructor asserts that both arguments are positive. *)
Definition RequestsQueue_new (child_queue_size : nat) (capacity : Z) : RequestsQueue :=
  replicate child_queue_size (bq_new (Z.max 1 (Z.quot capacity (Z.of_nat child_queue_size)))).

(** [session_id % queues.size()]: the session id is converted to [size_t]. *)
Definition queue_of (n : nat) (session_id : Z) : nat := Z.to_nat (u64 session_id mod Z.of_nat n).

Definition rq_push (r : RequestForSession) (qs : RequestsQueue) : option (RequestsQueue * bool) :=
  let i := queue_of (length qs) (rs_session_id r) in
  q ← qs !! i; '(q', b) ← bq_push r q; Some (<[i := q']> qs, b).

Definition rq_tryPush (r : RequestForSession) (qs : RequestsQueue) : option (RequestsQueue * bool) :=
  let i := queue_of (length qs) (rs_session_id r) in
  q ← qs !! i; let '(q', b) := bq_tryPush r q in Some (<[i := q']> qs, b).

(** An index out of range fails the assertion of the source: that of [pop] lets
    the number of the queues through and refuses the first queue. [None] while it
    waits. *)
Definition rq_pop (queue_id : nat) (qs : RequestsQueue)
    : outcome exn (option (RequestsQueue * option RequestForSession)) :=
  if bool_decide (queue_id = O) || bool_decide (length qs < queue_id)%nat then Crash
  else
    match qs !! queue_id with
    | None => Crash
    | Some q => Ret ('(q', x) ← bq_pop q; Some (<[queue_id := q']> qs, x))
    end.

Definition rq_tryPop (queue_id : nat) (qs : RequestsQueue)
    : option (RequestsQueue * option RequestForSession) :=
  q ← qs !! queue_id; let '(q', x) := bq_tryPop q in Some (<[queue_id := q']> qs, x).

Fixpoint rq_tryPopAny (qs : RequestsQueue) : RequestsQueue * option RequestForSession :=
  match qs with
  | [] => ([], None)
  | q :: qs =>
      match bq_tryPop q with
      | (q', Some x) => (q' :: qs, Some x)
      | (_, None) => let '(qs', x) := rq_tryPopAny qs in (q :: qs', x)
      end
  end.

Definition rq_size (qs : RequestsQueue) : Z := foldl (λ s q, s + bq_size q) 0 qs.
Definition rq_size_of (queue_id : nat) (qs : RequestsQueue) : option Z := bq_size <$> qs !! queue_id.
Definition rq_empty (qs : RequestsQueue) : bool := rq_size qs =? 0.

(** ** The requests in the queues *)

Definition rq_items (qs : RequestsQueue) (i : nat) : list RequestForSession :=
  default [] (bq_items <$> qs !! i).

(** No queue was finished: none of the pipeline's queues ever is. *)
Definition rq_open (qs : RequestsQueue) : Prop := Forall (λ q, bq_finished q = false) qs.

Lemma rq_new_open n capacity : rq_open (RequestsQueue_new n capacity).
Proof. apply Forall_replicate. done. Qed.

Lemma rq_new_items n capacity i : rq_items (RequestsQueue_new n capacity) i = [].
Proof.
  unfold rq_items. destruct (RequestsQueue_new n capacity !! i) as [q|] eqn:E; [|done].
  apply lookup_replicate in E as [-> _]. done.
Qed.

Lemma rq_insert_items qs q q' i k :
  qs !! i = Some q → rq_items (<[i := q']> qs) k = if decide (k = i) then bq_items q' else rq_items qs k.
Proof.
  intros Hi. unfold rq_items. destruct (decide (k = i)) as [->|Hk].
  - rewrite list_lookup_insert_eq; [done|]. by eapply lookup_lt_Some.
  - by rewrite list_lookup_insert_ne.
Qed.

Lemma rq_push_spec x qs qs' b :
  rq_open qs → rq_push x qs = Some (qs', b) →
  let i := queue_of (length qs) (rs_session_id x) in
  b = true ∧ length qs' = length qs ∧ rq_open qs' ∧
  ∀ k, rq_items qs' k = if decide (k = i) then rq_items qs k ++ [x] else rq_items qs k.
Proof.
  intros Ho E i. unfold rq_push in E. fold i in E.
  destruct (qs !! i) as [q|] eqn:Hi; [|done]. simpl in E.
  assert (bq_finished q = false) as Hf by (by eapply Forall_lookup_1 in Ho).
  unfold bq_push, bq_emplace in E. rewrite Hf in E. simpl in E. destruct (bq_can_push q); simplify_eq/=.
  split_and!; [done|by rewrite length_insert|by apply Forall_insert|].
  intros k. rewrite (rq_insert_items _ q) by done. destruct (decide (k = i)) as [->|]; [|done].
  unfold rq_items. by rewrite Hi.
Qed.

Lemma rq_tryPush_spec x qs qs' b :
  rq_open qs → rq_tryPush x qs = Some (qs', b) →
  let i := queue_of (length qs) (rs_session_id x) in
  length qs' = length qs ∧ rq_open qs' ∧
  ∀ k, rq_items qs' k = if b && bool_decide (k = i) then rq_items qs k ++ [x] else rq_items qs k.
Proof.
  intros Ho E i. unfold rq_tryPush in E. fold i in E.
  destruct (qs !! i) as [q|] eqn:Hi; [|done]. simpl in E.
  assert (bq_finished q = false) as Hf by (by eapply Forall_lookup_1 in Ho).
  unfold bq_tryPush, bq_emplace in E. rewrite Hf in E. destruct (bq_can_push q); simplify_eq/=.
  - split_and!; [by rewrite length_insert|by apply Forall_insert|].
    intros k. rewrite (rq_insert_items _ q) by done. case_bool_decide; destruct (decide _); simplify_eq; [|done].
    unfold rq_items. by rewrite Hi.
  - rewrite list_insert_id by done. done.
Qed.

Lemma rq_tryPop_spec r qs qs' o :
  rq_open qs → rq_tryPop r qs = Some (qs', o) →
  length qs' = length qs ∧ rq_open qs' ∧
  match o with
  | Some x => rq_items qs r = x :: rq_items qs' r ∧ ∀ k, k ≠ r → rq_items qs' k = rq_items qs k
  | None => qs' = qs ∧ rq_items qs r = []
  end.
Proof.
  intros Ho E. unfold rq_tryPop in E. destruct (qs !! r) as [q|] eqn:Hr; [|done]. simpl in E.
  assert (bq_finished q = false) as Hf by (by eapply Forall_lookup_1 in Ho).
  unfold bq_tryPop in E. destruct (bq_items q) as [|x l] eqn:Hq; simplify_eq/=.
  - rewrite list_insert_id by done. split_and!; try done. unfold rq_items. by rewrite Hr.
  - split_and!; [by rewrite length_insert|by apply Forall_insert| |].
    + rewrite (rq_insert_items _ q) by done. rewrite decide_True by done. unfold rq_items. by rewrite Hr.
    + intros k Hk. rewrite (rq_insert_items _ q) by done. by rewrite decide_False.
Qed.

Lemma queue_of_lt n sid : (0 < n)%nat → (queue_of n sid < n)%nat.
Proof.
  intros Hn. unfold queue_of. pose proof (Z.mod_pos_bound (u64 sid) (Z.of_nat n)). lia.
Qed.

(** All requests in the queues, queue by queue. *)
Definition in_queues (qs : RequestsQueue) : list RequestForSession := mjoin (bq_items <$> qs).

Lemma rq_tryPopAny_spec qs :
  match in_queues qs with
  | [] => rq_tryPopAny qs = (qs, None)
  | x :: l => ∃ qs', rq_tryPopAny qs = (qs', Some x) ∧ in_queues qs' = l
  end.
Proof.
  unfold in_queues. induction qs as [|q qs IH]; simpl; [done|]. unfold bq_tryPop.
  destruct (bq_items q) as [|x l] eqn:Eq; simpl; [|by eexists].
  change (list_fmap _ _ bq_items qs) with (bq_items <$> qs).
  destruct (mjoin (bq_items <$> qs)) as [|y l'] eqn:Em.
  - by rewrite IH.
  - destruct IH as (qs' & -> & E'). exists (q :: qs'). simpl. by rewrite Eq.
Qed.

Lemma rq_size_in_queues qs : rq_size qs = Z.of_nat (length (in_queues qs)).
Proof.
  unfold rq_size, in_queues. assert (∀ n, foldl (λ s q, s + bq_size q) n qs =
    n + Z.of_nat (length (mjoin (bq_items <$> qs)))) as H; [|by rewrite H].
  induction qs as [|q qs IH]; intros n; simpl; [lia|].
  change (list_fmap _ _ bq_items qs) with (bq_items <$> qs). rewrite IH, length_app. unfold bq_size. lia.
Qed.
