(* ===== verification/RequestProcessor.v ===== *)
(** * The request processor: src/Service/RequestProcessor.{h,cpp}

    Reads of a session are applied on the spot, writes when Raft has committed
    them; the processor pairs committed requests with the pending requests of
    their sessions so that a session sees its requests applied in the order it
    sent them.

    The model is generic in what applying a request does: [W] is the state the
    requests act on and [apply] the effect of [applyRequest] on it, [refuse]
    that of an error answer; Pipeline.v instantiates them with the store and the
    response queue. Two facts the processor asks of the rest of
    the server are parameters: which sessions are connected to this replica
    ([isLocalSession]) and the result codes of NuRaft. The maps of the source
    are unordered; the loops over them run in the order of [map_to_list], on
    which no theorem depends. *)

From S2P Require Import Prelude Types RequestsQueue.
From stdpp Require Import base gmap sets list strings option.
From Stdlib Require Import ZArith Lia.
Open Scope Z_scope.

Abbreviation RequestForSessions := (list RequestForSession).

(** The pending requests of the sessions of one runner. *)
Abbreviation ThreadRequests := (gmap Z RequestForSessions).

Record ErrorRequest (C : Type) : Type := mkErrorRequest {
  er_accepted : bool;
  er_error_code : C;
  er_session_id : Z;
  er_xid : Z;
  er_opnum : OpNum
}.
Arguments mkErrorRequest {C}. Arguments er_accepted {C}. Arguments er_error_code {C}.
Arguments er_session_id {C}. Arguments er_xid {C}. Arguments er_opnum {C}.

(** The members of the class that change; an error is keyed by
    [UInt128(session_id, xid)], both converted to 64 unsigned bits. *)
Record Processor (C : Type) : Type := mkProcessor {
  requests_queue : RequestsQueue;
  pending_requests : gmap nat ThreadRequests;
  committed_queue : BoundedQueue RequestForSession;
  runner_count : nat;
  errors : gmap (Z * Z) (ErrorRequest C);
  shutdown_called : bool
}.
Arguments mkProcessor {C}. Arguments requests_queue {C}. Arguments pending_requests {C}.
Arguments committed_queue {C}. Arguments runner_count {C}. Arguments errors {C}.
Arguments shutdown_called {C}.

Definition rs_xid (r : RequestForSession) : Z := req_xid (rs_request r).
Definition rs_opnum (r : RequestForSession) : OpNum := getOpNum (rs_request r).
Definition rs_is_read (r : RequestForSession) : bool := isReadRequest (rs_request r).

Definition error_key (session_id xid : Z) : Z * Z := (u64 session_id, u64 xid).

(** The requests of [l] behind the one that [committed] answers: the loop erases
    from the front until the transaction id or the close request matches. *)
Definition answers_to (committed r : RequestForSession) : bool :=
  (rs_xid r =? rs_xid committed)
  || (bool_decide (rs_opnum r = Op_Close) && bool_decide (rs_opnum committed = Op_Close)).

Fixpoint erase_through (committed : RequestForSession) (l : RequestForSessions)
    : RequestForSessions :=
  match l with
  | [] => []
  | r :: l => if answers_to committed r then l else erase_through committed l
  end.

(** [m[session_id] = l], dropped when [l] is empty. *)
Definition set_session (session_id : Z) (l : RequestForSessions) (m : ThreadRequests) : ThreadRequests :=
  if bool_decide (l = []) then delete session_id m else <[session_id := l]> m.

(** What the head of the pending requests means for a committed request. *)
Inductive Verdict : Set := Apply | WaitRead | WaitError.

Section Processor.
Context {C : Type} (TIMEOUT : C) `{EqDecision C}.
Context {W : Type} (apply : RequestForSession → W → W).
Context (refuse : RequestForSession → Error → W → W).
Context (isLocalSession : Z → bool).
Implicit Types p : Processor C.

Abbreviation PST := (ST (Processor C * W) exn).

(** ** Field updates *)

Definition set_requests (qs : RequestsQueue) p : Processor C :=
  mkProcessor qs (pending_requests p) (committed_queue p) (runner_count p) (errors p) (shutdown_called p).
Definition set_thread (r : nat) (m : ThreadRequests) p : Processor C :=
  mkProcessor (requests_queue p) (<[r := m]> (pending_requests p)) (committed_queue p)
    (runner_count p) (errors p) (shutdown_called p).
Definition set_committed (q : BoundedQueue RequestForSession) p : Processor C :=
  mkProcessor (requests_queue p) (pending_requests p) q (runner_count p) (errors p) (shutdown_called p).
Definition set_errors (es : gmap (Z * Z) (ErrorRequest C)) p : Processor C :=
  mkProcessor (requests_queue p) (pending_requests p) (committed_queue p) (runner_count p) es
    (shutdown_called p).
Definition set_shutdown p : Processor C :=
  mkProcessor (requests_queue p) (pending_requests p) (committed_queue p) (runner_count p) (errors p) true.

Definition getRunnerId p (session_id : Z) : nat := queue_of (runner_count p) session_id.

(** [initialize]: one map of pending requests per runner. *)
Definition Processor_new (thread_count : nat) : Processor C :=
  mkProcessor (RequestsQueue_new thread_count 20000)
    (list_to_map ((λ i, (i, ∅)) <$> seq 0 thread_count)) (bq_new 1000) thread_count ∅ false.

(** ** Calls from the other threads; [None] while they wait for room *)

Definition push (r : RequestForSession) p : option (Processor C) :=
  if shutdown_called p then Some p
  else '(qs, _) ← rq_push r (requests_queue p); Some (set_requests qs p).

Definition commit (r : RequestForSession) p : option (Processor C) :=
  if shutdown_called p then Some p
  else '(q, _) ← bq_push r (committed_queue p); Some (set_committed q p).

(** [emplace] keeps an error that is already there. *)
Definition onError (accepted : bool) (error_code : C) (session_id xid : Z) (opnum : OpNum) p
    : Processor C :=
  if shutdown_called p then p
  else
    let key := error_key session_id xid in
    match errors p !! key with
    | Some _ => p
    | None => set_errors (<[key := mkErrorRequest accepted error_code session_id xid opnum]> (errors p)) p
    end.

(** ** One runner: requests to the pending map, then the reads *)

(** One turn of the loop of [moveRequestToPendingQueue]. *)
Definition move_one (r : nat) : PST unit := λ '(p, w),
  match pending_requests p !! r, rq_tryPop r (requests_queue p) with
  | Some m, Some (qs, Some x) =>
      let p := set_requests qs p in
      if decide (rs_opnum x = Op_Auth) then ((p, w), Ret tt)
      else
        let l := default [] (m !! rs_session_id x) in
        ((set_thread r (<[rs_session_id x := l ++ [x]]> m) p, w), Ret tt)
  | Some _, Some (_, None) => ((p, w), Ret tt)
  | _, _ => ((p, w), Crash)
  end.

Fixpoint repeat_st {S : Type} (n : nat) (m : ST S exn unit) : ST S exn unit :=
  match n with O => mret tt | S n => m;; repeat_st n m end.

Definition moveRequestToPendingQueue (r : nat) : PST unit :=
  s ← get;
  match rq_size_of r (requests_queue s.1) with
  | Some n => repeat_st (Z.to_nat n) (move_one r)
  | None => crash
  end.

(** The reads at the front of one session. *)
Fixpoint read_session (l : RequestForSessions) (w : W) : RequestForSessions * W :=
  match l with
  | [] => ([], w)
  | x :: l' => if rs_is_read x then read_session l' (apply x w) else (l, w)
  end.

Fixpoint read_loop (sessions : list (Z * RequestForSessions)) (m : ThreadRequests) (w : W)
    : ThreadRequests * W :=
  match sessions with
  | [] => (m, w)
  | (session_id, l) :: sessions =>
      let '(l', w') := read_session l w in
      read_loop sessions (set_session session_id l' m) w'
  end.

Definition processReadRequests (r : nat) : PST unit := λ '(p, w),
  match pending_requests p !! r with
  | None => ((p, w), Crash)
  | Some m => let '(m', w') := read_loop (map_to_list m) m w in ((set_thread r m' p, w'), Ret tt)
  end.

(** ** Committed requests *)

(** The loop over the head of the pending requests leaves in its first turn. *)
Definition judge (committed : RequestForSession) (pending : RequestForSessions) p : Verdict :=
  match pending with
  | [] => Apply
  | h :: _ =>
      if rs_xid h =? rs_xid committed then Apply
      else if rs_is_read h then WaitRead
      else if bool_decide (rs_opnum h = Op_Close) && bool_decide (rs_opnum committed = Op_Close)
      then Apply
      else if bool_decide (is_Some (errors p !! error_key (rs_session_id h) (rs_xid h)))
      then WaitError
      else Apply
  end.

(** [applyRequest] and [committed_queue.pop()]. *)
Definition apply_committed (c : RequestForSession) (m : ThreadRequests) (r : nat) p (w : W)
    : Processor C * W :=
  (set_thread r m (set_committed (bq_tryPop (committed_queue p)).1 p), apply c w).

(** One turn of the loop of [processCommittedRequest]; [false] leaves it. *)
Definition commit_one : PST bool := λ '(p, w),
  match bq_peek (committed_queue p) with
  | None => ((p, w), Ret true)
  | Some c =>
      let sid := rs_session_id c in
      let r := getRunnerId p sid in
      match pending_requests p !! r with
      | None => ((p, w), Crash)
      | Some m =>
          if negb (isLocalSession sid) || bool_decide (rs_opnum c = Op_Auth) then
            (apply_committed c (delete sid m) r p w, Ret true)
          else
            let l := default [] (m !! sid) in
            match judge c l p with
            | Apply => (apply_committed c (set_session sid (erase_through c l) m) r p w, Ret true)
            | _ => ((set_thread r (<[sid := l]> m) p, w), Ret false)
            end
      end
  end.

Fixpoint processCommittedRequest (count : nat) : PST unit :=
  match count with
  | O => mret tt
  | S count =>
      go ← commit_one;
      if (go : bool) then processCommittedRequest count else mret tt
  end.

(** ** Errors of the accumulator and of the forwarder *)

(** The search for the request of an error among the pending ones of its
    session: it gives up at a smaller transaction id, as unsigned numbers. *)
Fixpoint find_error (xid : Z) (opnum : OpNum) (l : RequestForSessions)
    : option (RequestForSession * RequestForSessions) :=
  match l with
  | [] => None
  | x :: l =>
      if u64 (rs_xid x) <? xid then None
      else if (u64 (rs_xid x) =? xid)
              || (bool_decide (rs_opnum x = Op_Close) && bool_decide (opnum = Op_Close))
      then Some (x, l)
      else '(y, rest) ← find_error xid opnum l; Some (y, x :: rest)
  end.

(** The request an error without a pending request is about: an auth request. *)
Definition auth_error_request (session_id now : Z) : RequestForSession :=
  mkRFS session_id (mkRequest 0 false (AuthRequest 0 "" "")) now (-1) (-1).

Definition error_answer (code : C) : Error :=
  if decide (code = TIMEOUT) then ZOPERATIONTIMEOUT else ZCONNECTIONLOSS.

(** One error of the loop; [false] leaves the loop. *)
Definition error_one (now : Z) (key : Z * Z) (e : ErrorRequest C) : PST bool := λ '(p, w),
  let '(session_id, xid) := key in
  let sid := s64 session_id in
  let r := getRunnerId p sid in
  match pending_requests p !! r with
  | None => ((p, w), Crash)
  | Some m =>
      if negb (isLocalSession sid) then
        ((set_errors (delete key (errors p)) (set_thread r (delete sid m) p), w), Ret true)
      else
        let found :=
          if s32 xid =? AUTH_XID then Some (auth_error_request sid now, m)
          else
            l ← m !! sid;
            '(x, rest) ← find_error xid (er_opnum e) l; Some (x, <[sid := rest]> m) in
        match found with
        | None => ((p, w), Ret false)
        | Some (x, m') =>
            ((set_errors (delete key (errors p)) (set_thread r m' p),
              refuse x (error_answer (er_error_code e)) w), Ret true)
        end
  end.

Fixpoint error_loop (now : Z) (es : list ((Z * Z) * ErrorRequest C)) : PST unit :=
  match es with
  | [] => mret tt
  | (key, e) :: es =>
      go ← error_one now key e;
      if (go : bool) then error_loop now es else mret tt
  end.

Definition processErrorRequest (now : Z) : PST unit :=
  s ← get; error_loop now (map_to_list (errors s.1)).

(** ** The main loop *)

Fixpoint runners (rs : list nat) : PST unit :=
  match rs with
  | [] => mret tt
  | r :: rs => moveRequestToPendingQueue r;; processReadRequests r;; runners rs
  end.

(** One turn of [run], the runners one after the other. *)
Definition run_once (now : Z) : PST unit :=
  processErrorRequest now;;
  s ← get;
  runners (seq 0 (runner_count s.1));;
  processCommittedRequest (Z.to_nat (bq_size (committed_queue s.1))).

(** Turns at the given times. *)
Fixpoint run_turns (nows : list Z) : PST unit :=
  match nows with
  | [] => mret tt
  | now :: nows => run_once now;; run_turns nows
  end.

(** [shutdown] answers the requests no runner has taken yet; every request it
    pops shortens the queues, so their total length is enough fuel. *)
Fixpoint drain (fuel : nat) : PST unit := λ '(p, w),
  match fuel with
  | O => ((p, w), Ret tt)
  | S fuel =>
      match rq_tryPopAny (requests_queue p) with
      | (qs, Some x) => drain fuel (set_requests qs p, refuse x ZSESSIONEXPIRED w)
      | (_, None) => ((p, w), Ret tt)
      end
  end.

Definition shutdown : PST unit :=
  s ← get;
  if shutdown_called s.1 then mret tt
  else
    modify (λ '(p, w), (set_shutdown p, w));;
    drain (Z.to_nat (rq_size (requests_queue s.1))).
End Processor.
