(* ===== verification/ProcessorOrder.v ===== *)
(** * Order of the requests of a session: steps of the request processor

    The processor runs beside the threads that push requests, report commits
    and report errors, and its runners run beside each other. [step] is one
    atomic action of any of them, down to a single request moved, read or
    committed, in every interleaving; [run_once] of RequestProcessor.v is one of
    them ([run_once_steps]). The invariant [Inv] is proved by induction on the
    steps.

    The order theorem is about a set [T] of sessions connected to this replica:
    clients that number their requests, for which the commits arrive in the
    order of their writes (Raft keeps the order in which one session's writes
    entered the log) and for which no error was reported. Other sessions are
    not constrained. *)

From S2P Require Import Prelude Types RequestsQueue RequestProcessor.
From stdpp Require Import base gmap sets strings option list.
From Stdlib Require Import ZArith Lia.
Open Scope Z_scope.

(** ** Histories *)

Inductive event : Type :=
| Applied (x : RequestForSession)
| Refused (x : RequestForSession) (e : Error).

Definition event_request (e : event) : RequestForSession :=
  match e with Applied x => x | Refused x _ => x end.
Definition is_applied (e : event) : bool :=
  match e with Applied _ => true | Refused _ _ => false end.

Definition h_apply (x : RequestForSession) (h : list event) : list event := h ++ [Applied x].
Definition h_refuse (x : RequestForSession) (e : Error) (h : list event) : list event :=
  h ++ [Refused x e].

(** ** What one session sees of a state *)

Abbreviation of_session sid := (filter (λ x : RequestForSession, rs_session_id x = sid)).
Abbreviation writes := (filter (λ x : RequestForSession, rs_is_read x = false)).

Definition handled_of (h : list event) (sid : Z) : RequestForSessions :=
  of_session sid (event_request <$> h).

Section Views.
Context {C : Type}.
Implicit Types p : Processor C.

Definition queue_items p (r : nat) : RequestForSessions :=
  default [] (bq_items <$> requests_queue p !! r).
Definition queued p (sid : Z) : RequestForSessions := of_session sid (queue_items p (getRunnerId p sid)).
Definition pending p (sid : Z) : RequestForSessions :=
  default [] (pending_requests p !! getRunnerId p sid ≫= (.!! sid)).
Definition committed p : RequestForSessions := bq_items (committed_queue p).
End Views.

(** ** Steps *)

Inductive Phase : Type :=
| Idle
| Running (count : nat) (todo : gmap nat nat)
| Committing (todo : nat).

Record Sys (C : Type) : Type := mkSys {
  sys_p : Processor C;
  sys_h : list event;
  sys_log : RequestForSessions;
  sys_sent : RequestForSessions;
  sys_phase : Phase
}.
Arguments mkSys {C}. Arguments sys_p {C}. Arguments sys_h {C}. Arguments sys_log {C}. Arguments sys_sent {C}.
Arguments sys_phase {C}.

(** A client numbers its requests: no write of a session shares its number
    with another request of the session. *)
Definition distinct_xids (l : RequestForSessions) : Prop :=
  ∀ i j x y, l !! i = Some x → l !! j = Some y → i ≠ j → rs_is_read x = false → rs_xid x ≠ rs_xid y.

Section Steps.
Context {C : Type} (TIMEOUT : C) `{EqDecision C} (isLocalSession T : Z → bool).
Implicit Types (p : Processor C) (s : Sys C).

(** What is assumed of the sessions in [T] and of Raft for them. *)
Definition push_ok (x : RequestForSession) (sent : RequestForSessions) : Prop :=
  T (rs_session_id x) = true →
  rs_opnum x ≠ Op_Auth ∧ distinct_xids (of_session (rs_session_id x) (sent ++ [x])).

Definition commit_ok (c : RequestForSession) (log sent : RequestForSessions) : Prop :=
  let sid := rs_session_id c in
  T sid = true → of_session sid (log ++ [c]) `prefix_of` writes (of_session sid sent).

Inductive step : Sys C → Sys C → Prop :=
| step_push x p p' h log sent ph :
    push x p = Some p' → push_ok x sent →
    step (mkSys p h log sent ph) (mkSys p' h log (sent ++ [x]) ph)
| step_raft c p p' h log sent ph :
    commit c p = Some p' → commit_ok c log sent →
    step (mkSys p h log sent ph) (mkSys p' h (log ++ [c]) sent ph)
| step_report acc code sid xid op p h log sent ph :
    in_s 64 sid → T sid = false →
    step (mkSys p h log sent ph) (mkSys (onError acc code sid xid op p) h log sent ph)
| step_error now key e p p' h h' log sent b :
    errors p !! key = Some e →
    error_one TIMEOUT h_refuse isLocalSession now key e (p, h) = ((p', h'), Ret b) →
    step (mkSys p h log sent Idle) (mkSys p' h' log sent Idle)
| step_start p h log sent :
    step (mkSys p h log sent Idle) (mkSys p h log sent (Running (length (committed p)) ∅))
| step_begin r p h log sent n todo :
    (r < runner_count p)%nat → todo !! r = None →
    step (mkSys p h log sent (Running n todo))
         (mkSys p h log sent (Running n (<[r := length (queue_items p r)]> todo)))
| step_move r k p p' h h' log sent n todo :
    todo !! r = Some (S k) → move_one r (p, h) = ((p', h'), Ret tt) →
    step (mkSys p h log sent (Running n todo)) (mkSys p' h' log sent (Running n (<[r := k]> todo)))
| step_read r sid m x l p h log sent n todo :
    pending_requests p !! r = Some m → m !! sid = Some (x :: l) → rs_is_read x = true →
    step (mkSys p h log sent (Running n todo))
         (mkSys (set_thread r (<[sid := l]> m) p) (h_apply x h) log sent (Running n todo))
| step_forget r sid m p h log sent n todo :
    pending_requests p !! r = Some m → m !! sid = Some [] →
    step (mkSys p h log sent (Running n todo))
         (mkSys (set_thread r (delete sid m) p) h log sent (Running n todo))
| step_join p h log sent n todo :
    (∀ r, (r < runner_count p)%nat → todo !! r = Some O) →
    step (mkSys p h log sent (Running n todo)) (mkSys p h log sent (Committing n))
| step_committed p p' h h' log sent n :
    commit_one h_apply isLocalSession (p, h) = ((p', h'), Ret true) →
    step (mkSys p h log sent (Committing (S n))) (mkSys p' h' log sent (Committing n))
| step_wait p p' h h' log sent n :
    commit_one h_apply isLocalSession (p, h) = ((p', h'), Ret false) →
    step (mkSys p h log sent (Committing (S n))) (mkSys p' h' log sent Idle)
| step_done p h log sent :
    step (mkSys p h log sent (Committing O)) (mkSys p h log sent Idle).

Inductive steps : Sys C → Sys C → Prop :=
| steps_refl s : steps s s
| steps_next s1 s2 s3 : steps s1 s2 → step s2 s3 → steps s1 s3.

Lemma steps_trans s1 s2 s3 : steps s1 s2 → steps s2 s3 → steps s1 s3.
Proof. intros H1 H2. induction H2 as [|? ? ? ? IH]; [done|]. eapply steps_next; [by apply IH|done]. Qed.

Lemma steps_one s1 s2 : step s1 s2 → steps s1 s2.
Proof. intros. eapply steps_next; [apply steps_refl|done]. Qed.
(** ** The invariant *)

(** Requests are where their session puts them. *)
Record placed p : Prop := {
  pl_count : length (requests_queue p) = runner_count p;
  pl_pos : (0 < runner_count p)%nat;
  pl_open : shutdown_called p = false;
  pl_fin : Forall (λ q, bq_finished q = false) (requests_queue p) ∧ bq_finished (committed_queue p) = false;
  pl_thread r : (r < runner_count p)%nat → is_Some (pending_requests p !! r);
  pl_queue r x : x ∈ queue_items p r → getRunnerId p (rs_session_id x) = r;
  pl_pending r m sid l : pending_requests p !! r = Some m → m !! sid = Some l →
    getRunnerId p sid = r ∧ Forall (λ x, rs_session_id x = sid) l;
  pl_errors key : is_Some (errors p !! key) → T (s64 key.1) = false
}.

(** The requests a commit counted before the runners started can be about. *)
Definition visible p (todo : gmap nat nat) (sid : Z) : RequestForSessions :=
  let q := queue_items p (getRunnerId p sid) in
  pending p sid ++ of_session sid (take (default (length q) (todo !! getRunnerId p sid)) q).

Definition phase_ok p (ph : Phase) (sid : Z) : Prop :=
  match ph with
  | Idle => True
  | Running n todo =>
      of_session sid (take n (committed p)) `prefix_of` writes (visible p todo sid)
  | Committing n => of_session sid (take n (committed p)) `prefix_of` writes (pending p sid)
  end.

Definition phase_bounds p (ph : Phase) : Prop :=
  match ph with
  | Idle => True
  | Running n todo => (n <= length (committed p))%nat ∧
      ∀ r k, todo !! r = Some k → (k <= length (queue_items p r))%nat
  | Committing n => (n <= length (committed p))%nat
  end.

Record tracked p (h : list event) (log sent : RequestForSessions) (ph : Phase) (sid : Z) : Prop := {
  tr_order : of_session sid sent = handled_of h sid ++ pending p sid ++ queued p sid;
  tr_applied : Forall (λ e, rs_session_id (event_request e) = sid → is_applied e = true) h;
  tr_log : of_session sid log = writes (handled_of h sid) ++ of_session sid (committed p);
  tr_commits : of_session sid log `prefix_of` writes (of_session sid sent);
  tr_xids : distinct_xids (of_session sid sent);
  tr_auth : Forall (λ x, rs_opnum x ≠ Op_Auth) (of_session sid sent);
  tr_phase : phase_ok p ph sid
}.

Definition Inv s : Prop :=
  placed (sys_p s) ∧ phase_bounds (sys_p s) (sys_phase s) ∧
  ∀ sid, T sid = true → tracked (sys_p s) (sys_h s) (sys_log s) (sys_sent s) (sys_phase s) sid.
End Steps.

(** ** Views of updated states *)

Section Preservation.
Context {C : Type} (TIMEOUT : C) `{EqDecision C} (isLocalSession T : Z → bool).
Hypothesis T_local : ∀ sid, T sid = true → isLocalSession sid = true ∧ in_s 64 sid.
Implicit Types (p : Processor C) (s : Sys C).

Lemma pending_set_thread r m p sid :
  pending (set_thread r m p) sid =
    if decide (getRunnerId p sid = r) then default [] (m !! sid) else pending p sid.
Proof.
  unfold pending. change (getRunnerId (set_thread r m p) sid) with (getRunnerId p sid). simpl.
  case_decide as D; [subst; by rewrite lookup_insert_eq|by rewrite lookup_insert_ne].
Qed.

Lemma placed_set_requests qs p :
  placed T p → length qs = length (requests_queue p) → Forall (λ q, bq_finished q = false) qs →
  (∀ r x, x ∈ queue_items (set_requests qs p) r → getRunnerId p (rs_session_id x) = r) →
  placed T (set_requests qs p).
Proof.
  intros [] Hl Hf Hq. split; try done; simpl in *; [congruence|naive_solver].
Qed.

Lemma placed_set_thread r m p :
  placed T p → (r < runner_count p)%nat →
  (∀ sid l, m !! sid = Some l → getRunnerId p sid = r ∧ Forall (λ x, rs_session_id x = sid) l) →
  placed T (set_thread r m p).
Proof.
  intros [] Hr Hm. split; try done; simpl in *.
  - intros r' Hr'. destruct (decide (r' = r)) as [->|]; [by rewrite lookup_insert_eq|].
    rewrite lookup_insert_ne by done. auto.
  - intros r' m' sid l. destruct (decide (r' = r)) as [->|].
    + rewrite lookup_insert_eq. intros [= <-]. apply Hm.
    + rewrite lookup_insert_ne by done. eauto.
Qed.

Lemma placed_set_committed q p :
  placed T p → bq_finished q = false → placed T (set_committed q p).
Proof. intros [] Hf. split; try done; simpl in *; naive_solver. Qed.

Lemma placed_set_errors es p :
  placed T p → (∀ key, is_Some (es !! key) → T (s64 key.1) = false) → placed T (set_errors es p).
Proof. intros [] He. by split. Qed.

Lemma runner_lt p sid : placed T p → (getRunnerId p sid < runner_count p)%nat.
Proof.
  intros Hp. pose proof (pl_pos _ _ Hp). unfold getRunnerId, queue_of.
  pose proof (Z.mod_pos_bound (u64 sid) (Z.of_nat (runner_count p)) ltac:(lia)). lia.
Qed.

Lemma push_spec x p p' :
  placed T p → push x p = Some p' →
  ∃ qs, p' = set_requests qs p ∧ length qs = length (requests_queue p) ∧
    Forall (λ q, bq_finished q = false) qs ∧
    ∀ r, queue_items p' r =
      queue_items p r ++ (if decide (r = getRunnerId p (rs_session_id x)) then [x] else []).
Proof.
  intros Hp. unfold push. rewrite (pl_open _ _ Hp). unfold rq_push. rewrite (pl_count _ _ Hp).
  change (queue_of (runner_count p) (rs_session_id x)) with (getRunnerId p (rs_session_id x)).
  set (i := getRunnerId p (rs_session_id x)).
  destruct (requests_queue p !! i) as [q|] eqn:Hq; [|done].
  pose proof (proj1 (pl_fin _ _ Hp)) as Hf.
  pose proof (proj1 (Forall_lookup _ _) Hf i q Hq) as Hqf.
  simpl. unfold bq_push. case_match; [|done]. unfold bq_emplace. rewrite Hqf. simpl. intros [= <-].
  eexists. split; [done|]. split; [rewrite length_insert; apply (pl_count _ _ Hp)|]. split; [by apply Forall_insert|].
  intros r. unfold queue_items. simpl. destruct (decide (r = i)) as [->|].
  - rewrite list_lookup_insert_eq by (by eapply lookup_lt_Some). by rewrite Hq.
  - rewrite list_lookup_insert_ne by done. by rewrite app_nil_r.
Qed.

Lemma pop_spec r p :
  placed T p → (r < runner_count p)%nat →
  ∃ qs, rq_tryPop r (requests_queue p) = Some (qs, head (queue_items p r)) ∧
    length qs = length (requests_queue p) ∧ Forall (λ q, bq_finished q = false) qs ∧
    ∀ r', queue_items (set_requests qs p) r' =
      if decide (r' = r) then tail (queue_items p r) else queue_items p r'.
Proof.
  intros Hp Hr. rewrite <-(pl_count _ _ Hp) in Hr. apply lookup_lt_is_Some in Hr as [q Hq].
  pose proof (proj1 (pl_fin _ _ Hp)) as Hf.
  pose proof (proj1 (Forall_lookup _ _) Hf r q Hq) as Hqf.
  unfold rq_tryPop. rewrite Hq. simpl.
  assert (queue_items p r = bq_items q) as -> by (unfold queue_items; by rewrite Hq).
  destruct (bq_tryPop q) as [q' x] eqn:E.
  assert (x = head (bq_items q) ∧ bq_items q' = tail (bq_items q) ∧ bq_finished q' = false) as (-> & Hi & Hf').
  { unfold bq_tryPop in E. destruct (bq_items q) eqn:?; simplify_eq; simpl; naive_solver. }
  exists (<[r := q']> (requests_queue p)). split; [done|]. split; [by rewrite length_insert|].
  split; [by apply Forall_insert|]. intros r'. unfold queue_items. simpl. case_decide as D.
  - subst. rewrite list_lookup_insert_eq by (by eapply lookup_lt_Some). done.
  - by rewrite list_lookup_insert_ne.
Qed.

Lemma of_session_one sid x : of_session sid [x] = if decide (sid = rs_session_id x) then [x] else [].
Proof. rewrite filter_cons, filter_nil. repeat case_decide; congruence. Qed.

Lemma handled_of_snoc h e sid :
  handled_of (h ++ [e]) sid = handled_of h sid ++ of_session sid [event_request e].
Proof. unfold handled_of. by rewrite fmap_app, filter_app. Qed.

(** What a state keeps of a session when its requests stay where they are. *)
Lemma tracked_frame p p' h log sent ph ph' sid :
  tracked p h log sent ph sid → pending p' sid = pending p sid → queued p' sid = queued p sid →
  committed p' = committed p → phase_ok p' ph' sid → tracked p' h log sent ph' sid.
Proof. intros [] E1 E2 E3 Hph. split; try done; by rewrite ?E1, ?E2, ?E3. Qed.

Lemma queued_after_push x p p' sid :
  (∀ r, queue_items p' r =
     queue_items p r ++ (if decide (r = getRunnerId p (rs_session_id x)) then [x] else [])) →
  runner_count p' = runner_count p →
  queued p' sid = queued p sid ++ of_session sid [x].
Proof.
  intros Hq Hr. unfold queued, getRunnerId in *. rewrite Hr, Hq, filter_app. f_equal.
  case_decide as D; [done|]. rewrite of_session_one. case_decide; [|done]. subst. by destruct D.
Qed.

Lemma inv_push x p p' h log sent ph :
  Inv T (mkSys p h log sent ph) → push x p = Some p' → push_ok T x sent →
  Inv T (mkSys p' h log (sent ++ [x]) ph).
Proof.
  intros (Hp & Hb & Ht) E Hx. simpl in *.
  destruct (push_spec _ _ _ Hp E) as (qs & -> & Hl & Hf & Hq).
  split_and!; simpl.
  - apply placed_set_requests; try done. intros r y. rewrite Hq. rewrite elem_of_app.
    intros [Hy|Hy]; [by eapply (pl_queue _ _ Hp)|]. case_decide; [|set_solver].
    apply list_elem_of_singleton in Hy. by subst.
  - destruct ph as [|n todo|n]; simpl in *; try done. destruct Hb as [Hn Hk]. split; [done|].
    intros r k Hr. rewrite Hq, length_app. specialize (Hk r k Hr). lia.
  - intros sid Hs. destruct (Ht sid Hs) as [Ho Ha Hlog Hc Hd Hu Hph].
    pose proof (queued_after_push x p _ sid Hq eq_refl) as Eq.
    split; try done.
    + rewrite filter_app, Eq, Ho, !(assoc_L (++)). done.
    + rewrite (filter_app _ sent), filter_app. by apply prefix_app_r.
    + rewrite filter_app, of_session_one. case_decide as D; [|by rewrite app_nil_r].
      subst sid. destruct (Hx Hs) as [_ Hx']. by rewrite filter_app, of_session_one, decide_True in Hx'.
    + rewrite filter_app, of_session_one. case_decide as D; [|by rewrite app_nil_r].
      subst sid. destruct (Hx Hs) as [Hx' _]. apply Forall_app. by repeat constructor.
    + destruct ph as [|n todo|n]; simpl in *; try done. destruct Hb as [Hn Hk].
      etrans; [exact Hph|]. unfold visible.
      change (getRunnerId (set_requests qs p) sid) with (getRunnerId p sid).
      change (pending (set_requests qs p) sid) with (pending p sid). rewrite Hq.
      destruct (todo !! getRunnerId p sid) as [k|] eqn:Hr; simpl.
      * rewrite take_app_le by (by apply (Hk _ _ Hr)). done.
      * rewrite !firstn_all, !filter_app, (assoc_L (++)). by apply prefix_app_r.
Qed.

Lemma inv_raft c p p' h log sent ph :
  Inv T (mkSys p h log sent ph) → commit c p = Some p' → commit_ok T c log sent →
  Inv T (mkSys p' h (log ++ [c]) sent ph).
Proof.
  intros (Hp & Hb & Ht) E Hx. simpl in *. unfold commit in E. rewrite (pl_open _ _ Hp) in E.
  unfold bq_push in E. case_match; [|done]. unfold bq_emplace in E. rewrite (proj2 (pl_fin _ _ Hp)) in E.
  simpl in E. injection E as <-. set (p' := set_committed _ p).
  assert (committed p' = committed p ++ [c]) as Ec by done.
  assert (∀ n, (n <= length (committed p))%nat → take n (committed p') = take n (committed p)) as Et.
  { intros n Hn. rewrite Ec. by apply take_app_le. }
  split_and!; simpl.
  - by apply placed_set_committed.
  - destruct ph as [|n todo|n]; simpl in *; try done; rewrite Ec, length_app; [|lia].
    split; [lia|naive_solver].
  - intros sid Hs. destruct (Ht sid Hs) as [Ho Ha Hlog Hc Hd Hu Hph]. split; try done.
    + by rewrite Ec, !filter_app, Hlog, (assoc_L (++)).
    + destruct (decide (sid = rs_session_id c)) as [->|]; [by apply Hx|].
      by rewrite filter_app, of_session_one, decide_False, app_nil_r.
    + destruct ph as [|n todo|n]; simpl in *; try done; rewrite Et by naive_solver; done.
Qed.

Lemma inv_report acc code sid xid op p h log sent ph :
  Inv T (mkSys p h log sent ph) → in_s 64 sid → T sid = false →
  Inv T (mkSys (onError acc code sid xid op p) h log sent ph).
Proof.
  intros (Hp & Hb & Ht) Hr HT. simpl in *. unfold onError. rewrite (pl_open _ _ Hp).
  case_match; [done|]. split_and!; simpl; [|done|].
  2:{ intros sid' Hs. eapply tracked_frame; [by apply Ht|done..|]. apply (tr_phase _ _ _ _ _ _ (Ht _ Hs)). }
  apply placed_set_errors; [done|]. intros key. destruct (decide (key = error_key sid xid)) as [->|].
  - intros _. simpl. by rewrite wrap_s_wrap_u, wrap_s_id.
  - rewrite lookup_insert_ne by done. apply (pl_errors _ _ Hp).
Qed.

(** *** Steps of the main thread and of the runners *)

Lemma inv_start p h log sent :
  Inv T (mkSys p h log sent Idle) → Inv T (mkSys p h log sent (Running (length (committed p)) ∅)).
Proof.
  intros (Hp & Hb & Ht). split_and!; simpl in *; [done| |].
  - split; [done|]. intros r k. by rewrite lookup_empty.
  - intros sid Hs. eapply tracked_frame; [by apply Ht|done..|]. simpl.
    destruct (Ht sid Hs) as [Ho _ Hlog Hc _ _ _]. rewrite firstn_all. unfold visible.
    rewrite lookup_empty. simpl. rewrite firstn_all. fold (queued p sid).
    rewrite Hlog, Ho, (filter_app _ (handled_of h sid)) in Hc. by eapply prefix_app_inv.
Qed.

Lemma inv_begin r p h log sent n todo :
  Inv T (mkSys p h log sent (Running n todo)) → todo !! r = None →
  Inv T (mkSys p h log sent (Running n (<[r := length (queue_items p r)]> todo))).
Proof.
  intros (Hp & [Hn Hk] & Ht) Hr. split_and!; simpl in *; [done| |].
  - split; [done|]. intros r' k. destruct (decide (r' = r)) as [->|].
    + rewrite lookup_insert_eq. intros [= <-]. done.
    + rewrite lookup_insert_ne by done. apply Hk.
  - intros sid Hs. eapply tracked_frame; [by apply Ht|done..|].
    pose proof (tr_phase _ _ _ _ _ _ (Ht sid Hs)) as Hph. simpl in *. unfold visible in *.
    destruct (decide (getRunnerId p sid = r)) as [E|].
    + rewrite E in *. rewrite Hr in Hph. by rewrite lookup_insert_eq.
    + by rewrite lookup_insert_ne.
Qed.

Lemma move_one_spec r p (h : list event) p' h' :
  placed T p → (r < runner_count p)%nat → move_one r (p, h) = ((p', h'), Ret tt) →
  h' = h ∧
  match queue_items p r with
  | [] => p' = p
  | x :: q => placed T p' ∧ committed p' = committed p ∧ runner_count p' = runner_count p ∧
      (∀ r', queue_items p' r' = if decide (r' = r) then q else queue_items p r') ∧
      ∀ sid, pending p' sid = pending p sid ++
        (if decide (rs_opnum x = Op_Auth) then [] else of_session sid [x])
  end.
Proof.
  intros Hp Hr E. destruct (pl_thread _ _ Hp r Hr) as [m Hm].
  destruct (pop_spec r p Hp Hr) as (qs & Hpop & Hl & Hf & Hq).
  unfold move_one in E. rewrite Hm, Hpop in E.
  destruct (queue_items p r) as [|x q] eqn:Hi; simpl in *; [by simplify_eq|].
  assert (∀ r' y, y ∈ queue_items (set_requests qs p) r' → getRunnerId p (rs_session_id y) = r') as Hpl.
  { intros r' y. rewrite Hq. destruct (decide (r' = r)); [subst|apply (pl_queue _ _ Hp)].
    intros Hy. apply (pl_queue _ _ Hp). rewrite Hi. by right. }
  assert (getRunnerId p (rs_session_id x) = r) as Hrx.
  { apply (pl_queue _ _ Hp). rewrite Hi. by left. }
  pose proof (placed_set_requests qs p Hp Hl Hf Hpl) as Hp1.
  case_decide; simplify_eq; (split; [done|]).
  - split_and!; try done. intros sid. by rewrite app_nil_r.
  - split_and!; try done.
    + apply placed_set_thread; [done|exact Hr|]. intros sid l. simpl.
      destruct (decide (sid = rs_session_id x)) as [->|].
      * rewrite lookup_insert_eq. intros [= <-]. split; [done|]. apply Forall_app. split; [|by repeat constructor].
        destruct (m !! rs_session_id x) as [l0|] eqn:E0; [|constructor]. by eapply (pl_pending _ _ Hp).
      * rewrite lookup_insert_ne by done. apply (pl_pending _ _ Hp _ _ _ _ Hm).
    + intros sid. rewrite pending_set_thread, of_session_one.
      change (pending (set_requests qs p) sid) with (pending p sid).
      change (getRunnerId (set_requests qs p) sid) with (getRunnerId p sid).
      repeat case_decide; subst; simpl; rewrite ?app_nil_r; try done.
      * rewrite lookup_insert_eq. simpl. unfold pending. by rewrite Hm.
      * rewrite lookup_insert_ne by done. unfold pending. match goal with H : getRunnerId p sid = _ |- _ => rewrite H end. by rewrite Hm.
Qed.

Lemma inv_move r k p p' (h h' : list event) log sent n todo :
  Inv T (mkSys p h log sent (Running n todo)) → (r < runner_count p)%nat → todo !! r = Some (S k) →
  move_one r (p, h) = ((p', h'), Ret tt) →
  Inv T (mkSys p' h' log sent (Running n (<[r := k]> todo))).
Proof.
  intros (Hp & [Hn Hk] & Ht) Hr Hrk E. simpl in *.
  destruct (move_one_spec _ _ _ _ _ Hp Hr E) as [-> Hm].
  pose proof (Hk _ _ Hrk) as Hlen. destruct (queue_items p r) as [|x q] eqn:Hi; simpl in Hlen; [lia|].
  destruct Hm as (Hp' & Hc & Hrc & Hq & Hpe).
  assert (∀ sid, getRunnerId p' sid = getRunnerId p sid) as Hg by (intros; unfold getRunnerId; by rewrite Hrc).
  split_and!; simpl; [done| |].
  - rewrite Hc. split; [done|]. intros r' k'. rewrite Hq. destruct (decide (r' = r)) as [->|].
    + rewrite lookup_insert_eq . intros [= <-]. lia.
    + rewrite lookup_insert_ne by done. apply Hk.
  - intros sid Hs. destruct (Ht sid Hs) as [Ho Ha Hlog Hco Hd Hu Hph].
    assert (pending p' sid = pending p sid ++ of_session sid [x]
            ∨ of_session sid [x] = [] ∧ pending p' sid = pending p sid) as Hpend.
    { rewrite Hpe. case_decide as Da; [|by left]. right. rewrite app_nil_r. split; [|done].
      rewrite of_session_one. case_decide; [|done]. subst sid. exfalso. rewrite Ho, !Forall_app in Hu.
      destruct Hu as (_ & _ & Hu). unfold queued in Hu.
      rewrite (pl_queue _ _ Hp r x), Hi, filter_cons, decide_True in Hu by (done || (rewrite Hi; by left)).
      by apply Forall_cons_1 in Hu as [? _]. }
    assert (pending p' sid = pending p sid ++ of_session sid [x]) as Hpend'.
    { destruct Hpend as [?|[-> ->]]; [done|by rewrite app_nil_r]. }
    assert (getRunnerId p sid ≠ r → of_session sid [x] = []) as Hone.
    { intros D. apply filter_none. repeat constructor. intros <-. destruct D.
      apply (pl_queue _ _ Hp). rewrite Hi. by left. }
    assert (queued p sid = of_session sid [x] ++ queued p' sid) as Hqu.
    { unfold queued. rewrite Hg, Hq. destruct (decide (getRunnerId p sid = r)); [|by rewrite Hone].
      subst r. by rewrite Hi, (filter_app _ [x] q). }
    split; try done.
    + by rewrite Ho, Hpend', Hqu, !(assoc_L (++)).
    + by rewrite Hc.
    + simpl in *. rewrite Hc. unfold visible in *. rewrite Hg, Hq, Hpend'.
      destruct (decide (getRunnerId p sid = r)) as [Er|].
      * rewrite Er, Hrk, Hi in Hph. rewrite Er, lookup_insert_eq. simpl in *.
        rewrite <-(assoc_L (++)). by rewrite (filter_app _ [x] (take k q)) in Hph.
      * by rewrite Hone, lookup_insert_ne, app_nil_r by done.
Qed.

(** A session that is not in [T] may change as it likes. *)
Lemma inv_touch sid m m' es evs p h log sent ph :
  Inv T (mkSys p h log sent ph) → T sid = false → pending_requests p !! getRunnerId p sid = Some m →
  (∀ sid', sid' ≠ sid → m' !! sid' = m !! sid') →
  (∀ l, m' !! sid = Some l → Forall (λ x, rs_session_id x = sid) l) →
  es ⊆ errors p → Forall (λ e, rs_session_id (event_request e) = sid) evs →
  Inv T (mkSys (set_errors es (set_thread (getRunnerId p sid) m' p)) (h ++ evs) log sent ph).
Proof.
  intros (Hp & Hb & Ht) HT Hm Hne Hse Hes Hev. simpl in *. split_and!; simpl.
  - apply placed_set_errors.
    + apply placed_set_thread; [done|by apply runner_lt|]. intros sid' l Hl.
      destruct (decide (sid' = sid)) as [->|]; [naive_solver|]. rewrite Hne in Hl by done.
      by apply (pl_pending _ _ Hp _ _ _ _ Hm).
    + intros key [e He]. apply (pl_errors _ _ Hp). eapply lookup_weaken in He; [by eexists|done].
  - done.
  - intros sid' Hs. assert (sid' ≠ sid) as Hn by congruence.
    assert (pending (set_errors es (set_thread (getRunnerId p sid) m' p)) sid' = pending p sid') as Ep.
    { change (pending (set_thread (getRunnerId p sid) m' p) sid' = pending p sid').
      rewrite pending_set_thread. destruct (decide _) as [E|]; [|done].
      unfold pending. by rewrite E, Hm, Hne. }
    assert (handled_of (h ++ evs) sid' = handled_of h sid') as Eh.
    { unfold handled_of. rewrite fmap_app, filter_app.
      rewrite (filter_none _ (event_request <$> evs)); [by rewrite app_nil_r|].
      apply Forall_fmap. eapply Forall_impl; [done|]. simpl. congruence. }
    destruct (Ht sid' Hs) as [Ho Ha Hlog Hc Hd Hu Hph].
    split; rewrite ?Ep, ?Eh; try done.
    + apply Forall_app. split; [done|]. eapply Forall_impl; [done|]. simpl. congruence.
    + destruct ph; simpl in *; unfold visible in *; rewrite ?Ep; done.
Qed.

Lemma find_error_elem xid op l x rest :
  find_error xid op l = Some (x, rest) → x ∈ l ∧ ∀ y, y ∈ rest → y ∈ l.
Proof.
  revert rest. induction l as [|y l IH]; intros rest; simpl; [done|].
  case_match; [done|]. case_match; [intros; simplify_eq; set_solver|].
  destruct (find_error xid op l) as [[z r]|]; simpl; [|done]. intros; simplify_eq.
  destruct (IH r eq_refl). set_solver.
Qed.

Lemma inv_error now key e p p' h h' log sent ph b :
  Inv T (mkSys p h log sent ph) → errors p !! key = Some e →
  error_one TIMEOUT h_refuse isLocalSession now key e (p, h) = ((p', h'), Ret b) →
  Inv T (mkSys p' h' log sent ph).
Proof.
  intros HI He E. pose proof HI as (Hp & _ & _). simpl in Hp.
  assert (T (s64 key.1) = false) as HT by (apply (pl_errors _ _ Hp); by eexists).
  destruct key as [k1 k2]. simpl in HT. unfold error_one in E. set (sid := s64 k1) in *.
  destruct (pending_requests p !! getRunnerId p sid) as [m|] eqn:Hm; [|done].
  assert (delete (k1, k2) (errors p) ⊆ errors p) as Hes by apply delete_subseteq.
  destruct (negb (isLocalSession sid)).
  { simplify_eq. rewrite <-(app_nil_r h'). eapply inv_touch; try done.
    - intros. by rewrite lookup_delete_ne.
    - intros l. by rewrite lookup_delete_eq. }
  destruct (s32 k2 =? AUTH_XID).
  { simplify_eq. eapply inv_touch; try done.
    - intros l Hl. by apply (pl_pending _ _ Hp _ _ _ _ Hm).
    - by repeat constructor. }
  destruct (m !! sid) as [l|] eqn:Hl; simpl in E; [|by simplify_eq].
  destruct (find_error k2 (er_opnum e) l) as [[x rest]|] eqn:Hf; simpl in E; [|by simplify_eq].
  apply find_error_elem in Hf as [Hx Hrest].
  pose proof (proj2 (pl_pending _ _ Hp _ _ _ _ Hm Hl)) as Hls. rewrite Forall_forall in Hls.
  simplify_eq. eapply inv_touch; try done.
  - intros. by rewrite lookup_insert_ne.
  - intros l'. rewrite lookup_insert_eq. intros [= <-]. apply Forall_forall. naive_solver.
  - repeat constructor. simpl. naive_solver.
Qed.

Lemma inv_read r sid m x l p h log sent n todo :
  Inv T (mkSys p h log sent (Running n todo)) →
  pending_requests p !! r = Some m → m !! sid = Some (x :: l) → rs_is_read x = true →
  Inv T (mkSys (set_thread r (<[sid := l]> m) p) (h_apply x h) log sent (Running n todo)).
Proof.
  intros (Hp & Hb & Ht) Hm Hl Hx. simpl in *.
  destruct (pl_pending _ _ Hp _ _ _ _ Hm Hl) as [<- Hls]. apply Forall_cons_1 in Hls as [Hxs Hls].
  split_and!; simpl.
  - apply placed_set_thread; [done|by apply runner_lt|]. intros sid' l'.
    destruct (decide (sid' = sid)) as [->|].
    + rewrite lookup_insert_eq. by intros [= <-].
    + rewrite lookup_insert_ne by done. apply (pl_pending _ _ Hp _ _ _ _ Hm).
  - done.
  - intros sid' Hs. destruct (Ht sid' Hs) as [Ho Ha Hlog Hc Hd Hu Hph].
    assert (pending p sid' = of_session sid' [x] ++ pending (set_thread (getRunnerId p sid) (<[sid := l]> m) p) sid') as Ep.
    { rewrite pending_set_thread, of_session_one. destruct (decide (sid' = sid)) as [->|].
      - rewrite (decide_True (P := sid = _)), (decide_True (P := _ = _)), lookup_insert_eq by done. unfold pending. rewrite Hm. simpl. by rewrite Hl.
      - rewrite (decide_False (P := sid' = _)) by congruence. simpl. destruct (decide _) as [E|]; [|done].
        rewrite lookup_insert_ne by done. unfold pending. by rewrite E, Hm. }
    assert (writes (of_session sid' [x]) = []) as Ew.
    { rewrite of_session_one. case_decide; [|done]. apply filter_none. repeat constructor. congruence. }
    unfold h_apply. split; try done.
    + by rewrite handled_of_snoc, Ho, Ep, !(assoc_L (++)).
    + apply Forall_app. split; [done|]. by repeat constructor.
    + rewrite handled_of_snoc, (filter_app _ (handled_of h sid')). simpl. by rewrite Ew, app_nil_r.
    + simpl in *. unfold visible in *. rewrite Ep in Hph. rewrite <-(assoc_L (++)), (filter_app _ (of_session sid' [x])), Ew in Hph. done.
Qed.

Lemma inv_forget r sid m p h log sent ph :
  Inv T (mkSys p h log sent ph) → pending_requests p !! r = Some m → m !! sid = Some [] →
  Inv T (mkSys (set_thread r (delete sid m) p) h log sent ph).
Proof.
  intros (Hp & Hb & Ht) Hm Hl. simpl in *. destruct (pl_pending _ _ Hp _ _ _ _ Hm Hl) as [<- _].
  assert (∀ sid', pending (set_thread (getRunnerId p sid) (delete sid m) p) sid' = pending p sid') as Ep.
  { intros sid'. rewrite pending_set_thread. destruct (decide _) as [E|]; [|done].
    unfold pending. rewrite E, Hm. simpl. destruct (decide (sid' = sid)) as [->|].
    - by rewrite lookup_delete_eq, Hl.
    - by rewrite lookup_delete_ne. }
  split_and!; simpl; [|done|].
  - apply placed_set_thread; [done|by apply runner_lt|]. intros sid' l' Hl'.
    apply lookup_delete_Some in Hl' as [_ Hl']. apply (pl_pending _ _ Hp _ _ _ _ Hm Hl').
  - intros sid' Hs. eapply tracked_frame; [by apply Ht|by apply Ep|done..|].
    pose proof (tr_phase _ _ _ _ _ _ (Ht _ Hs)). destruct ph; simpl in *; unfold visible in *; rewrite ?Ep; done.
Qed.

Lemma inv_join p h log sent n todo :
  Inv T (mkSys p h log sent (Running n todo)) →
  (∀ r, (r < runner_count p)%nat → todo !! r = Some O) → Inv T (mkSys p h log sent (Committing n)).
Proof.
  intros (Hp & Hb & Ht) Hz. split_and!; simpl in *; [done|naive_solver|].
  intros sid Hs. eapply tracked_frame; [by apply Ht|done..|].
  pose proof (tr_phase _ _ _ _ _ _ (Ht _ Hs)) as Hph. simpl in *. unfold visible in Hph.
  rewrite Hz in Hph by (by apply runner_lt). simpl in Hph. by rewrite app_nil_r in Hph.
Qed.

(** The head of the committed requests, of a session in [T], is the first write
    among the pending requests of the session. *)
Lemma committed_head p h log sent n c cs :
  tracked p h log sent (Committing (S n)) (rs_session_id c) → committed p = c :: cs →
  ∃ x l, pending p (rs_session_id c) = x :: l ∧ rs_opnum c ≠ Op_Auth ∧ rs_is_read c = false ∧
    (rs_is_read x = true ∧ rs_xid x ≠ rs_xid c ∨
     x = c ∧ of_session (rs_session_id c) (take n cs) `prefix_of` writes l).
Proof.
  intros [Ho _ _ _ Hd Hu Hph] Hc. simpl in Hph. rewrite Hc in Hph. simpl in Hph.
  rewrite filter_cons, decide_True in Hph by done. set (sid := rs_session_id c) in *.
  destruct Hph as [k Hk]. simpl in Hk.
  assert (c ∈ writes (pending p sid)) as Hin by (rewrite Hk; by left).
  apply list_elem_of_filter in Hin as [Hcw Hin].
  assert (rs_opnum c ≠ Op_Auth) as Hna.
  { rewrite Forall_forall in Hu. apply Hu. rewrite Ho, !elem_of_app. auto. }
  destruct (pending p sid) as [|x l] eqn:Hpe; [by apply not_elem_of_nil in Hin|].
  exists x, l. split_and!; try done.
  rewrite filter_cons in Hk. destruct (decide (rs_is_read x = false)) as [|Hx].
  - right. injection Hk as -> Hk. split; [done|]. by exists k.
  - left. apply not_false_is_true in Hx. split; [done|]. intros Exid.
    assert (c ∈ l) as Hl by (apply elem_of_cons in Hin as [->|]; [congruence|done]).
    apply list_elem_of_lookup in Hl as [i Hi].
    eapply (Hd (length (handled_of h sid) + S i)%nat (length (handled_of h sid)) c x); try done; [| |lia].
    + rewrite Ho, lookup_app_r by lia. replace (_ + _ - _)%nat with (S i) by lia. simpl.
      by apply lookup_app_l_Some.
    + rewrite Ho, lookup_app_r by lia. by replace (_ - _)%nat with 0%nat by lia.
Qed.

Lemma peek_committed p : bq_peek (committed_queue p) = head (committed p).
Proof. unfold bq_peek, committed. by destruct (bq_items _). Qed.

Lemma committed_pop p : committed (set_committed (bq_tryPop (committed_queue p)).1 p) = tail (committed p).
Proof. unfold committed, bq_tryPop. simpl. by destruct (bq_items (committed_queue p)) eqn:E. Qed.

(** The requests another session has pending do not change. *)
Lemma pending_other sid sid' r m m' q p :
  getRunnerId p sid = r → pending_requests p !! r = Some m → sid' ≠ sid →
  (∀ k, k ≠ sid → m' !! k = m !! k) →
  pending (set_thread r m' (set_committed q p)) sid' = pending p sid'.
Proof.
  intros Hr Hm Hn Hne. rewrite pending_set_thread.
  change (getRunnerId (set_committed q p) sid') with (getRunnerId p sid').
  destruct (decide _) as [E|]; [|done]. unfold pending. by rewrite E, Hm, Hne.
Qed.

Lemma apply_committed_placed c m m' cs p h :
  placed T p → pending_requests p !! getRunnerId p (rs_session_id c) = Some m →
  (∀ k, k ≠ rs_session_id c → m' !! k = m !! k) →
  (∀ l, m' !! rs_session_id c = Some l → Forall (λ x, rs_session_id x = rs_session_id c) l) →
  committed p = c :: cs →
  placed T (apply_committed h_apply c m' (getRunnerId p (rs_session_id c)) p h).1.
Proof.
  intros Hp Hm Hne Hl Hc. simpl. apply placed_set_thread.
  - apply placed_set_committed; [done|]. pose proof (proj2 (pl_fin _ _ Hp)). unfold bq_tryPop.
    unfold committed in Hc. by rewrite Hc.
  - by apply (runner_lt p).
  - intros sid l Hs. change (getRunnerId (set_committed _ p) sid) with (getRunnerId p sid).
    destruct (decide (sid = rs_session_id c)) as [->|]; [naive_solver|].
    rewrite Hne in Hs by done. by apply (pl_pending _ _ Hp _ _ _ _ Hm).
Qed.

Lemma tracked_apply_other c m m' cs p h log sent n sid' :
  tracked p h log sent (Committing (S n)) sid' → sid' ≠ rs_session_id c →
  pending_requests p !! getRunnerId p (rs_session_id c) = Some m → committed p = c :: cs →
  (∀ k, k ≠ rs_session_id c → m' !! k = m !! k) →
  let q := apply_committed h_apply c m' (getRunnerId p (rs_session_id c)) p h in
  tracked q.1 q.2 log sent (Committing n) sid'.
Proof.
  intros [Ho Ha Hlog Hco Hd Hu Hph] Hn Hm Hc Hne. cbv zeta. unfold apply_committed, h_apply. simpl.
  set (q := set_committed _ p).
  assert (committed (set_thread (getRunnerId p (rs_session_id c)) m' q) = cs) as Ec.
  { change (committed q = cs). unfold q. by rewrite committed_pop, Hc. }
  pose proof (pending_other _ sid' _ m m' (bq_tryPop (committed_queue p)).1 p eq_refl Hm Hn Hne) as Ep.
  fold q in Ep.
  assert (handled_of (h ++ [Applied c]) sid' = handled_of h sid') as Eh.
  { rewrite handled_of_snoc, of_session_one. simpl. rewrite decide_False by done. by rewrite app_nil_r. }
  assert (∀ k, of_session sid' (c :: k) = of_session sid' k) as Ef.
  { intros k. by rewrite filter_cons, decide_False by done. }
  split; try done; rewrite ?Ep, ?Eh; try done.
  - apply Forall_app. split; [done|]. by repeat constructor.
  - rewrite Ec. by rewrite Hc, Ef in Hlog.
  - simpl in *. rewrite Ec, Ep. by rewrite Hc, firstn_cons, Ef in Hph.
Qed.

Lemma tracked_apply_own c m cs p h log sent n l :
  let sid := rs_session_id c in
  tracked p h log sent (Committing (S n)) sid → committed p = c :: cs → rs_is_read c = false →
  pending_requests p !! getRunnerId p sid = Some m → pending p sid = c :: l →
  of_session sid (take n cs) `prefix_of` writes l →
  let q := apply_committed h_apply c (set_session sid l m) (getRunnerId p sid) p h in
  tracked q.1 q.2 log sent (Committing n) sid.
Proof.
  intros sid [Ho Ha Hlog Hco Hd Hu _] Hc Hcw Hm Hpe Hpre. cbv zeta. unfold apply_committed, h_apply. simpl.
  set (q := set_committed _ p).
  assert (committed (set_thread (getRunnerId p sid) (set_session sid l m) q) = cs) as Ec.
  { change (committed q = cs). unfold q. by rewrite committed_pop, Hc. }
  assert (pending (set_thread (getRunnerId p sid) (set_session sid l m) q) sid = l) as Ep.
  { rewrite pending_set_thread, decide_True by done. unfold set_session. case_bool_decide.
    - subst l. by rewrite lookup_delete_eq.
    - by rewrite lookup_insert_eq. }
  assert (handled_of (h ++ [Applied c]) sid = handled_of h sid ++ [c]) as Eh.
  { rewrite handled_of_snoc, of_session_one. simpl. by rewrite decide_True by done. }
  split; try done; rewrite ?Ep, ?Eh, ?Ec; try done.
  - by rewrite Ho, Hpe, <-(assoc_L (++)).
  - apply Forall_app. split; [done|]. by repeat constructor.
  - rewrite (filter_app _ (handled_of h sid)), (filter_cons_True _ c []), filter_nil, <-(assoc_L (++)) by done.
    by rewrite Hc, filter_cons_True in Hlog by done.
  - simpl. by rewrite Ec, Ep.
Qed.

Lemma set_session_ne sid l m k : k ≠ sid → set_session sid l m !! k = m !! k.
Proof. intros. unfold set_session. case_bool_decide; [by rewrite lookup_delete_ne|by rewrite lookup_insert_ne]. Qed.

Lemma set_session_eq sid l m : set_session sid l m !! sid = if decide (l = []) then None else Some l.
Proof.
  unfold set_session. case_bool_decide; [|by rewrite lookup_insert_eq, decide_False].
  by rewrite lookup_delete_eq, decide_True.
Qed.

Lemma erase_through_elem c l x : x ∈ erase_through c l → x ∈ l.
Proof. induction l as [|y l IH]; simpl; [done|]. case_match; set_solver. Qed.

(** The cases of one turn of the commit loop. *)
Lemma commit_one_cases c cs p (h : list event) p' h' b :
  placed T p → committed p = c :: cs →
  commit_one h_apply isLocalSession (p, h) = ((p', h'), Ret b) →
  let sid := rs_session_id c in
  ∃ m, pending_requests p !! getRunnerId p sid = Some m ∧
  if b then ∃ m', (p', h') = apply_committed h_apply c m' (getRunnerId p sid) p h ∧
         (m' = delete sid m ∧ (isLocalSession sid = false ∨ rs_opnum c = Op_Auth) ∨
          m' = set_session sid (erase_through c (pending p sid)) m ∧
          judge c (pending p sid) p = Apply)
  else p' = set_thread (getRunnerId p sid) (<[sid := pending p sid]> m) p ∧ h' = h.
Proof.
  intros Hp Hc E sid. unfold commit_one in E. rewrite peek_committed, Hc in E. simpl in E. fold sid in E.
  destruct (pending_requests p !! getRunnerId p sid) as [m|] eqn:Hm; [|done].
  assert (default [] (m !! sid) = pending p sid) as El by (unfold pending; by rewrite Hm).
  rewrite El in E. exists m. split; [done|].
  destruct (negb (isLocalSession sid) || bool_decide (rs_opnum c = Op_Auth)) eqn:Eb.
  - injection E as E1 E2 <-. eexists. split; [by rewrite <-E1, <-E2|]. left. split; [done|].
    apply orb_true_iff in Eb as [Eb|Eb]; [left; by apply negb_true_iff|right; by apply bool_decide_eq_true in Eb].
  - destruct (judge c (pending p sid) p) eqn:Ej; simplify_eq; try done.
    eexists. split; [done|]. by right.
Qed.

Lemma inv_committed p p' h h' log sent n :
  Inv T (mkSys p h log sent (Committing (S n))) →
  commit_one h_apply isLocalSession (p, h) = ((p', h'), Ret true) →
  Inv T (mkSys p' h' log sent (Committing n)).
Proof.
  intros (Hp & Hb & Ht) E. simpl in *.
  destruct (committed p) as [|c cs] eqn:Hc; [simpl in Hb; lia|].
  destruct (commit_one_cases _ _ _ _ _ _ _ Hp Hc E) as (m & Hm & m' & Ea & Hm').
  set (sid := rs_session_id c) in *.
  assert (∀ k, k ≠ sid → m' !! k = m !! k) as Hne.
  { intros k Hk. destruct Hm' as [[-> _]|[-> _]]; [by rewrite lookup_delete_ne|by apply set_session_ne]. }
  replace p' with (apply_committed h_apply c m' (getRunnerId p sid) p h).1 by (by rewrite <-Ea).
  replace h' with (apply_committed h_apply c m' (getRunnerId p sid) p h).2 by (by rewrite <-Ea).
  split_and!; simpl sys_p; simpl sys_h; simpl sys_log; simpl sys_sent; simpl sys_phase.
  - apply (apply_committed_placed c m m' cs p h); try done. intros l Hl. destruct Hm' as [[-> _]|[-> _]].
    + by rewrite lookup_delete_eq in Hl.
    + rewrite set_session_eq in Hl. case_decide; [done|]. injection Hl as <-.
      apply Forall_forall. intros x Hx%erase_through_elem. unfold pending in Hx. fold sid in Hm.
      rewrite Hm in Hx. simpl in Hx. destruct (m !! sid) as [l|] eqn:El; [|by apply not_elem_of_nil in Hx].
      apply (pl_pending _ _ Hp _ _ _ _ Hm) in El as [_ El]. rewrite Forall_forall in El. by apply El.
  - unfold apply_committed. simpl. pose proof (committed_pop p) as Ecp. rewrite Hc in Ecp. change (n <= length (committed (set_committed (bq_tryPop (committed_queue p)).1 p)))%nat. rewrite Ecp. simpl in *. lia.
  - intros sid' Hs. destruct (decide (sid' = sid)) as [->|Hn]; [|by apply (tracked_apply_other c m m' cs p h log sent n sid' (Ht _ Hs) Hn Hm Hc Hne)].
    destruct (committed_head _ _ _ _ _ _ _ (Ht _ Hs) Hc) as (x & l & Hpe & Hna & Hcw & Hx). fold sid in Hpe, Hx.
    rewrite Hpe in Hm'. destruct Hm' as [[_ [Hl|Hl]]|[-> Hj]]; [|done|].
    { destruct (T_local _ Hs). congruence. }
    destruct Hx as [[Hr Hxid]|[-> Hpre]].
    { simpl in Hj. rewrite (proj2 (Z.eqb_neq _ _) Hxid), Hr in Hj. done. }
    simpl. unfold answers_to. rewrite Z.eqb_refl. simpl. exact (tracked_apply_own c m cs p h log sent n l (Ht _ Hs) Hc Hcw Hm Hpe Hpre).
Qed.

Lemma inv_wait p p' h h' log sent ph :
  Inv T (mkSys p h log sent ph) → commit_one h_apply isLocalSession (p, h) = ((p', h'), Ret false) →
  Inv T (mkSys p' h' log sent Idle).
Proof.
  intros (Hp & Hb & Ht) E. simpl in *.
  destruct (committed p) as [|c cs] eqn:Hc.
  { unfold commit_one in E. rewrite peek_committed, Hc in E. done. }
  destruct (commit_one_cases _ _ _ _ _ _ _ Hp Hc E) as (m & Hm & -> & ->).
  set (sid := rs_session_id c) in *. split_and!; simpl; [|done|].
  - apply placed_set_thread; [done|by apply runner_lt|]. intros sid' l.
    destruct (decide (sid' = sid)) as [->|].
    + rewrite lookup_insert_eq. intros [= <-]. split; [done|]. unfold pending. rewrite Hm. simpl.
      destruct (m !! sid) eqn:El; simpl; [|by constructor]. by apply (pl_pending _ _ Hp _ _ _ _ Hm).
    + rewrite lookup_insert_ne by done. apply (pl_pending _ _ Hp _ _ _ _ Hm).
  - intros sid' Hs. eapply tracked_frame; [by apply Ht| |done..]. rewrite pending_set_thread.
    destruct (decide _) as [E'|]; [|done]. destruct (decide (sid' = sid)) as [->|].
    + by rewrite lookup_insert_eq.
    + rewrite lookup_insert_ne by done. unfold pending. by rewrite E', Hm.
Qed.

Lemma inv_done p h log sent ph : Inv T (mkSys p h log sent ph) → Inv T (mkSys p h log sent Idle).
Proof.
  intros (Hp & Hb & Ht). split_and!; simpl in *; try done. intros sid Hs.
  by eapply tracked_frame; [by apply Ht|done..].
Qed.

Lemma phase_runner p r k n todo h log sent :
  Inv T (mkSys p h log sent (Running n todo)) → todo !! r = Some (S k) → (r < runner_count p)%nat.
Proof.
  intros (Hp & [_ Hk] & _) Hr. simpl in *. rewrite <-(pl_count _ _ Hp).
  apply Hk in Hr. unfold queue_items in Hr.
  destruct (requests_queue p !! r) eqn:E; [by apply lookup_lt_Some in E|]. simpl in Hr. lia.
Qed.

Lemma inv_step s s' : Inv T s → step TIMEOUT isLocalSession T s s' → Inv T s'.
Proof.
  intros HI Hs. destruct Hs; eauto using inv_push, inv_raft, inv_report, inv_error, inv_start,
    inv_begin, inv_read, inv_forget, inv_join, inv_committed, inv_wait, inv_done.
  eapply inv_move; eauto using phase_runner.
Qed.

Lemma inv_steps s s' : Inv T s → steps TIMEOUT isLocalSession T s s' → Inv T s'.
Proof. intros HI Hs. induction Hs; eauto using inv_step. Qed.

Definition initial (n : nat) : Sys C := mkSys (Processor_new n) [] [] [] Idle.

Lemma lookup_threads n r :
  pending_requests (Processor_new (C := C) n) !! r = if decide (r < n)%nat then Some ∅ else None.
Proof.
  simpl. assert (NoDup ((λ i : nat, (i, ∅ : ThreadRequests)) <$> seq 0 n).*1) as Hnd.
  { rewrite <-list_fmap_compose. rewrite (list_fmap_ext _ id) by done. rewrite list_fmap_id. apply NoDup_seq. }
  case_decide as D.
  - apply elem_of_list_to_map; [done|]. apply list_elem_of_fmap. exists r. split; [done|]. apply elem_of_seq. lia.
  - apply not_elem_of_list_to_map. rewrite <-list_fmap_compose. intros Hr.
    apply list_elem_of_fmap in Hr as (i & -> & Hi). apply elem_of_seq in Hi. simpl in D. lia.
Qed.

Lemma initial_views n r sid :
  queue_items (Processor_new (C := C) n) r = [] ∧ pending (Processor_new (C := C) n) sid = [].
Proof.
  split.
  - unfold queue_items. simpl. destruct (RequestsQueue_new n 20000 !! r) as [q|] eqn:E; [|done].
    apply lookup_replicate in E as [-> _]. done.
  - unfold pending. rewrite lookup_threads. case_decide; simpl; [by rewrite lookup_empty|done].
Qed.

Lemma inv_initial n : (0 < n)%nat → Inv T (initial n).
Proof.
  intros Hn. split_and!; simpl; [|done|].
  - split; simpl; try done.
    + unfold RequestsQueue_new. by rewrite length_replicate.
    + split; [|done]. by apply Forall_replicate.
    + intros r Hr. pose proof (lookup_threads n r) as E. simpl in E. rewrite E, decide_True by done. by eexists.
    + intros r x. rewrite (proj1 (initial_views n r 0)). intros []%not_elem_of_nil.
    + intros r m sid l Hm. pose proof (lookup_threads n r) as E. simpl in E. rewrite E in Hm.
      case_decide; [|done]. injection Hm as <-. by rewrite lookup_empty.
    + intros key. rewrite lookup_empty. intros [? ?]. done.
  - intros sid _. destruct (initial_views n (getRunnerId (Processor_new (C := C) n) sid) sid) as [Eq Ep].
    split; simpl; try done.
    + unfold queued. by rewrite Eq, Ep.
Qed.
End Preservation.
