(* ===== verification/ProcessorRun.v ===== *)
(** * The main loop of the request processor as steps, and its progress

    [run_once] of RequestProcessor.v is a sequence of the steps of
    ProcessorOrder.v, so its states satisfy the invariant; and when nothing new
    arrives, a bounded number of turns applies every committed request and
    answers every read that no uncommitted write precedes. *)

From S2P Require Import Prelude Types RequestsQueue RequestProcessor ProcessorOrder.
From stdpp Require Import base gmap sets strings option list.
From Stdlib Require Import ZArith Lia.
Open Scope Z_scope.

Section Run.
Context {C : Type} (TIMEOUT : C) `{EqDecision C} (isLocalSession T : Z → bool).
Hypothesis T_local : ∀ sid, T sid = true → isLocalSession sid = true ∧ in_s 64 sid.
Implicit Types (p : Processor C) (s : Sys C).
Abbreviation Steps := (steps TIMEOUT isLocalSession T).
Abbreviation ErrorOne := (error_one TIMEOUT h_refuse isLocalSession).
Abbreviation CommitOne := (commit_one h_apply isLocalSession).

(** ** Errors *)

Lemma error_one_total now key e p (h : list event) :
  placed T p → ∃ p' h' b, ErrorOne now key e (p, h) = ((p', h'), Ret b) ∧
    ∀ k, k ≠ key → errors p' !! k = errors p !! k.
Proof.
  intros Hp. destruct key as [k1 k2]. unfold error_one.
  destruct (pl_thread _ _ Hp _ (runner_lt T p (s64 k1) Hp)) as [m ->].
  repeat case_match; do 3 eexists; (split; [done|]); intros k Hk; simpl; try done; by rewrite lookup_delete_ne.
Qed.

Lemma error_loop_steps now es p h log sent :
  Inv T (mkSys p h log sent Idle) → NoDup es.*1 → (∀ k e, (k, e) ∈ es → errors p !! k = Some e) →
  ∃ p' h', error_loop TIMEOUT h_refuse isLocalSession now es (p, h) = ((p', h'), Ret tt) ∧
    Steps (mkSys p h log sent Idle) (mkSys p' h' log sent Idle).
Proof.
  revert p h. induction es as [|[key e] es IH]; intros p h HI Hnd Hes; simpl in *.
  { exists p, h. split; [done|constructor]. }
  apply NoDup_cons in Hnd as [Hnin Hnd].
  destruct (error_one_total now key e p h (proj1 HI)) as (p' & h' & b & E & Hk).
  rewrite (bind_Ret _ _ _ _ _ E).
  assert (Steps (mkSys p h log sent Idle) (mkSys p' h' log sent Idle)) as S1.
  { eapply steps_one, step_error; [|done]. apply Hes. by left. }
  destruct b; [|by exists p', h'].
  destruct (IH p' h') as (p2 & h2 & E2 & S2).
  - by eapply (inv_steps TIMEOUT isLocalSession T T_local).
  - done.
  - intros k e' Hin. rewrite Hk; [apply Hes; by right|]. intros ->. destruct Hnin.
    apply list_elem_of_fmap. by exists (key, e').
  - exists p2, h2. split; [done|]. by eapply steps_trans.
Qed.

Lemma processError_steps now p h log sent :
  Inv T (mkSys p h log sent Idle) →
  ∃ p' h', processErrorRequest TIMEOUT h_refuse isLocalSession now (p, h) = ((p', h'), Ret tt) ∧
    Steps (mkSys p h log sent Idle) (mkSys p' h' log sent Idle).
Proof.
  intros HI. apply error_loop_steps; [done|apply NoDup_fst_map_to_list|].
  intros k e. by rewrite elem_of_map_to_list.
Qed.

(** ** The runners *)

(** What a runner leaves alone. *)
Record other_runners (r : nat) p p' : Prop := {
  or_errors : errors p' = errors p;
  or_committed : committed_queue p' = committed_queue p;
  or_count : runner_count p' = runner_count p;
  or_queue r' : r' ≠ r → queue_items p' r' = queue_items p r';
  or_pending r' : r' ≠ r → pending_requests p' !! r' = pending_requests p !! r'
}.

Lemma other_runners_refl r p : other_runners r p p.
Proof. by split. Qed.
Lemma other_runners_trans r p1 p2 p3 :
  other_runners r p1 p2 → other_runners r p2 p3 → other_runners r p1 p3.
Proof.
  intros [? ? ? Q P] [? ? ? Q' P']. split; try congruence; intros r' Hr'.
  - by rewrite Q', Q.
  - by rewrite P', P.
Qed.

Lemma set_thread_other r m p : other_runners r p (set_thread r m p).
Proof. split; try done. intros r' Hr'. simpl. by rewrite lookup_insert_ne. Qed.

Lemma set_thread_twice r m m' p : set_thread r m (set_thread r m' p) = set_thread r m p.
Proof. unfold set_thread. simpl. by rewrite insert_insert_eq. Qed.
Lemma set_thread_same r m p : pending_requests p !! r = Some m → set_thread r m p = p.
Proof. intros Hm. unfold set_thread. rewrite insert_id by done. by destruct p. Qed.

Lemma move_one_total r p (h : list event) :
  placed T p → (r < runner_count p)%nat →
  ∃ p', move_one r (p, h) = ((p', h), Ret tt) ∧ other_runners r p p' ∧
    queue_items p' r = tail (queue_items p r).
Proof.
  intros Hp Hr. destruct (pl_thread _ _ Hp r Hr) as [m Hm].
  destruct (pop_spec isLocalSession T T_local r p Hp Hr) as (qs & Hpop & Hl & Hf & Hq).
  assert (other_runners r p (set_requests qs p)) as Ho.
  { split; try done. intros r' Hr'. rewrite Hq. by rewrite decide_False. }
  unfold move_one. rewrite Hm, Hpop. pose proof (Hq r) as Hqr. rewrite decide_True in Hqr by done.
  destruct (queue_items p r) as [|x q] eqn:Hi; simpl in *.
  { exists p. split_and!; [done|apply other_runners_refl|done]. }
  destruct (decide _); eexists; (split_and!; [done| |done]); [done|].
  eapply other_runners_trans; [done|]. apply set_thread_other.
Qed.

Lemma move_loop_steps r k p h log sent n todo :
  Inv T (mkSys p h log sent (Running n todo)) → (r < runner_count p)%nat → todo !! r = Some k →
  ∃ p', repeat_st k (move_one r) (p, h) = ((p', h), Ret tt) ∧ other_runners r p p' ∧
    queue_items p' r = drop k (queue_items p r) ∧
    Steps (mkSys p h log sent (Running n todo)) (mkSys p' h log sent (Running n (<[r := O]> todo))).
Proof.
  revert p todo. induction k as [|k IH]; intros p todo HI Hr Hk; simpl.
  { exists p. split_and!; [done|apply other_runners_refl|done|]. rewrite insert_id by done. constructor. }
  destruct (move_one_total r p h (proj1 HI) Hr) as (p1 & E & Ho & Hq).
  rewrite (bind_Ret _ _ _ _ _ E).
  assert (step TIMEOUT isLocalSession T (mkSys p h log sent (Running n todo)) (mkSys p1 h log sent (Running n (<[r := k]> todo)))) as S1.
  { by econstructor. }
  destruct (IH p1 (<[r := k]> todo)) as (p2 & E2 & Ho2 & Hq2 & S2).
  - by eapply (inv_step TIMEOUT isLocalSession T T_local).
  - by rewrite (or_count _ _ _ Ho).
  - by rewrite lookup_insert_eq.
  - exists p2. split_and!; [done|by eapply other_runners_trans| |].
    + rewrite Hq2, Hq. destruct (queue_items p r); simpl; [by rewrite drop_nil|done].
    + rewrite insert_insert_eq in S2. eapply steps_trans; [by apply steps_one|done].
Qed.

Lemma rq_size_of_items r p :
  placed T p → (r < runner_count p)%nat →
  rq_size_of r (requests_queue p) = Some (Z.of_nat (length (queue_items p r))).
Proof.
  intros Hp Hr. rewrite <-(pl_count _ _ Hp) in Hr. apply lookup_lt_is_Some in Hr as [q Hq].
  unfold rq_size_of, queue_items. by rewrite Hq.
Qed.

Lemma move_steps r p h log sent n todo :
  Inv T (mkSys p h log sent (Running n todo)) → (r < runner_count p)%nat → todo !! r = None →
  ∃ p', moveRequestToPendingQueue r (p, h) = ((p', h), Ret tt) ∧ other_runners r p p' ∧
    queue_items p' r = [] ∧
    Steps (mkSys p h log sent (Running n todo)) (mkSys p' h log sent (Running n (<[r := O]> todo))).
Proof.
  intros HI Hr Hn. unfold moveRequestToPendingQueue.
  rewrite (bind_Ret _ _ _ _ _ (eq_refl : get (p, h) = _)). simpl.
  rewrite (rq_size_of_items r p (proj1 HI) Hr). rewrite Nat2Z.id.
  assert (step TIMEOUT isLocalSession T (mkSys p h log sent (Running n todo))
           (mkSys p h log sent (Running n (<[r := length (queue_items p r)]> todo)))) as S1 by (by constructor).
  destruct (move_loop_steps r (length (queue_items p r)) p h log sent n
              (<[r := length (queue_items p r)]> todo)) as (p2 & E2 & Ho2 & Hq2 & S2).
  - by eapply (inv_step TIMEOUT isLocalSession T T_local).
  - done.
  - by rewrite lookup_insert_eq.
  - exists p2. split_and!; [done|done|by rewrite Hq2, drop_all|].
    rewrite insert_insert_eq in S2. eapply steps_trans; [by apply steps_one|done].
Qed.

(** A list of pending requests whose head waits for its commit. *)
Definition write_head (l : RequestForSessions) : Prop :=
  ∃ x l', l = x :: l' ∧ rs_is_read x = false.

Lemma read_session_steps r sid l m p h log sent n todo :
  pending_requests p !! r = Some m → m !! sid = Some l →
  let l' := (read_session h_apply l h).1 in
  let h' := (read_session h_apply l h).2 in
  Steps (mkSys p h log sent (Running n todo))
        (mkSys (set_thread r (<[sid := l']> m) p) h' log sent (Running n todo)) ∧
  (l' = [] ∨ write_head l').
Proof.
  revert m p h. induction l as [|x l IH]; intros m p h Hm Hl; simpl.
  { rewrite (insert_id m), set_thread_same by done. split; [constructor|by left]. }
  destruct (rs_is_read x) eqn:Hx; simpl.
  - set (p1 := set_thread r (<[sid := l]> m) p).
    destruct (IH (<[sid := l]> m) p1 (h_apply x h)) as [S1 Hw].
    + unfold p1. simpl. by rewrite lookup_insert_eq.
    + by rewrite lookup_insert_eq.
    + split; [|done]. unfold p1 in S1. rewrite set_thread_twice, insert_insert_eq in S1.
      eapply steps_trans; [eapply steps_one, step_read|]; done.
  - rewrite (insert_id m), set_thread_same by done. split; [constructor|]. right. by exists x, l.
Qed.

Lemma read_loop_steps r ss m p h log sent n todo :
  pending_requests p !! r = Some m → NoDup ss.*1 → (∀ sid l, (sid, l) ∈ ss → m !! sid = Some l) →
  let m' := (read_loop h_apply ss m h).1 in
  let h' := (read_loop h_apply ss m h).2 in
  Steps (mkSys p h log sent (Running n todo)) (mkSys (set_thread r m' p) h' log sent (Running n todo)) ∧
  (∀ sid l, m' !! sid = Some l → write_head l ∨ ((sid ∉ ss.*1) ∧ m !! sid = Some l)).
Proof.
  revert m p h. induction ss as [|[sid l] ss IH]; intros m p h Hm Hnd Hss; simpl in *.
  { rewrite set_thread_same by done. split; [constructor|]. intros. right. split; [set_solver|done]. }
  apply NoDup_cons in Hnd as [Hnin Hnd].
  destruct (read_session_steps r sid l m p h log sent n todo Hm) as [S1 Hw]; [apply Hss; by left|].
  destruct (read_session h_apply l h) as [l1 h1]. simpl in *.
  set (p1 := set_thread r (set_session sid l1 m) p).
  assert (Steps (mkSys p h log sent (Running n todo)) (mkSys p1 h1 log sent (Running n todo))) as S1'.
  { unfold p1, set_session. case_bool_decide as D; [|done]. subst l1. eapply steps_trans; [done|].
    replace (set_thread r (delete sid m) p) with (set_thread r (delete sid (<[sid := []]> m)) (set_thread r (<[sid := []]> m) p)).
    - apply steps_one, step_forget; [|by rewrite lookup_insert_eq]. simpl. by rewrite lookup_insert_eq.
    - by rewrite set_thread_twice, delete_insert_eq. }
  destruct (IH (set_session sid l1 m) p1 h1) as [S2 Hm2].
  - unfold p1. simpl. by rewrite lookup_insert_eq.
  - done.
  - intros sid' l' Hin. rewrite set_session_ne; [apply Hss; by right|]. intros ->. destruct Hnin.
    apply list_elem_of_fmap. by exists (sid, l').
  - unfold p1 in S2. rewrite set_thread_twice in S2. split; [by eapply steps_trans|].
    intros sid' l' Hl'. destruct (Hm2 _ _ Hl') as [|[Hn' Hl2]]; [by left|].
    destruct (decide (sid' = sid)) as [->|].
    + rewrite set_session_eq in Hl2. case_decide; [done|]. simplify_eq. left. by destruct Hw.
    + right. rewrite set_session_ne in Hl2 by done. split; [set_solver|done].
Qed.

(** The pending requests of one runner after it read: every session waits for a commit. *)
Definition thread_waits (r : nat) p : Prop :=
  ∀ m sid l, pending_requests p !! r = Some m → m !! sid = Some l → write_head l.

Lemma read_steps r p h log sent n todo :
  is_Some (pending_requests p !! r) →
  ∃ p' h', processReadRequests h_apply r (p, h) = ((p', h'), Ret tt) ∧ other_runners r p p' ∧
    queue_items p' r = queue_items p r ∧ thread_waits r p' ∧
    Steps (mkSys p h log sent (Running n todo)) (mkSys p' h' log sent (Running n todo)).
Proof.
  intros [m Hm]. unfold processReadRequests. rewrite Hm.
  destruct (read_loop_steps r (map_to_list m) m p h log sent n todo Hm) as [S1 Hw].
  { apply NoDup_fst_map_to_list. }
  { intros sid l. by rewrite elem_of_map_to_list. }
  destruct (read_loop h_apply (map_to_list m) m h) as [m1 h1]. simpl in *.
  exists (set_thread r m1 p), h1. split_and!; [done|apply set_thread_other|done| |done].
  intros m' sid l Hm' Hl. simpl in Hm'. rewrite lookup_insert_eq in Hm'. simplify_eq.
  destruct (Hw _ _ Hl) as [|[Hn Hml]]; [done|]. destruct Hn.
  apply list_elem_of_fmap. exists (sid, l). split; [done|]. by apply elem_of_map_to_list.
Qed.

(** All runners below [i + k] have run, those below [i] before. *)
Lemma runners_steps k i p h log sent n todo :
  Inv T (mkSys p h log sent (Running n todo)) → (i + k = runner_count p)%nat →
  (∀ r, (r < i)%nat → todo !! r = Some O ∧ queue_items p r = [] ∧ thread_waits r p) →
  (∀ r, (i <= r)%nat → todo !! r = None) →
  ∃ p' h' todo', runners h_apply (seq i k) (p, h) = ((p', h'), Ret tt) ∧
    errors p' = errors p ∧ committed_queue p' = committed_queue p ∧ runner_count p' = runner_count p ∧
    (∀ r, (r < runner_count p)%nat → todo' !! r = Some O ∧ queue_items p' r = [] ∧ thread_waits r p') ∧
    Steps (mkSys p h log sent (Running n todo)) (mkSys p' h' log sent (Running n todo')).
Proof.
  revert i p h todo. induction k as [|k IH]; intros i p h todo HI Hk Hdone Htodo; simpl.
  { exists p, h, todo. split_and!; try done; [|constructor]. intros r Hr. apply Hdone. lia. }
  destruct (move_steps i p h log sent n todo HI) as (p1 & E1 & O1 & Q1 & S1); [lia|by apply Htodo|].
  rewrite (bind_Ret _ _ _ _ _ E1).
  pose proof (inv_steps TIMEOUT isLocalSession T T_local _ _ HI S1) as HI1.
  destruct (read_steps i p1 h log sent n (<[i := O]> todo)) as (p2 & h2 & E2 & O2 & Q2 & W2 & S2).
  { apply (pl_thread _ _ (proj1 HI1)). simpl. rewrite (or_count _ _ _ O1). lia. }
  rewrite (bind_Ret _ _ _ _ _ E2).
  pose proof (inv_steps TIMEOUT isLocalSession T T_local _ _ HI1 S2) as HI2.
  pose proof (other_runners_trans _ _ _ _ O1 O2) as [O3e O3c O3r O3q O3p].
  destruct (IH (S i) p2 h2 (<[i := O]> todo) HI2) as (p3 & h3 & todo3 & E3 & He & Hc & Hr & Hd & S3).
  - rewrite O3r. lia.
  - intros r Hr. destruct (decide (r = i)) as [->|].
    + rewrite lookup_insert_eq, Q2. by split_and!.
    + destruct (Hdone r) as (Ht & Hq & Hw); [lia|]. rewrite lookup_insert_ne, O3q by done. split_and!; try done.
      intros m sid l. rewrite O3p by done. apply Hw.
  - intros r Hr. rewrite lookup_insert_ne by lia. apply Htodo. lia.
  - exists p3, h3, todo3. split_and!; try done; try congruence.
    + intros r Hr'. apply Hd. congruence.
    + eapply steps_trans; [by eapply steps_trans|done].
Qed.

(** ** The commit loop *)

Definition all_wait p : Prop := ∀ r, (r < runner_count p)%nat → thread_waits r p.

Lemma judge_waiting c p :
  placed T p → errors p = ∅ → all_wait p → judge c (pending p (rs_session_id c)) p = Apply.
Proof.
  intros Hp He Hw. unfold pending.
  destruct (pl_thread _ _ Hp _ (runner_lt T p (rs_session_id c) Hp)) as [m Hm]. rewrite Hm. simpl.
  destruct (m !! rs_session_id c) as [l|] eqn:Hl; [|done]. simpl.
  destruct (Hw _ (runner_lt T p _ Hp) m _ l Hm Hl) as (x & l' & -> & Hx). simpl. rewrite Hx, He, lookup_empty.
  by repeat case_match.
Qed.

Lemma commit_one_total p (h : list event) :
  placed T p → ∃ p' h' b, CommitOne (p, h) = ((p', h'), Ret b) ∧
    errors p' = errors p ∧ requests_queue p' = requests_queue p ∧ runner_count p' = runner_count p ∧
    committed p' = (if b then tail (committed p) else committed p) ∧
    (errors p = ∅ → all_wait p → b = true).
Proof.
  intros Hp. unfold commit_one. rewrite peek_committed.
  destruct (committed p) as [|c cs] eqn:Hc; simpl; [by exists p, h, true|].
  destruct (pl_thread _ _ Hp _ (runner_lt T p (rs_session_id c) Hp)) as [m Hm]. rewrite Hm.
  assert (∀ m', committed (set_thread (getRunnerId p (rs_session_id c)) m'
                  (set_committed (bq_tryPop (committed_queue p)).1 p)) = cs) as Ec.
  { intros. pose proof (committed_pop p) as E. rewrite Hc in E. exact E. }
  assert (default [] (m !! rs_session_id c) = pending p (rs_session_id c)) as El by (unfold pending; by rewrite Hm).
  rewrite El. pose proof (judge_waiting c p Hp) as Hj.
  destruct (_ || _); [|destruct (judge _ _ _)]; do 3 eexists; (split_and!; [done..| |]); simpl; auto; naive_solver.
Qed.

Lemma commit_loop_steps n p h log sent :
  Inv T (mkSys p h log sent (Committing n)) →
  ∃ p' h', processCommittedRequest h_apply isLocalSession n (p, h) = ((p', h'), Ret tt) ∧
    Steps (mkSys p h log sent (Committing n)) (mkSys p' h' log sent Idle) ∧
    errors p' = errors p ∧ requests_queue p' = requests_queue p ∧ runner_count p' = runner_count p ∧
    (length (committed p') <= length (committed p))%nat ∧ (n = O → p' = p) ∧
    (errors p = ∅ → all_wait p → (0 < n)%nat → (length (committed p') < length (committed p))%nat).
Proof.
  revert p h. induction n as [|n IH]; intros p h HI; simpl.
  { exists p, h. split_and!; try done; [by apply steps_one, step_done|lia]. }
  destruct (commit_one_total p h (proj1 HI)) as (p1 & h1 & b & E1 & He & Hq & Hr & Hc & Hb).
  rewrite (bind_Ret _ _ _ _ _ E1). pose proof (proj1 (proj2 HI)) as Hn. simpl in Hn.
  destruct b.
  - assert (step TIMEOUT isLocalSession T (mkSys p h log sent (Committing (S n))) (mkSys p1 h1 log sent (Committing n))) as S1
      by (by constructor).
    destruct (IH p1 h1) as (p2 & h2 & E2 & S2 & He2 & Hq2 & Hr2 & Hl2 & _ & _).
    { by eapply (inv_step TIMEOUT isLocalSession T T_local). }
    assert (length (committed p1) < length (committed p))%nat as Hlt.
    { rewrite Hc. destruct (committed p); simpl in *; lia. }
    exists p2, h2. split_and!; try done; try congruence; try lia.
    eapply steps_trans; [by apply steps_one|done].
  - exists p1, h1. split_and!; try done; [by apply steps_one; econstructor|by rewrite Hc|].
    intros He0 Hw. by specialize (Hb He0 Hw).
Qed.

(** ** One turn *)

Abbreviation RunOnce := (run_once TIMEOUT h_apply h_refuse isLocalSession).

Lemma run_once_steps now p h log sent :
  Inv T (mkSys p h log sent Idle) →
  ∃ p' h', RunOnce now (p, h) = ((p', h'), Ret tt) ∧
    Steps (mkSys p h log sent Idle) (mkSys p' h' log sent Idle) ∧
    (errors p = ∅ → errors p' = ∅ ∧ (∀ r, queue_items p' r = []) ∧
       (committed p = [] → committed p' = [] ∧ all_wait p') ∧
       (committed p ≠ [] → (length (committed p') < length (committed p))%nat)).
Proof.
  intros HI. unfold run_once.
  destruct (processError_steps now p h log sent HI) as (p1 & h1 & E1 & S1). rewrite (bind_Ret _ _ _ _ _ E1).
  pose proof (inv_steps TIMEOUT isLocalSession T T_local _ _ HI S1) as HI1.
  rewrite (bind_Ret _ _ _ _ _ (eq_refl : get (p1, h1) = _)). simpl.
  set (n := length (committed p1)).
  assert (step TIMEOUT isLocalSession T (mkSys p1 h1 log sent Idle) (mkSys p1 h1 log sent (Running n ∅))) as S2 by constructor.
  pose proof (inv_step TIMEOUT isLocalSession T T_local _ _ HI1 S2) as HI2.
  destruct (runners_steps (runner_count p1) 0 p1 h1 log sent n ∅ HI2) as (p3 & h3 & todo & E3 & He & Hc & Hr & Hd & S3);
    [done|lia|by intros; rewrite lookup_empty|]. rewrite (bind_Ret _ _ _ _ _ E3).
  pose proof (inv_steps TIMEOUT isLocalSession T T_local _ _ HI2 S3) as HI3.
  assert (step TIMEOUT isLocalSession T (mkSys p3 h3 log sent (Running n todo)) (mkSys p3 h3 log sent (Committing n))) as S4.
  { constructor. intros r. rewrite Hr. intros Hlt. by apply Hd. }
  destruct (commit_loop_steps n p3 h3 log sent) as (p5 & h5 & E5 & S5 & He5 & Hq5 & Hr5 & Hl5 & H0 & Hlt).
  { by eapply (inv_step TIMEOUT isLocalSession T T_local). }
  assert (committed p3 = committed p1) as Hc3 by (unfold committed; by rewrite Hc).
  exists p5, h5. split_and!.
  - unfold bq_size. rewrite Nat2Z.id. exact E5.
  - eapply steps_trans; [exact S1|]. eapply steps_trans; [by apply steps_one|].
    eapply steps_trans; [exact S3|]. eapply steps_trans; [by apply steps_one|done].
  - intros Hp0. assert (p1 = p) as ->.
    { unfold processErrorRequest in E1. rewrite (bind_Ret _ _ _ _ _ (eq_refl : get (p, h) = _)) in E1.
      simpl in E1. rewrite Hp0, map_to_list_empty in E1. simpl in E1. by injection E1. }
    assert (all_wait p3) as Hw by (intros r Hr'; apply Hd; congruence).
    split_and!; [congruence| | |].
    + intros r. transitivity (queue_items p3 r); [unfold queue_items; by rewrite Hq5|].
      destruct (decide (r < runner_count p)%nat) as [Hlt'|Hge]; [by apply Hd|].
      unfold queue_items. rewrite lookup_ge_None_2; [done|]. pose proof (pl_count _ _ (proj1 HI3)) as Hpc. simpl in Hpc. rewrite Hpc. lia.
    + intros Hc0. unfold n in H0. rewrite Hc0 in H0. rewrite (H0 eq_refl). by rewrite Hc3.
    + intros Hne. rewrite <-Hc3. apply Hlt; [congruence|done|]. unfold n.
      destruct (committed p); [done|simpl; lia].
Qed.

(** ** Turns without new input *)

Abbreviation RunTurns := (run_turns TIMEOUT h_apply h_refuse isLocalSession).

Lemma run_turns_steps nows p h log sent :
  Inv T (mkSys p h log sent Idle) →
  ∃ p' h', RunTurns nows (p, h) = ((p', h'), Ret tt) ∧
    Steps (mkSys p h log sent Idle) (mkSys p' h' log sent Idle) ∧
    (errors p = ∅ → (length (committed p) < length nows)%nat →
       errors p' = ∅ ∧ committed p' = [] ∧ (∀ r, queue_items p' r = []) ∧ all_wait p').
Proof.
  revert p h. induction nows as [|now nows IH]; intros p h HI; simpl.
  { exists p, h. split_and!; [done|constructor|lia]. }
  destruct (run_once_steps now p h log sent HI) as (p1 & h1 & E1 & S1 & H1). rewrite (bind_Ret _ _ _ _ _ E1).
  pose proof (inv_steps TIMEOUT isLocalSession T T_local _ _ HI S1) as HI1.
  destruct (IH p1 h1 HI1) as (p2 & h2 & E2 & S2 & H2).
  exists p2, h2. split_and!; [done|by eapply steps_trans|]. intros He Hlen.
  destruct (H1 He) as (He1 & Hq1 & Hnil & Hlt).
  destruct (decide (committed p = [])) as [Hc|Hc]; [|specialize (Hlt Hc); apply H2; [done|lia]].
  destruct (Hnil Hc) as [Hc1 Hw1]. destruct nows as [|now' nows]; [|apply H2; [done|rewrite Hc1; simpl; lia]].
  simpl in E2. injection E2 as <- <-. done.
Qed.

(** When the processor has been told the commits of all writes of a session and
    nothing new arrives, enough turns handle every request the session sent. *)
Lemma run_turns_handle nows p h log sent sid :
  Inv T (mkSys p h log sent Idle) → errors p = ∅ → (length (committed p) < length nows)%nat →
  T sid = true → of_session sid log = writes (of_session sid sent) →
  ∃ p' h', RunTurns nows (p, h) = ((p', h'), Ret tt) ∧ handled_of h' sid = of_session sid sent ∧
    Steps (mkSys p h log sent Idle) (mkSys p' h' log sent Idle).
Proof.
  intros HI He Hlen Hs Hall.
  destruct (run_turns_steps nows p h log sent HI) as (p1 & h1 & E1 & S1 & H1).
  destruct (H1 He Hlen) as (He1 & Hc1 & Hq1 & Hw1). exists p1, h1. split_and!; [done| |done].
  pose proof (inv_steps TIMEOUT isLocalSession T T_local _ _ HI S1) as (Hp1 & _ & Ht1). simpl in *.
  destruct (Ht1 sid Hs) as [Ho _ Hl _ _ _ _]. unfold queued in Ho.
  rewrite Hq1, filter_nil, app_nil_r in Ho. rewrite Hc1, filter_nil, app_nil_r, Hall, Ho, filter_app in Hl.
  assert (writes (pending p1 sid) = []) as Hnil.
  { apply (app_inv_head (writes (handled_of h1 sid))). by rewrite app_nil_r. }
  rewrite Ho. unfold pending in *.
  destruct (pl_thread _ _ Hp1 _ (runner_lt T p1 sid Hp1)) as [m Hm]. rewrite Hm in *. simpl in *.
  destruct (m !! sid) as [l|] eqn:El; simpl in *; [|by rewrite app_nil_r].
  destruct (Hw1 _ (runner_lt T p1 sid Hp1) m sid l Hm El) as (x & l' & -> & Hx).
  by rewrite filter_cons_True in Hnil by done.
Qed.
End Run.
