(* ===== verification/Pipeline.v ===== *)
(** * The pipeline over the store: applyRequest of src/Service/RequestProcessor.cpp

    The request processor of RequestProcessor.v acts on the store and on the
    response queue. The last section carries the order and progress of histories
    (ProcessorOrder.v, ProcessorRun.v) over to this world: the processor is
    natural in the world its requests act on. *)

From S2P Require Import Prelude Types ACLMap SessionExpiryQueue KeeperPaths KeeperNode KeeperStore StoreTree StoreInv StoreRequest StoreResponse RequestsQueue RequestProcessor ProcessorOrder ProcessorRun.
From stdpp Require Import base gmap sets strings option list.
From Stdlib Require Import ZArith Lia.
Open Scope Z_scope.

(** ** The world *)

(** The store, the response queue and the number of requests handled so far,
    at which the clock and the Raft server are consulted. *)
Record World : Type := mkWorld {
  w_store : KeeperStore;
  w_responses : list ResponseForSession;
  w_turn : nat;
  w_crashed : bool
}.

(** The error answer the processor makes for a request. *)
Definition refusal (x : RequestForSession) (e : Error) : ResponseForSession :=
  (rs_session_id x,
   set_error e (set_header (rs_xid x) 0 (set_time (rs_create_time x) (makeResponse (rs_request x))))).

Definition refuse_request (x : RequestForSession) (e : Error) (w : World) : World :=
  mkWorld (w_store w) (w_responses w ++ [refusal x e]) (S (w_turn w)) (w_crashed w).

Section Apply.
Context (getSHA1 base64Encode : string → string).
Context (clock : nat → Z) (isLeaderAlive : nat → bool).

(** [applyRequest]: an exception is logged and swallowed, what the request had
    done by then stays. *)
Definition applyRequest (x : RequestForSession) (w : World) : World :=
  if negb (isLeaderAlive (w_turn w)) && rs_is_read x then refuse_request x ZCONNECTIONLOSS w
  else
    let '((s, q), o) :=
      processRequest getSHA1 base64Encode (clock (w_turn w)) (rs_request x) (rs_session_id x)
        (rs_create_time x) None true false (w_store w, w_responses w) in
    mkWorld s q (S (w_turn w)) (w_crashed w || match o with Crash => true | _ => false end).

(** What a history of the processor does to the world. *)
Definition do_event (w : World) (e : event) : World :=
  match e with Applied x => applyRequest x w | Refused x err => refuse_request x err w end.
Definition replay (h : list event) (w : World) : World := foldl do_event w h.
End Apply.

(** ** The processor is natural in its world *)

Section Natural.
Context {C : Type} (TIMEOUT : C) `{EqDecision C} (isLocalSession : Z → bool).
Context {W1 W2 : Type} (f : W1 → W2).
Context (apply1 : RequestForSession → W1 → W1) (refuse1 : RequestForSession → Error → W1 → W1).
Context (apply2 : RequestForSession → W2 → W2) (refuse2 : RequestForSession → Error → W2 → W2).
Hypothesis f_apply : ∀ x w, f (apply1 x w) = apply2 x (f w).
Hypothesis f_refuse : ∀ x e w, f (refuse1 x e w) = refuse2 x e (f w).
Implicit Types p : Processor C.

Definition natural {A} (m1 : ST (Processor C * W1) exn A) (m2 : ST (Processor C * W2) exn A) : Prop :=
  ∀ p w, m2 (p, f w) = (((m1 (p, w)).1.1, f (m1 (p, w)).1.2), (m1 (p, w)).2).

Lemma natural_bind {A B} m1 m2 (k1 : A → ST (Processor C * W1) exn B) k2 :
  natural m1 m2 → (∀ a, natural (k1 a) (k2 a)) → natural (m1 ≫= k1) (m2 ≫= k2).
Proof.
  intros Hm Hk p w. unfold mbind, ST_bind. rewrite Hm.
  destruct (m1 (p, w)) as [[p1 w1] [a|e|]]; simpl; [apply Hk|done|done].
Qed.

Lemma natural_get {B} (k1 : Processor C * W1 → ST (Processor C * W1) exn B) k2 :
  (∀ p w, natural (k1 (p, w)) (k2 (p, f w))) → natural (get ≫= k1) (get ≫= k2).
Proof. intros Hk p w. unfold mbind, ST_bind, get. apply Hk. Qed.

Lemma natural_ret {A} (a : A) : natural (mret a) (mret a).
Proof. by intros p w. Qed.

Lemma natural_move r : natural (move_one r) (move_one r).
Proof. intros p w. unfold move_one. by repeat case_match. Qed.

Lemma natural_repeat n m1 m2 : natural m1 m2 → natural (repeat_st n m1) (repeat_st n m2).
Proof.
  intros Hm. induction n as [|n IH]; simpl; [apply natural_ret|]. by apply natural_bind.
Qed.

Lemma natural_session l w :
  read_session apply2 l (f w) = ((read_session apply1 l w).1, f (read_session apply1 l w).2).
Proof.
  revert w. induction l as [|x l IH]; intros w; simpl; [done|]. case_match; [|done].
  by rewrite <-f_apply, IH.
Qed.

Lemma natural_read_loop ss m w :
  read_loop apply2 ss m (f w) = ((read_loop apply1 ss m w).1, f (read_loop apply1 ss m w).2).
Proof.
  revert m w. induction ss as [|[sid l] ss IH]; intros m w; simpl; [done|].
  rewrite natural_session. destruct (read_session apply1 l w) as [l1 w1]. simpl. apply IH.
Qed.

Lemma natural_read r : natural (processReadRequests apply1 r) (processReadRequests apply2 r).
Proof.
  intros p w. unfold processReadRequests. destruct (pending_requests p !! r) as [m|]; [|done].
  rewrite natural_read_loop. by destruct (read_loop apply1 (map_to_list m) m w).
Qed.

Lemma natural_commit_one :
  natural (commit_one apply1 isLocalSession) (commit_one apply2 isLocalSession).
Proof.
  intros p w. unfold commit_one, apply_committed. repeat case_match; simpl; by rewrite ?f_apply.
Qed.

Lemma natural_committed n :
  natural (processCommittedRequest apply1 isLocalSession n) (processCommittedRequest apply2 isLocalSession n).
Proof.
  induction n as [|n IH]; simpl; [apply natural_ret|]. apply natural_bind; [apply natural_commit_one|].
  intros []; [done|apply natural_ret].
Qed.

Lemma natural_error_loop now es :
  natural (error_loop TIMEOUT refuse1 isLocalSession now es) (error_loop TIMEOUT refuse2 isLocalSession now es).
Proof.
  induction es as [|[key e] es IH]; simpl; [apply natural_ret|]. apply natural_bind.
  - intros p w. unfold error_one. repeat case_match; simplify_eq; simpl; by rewrite ?f_refuse.
  - intros []; [done|apply natural_ret].
Qed.

Lemma natural_runners rs : natural (runners apply1 rs) (runners apply2 rs).
Proof.
  induction rs as [|r rs IH]; simpl; [apply natural_ret|]. repeat apply natural_bind; [|intros _..].
  - apply natural_get. intros p w. simpl. case_match; [apply natural_repeat, natural_move|by intros ? ?].
  - apply natural_bind; [apply natural_read|by intros _].
Qed.

Lemma natural_run_once now :
  natural (run_once TIMEOUT apply1 refuse1 isLocalSession now) (run_once TIMEOUT apply2 refuse2 isLocalSession now).
Proof.
  apply natural_bind; [apply natural_get; intros; apply natural_error_loop|intros _].
  apply natural_get. intros p w. simpl. apply natural_bind; [apply natural_runners|intros _].
  apply natural_committed.
Qed.

Lemma natural_run_turns nows :
  natural (run_turns TIMEOUT apply1 refuse1 isLocalSession nows)
          (run_turns TIMEOUT apply2 refuse2 isLocalSession nows).
Proof.
  induction nows as [|now nows IH]; simpl; [apply natural_ret|].
  apply natural_bind; [apply natural_run_once|done].
Qed.
End Natural.

(** ** At most one answer per request *)

(** [m] pushes nothing but watch events. *)
Definition only_events {A} (m : STQ A) : Prop :=
  ∀ s q s' q' o, m (s, q) = ((s', q'), o) → ∃ evs, q' = q ++ evs ∧ events evs.

(** [m] pushes watch events and then at most one answer to [r]. *)
Definition one_answer (r : ZooKeeperRequest) (sid : Z) (m : STQ unit) : Prop :=
  ∀ s q s' q' o, m (s, q) = ((s', q'), o) → ∃ evs ans, q' = q ++ evs ++ ans ∧ events evs ∧
    (ans = [] ∨ ∃ resp, ans = [(sid, resp)] ∧ resp_xid resp = req_xid r).

Lemma quiet_only_events {A} (m : STQ A) : quiet m → only_events m.
Proof. intros Hm s q s' q' o E. by destruct (Hm _ _ _ _ _ E). Qed.

Lemma only_events_same {A} (m : STQ A) :
  (∀ s q s' q' o, m (s, q) = ((s', q'), o) → q' = q) → only_events m.
Proof. intros H s q s' q' o E. exists []. by rewrite (H _ _ _ _ _ E), app_nil_r. Qed.

Lemma only_events_store {A} (m : STS A) : only_events (on_store m).
Proof. apply only_events_same. intros s q s' q' o. unfold on_store. destruct (m s). by intros [= <- <- <-]. Qed.

Lemma only_events_lift {A} (o : outcome exn A) : only_events (lift o).
Proof. apply only_events_same. by intros ? ? ? ? ? [= <- <- <-]. Qed.

Lemma only_events_factory r : only_events (factory_get r).
Proof.
  apply only_events_same. intros s q s' q' o.
  destruct (factory_get_cases (S := KeeperStore * Queue) r) as [[e ->]|[-> _]]; by intros [= <- <- <-].
Qed.

Lemma only_events_fmap {A B} (g : A → B) (m : STQ A) : only_events m → only_events (g <$> m).
Proof.
  intros Hm s q s' q' o. unfold fmap, ST_fmap. destruct (m (s, q)) as [[s1 q1] o1] eqn:E.
  destruct (Hm _ _ _ _ _ E) as (evs & -> & Hev). destruct o1; intros [= <- <- <-]; eauto.
Qed.

Create HintDb answers discriminated.
#[export] Hint Resolve @quiet_only_events @only_events_store @only_events_lift only_events_factory
  @only_events_fmap : answers.
#[export] Hint Extern 1 (only_events get_store) => apply only_events_store : answers.
#[export] Hint Extern 1 (only_events (mret _)) => apply only_events_lift : answers.

Lemma one_answer_bind {A} r sid (m : STQ A) (k : A → STQ unit) :
  only_events m → (∀ a, one_answer r sid (k a)) → one_answer r sid (m ≫= k).
Proof.
  intros Hm Hk s q s' q' o. unfold mbind, ST_bind. destruct (m (s, q)) as [[s1 q1] o1] eqn:E.
  destruct (Hm _ _ _ _ _ E) as (evs & -> & Hev). destruct o1 as [a|e|].
  - intros E2. destruct (Hk a _ _ _ _ _ E2) as (evs' & ans & -> & Hev' & Ha).
    exists (evs ++ evs'), ans. rewrite <-!app_assoc, Forall_app. eauto.
  - intros [= <- <- <-]. exists evs, []. rewrite app_nil_r. eauto.
  - intros [= <- <- <-]. exists evs, []. rewrite app_nil_r. eauto.
Qed.

Lemma one_answer_push r sid resp :
  resp_xid resp = req_xid r → one_answer r sid (set_response [(sid, resp)] false).
Proof. intros Hx s q s' q' o [= <- <- <-]. exists [], [(sid, resp)]. split_and!; eauto. Qed.

Lemma one_answer_none r sid : one_answer r sid (mret tt).
Proof. intros s q s' q' o [= <- <- <-]. exists [], []. rewrite !app_nil_r. eauto. Qed.

Lemma set_header_xid xid zx resp : resp_xid (set_header xid zx resp) = xid.
Proof. by destruct resp. Qed.

Ltac answer :=
  repeat first
    [ solve [eauto with answers quiet]
    | lazymatch goal with
      | |- one_answer _ _ (_ ≫= _) => apply one_answer_bind; [|intros ?]
      | |- one_answer _ _ (set_response _ _) => apply one_answer_push, set_header_xid
      | |- one_answer _ _ (mret _) => apply one_answer_none
      | |- one_answer _ _ (let '(_, _) := ?a in _) => destruct a
      | |- only_events (if ?b then _ else _) => destruct b
      | |- only_events _ => apply quiet_only_events; hush
      end ].

Section OneAnswer.
Context (getSHA1 base64Encode : string → string).

Lemma finish_read_answers r resp sid :
  resp_xid resp = req_xid r → one_answer r sid (finish_read r resp sid false).
Proof. intros Hx. unfold finish_read. apply one_answer_bind; [|intros _; by apply one_answer_push]. answer. Qed.

Lemma finish_write_answers r resp sid :
  resp_xid resp = req_xid r → one_answer r sid (finish_write r resp sid false).
Proof.
  intros Hx. unfold finish_write. apply one_answer_bind; [answer|]. intros s.
  apply one_answer_bind; [|intros _; by apply one_answer_push].
  pose proof (processWatches_events r (watches s) (list_watches s)) as Hev.
  destruct (processWatches r (watches s) (list_watches s)) as [[rs ws] lws]. simpl in Hev.
  apply quiet_only_events. destruct (_ && _); hush. by apply quiet_push.
Qed.

Lemma processRequest_one_answer now r sid time z ca :
  one_answer r sid (processRequest getSHA1 base64Encode now r sid time z ca false).
Proof.
  assert (one_answer r sid (process_heartbeat_request getSHA1 base64Encode r sid time false)) as H1
    by (unfold process_heartbeat_request; answer).
  assert (one_answer r sid (process_setwatches_request getSHA1 base64Encode r sid time false)) as H2
    by (unfold process_setwatches_request; answer).
  assert (one_answer r sid (process_close r sid z false)) as H3
    by (unfold process_close; answer).
  assert (one_answer r sid (process_other_request getSHA1 base64Encode r sid time z ca false)) as H4.
  { unfold process_other_request. answer. destruct (isReadRequest r).
    - apply finish_read_answers, set_header_xid.
    - apply finish_write_answers, set_header_xid. }
  unfold processRequest. apply one_answer_bind; [answer|]. intros _.
  destruct (getOpNum r); try done; (apply one_answer_bind; [answer|]); intros []; simpl; done || apply one_answer_none.
Qed.
End OneAnswer.

(** ** Answers of a history *)

(** The xids of the answers to a session, without the watch events. *)
Definition answers_of (sid : Z) (q : list ResponseForSession) : list Z :=
  filter (λ xid, xid ≠ WATCH_XID) ((λ x : ResponseForSession, resp_xid x.2) <$> filter (λ x, x.1 = sid) q).

Lemma answers_of_app sid q q' : answers_of sid (q ++ q') = answers_of sid q ++ answers_of sid q'.
Proof. unfold answers_of. by rewrite filter_app, fmap_app, filter_app. Qed.

Lemma answers_of_events sid evs : events evs → answers_of sid evs = [].
Proof.
  rewrite Forall_forall. intros Hev. apply filter_none, Forall_forall.
  intros xid (x & -> & Hx)%list_elem_of_fmap. apply list_elem_of_filter in Hx as [_ Hx].
  destruct (Hev x Hx) as (p & ev & E). rewrite E. intros Hn. by destruct Hn.
Qed.

(** The xids of the requests of a list that a client can tell from events. *)
Abbreviation xids l := (filter (λ xid, xid ≠ WATCH_XID) (rs_xid <$> (l : list RequestForSession))).

Lemma answers_of_one sid k resp x :
  k = rs_session_id x → resp_xid resp = rs_xid x → answers_of sid [(k, resp)] = xids (of_session sid [x]).
Proof.
  intros -> Hx. unfold answers_of. rewrite of_session_one, filter_cons. simpl.
  destruct (decide (rs_session_id x = sid)), (decide (sid = rs_session_id x)); try congruence; simpl;
    rewrite ?filter_nil; [|done]. simpl. by rewrite Hx.
Qed.

Section Replay.
Context (getSHA1 base64Encode : string → string) (clock : nat → Z) (isLeaderAlive : nat → bool).
Abbreviation Apply := (applyRequest getSHA1 base64Encode clock isLeaderAlive).
Abbreviation Replay := (replay getSHA1 base64Encode clock isLeaderAlive).
Abbreviation DoEvent := (do_event getSHA1 base64Encode clock isLeaderAlive).

Lemma refuse_answers sid x e w :
  answers_of sid (w_responses (refuse_request x e w)) =
    answers_of sid (w_responses w) ++ xids (of_session sid [x]).
Proof.
  simpl. rewrite answers_of_app. f_equal. apply answers_of_one; [done|].
  unfold refusal, rs_xid. by destruct (makeResponse (rs_request x)).
Qed.

Lemma do_event_answers sid w e :
  answers_of sid (w_responses (DoEvent w e)) `sublist_of`
    answers_of sid (w_responses w) ++ xids (of_session sid [event_request e]).
Proof.
  destruct e as [x|x err]; unfold do_event, event_request; [|by rewrite refuse_answers]. unfold applyRequest.
  destruct (_ && _); [by rewrite refuse_answers|].
  destruct (processRequest _ _ _ _ _ _ _ _ _ _) as [[s q] o] eqn:E. simpl.
  apply processRequest_one_answer in E as (evs & ans & -> & Hev & Ha).
  rewrite !answers_of_app, (answers_of_events sid evs) by done. simpl.
  apply sublist_app; [done|]. destruct Ha as [->|(resp & -> & Hx)].
  - unfold answers_of. simpl. apply sublist_nil_l.
  - by rewrite (answers_of_one sid _ resp x).
Qed.

Lemma replay_answers sid h w :
  answers_of sid (w_responses (Replay h w)) `sublist_of`
    answers_of sid (w_responses w) ++ xids (handled_of h sid).
Proof.
  induction h as [|e h IH] using rev_ind; [by rewrite app_nil_r|].
  unfold replay. rewrite foldl_app. simpl. etrans; [apply do_event_answers|].
  rewrite handled_of_snoc, fmap_app, filter_app, (assoc_L (++)). by apply sublist_app.
Qed.

Lemma replay_apply w0 x h : Replay (h_apply x h) w0 = Apply x (Replay h w0).
Proof. unfold replay, h_apply. by rewrite foldl_app. Qed.
Lemma replay_refuse w0 x e h : Replay (h_refuse x e h) w0 = refuse_request x e (Replay h w0).
Proof. unfold replay, h_refuse. by rewrite foldl_app. Qed.
End Replay.
