(* ===== verification/PipelineProps.v ===== *)
(** * Properties of the request pipeline

    What a client can rely on of src/Service/RequestProcessor.cpp: order,
    answers, progress, and the error paths. *)

From S2P Require Import Prelude Types ACLMap SessionExpiryQueue KeeperPaths KeeperNode KeeperStore StoreTree StoreInv StoreRequest StoreResponse RequestsQueue RequestProcessor ProcessorOrder ProcessorRun Pipeline.
From stdpp Require Import base gmap sets strings option list.
From Stdlib Require Import ZArith Lia.
Open Scope Z_scope.

(** ** A small run, for the witnesses

    A processor with two runners; session 1 creates a node, reads it, writes it
    and reads it again; its two writes are committed, nothing is applied yet. *)

Lemma distinct_xids_NoDup l : NoDup (rs_xid <$> l) → distinct_xids l.
Proof.
  intros Hnd i j x y Hx Hy Hij _ E. apply Hij. eapply NoDup_lookup; [done|by rewrite list_lookup_fmap, Hx|].
  by rewrite list_lookup_fmap, Hy, E.
Qed.

Module PipelineDemo.
Definition local (sid : Z) : bool := sid =? 1.
Definition req (xid : Z) (b : RequestBody) : RequestForSession := mkRFS 1 (mkRequest xid false b) 1000 (-1) (-1).
Definition r1 := req 1 (CreateRequest "/a" "x" false false []).
Definition r2 := req 2 (GetRequest "/a").
Definition r3 := req 3 (SetRequest "/a" "y" (-1)).
Definition r4 := req 4 (GetRequest "/a").
Definition sent := [r1; r2; r3; r4].

Definition p0 : Processor nat := Processor_new 2.
Definition pushed (x : RequestForSession) (p : Processor nat) : Processor nat := default p (push x p).
Definition committing (x : RequestForSession) (p : Processor nat) : Processor nat := default p (commit x p).
Definition p1 : Processor nat := pushed r4 (pushed r3 (pushed r2 (pushed r1 p0))).
Definition p2 : Processor nat := committing r3 (committing r1 p1).
Definition state : Sys nat := mkSys p2 [] [r1; r3] sent Idle.

Definition w0 : World :=
  mkWorld (getSessionID 1000 30000 (KeeperStore_new 500 "")).1 [] 0 false.
Definition sha (s : string) : string := s.
Definition clock (n : nat) : Z := 1000.
Definition alive (n : nat) : bool := true.

Lemma local_ok sid : local sid = true → local sid = true ∧ in_s 64 sid.
Proof. unfold local. intros H. split; [done|]. apply Z.eqb_eq in H as ->. unfold in_s. lia. Qed.

Lemma push_step x p p' l :
  push x p = Some p' → rs_session_id x = 1 → rs_opnum x ≠ Op_Auth → NoDup (rs_xid <$> of_session 1 (l ++ [x])) →
  step O local local (mkSys p [] [] l Idle) (mkSys p' [] [] (l ++ [x]) Idle).
Proof.
  intros E Hs Ho Hn. constructor; [done|]. intros _. split; [done|]. rewrite Hs. by apply distinct_xids_NoDup.
Qed.

Lemma state_steps : steps O local local (initial 2) state.
Proof.
  assert (∀ s1 s2 s3, step O local local s1 s2 → steps O local local s2 s3 → steps O local local s1 s3) as Hn.
  { intros s1 s2 s3 H1 H2. eapply steps_trans; [by apply steps_one|done]. }
  eapply Hn; [eapply push_step with (x := r1); [reflexivity|done..|by apply (bool_decide_unpack _)]|].
  eapply Hn; [eapply push_step with (x := r2); [reflexivity|done..|by apply (bool_decide_unpack _)]|].
  eapply Hn; [eapply push_step with (x := r3); [reflexivity|done..|by apply (bool_decide_unpack _)]|].
  eapply Hn; [eapply push_step with (x := r4); [reflexivity|done..|by apply (bool_decide_unpack _)]|].
  eapply Hn; [eapply step_raft with (c := r1); [reflexivity|]; intros _; by exists [r3]|].
  eapply Hn; [eapply step_raft with (c := r3); [reflexivity|]; intros _; by exists []|].
  constructor.
Qed.

(** After three turns of the main loop. *)
Definition final := run_turns O h_apply h_refuse local [0; 0; 0] (p2, []).
Definition served : Sys nat := mkSys final.1.1 final.1.2 [r1; r3] sent Idle.

Lemma served_steps : steps O local local (initial 2) served.
Proof.
  eapply steps_trans; [exact state_steps|].
  destruct (run_turns_steps O local local local_ok [0; 0; 0] p2 [] [r1; r3] sent) as (p' & h' & E & Hs & _).
  - eapply inv_steps; [exact local_ok|apply (inv_initial local 2); lia|exact state_steps].
  - unfold served, final. by rewrite E.
Qed.
End PipelineDemo.

(** ** Order *)





(** ** Progress *)



(** ** Errors and shutdown *)


Definition failed : Processor nat :=
  onError true 1%nat 1 1 Op_Create (set_thread 1 {[1 := [PipelineDemo.r1; PipelineDemo.r3]]} PipelineDemo.p0).


Lemma drain_spec {C W : Type} (refuse : RequestForSession → Error → W → W) fuel (p : Processor C) w :
  (length (in_queues (requests_queue p)) <= fuel)%nat →
  ∃ qs, drain refuse fuel (p, w) =
      ((set_requests qs p, foldl (λ w x, refuse x ZSESSIONEXPIRED w) w (in_queues (requests_queue p))), Ret tt) ∧
    in_queues qs = [].
Proof.
  revert p w. induction fuel as [|fuel IH]; intros p w Hf; simpl.
  { exists (requests_queue p). destruct (in_queues (requests_queue p)) eqn:E; simpl in *; [|lia].
    split; [by destruct p|done]. }
  pose proof (rq_tryPopAny_spec (requests_queue p)) as Hp.
  destruct (in_queues (requests_queue p)) as [|x l] eqn:E.
  - rewrite Hp. exists (requests_queue p). split; [by destruct p|done].
  - destruct Hp as (qs & -> & Hl). destruct (IH (set_requests qs p) (refuse x ZSESSIONEXPIRED w)) as (qs' & E' & Hq).
    + simpl in *. rewrite Hl. lia.
    + exists qs'. split; [|done]. simpl in *. by rewrite E', Hl.
Qed.

(** Shutting the processor down answers every request that no runner has
    taken with a session-expired error, exactly once and queue by queue, and
    leaves the queues empty; a second call does nothing. *)
Theorem shutdown_answers_queued {C : Type} (p : Processor C) (w : World) :
  shutdown_called p = false →
  ∃ p', shutdown refuse_request (p, w) =
      ((p', foldl (λ w x, refuse_request x ZSESSIONEXPIRED w) w (in_queues (requests_queue p))), Ret tt) ∧
    in_queues (requests_queue p') = [] ∧
    ∀ w', shutdown refuse_request (p', w') = ((p', w'), Ret tt).
Proof.
  intros Hs. unfold shutdown. rewrite (bind_Ret _ _ _ _ _ (eq_refl : get (p, w) = _)). simpl. rewrite Hs.
  rewrite (bind_Ret (modify _) _ (p, w) (set_shutdown p, w) tt) by done.
  destruct (drain_spec refuse_request (Z.to_nat (rq_size (requests_queue p))) (set_shutdown p) w) as (qs & E & Hq).
  { rewrite rq_size_in_queues. simpl. lia. }
  eexists. split; [exact E|]. split; [done|]. intros w'. done.
Qed.
