(* ===== verification/PipelineFindings.v ===== *)
(** * Two ways the request pipeline loses a request

    Runs of the request processor (src/Service/RequestProcessor.cpp) after which
    a request of a connected session is neither answered nor pending any more.
    Both are outside the assumptions of the order theorem of PipelineProps.v. *)

From S2P Require Import Prelude Types KeeperStore RequestsQueue RequestProcessor ProcessorOrder PipelineProps.
From stdpp Require Import base gmap sets strings option list.
From Stdlib Require Import ZArith Lia.
Open Scope Z_scope.

(** The requests handled and those left of session 1 after some turns. *)
Definition outcome_of (x : (Processor nat * list event) * outcome exn unit) : list Z * list Z :=
  (rs_xid <$> handled_of x.1.2 1, rs_xid <$> pending x.1.1 1 ++ queued x.1.1 1).

Definition turns (p : Processor nat) : (Processor nat * list event) * outcome exn unit :=
  run_turns O h_apply h_refuse PipelineDemo.local [0; 0; 0; 0; 0; 0] (p, []).

(** Session 1 sends a write, a read and credentials, and the commits of the
    write and of the credentials are reported in that order: the read is
    forgotten. *)
Definition auth := mkRFS 1 (mkRequest AUTH_XID false (AuthRequest 0 "digest" "u:p")) 1000 (-1) (-1).

Example auth_forgets_requests :
  let p := fold_left (λ p x, PipelineDemo.pushed x p)
             [PipelineDemo.r1; PipelineDemo.r2; auth] PipelineDemo.p0 in
  let p := (turns p).1.1 in
  outcome_of (turns (PipelineDemo.committing auth (PipelineDemo.committing PipelineDemo.r1 p))) =
    ([1; AUTH_XID], []).
Proof. vm_compute. reflexivity. Qed.

(** Of two writes, each followed by a read, the first is answered with a timeout
    and committed after all: the second read is forgotten, and the second write
    no longer waits for its commit. *)
Example late_commit_forgets_requests :
  let p := fold_left (λ p x, PipelineDemo.pushed x p) PipelineDemo.sent PipelineDemo.p0 in
  let p := onError true O 1 1 Op_Create ((turns p).1.1) in
  outcome_of (turns (PipelineDemo.committing PipelineDemo.r1 p)) = ([1; 2; 1], []).
Proof. vm_compute. reflexivity. Qed.
