(* ===== verification/Crc32.v ===== *)
(** * The checksum of the log and of the snapshots: src/Service/Crc32.{h,cpp}

    Theorems: the table-driven loop computes the remainder bit by bit for the
    reflected polynomial 0xEDB88320, and any change of a single byte changes the
    checksum. *)

From coqutil Require Import Byte.
From S2P Require Import Prelude Types ZkIO.
From stdpp Require Import base list option.
From Stdlib Require Import ZArith Lia.
Open Scope Z_scope.

Definition CRC_TABLE : list Z :=
[
  0x00000000; 0x77073096; 0xee0e612c; 0x990951ba; 0x076dc419; 0x706af48f; 0xe963a535; 0x9e6495a3;
  0x0edb8832; 0x79dcb8a4; 0xe0d5e91e; 0x97d2d988; 0x09b64c2b; 0x7eb17cbd; 0xe7b82d07; 0x90bf1d91;
  0x1db71064; 0x6ab020f2; 0xf3b97148; 0x84be41de; 0x1adad47d; 0x6ddde4eb; 0xf4d4b551; 0x83d385c7;
  0x136c9856; 0x646ba8c0; 0xfd62f97a; 0x8a65c9ec; 0x14015c4f; 0x63066cd9; 0xfa0f3d63; 0x8d080df5;
  0x3b6e20c8; 0x4c69105e; 0xd56041e4; 0xa2677172; 0x3c03e4d1; 0x4b04d447; 0xd20d85fd; 0xa50ab56b;
  0x35b5a8fa; 0x42b2986c; 0xdbbbc9d6; 0xacbcf940; 0x32d86ce3; 0x45df5c75; 0xdcd60dcf; 0xabd13d59;
  0x26d930ac; 0x51de003a; 0xc8d75180; 0xbfd06116; 0x21b4f4b5; 0x56b3c423; 0xcfba9599; 0xb8bda50f;
  0x2802b89e; 0x5f058808; 0xc60cd9b2; 0xb10be924; 0x2f6f7c87; 0x58684c11; 0xc1611dab; 0xb6662d3d;
  0x76dc4190; 0x01db7106; 0x98d220bc; 0xefd5102a; 0x71b18589; 0x06b6b51f; 0x9fbfe4a5; 0xe8b8d433;
  0x7807c9a2; 0x0f00f934; 0x9609a88e; 0xe10e9818; 0x7f6a0dbb; 0x086d3d2d; 0x91646c97; 0xe6635c01;
  0x6b6b51f4; 0x1c6c6162; 0x856530d8; 0xf262004e; 0x6c0695ed; 0x1b01a57b; 0x8208f4c1; 0xf50fc457;
  0x65b0d9c6; 0x12b7e950; 0x8bbeb8ea; 0xfcb9887c; 0x62dd1ddf; 0x15da2d49; 0x8cd37cf3; 0xfbd44c65;
  0x4db26158; 0x3ab551ce; 0xa3bc0074; 0xd4bb30e2; 0x4adfa541; 0x3dd895d7; 0xa4d1c46d; 0xd3d6f4fb;
  0x4369e96a; 0x346ed9fc; 0xad678846; 0xda60b8d0; 0x44042d73; 0x33031de5; 0xaa0a4c5f; 0xdd0d7cc9;
  0x5005713c; 0x270241aa; 0xbe0b1010; 0xc90c2086; 0x5768b525; 0x206f85b3; 0xb966d409; 0xce61e49f;
  0x5edef90e; 0x29d9c998; 0xb0d09822; 0xc7d7a8b4; 0x59b33d17; 0x2eb40d81; 0xb7bd5c3b; 0xc0ba6cad;
  0xedb88320; 0x9abfb3b6; 0x03b6e20c; 0x74b1d29a; 0xead54739; 0x9dd277af; 0x04db2615; 0x73dc1683;
  0xe3630b12; 0x94643b84; 0x0d6d6a3e; 0x7a6a5aa8; 0xe40ecf0b; 0x9309ff9d; 0x0a00ae27; 0x7d079eb1;
  0xf00f9344; 0x8708a3d2; 0x1e01f268; 0x6906c2fe; 0xf762575d; 0x806567cb; 0x196c3671; 0x6e6b06e7;
  0xfed41b76; 0x89d32be0; 0x10da7a5a; 0x67dd4acc; 0xf9b9df6f; 0x8ebeeff9; 0x17b7be43; 0x60b08ed5;
  0xd6d6a3e8; 0xa1d1937e; 0x38d8c2c4; 0x4fdff252; 0xd1bb67f1; 0xa6bc5767; 0x3fb506dd; 0x48b2364b;
  0xd80d2bda; 0xaf0a1b4c; 0x36034af6; 0x41047a60; 0xdf60efc3; 0xa867df55; 0x316e8eef; 0x4669be79;
  0xcb61b38c; 0xbc66831a; 0x256fd2a0; 0x5268e236; 0xcc0c7795; 0xbb0b4703; 0x220216b9; 0x5505262f;
  0xc5ba3bbe; 0xb2bd0b28; 0x2bb45a92; 0x5cb36a04; 0xc2d7ffa7; 0xb5d0cf31; 0x2cd99e8b; 0x5bdeae1d;
  0x9b64c2b0; 0xec63f226; 0x756aa39c; 0x026d930a; 0x9c0906a9; 0xeb0e363f; 0x72076785; 0x05005713;
  0x95bf4a82; 0xe2b87a14; 0x7bb12bae; 0x0cb61b38; 0x92d28e9b; 0xe5d5be0d; 0x7cdcefb7; 0x0bdbdf21;
  0x86d3d2d4; 0xf1d4e242; 0x68ddb3f8; 0x1fda836e; 0x81be16cd; 0xf6b9265b; 0x6fb077e1; 0x18b74777;
  0x88085ae6; 0xff0f6a70; 0x66063bca; 0x11010b5c; 0x8f659eff; 0xf862ae69; 0x616bffd3; 0x166ccf45;
  0xa00ae278; 0xd70dd2ee; 0x4e048354; 0x3903b3c2; 0xa7672661; 0xd06016f7; 0x4969474d; 0x3e6e77db;
  0xaed16a4a; 0xd9d65adc; 0x40df0b66; 0x37d83bf0; 0xa9bcae53; 0xdebb9ec5; 0x47b2cf7f; 0x30b5ffe9;
  0xbdbdf21c; 0xcabac28a; 0x53b39330; 0x24b4a3a6; 0xbad03605; 0xcdd70693; 0x54de5729; 0x23d967bf;
  0xb3667a2e; 0xc4614ab8; 0x5d681b02; 0x2a6f2b94; 0xb40bbe37; 0xc30c8ea1; 0x5a05df1b; 0x2d02ef8d ].

(** [data[i]] is a signed [char]: it is extended with its sign. *)
Definition char_of (b : Init.Byte.byte) : Z := u32 (wrap_s 8 (byte.unsigned b)).

Definition crc_update (crc : Z) (b : Init.Byte.byte) : Z :=
  Z.lxor (nth (Z.to_nat (Z.land (Z.lxor crc (char_of b)) 0xff)) CRC_TABLE 0) (Z.shiftr crc 8).

Definition getCRC32 (data : bytes) : Z :=
  if bool_decide (length data < 1)%nat then 0xffffffff
  else Z.lxor (foldl crc_update 0 data) 0xffffffff.

Definition verifyCRC32 (data : bytes) (value : Z) : bool := value =? getCRC32 data.

(** ** The reference: one bit at a time *)

Definition crc_bit (c : Z) : Z :=
  if Z.odd c then Z.lxor (Z.shiftr c 1) 0xEDB88320 else Z.shiftr c 1.

Definition crc_byte (c : Z) : Z := Nat.iter 8 crc_bit c.

Definition crc_reference (data : bytes) : Z :=
  foldl (λ c b, crc_byte (Z.lxor c (byte.unsigned b))) 0 data.

(** ** Lemmas *)

Lemma crc_bit_xor x y : crc_bit (Z.lxor x y) = Z.lxor (crc_bit x) (crc_bit y).
Proof.
  unfold crc_bit. rewrite <-!Z.bit0_odd, Z.lxor_spec, Z.shiftr_lxor.
  destruct (Z.testbit x 0), (Z.testbit y 0); simpl xorb; cbv iota; apply Z.bits_inj'; intros n Hn;
    rewrite ?Z.lxor_spec;
    by destruct (Z.testbit (Z.shiftr x 1) n), (Z.testbit (Z.shiftr y 1) n), (Z.testbit 0xEDB88320 n).
Qed.

Lemma crc_byte_xor x y : crc_byte (Z.lxor x y) = Z.lxor (crc_byte x) (crc_byte y).
Proof. unfold crc_byte. simpl. by rewrite !crc_bit_xor. Qed.

(** The table holds the remainders of the bytes. *)
Lemma crc_table_spec i : 0 <= i < 256 → nth (Z.to_nat i) CRC_TABLE 0 = crc_byte i.
Proof.
  intros Hi.
  assert (Forall (λ n, nth n CRC_TABLE 0 = crc_byte (Z.of_nat n)) (seq 0 256)) as H.
  { apply (bool_decide_unpack _). vm_compute. exact I. }
  rewrite Forall_forall in H. rewrite (H (Z.to_nat i)); [by rewrite Z2Nat.id by lia|].
  apply in_seq. lia.
Qed.

Lemma crc_bit_even c : Z.odd c = false → crc_bit c = Z.shiftr c 1.
Proof. unfold crc_bit. by intros ->. Qed.

(** Eight steps only shift a number whose low byte is zero. *)
Lemma crc_byte_shift c : crc_byte (Z.shiftl c 8) = c.
Proof.
  assert (∀ n, 0 < n → Z.shiftr (Z.shiftl c n) 1 = Z.shiftl c (n - 1) ∧ Z.odd (Z.shiftl c n) = false) as H.
  { intros n Hn. split.
    - rewrite Z.shiftr_shiftl_l by lia. done.
    - rewrite <-Z.bit0_odd, Z.shiftl_spec by lia. apply Z.testbit_neg_r. lia. }
  unfold crc_byte. simpl.
  do 8 (match goal with |- context [crc_bit (Z.shiftl c ?n)] =>
    rewrite (crc_bit_even (Z.shiftl c n)), (proj1 (H n ltac:(lia))) by apply H, eq_refl end; simpl).
  by rewrite Z.shiftl_0_r.
Qed.

Lemma char_of_low b : Z.land (char_of b) 0xff = byte.unsigned b.
Proof. by destruct b. Qed.

Lemma land_ff x : Z.land x 0xff = x mod 256.
Proof. exact (Z.land_ones x 8 ltac:(lia)). Qed.

(** A number is its low byte and the rest. *)
Lemma split_low c : 0 <= c → c = Z.lxor (Z.land c 0xff) (Z.shiftl (Z.shiftr c 8) 8).
Proof.
  intros Hc. apply Z.bits_inj'. intros n Hn. rewrite Z.lxor_spec, Z.land_spec, Z.shiftl_spec by lia.
  change 0xff with (Z.ones 8). destruct (decide (n < 8)).
  - rewrite Z.ones_spec_low by lia. rewrite (Z.testbit_neg_r _ (n - 8)) by lia.
    by rewrite andb_true_r, xorb_false_r.
  - rewrite Z.ones_spec_high by lia. rewrite Z.shiftr_spec by lia. replace (n - 8 + 8) with n by lia.
    by rewrite andb_false_r, xorb_false_l.
Qed.

Lemma index_low c b : Z.land (Z.lxor c (char_of b)) 0xff = Z.land (Z.lxor c (byte.unsigned b)) 0xff.
Proof.
  rewrite <-(char_of_low b). apply Z.bits_inj'. intros n Hn. rewrite !Z.land_spec, !Z.lxor_spec, Z.land_spec.
  by destruct (Z.testbit c n), (Z.testbit (char_of b) n), (Z.testbit 255 n).
Qed.

Lemma crc_update_reference c b :
  0 <= c → crc_update c b = crc_byte (Z.lxor c (byte.unsigned b)).
Proof.
  intros Hc. pose proof (byte.unsigned_range b) as Hb. unfold crc_update. rewrite index_low.
  set (x := Z.lxor c (byte.unsigned b)).
  assert (0 <= x) as Hx by (apply Z.lxor_nonneg; lia).
  rewrite crc_table_spec by (rewrite land_ff; apply Z.mod_pos_bound; lia).
  rewrite (split_low x) at 2 by done. rewrite crc_byte_xor, crc_byte_shift. f_equal.
  unfold x. rewrite Z.shiftr_lxor.
  rewrite (Z.shiftr_eq_0 (byte.unsigned b)), Z.lxor_0_r; [done|lia|].
  destruct (decide (byte.unsigned b = 0)) as [->|]; [done|]. apply Z.log2_lt_pow2; simpl; lia.
Qed.

Lemma crc_bit_nonneg c : 0 <= c → 0 <= crc_bit c.
Proof.
  intros Hc. unfold crc_bit. case_match; [apply Z.lxor_nonneg|]; rewrite ?Z.shiftr_nonneg; lia.
Qed.
Lemma crc_byte_nonneg c : 0 <= c → 0 <= crc_byte c.
Proof. intros Hc. unfold crc_byte. simpl. repeat apply crc_bit_nonneg. done. Qed.

Lemma foldl_reference data c :
  0 <= c → foldl crc_update c data = foldl (λ c b, crc_byte (Z.lxor c (byte.unsigned b))) c data
    ∧ 0 <= foldl crc_update c data.
Proof.
  revert c. induction data as [|b data IH]; intros c Hc; simpl; [done|].
  rewrite crc_update_reference by done. apply IH. apply crc_byte_nonneg, Z.lxor_nonneg.
  pose proof (byte.unsigned_range b). lia.
Qed.

(** C39: the table-driven checksum is the bitwise remainder of the reflected
    polynomial 0xEDB88320, started from zero and inverted at the end; of no data
    it is all ones. *)
Theorem crc_is_bitwise data :
  getCRC32 data = if bool_decide (data = []) then 0xffffffff else Z.lxor (crc_reference data) 0xffffffff.
Proof.
  unfold getCRC32, crc_reference. destruct data as [|b data]; [done|].
  rewrite !bool_decide_eq_false_2 by (done || (simpl; lia)). by rewrite (proj1 (foldl_reference _ 0 ltac:(lia))).
Qed.

(** ** Damage of one byte *)

Lemma shiftr_zero x n : 0 <= n → 0 <= x → x < 2 ^ n ↔ Z.shiftr x n = 0.
Proof.
  intros Hn Hx. rewrite Z.shiftr_div_pow2 by done. pose proof (Z.pow_pos_nonneg 2 n ltac:(lia) Hn).
  split; [intros; apply Z.div_small; lia|]. intros Hd. apply Z.div_small_iff in Hd; lia.
Qed.

Lemma table_range i : 0 <= nth i CRC_TABLE 0 < 2 ^ 32.
Proof.
  assert (Forall (λ x, 0 <= x < 2 ^ 32) CRC_TABLE) as H.
  { apply (bool_decide_unpack _). vm_compute. exact I. }
  destruct (nth_in_or_default i CRC_TABLE 0) as [Hi| ->]; [|lia].
  by apply (proj1 (List.Forall_forall _ _) H).
Qed.

Lemma table_lookup i : (i < 256)%nat → CRC_TABLE !! i = Some (nth i CRC_TABLE 0).
Proof.
  intros Hi. destruct (CRC_TABLE !! i) as [x|] eqn:E.
  - f_equal. symmetry. by apply nth_lookup_Some.
  - apply lookup_ge_None in E. simpl in E. lia.
Qed.

(** The high bytes of the table are all different. *)
Lemma table_inj i j :
  0 <= i < 256 → 0 <= j < 256 →
  Z.shiftr (nth (Z.to_nat i) CRC_TABLE 0) 24 = Z.shiftr (nth (Z.to_nat j) CRC_TABLE 0) 24 → i = j.
Proof.
  intros Hi Hj E. assert (NoDup ((λ x, Z.shiftr x 24) <$> CRC_TABLE)) as Hn.
  { apply (bool_decide_unpack _). vm_compute. exact I. }
  enough (Z.to_nat i = Z.to_nat j) by lia. eapply NoDup_lookup; [exact Hn| |].
  - rewrite list_lookup_fmap, table_lookup by lia. done.
  - rewrite list_lookup_fmap, table_lookup by lia. exact (f_equal Some (eq_sym E)).
Qed.

Lemma index_range c b : 0 <= Z.land (Z.lxor c (char_of b)) 0xff < 256.
Proof. rewrite land_ff. apply Z.mod_pos_bound. lia. Qed.

Lemma crc_update_range c b : 0 <= c < 2 ^ 32 → 0 <= crc_update c b < 2 ^ 32.
Proof.
  intros Hc. unfold crc_update. set (t := nth _ _ _). pose proof (table_range _ : 0 <= t < 2 ^ 32) as Ht.
  assert (0 <= Z.shiftr c 8) as Hs by (apply Z.shiftr_nonneg; lia).
  assert (0 <= Z.lxor t (Z.shiftr c 8)) as Hx by (apply Z.lxor_nonneg; lia). split; [done|].
  apply shiftr_zero; [lia|done|]. rewrite Z.shiftr_lxor, (proj1 (shiftr_zero t 32 ltac:(lia) ltac:(lia))) by lia.
  rewrite Z.shiftr_shiftr, Z.lxor_0_l by lia. apply shiftr_zero; lia.
Qed.

Lemma crc_update_high c b : 0 <= c < 2 ^ 32 →
  Z.shiftr (crc_update c b) 24 = Z.shiftr (nth (Z.to_nat (Z.land (Z.lxor c (char_of b)) 0xff)) CRC_TABLE 0) 24.
Proof.
  intros Hc. unfold crc_update. rewrite Z.shiftr_lxor, Z.shiftr_shiftr by lia.
  rewrite (proj1 (shiftr_zero c (8 + 24) ltac:(lia) ltac:(lia))) by lia. apply Z.lxor_0_r.
Qed.

Lemma lxor_land_cancel a b c : Z.land (Z.lxor a b) 0xff = Z.land (Z.lxor a c) 0xff → Z.land b 0xff = Z.land c 0xff.
Proof.
  intros E. apply Z.bits_inj'. intros n Hn. apply (f_equal (λ z, Z.testbit z n)) in E.
  rewrite !Z.land_spec, !Z.lxor_spec in *.
  by destruct (Z.testbit a n), (Z.testbit b n), (Z.testbit c n), (Z.testbit 255 n).
Qed.

Lemma crc_update_inj c c' b :
  0 <= c < 2 ^ 32 → 0 <= c' < 2 ^ 32 → crc_update c b = crc_update c' b → c = c'.
Proof.
  intros Hc Hc' E. pose proof (f_equal (λ z, Z.shiftr z 24) E) as Eh. simpl in Eh.
  rewrite !crc_update_high in Eh by done. apply table_inj in Eh; [|apply index_range..].
  unfold crc_update in E. rewrite Eh in E.
  assert (Z.shiftr c 8 = Z.shiftr c' 8) as Es.
  { match type of E with Z.lxor ?t _ = _ => apply (f_equal (Z.lxor t)) in E end.
    by rewrite <-!Z.lxor_assoc, !Z.lxor_nilpotent, !Z.lxor_0_l in E. }
  rewrite (Z.lxor_comm c), (Z.lxor_comm c') in Eh. apply lxor_land_cancel in Eh.
  rewrite (split_low c), (split_low c') by lia. by rewrite Es, Eh.
Qed.

Lemma crc_update_inj_byte c b b' : 0 <= c < 2 ^ 32 → crc_update c b = crc_update c b' → b = b'.
Proof.
  intros Hc E. pose proof (f_equal (λ z, Z.shiftr z 24) E) as Eh. simpl in Eh.
  rewrite !crc_update_high in Eh by done. apply table_inj in Eh; [|apply index_range..].
  apply lxor_land_cancel in Eh. rewrite !char_of_low in Eh. by apply byte.unsigned_inj.
Qed.

Lemma foldl_crc_range data c : 0 <= c < 2 ^ 32 → 0 <= foldl crc_update c data < 2 ^ 32.
Proof. revert c. induction data; intros c Hc; simpl; [done|]. by apply IHdata, crc_update_range. Qed.

Lemma foldl_crc_inj data c c' :
  0 <= c < 2 ^ 32 → 0 <= c' < 2 ^ 32 → foldl crc_update c data = foldl crc_update c' data → c = c'.
Proof.
  revert c c'. induction data as [|b data IH]; intros c c' Hc Hc' E; simpl in *; [done|].
  apply IH in E; [|by apply crc_update_range..]. by apply crc_update_inj in E.
Qed.

(** Data that differ in one byte have different checksums. *)
Lemma getCRC32_one_byte pre b b' post :
  getCRC32 (pre ++ b :: post) = getCRC32 (pre ++ b' :: post) → b = b'.
Proof.
  unfold getCRC32. rewrite !bool_decide_eq_false_2 by (rewrite length_app; simpl; lia). intros E.
  assert (foldl crc_update 0 (pre ++ b :: post) = foldl crc_update 0 (pre ++ b' :: post)) as E'.
  { apply (f_equal (λ z, Z.lxor z 0xffffffff)) in E.
    by rewrite !Z.lxor_assoc, !Z.lxor_nilpotent, !Z.lxor_0_r in E. }
  rewrite !foldl_app in E'. simpl in E'. pose proof (foldl_crc_range pre 0 ltac:(lia)) as Hr.
  apply foldl_crc_inj in E'; [|by apply crc_update_range..]. by apply crc_update_inj_byte in E'.
Qed.
