(* ===== verification/FileSystem.v ===== *)
(** * The directory of the log files

    What src/Service/NuRaftLogSegment.cpp uses of the operating system and of
    Poco::File: names that point to files, descriptors that keep pointing to
    their file when it is renamed or removed, and a write position per
    descriptor. Calls do not fail for lack of space or of rights. *)

From S2P Require Import Prelude Types ZkIO.
From stdpp Require Import base gmap sets strings option list.
From Stdlib Require Import ZArith Lia.
Open Scope Z_scope.

Record Disk : Type := mkDisk {
  fs_names : gmap string nat;
  fs_data : gmap nat bytes;
  fs_next : nat
}.

Record Fd : Type := mkFd { fd_ino : nat; fd_pos : Z }.

Definition fs_exists (name : string) (fs : Disk) : bool := bool_decide (is_Some (fs_names fs !! name)).

Definition fs_content (ino : nat) (fs : Disk) : bytes := default [] (fs_data fs !! ino).

(** [open(O_RDWR)] of a file that exists. *)
Definition fs_open (name : string) (fs : Disk) : option Fd := ino ← fs_names fs !! name; Some (mkFd ino 0).

(** [open(O_CREAT | O_TRUNC)] of a name that is free. *)
Definition fs_create (name : string) (fs : Disk) : Disk * Fd :=
  (mkDisk (<[name := fs_next fs]> (fs_names fs)) (<[fs_next fs := []]> (fs_data fs)) (S (fs_next fs)),
   mkFd (fs_next fs) 0).

Definition fs_set_data (ino : nat) (b : bytes) (fs : Disk) : Disk :=
  mkDisk (fs_names fs) (<[ino := b]> (fs_data fs)) (fs_next fs).

(** Cut or extended with zeros to a length. *)
Definition fit (len : Z) (b : bytes) : bytes :=
  take (Z.to_nat len) b ++ replicate (Z.to_nat len - length b) Byte.x00.

(** [write] at the position of the descriptor, which moves on. *)
Definition fs_write (fd : Fd) (b : bytes) (fs : Disk) : Disk * Fd :=
  let old := fs_content (fd_ino fd) fs in
  let pos := fd_pos fd in
  let new := fit pos old ++ b ++ drop (Z.to_nat pos + length b) old in
  (fs_set_data (fd_ino fd) new fs, mkFd (fd_ino fd) (pos + Z.of_nat (length b))).

(** [pread]: fewer bytes at the end of the file. *)
Definition fs_pread (ino : nat) (len off : Z) (fs : Disk) : bytes :=
  take (Z.to_nat len) (drop (Z.to_nat off) (fs_content ino fs)).

Definition fs_size (ino : nat) (fs : Disk) : Z := Z.of_nat (length (fs_content ino fs)).

Definition fs_ftruncate (ino : nat) (len : Z) (fs : Disk) : Disk :=
  fs_set_data ino (fit len (fs_content ino fs)) fs.

(** [Poco::File::renameTo] and [remove]; the new name is taken over. *)
Definition fs_rename (old new : string) (fs : Disk) : option Disk :=
  ino ← fs_names fs !! old;
  Some (mkDisk (<[new := ino]> (delete old (fs_names fs))) (fs_data fs) (fs_next fs)).

Definition fs_remove (name : string) (fs : Disk) : Disk :=
  mkDisk (delete name (fs_names fs)) (fs_data fs) (fs_next fs).

(** ** Well-formed directories: no two names for one file, new files are new *)

Record fs_wf (fs : Disk) : Prop := {
  fs_inj n1 n2 i : fs_names fs !! n1 = Some i → fs_names fs !! n2 = Some i → n1 = n2;
  fs_fresh n i : fs_names fs !! n = Some i → (i < fs_next fs)%nat
}.

(** The file of a name and its content. *)
Definition has_file (fs : Disk) (name : string) (ino : nat) (b : bytes) : Prop :=
  fs_names fs !! name = Some ino ∧ fs_data fs !! ino = Some b.

Lemma has_file_content fs name ino b : has_file fs name ino b → fs_content ino fs = b.
Proof. intros [_ H]. unfold fs_content. by rewrite H. Qed.

Lemma has_file_exists fs name ino b : has_file fs name ino b → fs_exists name fs = true.
Proof. intros [H _]. unfold fs_exists. rewrite H. by apply bool_decide_eq_true_2. Qed.

Lemma has_file_ne fs n1 n2 i1 i2 b1 b2 :
  fs_wf fs → has_file fs n1 i1 b1 → has_file fs n2 i2 b2 → n1 ≠ n2 → i1 ≠ i2.
Proof. intros Hw [H1 _] [H2 _] Hn ->. destruct Hn. by eapply (fs_inj _ Hw). Qed.

Lemma create_wf name fs : fs_wf fs → fs_wf (fs_create name fs).1.
Proof.
  intros [Hi Hf]. split; simpl.
  - intros n1 n2 i. rewrite !lookup_insert. repeat case_decide; subst; try done.
    + intros [= <-] H2. apply Hf in H2. lia.
    + intros H1 [= <-]. apply Hf in H1. lia.
    + eauto.
  - intros n i. rewrite lookup_insert. case_decide; [intros [= <-]; lia|]. intros Hl%Hf. lia.
Qed.

Lemma create_file name fs : has_file (fs_create name fs).1 name (fs_next fs) [].
Proof. split; simpl; by rewrite lookup_insert_eq. Qed.

Lemma create_other name fs n i b :
  fs_wf fs → fs_exists name fs = false → has_file fs n i b → has_file (fs_create name fs).1 n i b.
Proof.
  intros Hw Hx [H1 H2]. assert (n ≠ name) as Hn.
  { intros ->. unfold fs_exists in Hx. rewrite H1 in Hx. apply bool_decide_eq_false in Hx. destruct Hx. by eexists. }
  pose proof (fs_fresh _ Hw _ _ H1). split; simpl; rewrite lookup_insert_ne by (congruence || lia); done.
Qed.

Lemma set_data_wf ino b fs : fs_wf fs → fs_wf (fs_set_data ino b fs).
Proof. intros [Hi Hf]. by split. Qed.

Lemma set_data_file ino b b' name fs : has_file fs name ino b → has_file (fs_set_data ino b' fs) name ino b'.
Proof. intros [H1 H2]. split; simpl; [done|]. by rewrite lookup_insert_eq. Qed.

Lemma content_set_data ino b fs : fs_content ino (fs_set_data ino b fs) = b.
Proof. unfold fs_content. simpl. by rewrite lookup_insert_eq. Qed.

Lemma set_data_other ino b' fs n i b : i ≠ ino → has_file fs n i b → has_file (fs_set_data ino b' fs) n i b.
Proof. intros Hn [H1 H2]. split; simpl; [done|]. by rewrite lookup_insert_ne. Qed.

Lemma rename_spec old new fs ino b :
  fs_wf fs → has_file fs old ino b →
  ∃ fs', fs_rename old new fs = Some fs' ∧ fs_wf fs' ∧ has_file fs' new ino b ∧
    (∀ n i c, n ≠ old → n ≠ new → has_file fs n i c → has_file fs' n i c).
Proof.
  intros [Hi Hf] [H1 H2]. unfold fs_rename. rewrite H1. simpl. eexists. split; [done|]. split_and!.
  - split; simpl.
    + intros n1 n2 i. rewrite !lookup_insert. repeat case_decide; subst; try done.
      * intros [= <-] [Hn Hd]%lookup_delete_Some. destruct Hn. eauto.
      * intros [Hn Hd]%lookup_delete_Some [= <-]. destruct Hn. eauto.
      * intros [? ?]%lookup_delete_Some [? ?]%lookup_delete_Some. eauto.
    + intros n i. rewrite lookup_insert. case_decide; [intros [= <-]; eauto|].
      intros [? ?]%lookup_delete_Some. eauto.
  - split; simpl; [by rewrite lookup_insert_eq|done].
  - intros n i c Hn1 Hn2 [H3 H4]. split; simpl; [|done].
    by rewrite lookup_insert_ne, lookup_delete_ne by done.
Qed.

(** The names after a call. *)
Definition named (fs : Disk) (n : string) : Prop := is_Some (fs_names fs !! n).

Lemma rename_named old new fs fs' n :
  fs_rename old new fs = Some fs' → named fs' n → n = new ∨ named fs n ∧ n ≠ old.
Proof.
  unfold fs_rename, named. destruct (fs_names fs !! old); [|done]. simpl. intros [= <-]. simpl.
  rewrite lookup_insert. case_decide; [by left|]. intros [i [? ?]%lookup_delete_Some]. right. split; [by exists i|done].
Qed.

Lemma remove_named name fs n : named (fs_remove name fs) n → named fs n ∧ n ≠ name.
Proof. unfold named. simpl. intros [i [? ?]%lookup_delete_Some]. split; [by exists i|done]. Qed.

Lemma create_named name fs n : named (fs_create name fs).1 n → n = name ∨ named fs n.
Proof. unfold named. simpl. rewrite lookup_insert. case_decide; auto. Qed.

Lemma not_named name fs : fs_exists name fs = false ↔ ¬ named fs name.
Proof. unfold fs_exists, named. by rewrite bool_decide_eq_false. Qed.

Lemma remove_wf name fs : fs_wf fs → fs_wf (fs_remove name fs).
Proof.
  intros [Hi Hf]. split; simpl.
  - intros n1 n2 i [? ?]%lookup_delete_Some [? ?]%lookup_delete_Some. eauto.
  - intros n i [? ?]%lookup_delete_Some. eauto.
Qed.

Lemma remove_other name fs n i b : n ≠ name → has_file fs n i b → has_file (fs_remove name fs) n i b.
Proof. intros Hn [H1 H2]. split; simpl; [|done]. by rewrite lookup_delete_ne. Qed.

Lemma fit_all b : fit (Z.of_nat (length b)) b = b.
Proof. unfold fit. rewrite Nat2Z.id, firstn_all, Nat.sub_diag. apply app_nil_r. Qed.

(** Writing at the end of the file appends. *)
Lemma write_append fd b b' name fs :
  has_file fs name (fd_ino fd) b → fd_pos fd = Z.of_nat (length b) →
  fs_write fd b' fs =
    (fs_set_data (fd_ino fd) (b ++ b') fs, mkFd (fd_ino fd) (Z.of_nat (length (b ++ b')))).
Proof.
  intros H Hp. unfold fs_write. rewrite (has_file_content _ _ _ _ H), Hp, fit_all.
  rewrite drop_ge by lia. rewrite app_nil_r, length_app. f_equal. f_equal. lia.
Qed.

(** Truncating to a prefix keeps the prefix. *)
Lemma ftruncate_prefix ino b b' name fs :
  has_file fs name ino (b ++ b') →
  fs_ftruncate ino (Z.of_nat (length b)) fs = fs_set_data ino b fs.
Proof.
  intros H. unfold fs_ftruncate, fit. rewrite (has_file_content _ _ _ _ H), Nat2Z.id, take_app_length.
  rewrite length_app. replace (_ - _)%nat with 0%nat by lia. by rewrite app_nil_r.
Qed.
