(* ===== verification/LogSegment.v ===== *)
(** * Log entries and log segments: src/Service/LogEntry.{h,cpp} and the class
      NuRaftLogSegment of src/Service/NuRaftLogSegment.{h,cpp}

    A segment is a file of records: a header with term, index, length and
    checksum, then the type byte and the data of the entry. The model keeps the
    bytes of the files (FileSystem.v) beside the members of the class. NuRaft's
    [log_entry] is its term, its type and its data; its buffers are byte lists,
    read and written in the host's (little-endian) order.

    Methods are computations over the segment and the directory; an [int] or
    [UInt64] result stays the number the source returns, [-1] included. *)

From coqutil Require Import Word.LittleEndianList Byte.
From S2P Require Import Prelude Types ZkIO KeeperPaths Crc32 FileSystem.
From stdpp Require Import base gmap sets strings option pretty list.
From Stdlib Require Import ZArith Lia.
Open Scope Z_scope.

(** ** Entries *)

Record log_entry : Type := mkLogEntry {
  le_term : Z;
  le_type : Z;
  le_data : bytes
}.

(** [serializeEntry]: the type as one byte, then the data. *)
Definition serializeEntry (e : log_entry) : bytes := le_split 1 (le_type e) ++ le_data e.

(** [parseEntry]: NuRaft's buffer throws when it has no byte for the type. *)
Definition parseEntry (entry_str : bytes) (term : Z) : outcome exn log_entry :=
  match entry_str with
  | [] => Throw BUFFER_OVERFLOW
  | tp :: data => Ret (mkLogEntry term (byte.unsigned tp) data)
  end.

Record LogEntryHeader : Type := mkHeader {
  h_term : Z;
  h_index : Z;
  h_length : Z;
  h_crc : Z
}.
Definition HEADER_SIZE : Z := 24.

Definition write_header (h : LogEntryHeader) : bytes :=
  le_split 8 (h_term h) ++ le_split 8 (h_index h) ++ le_split 4 (h_length h) ++ le_split 4 (h_crc h).

Definition read_header (b : bytes) : LogEntryHeader :=
  mkHeader (le_combine (take 8 b)) (le_combine (take 8 (drop 8 b)))
    (le_combine (take 4 (drop 16 b))) (le_combine (take 4 (drop 20 b))).

Arguments serializeEntry : simpl never.
Arguments write_header : simpl never.
Arguments read_header : simpl never.

(** ** Segments *)

Inductive LogVersion : Set := V0 | V1 | VOther (n : Z).
Definition version_code (v : LogVersion) : Z := match v with V0 => 0 | V1 => 1 | VOther n => n end.
Definition version_of (n : Z) : LogVersion := if n =? 0 then V0 else if n =? 1 then V1 else VOther n.
Definition CURRENT_LOG_VERSION : LogVersion := V1.

(** [version] is not initialised by the constructor of closed segments. *)
Record Segment : Type := mkSegment {
  first_index : Z;
  last_index : Z;
  file_name : string;
  create_time : string;
  seg_fd : option Fd;
  file_size : Z;
  is_open : bool;
  offset_term : list (Z * Z);
  seg_version : option LogVersion
}.

Definition open_Segment (first : Z) (name time : string) : Segment :=
  mkSegment first (u64 (first - 1)) name time None 0 true [] (Some CURRENT_LOG_VERSION).
Definition closed_Segment (first last : Z) (name : string) : Segment :=
  mkSegment first last name "" None 0 false [] None.

(** Field updates. *)
Definition sg_last (z : Z) (s : Segment) : Segment :=
  mkSegment (first_index s) z (file_name s) (create_time s) (seg_fd s) (file_size s) (is_open s)
    (offset_term s) (seg_version s).
Definition sg_name (n : string) (s : Segment) : Segment :=
  mkSegment (first_index s) (last_index s) n (create_time s) (seg_fd s) (file_size s) (is_open s)
    (offset_term s) (seg_version s).
Definition sg_time (t : string) (s : Segment) : Segment :=
  mkSegment (first_index s) (last_index s) (file_name s) t (seg_fd s) (file_size s) (is_open s)
    (offset_term s) (seg_version s).
Definition sg_fd (fd : option Fd) (s : Segment) : Segment :=
  mkSegment (first_index s) (last_index s) (file_name s) (create_time s) fd (file_size s) (is_open s)
    (offset_term s) (seg_version s).
Definition sg_size (z : Z) (s : Segment) : Segment :=
  mkSegment (first_index s) (last_index s) (file_name s) (create_time s) (seg_fd s) z (is_open s)
    (offset_term s) (seg_version s).
Definition sg_open (b : bool) (s : Segment) : Segment :=
  mkSegment (first_index s) (last_index s) (file_name s) (create_time s) (seg_fd s) (file_size s) b
    (offset_term s) (seg_version s).
Definition sg_offs (l : list (Z * Z)) (s : Segment) : Segment :=
  mkSegment (first_index s) (last_index s) (file_name s) (create_time s) (seg_fd s) (file_size s) (is_open s)
    l (seg_version s).
Definition sg_version (v : LogVersion) (s : Segment) : Segment :=
  mkSegment (first_index s) (last_index s) (file_name s) (create_time s) (seg_fd s) (file_size s) (is_open s)
    (offset_term s) (Some v).

Abbreviation SegM := (ST (Segment * Disk) exn).

Definition upd_seg (f : Segment → Segment) : SegM unit := modify (λ '(s, fs), (f s, fs)).
Definition upd_fs (f : Disk → Disk) : SegM unit := modify (λ '(s, fs), (s, f fs)).
Definition seg : SegM Segment := fst <$> get.
Definition disk : SegM Disk := snd <$> get.

(** ** File names *)

Definition getOpenFileName (s : Segment) : string :=
  ("log_" +:+ pretty (first_index s) +:+ "_open_" +:+ create_time s)%string.
Definition getFinishFileName (s : Segment) : string :=
  ("log_" +:+ pretty (first_index s) +:+ "_" +:+ pretty (last_index s) +:+ "_" +:+ create_time s)%string.
Definition getFileName (s : Segment) : string :=
  if bool_decide (file_name s = "") then
    if is_open s then getOpenFileName s else getFinishFileName s
  else file_name s.

(** ** Opening, creating, closing *)

Definition openFile : SegM Z :=
  s ← seg;
  match seg_fd s with
  | Some _ => mret 0
  | None =>
      fs ← disk;
      match fs_open (getFileName s) fs with
      | None => mret (-1)
      | Some fd => upd_seg (sg_fd (Some fd));; mret 0
      end
  end.

Definition closeFile : SegM Z := upd_seg (sg_fd None);; mret 0.

(** [create]: [now] is the text of the current time. *)
Definition create (now : string) : SegM Z :=
  s ← seg;
  if negb (is_open s) then mret (-1)
  else
    upd_seg (sg_time now);;
    upd_seg (λ s, sg_name (getOpenFileName s) s);;
    s ← seg; fs ← disk;
    if fs_exists (getOpenFileName s) fs then mret (-1)
    else
      let '(fs', fd) := fs_create (getOpenFileName s) fs in
      upd_fs (λ _, fs');; upd_seg (sg_fd (Some fd));; mret 0.

Definition MAGIC : bytes := Byte.x00 :: String.list_byte_of_string "RaftLog".

(** [write] through the descriptor of the segment. *)
Definition write_fd (fd : Fd) (b : bytes) : SegM unit :=
  fs ← disk;
  let '(fs', fd') := fs_write fd b fs in
  upd_fs (λ _, fs');; upd_seg (sg_fd (Some fd')).

Definition writeFileHeader : SegM unit :=
  s ← seg;
  if negb (is_open s) then throw LOGICAL_ERROR
  else
    match seg_fd s, seg_version s with
    | Some fd, Some v =>
        write_fd fd (MAGIC ++ le_split 1 (version_code v));;
        upd_seg (λ s, sg_size (u64 (file_size s + 9)) s)
    | None, _ => throw LOGICAL_ERROR
    | _, None => crash
    end.

Definition close (is_full : bool) : SegM Z :=
  s ← seg;
  if negb (is_open s) then mret 0
  else
    closeFile;;
    if is_full then
      s ← seg; fs ← disk;
      upd_seg (sg_open false);;
      match fs_rename (getOpenFileName s) (getFinishFileName s) fs with
      | None => throw FILE_NOT_FOUND
      | Some fs' => upd_fs (λ _, fs');; upd_seg (λ s, sg_name (getFinishFileName s) s);; mret 0
      end
    else mret 0.

Definition flush : SegM Z :=
  s ← seg; mret (match seg_fd s with Some _ => last_index s | None => 0 end).

Definition remove : SegM Z :=
  closeFile;;
  s ← seg;
  upd_fs (λ fs, if fs_exists (getFileName s) fs then fs_remove (getFileName s) fs else fs);;
  mret 0.

(** ** Reading *)

Definition loadHeader (ino : nat) (offset : Z) (fs : Disk) : option LogEntryHeader :=
  let b := fs_pread ino HEADER_SIZE offset fs in
  if bool_decide (Z.of_nat (length b) = HEADER_SIZE) then Some (read_header b) else None.

(** [loadEntry]; [None] for the result [-1]. *)
Definition loadEntry (ino : nat) (offset : Z) (fs : Disk) : outcome exn (option log_entry) :=
  match loadHeader ino offset fs with
  | None => Ret None
  | Some h =>
      let b := fs_pread ino (h_length h) (offset + HEADER_SIZE) fs in
      if negb (bool_decide (Z.of_nat (length b) = h_length h)) then Ret None
      else if negb (verifyCRC32 b (h_crc h)) then Ret None
      else match parseEntry b (h_term h) with
           | Ret e => Ret (Some e) | Throw e => Throw e | Crash => Crash
           end
  end.

Record LogMeta : Type := mkMeta { lm_offset : Z; lm_length : Z; lm_term : Z }.

(** [getMeta]; an index past the table of offsets is undefined behaviour. *)
Definition getMeta (index : Z) (s : Segment) : outcome exn (option LogMeta) :=
  if (last_index s =? u64 (first_index s - 1)) || (index >? last_index s) || (index <? first_index s)
  then Ret None
  else
    let i := Z.to_nat (index - first_index s) in
    match offset_term s !! i with
    | None => Crash
    | Some (off, term) =>
        if index <? last_index s then
          match offset_term s !! S i with
          | None => Crash
          | Some (next, _) => Ret (Some (mkMeta off (u64 (next - off)) term))
          end
        else Ret (Some (mkMeta off (u64 (file_size s - off)) term))
    end.

Definition getEntry (index : Z) : SegM (option log_entry) :=
  rc ← openFile;
  if negb (rc =? 0) then mret None
  else
    s ← seg; fs ← disk;
    m ← lift (getMeta index s);
    match m, seg_fd s with
    | None, _ => mret None
    | Some meta, Some fd => lift (loadEntry (fd_ino fd) (lm_offset meta) fs)
    | _, None => crash
    end.

Definition getTerm (index : Z) (s : Segment) : outcome exn Z :=
  match getMeta index s with
  | Ret (Some m) => Ret (lm_term m) | Ret None => Ret 0 | Throw e => Throw e | Crash => Crash
  end.

(** ** Appending: the result is the index, or [-1] as [UInt64] *)

Definition appendEntry (e : log_entry) : SegM Z :=
  s ← seg;
  if negb (is_open s) then mret (u64 (-1))
  else
    let entry_str := serializeEntry e in
    match seg_fd s with
    | None => mret (u64 (-1))
    | Some fd =>
        let len := u32 (Z.of_nat (length entry_str)) in
        let body := take (Z.to_nat len) entry_str in
        let h := mkHeader (le_term e) (u64 (last_index s + 1)) len (getCRC32 body) in
        write_fd fd (write_header h ++ body);;
        upd_seg (λ s, sg_offs (offset_term s ++ [(file_size s, le_term e)]) s);;
        upd_seg (λ s, sg_size (u64 (file_size s + HEADER_SIZE + len)) s);;
        upd_seg (λ s, sg_last (u64 (last_index s + 1)) s);;
        mret (h_index h)
    end.

(** ** Truncating *)

Definition truncate (last_index_kept : Z) : SegM Z :=
  s ← seg;
  if last_index s <=? last_index_kept then mret 0
  else
    let first_truncate := u64 (last_index_kept + 1 - first_index s) in
    match offset_term s !! Z.to_nat first_truncate with
    | None => crash
    | Some (truncate_size, _) =>
        (if negb (is_open s) then
           fs ← disk;
           match fs_rename (getFinishFileName s) (getOpenFileName s) fs with
           | None => throw FILE_NOT_FOUND
           | Some fs' =>
               upd_fs (λ _, fs');; upd_seg (λ s, sg_name (getOpenFileName s) s);; upd_seg (sg_open true)
           end
         else mret tt);;
        openFile;;
        s ← seg;
        match seg_fd s with
        | None => mret (-1)
        | Some fd =>
            upd_fs (fs_ftruncate (fd_ino fd) truncate_size);;
            upd_seg (sg_fd (Some (mkFd (fd_ino fd) truncate_size)));;
            upd_seg (λ s, sg_offs (take (Z.to_nat first_truncate) (offset_term s)) s);;
            upd_seg (sg_last last_index_kept);;
            upd_seg (sg_size truncate_size);;
            mret 0
        end
    end.

(** ** Loading *)

(** [loadVersion]: the offset of the first record, and the version. *)
Definition loadVersion : SegM Z :=
  s ← seg; fs ← disk;
  match seg_fd s with
  | None => throw LOGICAL_ERROR
  | Some fd =>
      let b := fs_pread (fd_ino fd) 9 0 fs in
      if negb (bool_decide (length b = 9%nat)) then throw CANNOT_READ_FROM_FILE_DESCRIPTOR
      else if le_combine (take 8 b) =? le_combine MAGIC then
        upd_seg (sg_version (version_of (le_combine (drop 8 b))));; mret 9
      else upd_seg (sg_version V0);; mret 0
  end.

(** The loop over the records: the offsets found, the end of the last whole
    record, and the result. A record is at least its header, so the length of the
    file is enough fuel. *)
Fixpoint scan (fuel : nat) (ino : nat) (off size : Z) (fs : Disk) : list (Z * Z) * Z * Z :=
  match fuel with
  | O => ([], off, 0)
  | S fuel =>
      if off <? size then
        match loadHeader ino off fs with
        | None => ([], off, -1)
        | Some h =>
            let skip_len := HEADER_SIZE + h_length h in
            if u64 (off + skip_len) >? size then ([], off, -1)
            else
              let '(l, e, r) := scan fuel ino (u64 (off + skip_len)) size fs in
              ((off, h_term h) :: l, e, r)
        end
      else ([], off, 0)
  end.

Definition load : SegM Z :=
  rc ← openFile;
  if negb (rc =? 0) then mret (-1)
  else
    s ← seg; fs ← disk;
    match seg_fd s with
    | None => crash
    | Some fd =>
        let size := fs_size (fd_ino fd) fs in
        upd_seg (sg_size size);;
        off ← loadVersion;
        let '(found, entry_off, ret) := scan (S (Z.to_nat size)) (fd_ino fd) off size fs in
        upd_seg (λ s, sg_offs (offset_term s ++ found) s);;
        let actual_last := u64 (first_index s - 1 + Z.of_nat (length found)) in
        let ret := if (ret =? 0) && negb (is_open s) && negb (actual_last =? last_index s) then -1 else ret in
        if negb (ret =? 0) then mret ret
        else
          upd_seg (λ s, if is_open s then sg_last actual_last s else s);;
          (if negb (entry_off =? size) then upd_fs (fs_ftruncate (fd_ino fd) entry_off) else mret tt);;
          upd_seg (sg_size entry_off);;
          upd_seg (λ s, if is_open s then sg_fd (Some (mkFd (fd_ino fd) entry_off)) s else s);;
          mret ret
    end.
