(* ===== verification/LogSegmentInv.v ===== *)
(** * What a log segment holds: invariant and methods of NuRaftLogSegment

    [seg_ok d s es] says that the file of the segment [s] holds exactly the
    entries [es], record by record, and that the tables in memory agree with the
    file. Appending, reading, truncating, closing and loading are specified
    against it. *)

From coqutil Require Import Word.LittleEndianList Byte.
From S2P Require Import Prelude Types ZkIO KeeperPaths Crc32 FileSystem LogSegment.
From stdpp Require Import base gmap sets strings option pretty list.
From Stdlib Require Import ZArith Lia Ascii.
Open Scope Z_scope.

(** ** The bytes of entries *)

Definition entry_ok (e : log_entry) : Prop :=
  in_u 64 (le_term e) ∧ in_u 8 (le_type e) ∧ Z.of_nat (length (le_data e)) + 1 < 2 ^ 32.

Definition record_header (index : Z) (e : log_entry) : LogEntryHeader :=
  mkHeader (le_term e) index (Z.of_nat (length (serializeEntry e))) (getCRC32 (serializeEntry e)).
Definition record_bytes (index : Z) (e : log_entry) : bytes :=
  write_header (record_header index e) ++ serializeEntry e.
Arguments record_bytes : simpl never.
Definition record_size (e : log_entry) : Z := HEADER_SIZE + 1 + Z.of_nat (length (le_data e)).

Fixpoint records (index : Z) (es : list log_entry) : bytes :=
  match es with
  | [] => []
  | e :: es => record_bytes index e ++ records (index + 1) es
  end.

Fixpoint offsets (off : Z) (es : list log_entry) : list (Z * Z) :=
  match es with
  | [] => []
  | e :: es => (off, le_term e) :: offsets (off + record_size e) es
  end.

Definition file_header : bytes := MAGIC ++ le_split 1 (version_code CURRENT_LOG_VERSION).
Definition seg_bytes (first : Z) (es : list log_entry) : bytes := file_header ++ records first es.
Arguments file_header : simpl never.
Definition records_size (es : list log_entry) : Z := foldr (λ e n, record_size e + n) 0 es.

Lemma length_serializeEntry e : length (serializeEntry e) = S (length (le_data e)).
Proof. unfold serializeEntry. by rewrite length_app, length_le_split. Qed.

Lemma length_write_header h : length (write_header h) = 24%nat.
Proof. unfold write_header. by rewrite !length_app, !length_le_split. Qed.

Lemma length_record_bytes index e : Z.of_nat (length (record_bytes index e)) = record_size e.
Proof.
  unfold record_bytes, record_size, HEADER_SIZE.
  rewrite length_app, length_write_header, length_serializeEntry. lia.
Qed.

Lemma length_records index es : Z.of_nat (length (records index es)) = records_size es.
Proof.
  revert index. induction es as [|e es IH]; intros index; cbn [records records_size foldr]; [done|].
  rewrite length_app, Nat2Z.inj_add, length_record_bytes, IH. done.
Qed.

Lemma records_size_nonneg es : 0 <= records_size es.
Proof. rewrite <-(length_records 0). lia. Qed.

Lemma records_app index es es' :
  records index (es ++ es') = records index es ++ records (index + Z.of_nat (length es)) es'.
Proof.
  revert index. induction es as [|e es IH]; intros index; cbn [records app length].
  - f_equal. lia.
  - rewrite IH, <-(assoc_L (++)). do 3 f_equal. lia.
Qed.

Lemma records_size_app es es' : records_size (es ++ es') = records_size es + records_size es'.
Proof. induction es as [|e es IH]; simpl; [lia|]. rewrite IH. lia. Qed.

Lemma offsets_app off es es' : offsets off (es ++ es') = offsets off es ++ offsets (off + records_size es) es'.
Proof.
  revert off. induction es as [|e es IH]; intros off; simpl; [f_equal; lia|]. rewrite IH. do 3 f_equal. lia.
Qed.

Lemma length_offsets off es : length (offsets off es) = length es.
Proof. revert off. induction es; intros off; simpl; congruence. Qed.

Lemma length_seg_bytes first es : Z.of_nat (length (seg_bytes first es)) = 9 + records_size es.
Proof. unfold seg_bytes. rewrite length_app, Nat2Z.inj_add, length_records. done. Qed.

Lemma offsets_lookup off es i e :
  es !! i = Some e → offsets off es !! i = Some (off + records_size (take i es), le_term e).
Proof.
  intros Hi. rewrite <-(take_drop_middle es i e Hi) at 1. rewrite offsets_app.
  rewrite lookup_app_r; rewrite length_offsets, length_take_le by (apply lookup_lt_Some in Hi; lia); [|lia].
  rewrite Nat.sub_diag. done.
Qed.

Lemma take_offsets off es i : take i (offsets off es) = offsets off (take i es).
Proof. revert off i. induction es as [|e es IH]; intros off [|i]; simpl; try done. by rewrite IH. Qed.

(** ** Headers *)

Lemma split_combine n z : 0 <= z < 2 ^ (8 * Z.of_nat n) → le_combine (le_split n z) = z.
Proof. intros Hz. rewrite le_combine_split. apply Z.mod_small. by rewrite Z.mul_comm in Hz. Qed.

Lemma getCRC32_range b : 0 <= getCRC32 b < 2 ^ 32.
Proof.
  unfold getCRC32. case_bool_decide; [lia|].
  pose proof (foldl_crc_range b 0 ltac:(lia)) as Hc. split; [apply Z.lxor_nonneg; lia|].
  apply shiftr_zero; [lia|apply Z.lxor_nonneg; lia|]. rewrite Z.shiftr_lxor.
  by rewrite (proj1 (shiftr_zero (foldl crc_update 0 b) 32 ltac:(lia) ltac:(lia))) by lia.
Qed.

Lemma read_write_header h rest :
  in_u 64 (h_term h) → in_u 64 (h_index h) → in_u 32 (h_length h) → in_u 32 (h_crc h) →
  read_header (take 24 (write_header h ++ rest)) = h.
Proof.
  intros H1 H2 H3 H4.
  rewrite take_app_length' by (by rewrite length_write_header).
  unfold read_header, write_header.
  rewrite (take_app_length' (le_split 8 (h_term h)) _ 8) by (by rewrite length_le_split).
  rewrite (drop_app_length' (le_split 8 (h_term h)) _ 8) by (by rewrite length_le_split).
  rewrite (take_app_length' (le_split 8 (h_index h)) _ 8) by (by rewrite length_le_split).
  rewrite (assoc_L (++) (le_split 8 (h_term h))).
  rewrite (drop_app_length' (le_split 8 (h_term h) ++ le_split 8 (h_index h)) _ 16)
    by (by rewrite length_app, !length_le_split).
  rewrite (take_app_length' (le_split 4 (h_length h)) _ 4) by (by rewrite length_le_split).
  rewrite (assoc_L (++) (le_split 8 (h_term h) ++ le_split 8 (h_index h))).
  rewrite (drop_app_length' (_ ++ le_split 4 (h_length h)) _ 20) by (by rewrite !length_app, !length_le_split).
  rewrite firstn_all2 by (by rewrite length_le_split).
  rewrite !split_combine by (unfold in_u in *; simpl; lia). by destruct h.
Qed.

Lemma record_header_ok index e :
  entry_ok e → in_u 64 index →
  in_u 64 (h_term (record_header index e)) ∧ in_u 64 (h_index (record_header index e)) ∧
  in_u 32 (h_length (record_header index e)) ∧ in_u 32 (h_crc (record_header index e)).
Proof.
  intros (Ht & _ & Hl) Hi. cbn [record_header h_term h_index h_length h_crc]. rewrite length_serializeEntry. split_and!; try done.
  - unfold in_u. lia.
  - apply getCRC32_range.
Qed.

Lemma parse_serialize e : in_u 8 (le_type e) → parseEntry (serializeEntry e) (le_term e) = Ret e.
Proof.
  intros Hty. destruct e as [t ty data]. unfold parseEntry, serializeEntry. simpl. do 2 f_equal.
  rewrite byte.unsigned_of_Z. by apply Z.mod_small.
Qed.

(** ** Reading a record of a file *)

Lemma pread_at ino b pre mid post n off d :
  fs_content ino d = b → b = pre ++ mid ++ post → off = Z.of_nat (length pre) → n = Z.of_nat (length mid) →
  fs_pread ino n off d = mid.
Proof.
  intros Hc -> -> ->. unfold fs_pread. rewrite Hc, !Nat2Z.id, drop_app_length, take_app_length. done.
Qed.

Lemma loadHeader_at ino d pre index e rest :
  fs_content ino d = pre ++ write_header (record_header index e) ++ rest → entry_ok e → in_u 64 index →
  loadHeader ino (Z.of_nat (length pre)) d = Some (record_header index e).
Proof.
  intros Hc He Hi. unfold loadHeader.
  rewrite (pread_at ino _ pre (write_header (record_header index e)) rest _ _ d Hc); [|done|done|by rewrite length_write_header].
  rewrite length_write_header, bool_decide_eq_true_2 by done. f_equal.
  destruct (record_header_ok index e He Hi) as (? & ? & ? & ?).
  rewrite <-(read_write_header (record_header index e) []) at 2 by done.
  rewrite app_nil_r, firstn_all2 by (by rewrite length_write_header). done.
Qed.

Lemma loadHeader_record ino d pre index e post :
  fs_content ino d = pre ++ record_bytes index e ++ post → entry_ok e → in_u 64 index →
  loadHeader ino (Z.of_nat (length pre)) d = Some (record_header index e).
Proof. intros Hc. apply (loadHeader_at _ _ _ _ _ (serializeEntry e ++ post)). rewrite Hc. unfold record_bytes. by rewrite <-(assoc_L (++)). Qed.

Lemma loadEntry_record ino d pre index e post :
  fs_content ino d = pre ++ record_bytes index e ++ post → entry_ok e → in_u 64 index →
  loadEntry ino (Z.of_nat (length pre)) d = Ret (Some e).
Proof.
  intros Hc He Hi. unfold loadEntry. rewrite (loadHeader_record _ _ _ _ _ _ Hc He Hi).
  cbn [record_header h_term h_index h_length h_crc].
  rewrite (pread_at ino _ (pre ++ write_header (record_header index e)) (serializeEntry e) post _ _ d Hc);
    [|by unfold record_bytes; rewrite <-!(assoc_L (++))
     |rewrite length_app, length_write_header; unfold HEADER_SIZE; lia|done].
  rewrite bool_decide_eq_true_2 by done. unfold verifyCRC32. rewrite Z.eqb_refl. cbn [negb].
  by rewrite parse_serialize by apply He.
Qed.

(** ** File names *)

Definition open_name (first : Z) (time : string) : string :=
  ("log_" +:+ pretty first +:+ "_open_" +:+ time)%string.
Definition finish_name (first last : Z) (time : string) : string :=
  ("log_" +:+ pretty first +:+ "_" +:+ pretty last +:+ "_" +:+ time)%string.

Lemma pretty_digits n :
  0 <= n → dec_val 0 (pretty n) = n ∧ all_digits (pretty n) = true ∧ pretty n ≠ "".
Proof.
  intros Hn. rewrite pretty_nonneg by done. case_decide; [by subst|].
  destruct (pretty_N_go_spec (Z.to_N n) "") as [E D]. split_and!; [rewrite E; simpl; lia|by apply D|].
  intros Hnil. rewrite Hnil in E. simpl in E. lia.
Qed.

(** The leading digits of a string and the rest. *)
Fixpoint span_digits (s : string) : string * string :=
  match s with
  | EmptyString => ("", "")
  | String c r =>
      if (0 <=? digit c) && (digit c <? 10) then let '(d, r) := span_digits r in (String c d, r)
      else ("", s)
  end.

Lemma span_digits_app a c r :
  all_digits a = true → (0 <=? digit c) && (digit c <? 10) = false →
  span_digits (a +:+ String c r)%string = (a, String c r).
Proof.
  intros Ha Hc. induction a as [|x a IH]; simpl in *; [by rewrite Hc|].
  apply andb_true_iff in Ha as [Hx Ha]. by rewrite Hx, (IH Ha).
Qed.

(** The number in a name is the first index of its segment. *)
Definition name_index (name : string) : Z :=
  match name with
  | String _ (String _ (String _ (String _ r))) => dec_val 0 (span_digits r).1
  | _ => 0
  end.

Lemma open_name_index first time : 0 <= first → name_index (open_name first time) = first.
Proof.
  intros Hf. destruct (pretty_digits first Hf) as (E & D & _). 
  change (dec_val 0 (span_digits (pretty first +:+ String "_"%char ("open_" +:+ time))%string).1 = first).
  by rewrite (span_digits_app _ "_"%char) by done.
Qed.
Lemma finish_name_index first last time : 0 <= first → name_index (finish_name first last time) = first.
Proof.
  intros Hf. destruct (pretty_digits first Hf) as (E & D & _). 
  change (dec_val 0 (span_digits (pretty first +:+ String "_"%char (pretty last +:+ "_" +:+ time))%string).1 = first).
  by rewrite (span_digits_app _ "_"%char) by done.
Qed.

Lemma finish_name_inj first last t1 t2 : finish_name first last t1 = finish_name first last t2 → t1 = t2.
Proof. intros H. unfold finish_name in H. by repeat apply (inj (String.append _)) in H. Qed.

(** The time in a name is a word, as [sscanf] reads one with [%s]. *)
Definition is_space (c : Ascii.ascii) : bool :=
  let n := Ascii.N_of_ascii c in (bool_decide (n = 32) || (bool_decide (9 <= n) && bool_decide (n <= 13)))%N.
Fixpoint no_space (s : string) : bool :=
  match s with
  | EmptyString => true
  | String c s => negb (is_space c) && no_space s
  end.
Definition word (t : string) : Prop := t ≠ "" ∧ no_space t = true.

Definition name_ok (s : Segment) : Prop :=
  if is_open s then word (create_time s) ∧ file_name s = getOpenFileName s
  else ∃ time, word time ∧ file_name s = finish_name (first_index s) (last_index s) time.

(** ** The invariant *)

Record seg_ok (d : Disk) (s : Segment) (ino : nat) (es : list log_entry) : Prop := {
  so_first : 1 <= first_index s;
  so_last : last_index s = first_index s + Z.of_nat (length es) - 1;
  so_fit : first_index s + Z.of_nat (length es) < 2 ^ 64 ∧ 9 + records_size es < 2 ^ 63;
  so_entries : Forall entry_ok es;
  so_file : has_file d (file_name s) ino (seg_bytes (first_index s) es);
  so_size : file_size s = 9 + records_size es;
  so_offs : offset_term s = offsets 9 es;
  so_version : seg_version s = Some V1;
  so_fd : match seg_fd s with
          | None => is_open s = false
          | Some fd => fd_ino fd = ino ∧ (is_open s = true → fd_pos fd = file_size s)
          end;
  so_name : name_ok s
}.

Lemma seg_ok_index d s ino es : seg_ok d s ino es → name_index (file_name s) = first_index s.
Proof.
  intros Hs. pose proof (so_first _ _ _ _ Hs). pose proof (so_name _ _ _ _ Hs) as Hn.
  unfold name_ok in Hn. destruct (is_open s).
  - destruct Hn as [_ ->]. apply open_name_index. lia.
  - destruct Hn as (t & _ & ->). apply finish_name_index. lia.
Qed.

Lemma seg_ok_getFileName d s ino es : seg_ok d s ino es → getFileName s = file_name s.
Proof.
  intros Hs. pose proof (so_name _ _ _ _ Hs) as Hn. unfold getFileName.
  rewrite bool_decide_eq_false_2; [done|]. intros E. unfold name_ok in Hn. rewrite E in Hn.
  destruct (is_open s); [by destruct Hn|]. by destruct Hn as (? & _ & ?).
Qed.

(** A segment only depends on its own file. *)
Lemma seg_ok_frame d d' s ino es :
  seg_ok d s ino es → (∀ b, has_file d (file_name s) ino b → has_file d' (file_name s) ino b) →
  seg_ok d' s ino es.
Proof. intros [] H. split; eauto. Qed.

(** ** Running the methods *)

Lemma seg_run {A} (k : Segment → SegM A) s d : (seg ≫= k) (s, d) = k s (s, d).
Proof. done. Qed.
Lemma disk_run {A} (k : Disk → SegM A) s d : (disk ≫= k) (s, d) = k d (s, d).
Proof. done. Qed.
Lemma upd_seg_run {A} f (k : unit → SegM A) s d : (upd_seg f ≫= k) (s, d) = k tt (f s, d).
Proof. done. Qed.
Lemma upd_fs_run {A} f (k : unit → SegM A) s d : (upd_fs f ≫= k) (s, d) = k tt (s, f d).
Proof. done. Qed.
Lemma lift_run {A B} (a : A) (k : A → SegM B) s d : (lift (Ret a) ≫= k) (s, d) = k a (s, d).
Proof. done. Qed.
Lemma ret_run {A B} (a : A) (k : A → SegM B) s d : (mret a ≫= k) (s, d) = k a (s, d).
Proof. done. Qed.

Ltac sg := repeat first [rewrite seg_run | rewrite disk_run | rewrite upd_seg_run | rewrite upd_fs_run
  | rewrite lift_run | rewrite ret_run].

Ltac seg_cbn := cbn [sg_last sg_size sg_offs sg_fd sg_version sg_open sg_name sg_time first_index last_index
  file_name create_time seg_fd file_size is_open offset_term seg_version fd_ino fd_pos].

Lemma openFile_spec d s ino es :
  seg_ok d s ino es →
  ∃ fd, openFile (s, d) = ((sg_fd (Some fd) s, d), Ret 0) ∧ fd_ino fd = ino ∧ seg_ok d (sg_fd (Some fd) s) ino es.
Proof.
  intros Hs. unfold openFile. sg. pose proof (so_fd _ _ _ _ Hs) as Hfd. destruct (seg_fd s) as [fd|] eqn:E.
  - exists fd. assert (sg_fd (Some fd) s = s) as -> by (destruct s; simpl in *; by rewrite E).
    split_and!; [done|apply Hfd|done].
  - sg. rewrite (seg_ok_getFileName _ _ _ _ Hs). unfold fs_open.
    rewrite (proj1 (so_file _ _ _ _ Hs)). simpl. sg. eexists. split_and!; [done|done|].
    destruct Hs. split; try done. simpl. split; [done|]. congruence.
Qed.

(** *** Appending *)

Lemma append_spec d s ino es e :
  seg_ok d s ino es → is_open s = true → entry_ok e →
  first_index s + Z.of_nat (length es) + 1 < 2 ^ 64 → 9 + records_size es + record_size e < 2 ^ 63 →
  ∃ s', appendEntry e (s, d) =
      ((s', fs_set_data ino (seg_bytes (first_index s) (es ++ [e])) d), Ret (first_index s + Z.of_nat (length es))) ∧
    seg_ok (fs_set_data ino (seg_bytes (first_index s) (es ++ [e])) d) s' ino (es ++ [e]) ∧
    is_open s' = true ∧ first_index s' = first_index s ∧ file_name s' = file_name s.
Proof.
  intros Hs Ho He H64 H63. pose proof Hs as [Hf Hl Hfit Hes Hfile Hsz Hoff Hv Hfd Hn].
  destruct (seg_fd s) as [fd|] eqn:Efd; [|congruence]. destruct Hfd as [<- Hpos]. specialize (Hpos Ho).
  assert (u32 (Z.of_nat (length (serializeEntry e))) = Z.of_nat (length (serializeEntry e))) as El.
  { apply wrap_u_id. destruct He as (_ & _ & He). rewrite length_serializeEntry. unfold in_u. lia. }
  assert (u64 (last_index s + 1) = first_index s + Z.of_nat (length es)) as Ei.
  { rewrite Hl. rewrite wrap_u_id; [lia|]. unfold in_u. lia. }
  unfold appendEntry. sg. rewrite Ho, Efd. cbn [negb]. rewrite El, Nat2Z.id, firstn_all, Ei.
  unfold write_fd. rewrite bind_assoc. sg.
  change (write_header _ ++ serializeEntry e) with (record_bytes (first_index s + Z.of_nat (length es)) e).
  rewrite (write_append fd _ _ _ _ Hfile) by (by rewrite Hpos, Hsz, length_seg_bytes). cbv iota beta.
  rewrite bind_assoc. sg.
  assert (seg_bytes (first_index s) es ++ record_bytes (first_index s + Z.of_nat (length es)) e
    = seg_bytes (first_index s) (es ++ [e])) as Eb.
  { unfold seg_bytes. rewrite records_app. cbn [records]. by rewrite app_nil_r, (assoc_L (++)). }
  rewrite Eb.
  eexists. split; [reflexivity|]. split; [|done].
  assert (records_size (es ++ [e]) = records_size es + record_size e) as Er.
  { rewrite records_size_app. simpl. lia. }
  assert (u64 (file_size s + HEADER_SIZE + Z.of_nat (length (serializeEntry e))) = 9 + records_size (es ++ [e])) as Es.
  { rewrite Hsz, length_serializeEntry, Er. unfold record_size in *. pose proof (records_size_nonneg es).
    rewrite wrap_u_id; unfold in_u, HEADER_SIZE in *; lia. }
  split; seg_cbn.
  - done.
  - rewrite Ei, length_app. simpl. lia.
  - rewrite length_app, Er. simpl. lia.
  - apply Forall_app. split; [done|]. by apply Forall_singleton.
  - by eapply set_data_file.
  - exact Es.
  - rewrite Hoff, offsets_app, Hsz. done.
  - done.
  - split; [done|]. intros _. rewrite Es. apply length_seg_bytes.
  - unfold name_ok in *. seg_cbn. by rewrite Ho in *.
Qed.

(** *** Reading *)

(** The entries of a segment by their index in the log. *)
Definition entry_of (first : Z) (es : list log_entry) (index : Z) : option log_entry :=
  if first <=? index then es !! Z.to_nat (index - first) else None.

Lemma getMeta_spec d s ino es index :
  seg_ok d s ino es →
  match entry_of (first_index s) es index with
  | None => getMeta index s = Ret None
  | Some e => ∃ len, getMeta index s =
      Ret (Some (mkMeta (9 + records_size (take (Z.to_nat (index - first_index s)) es)) len (le_term e)))
  end.
Proof.
  intros [Hf Hl Hfit _ _ _ Hoff _ _ _]. unfold entry_of, getMeta. rewrite Hl.
  assert (u64 (first_index s - 1) = first_index s - 1) as -> by (apply wrap_u_id; unfold in_u; lia).
  destruct (Z.leb_spec (first_index s) index) as [H1|H1].
  2:{ rewrite (proj2 (Z.ltb_lt index (first_index s))), orb_true_r by lia. done. }
  rewrite (proj2 (Z.ltb_ge index (first_index s))) by lia.
  destruct (es !! Z.to_nat (index - first_index s)) as [e|] eqn:E.
  - pose proof (lookup_lt_Some _ _ _ E) as Hlt.
    rewrite (proj2 (Z.eqb_neq _ _)), Z.gtb_ltb by lia.
    rewrite (proj2 (Z.ltb_ge _ _)) by lia. cbn [orb].
    rewrite Hoff, (offsets_lookup 9 es _ e E).
    destruct (Z.ltb_spec index (first_index s + Z.of_nat (length es) - 1)) as [H2|H2]; [|by eexists].
    destruct (lookup_lt_is_Some_2 es (S (Z.to_nat (index - first_index s)))) as [e' E']; [lia|].
    rewrite (offsets_lookup 9 es _ e' E'). by eexists.
  - apply lookup_ge_None in E. destruct (Z.eqb_spec (first_index s + Z.of_nat (length es) - 1) (first_index s - 1));
      [done|]. rewrite Z.gtb_ltb, (proj2 (Z.ltb_lt _ _)) by lia. done.
Qed.

Lemma records_middle first es i e :
  es !! i = Some e →
  records first es = records first (take i es) ++ record_bytes (first + Z.of_nat i) e
    ++ records (first + Z.of_nat i + 1) (drop (S i) es).
Proof.
  intros Hi. rewrite <-(take_drop_middle es i e Hi) at 1. rewrite records_app. cbn [records].
  rewrite length_take_le by (apply lookup_lt_Some in Hi; lia). done.
Qed.

Lemma get_spec d s ino es index :
  seg_ok d s ino es →
  ∃ fd, getEntry index (s, d) = ((sg_fd (Some fd) s, d), Ret (entry_of (first_index s) es index)) ∧
    seg_ok d (sg_fd (Some fd) s) ino es.
Proof.
  intros Hs. destruct (openFile_spec _ _ _ _ Hs) as (fd & E & Hino & Hs').
  exists fd. split; [|done]. unfold getEntry. rewrite (bind_Ret _ _ _ _ _ E). cbn [Z.eqb negb]. sg.
  pose proof (getMeta_spec _ _ _ _ index Hs') as Hm. cbn [sg_fd first_index seg_fd] in *.
  unfold entry_of in *. destruct (Z.leb_spec (first_index s) index) as [H1|H1]; [|rewrite Hm; done].
  destruct (es !! Z.to_nat (index - first_index s)) as [e|] eqn:Ee; [|rewrite Hm; done].
  destruct Hm as [len ->]. sg. cbn [lm_offset]. unfold lift. f_equal. rewrite Hino.
  set (i := Z.to_nat (index - first_index s)) in *.
  replace (9 + records_size (take i es)) with
    (Z.of_nat (length (file_header ++ records (first_index s) (take i es))))
    by (rewrite length_app, Nat2Z.inj_add, length_records; done).
  apply (loadEntry_record _ _ _ (first_index s + Z.of_nat i) e (records (first_index s + Z.of_nat i + 1) (drop (S i) es))).
  - rewrite (has_file_content _ _ _ _ (so_file _ _ _ _ Hs)). unfold seg_bytes.
    rewrite (records_middle _ _ _ _ Ee). by rewrite <-!(assoc_L (++)).
  - eapply Forall_lookup_1; [apply (so_entries _ _ _ _ Hs)|done].
  - apply lookup_lt_Some in Ee. pose proof (so_fit _ _ _ _ Hs). pose proof (so_first _ _ _ _ Hs). unfold in_u. lia.
Qed.

Lemma getTerm_spec d s ino es index :
  seg_ok d s ino es →
  getTerm index s = Ret (default 0 (le_term <$> entry_of (first_index s) es index)).
Proof.
  intros Hs. pose proof (getMeta_spec _ _ _ _ index Hs) as Hm. unfold getTerm.
  destruct (entry_of (first_index s) es index); [destruct Hm as [len ->]|rewrite Hm]; done.
Qed.

(** *** Truncating *)

Lemma openFile_file d s ino b :
  file_name s ≠ "" → has_file d (file_name s) ino b →
  (∀ fd, seg_fd s = Some fd → fd_ino fd = ino) →
  ∃ fd, openFile (s, d) = ((sg_fd (Some fd) s, d), Ret 0) ∧ fd_ino fd = ino.
Proof.
  intros Hn Hf Hfd. unfold openFile. sg. destruct (seg_fd s) as [fd|] eqn:E.
  - exists fd. split; [|by apply Hfd]. destruct s; simpl in *; by rewrite E.
  - sg. unfold getFileName. rewrite bool_decide_eq_false_2 by done. unfold fs_open. rewrite (proj1 Hf). simpl.
    sg. by eexists.
Qed.

Lemma seg_bytes_split first es k :
  seg_bytes first es = seg_bytes first (take k es) ++ records (first + Z.of_nat (length (take k es))) (drop k es).
Proof. unfold seg_bytes. rewrite <-(take_drop k es) at 1. by rewrite records_app, (assoc_L (++)). Qed.

Lemma records_size_take es k : 0 <= records_size (take k es) <= records_size es.
Proof.
  rewrite <-(take_drop k es) at 3. rewrite records_size_app.
  pose proof (records_size_nonneg (take k es)). pose proof (records_size_nonneg (drop k es)). lia.
Qed.

(** The segment opened for writing and cut to its first [k] entries. *)
Definition cut (k : nat) (ino : nat) (es : list log_entry) (s : Segment) : Segment :=
  let size := 9 + records_size (take k es) in
  sg_size size (sg_last (first_index s + Z.of_nat k - 1)
    (sg_offs (take k (offset_term s)) (sg_fd (Some (mkFd ino size)) s))).

Lemma cut_ok d s ino es k :
  1 <= first_index s → (k <= length es)%nat → first_index s + Z.of_nat (length es) < 2 ^ 64 →
  9 + records_size es < 2 ^ 63 → Forall entry_ok es → offset_term s = offsets 9 es → seg_version s = Some V1 →
  is_open s = true → word (create_time s) → file_name s = getOpenFileName s →
  has_file d (file_name s) ino (seg_bytes (first_index s) (take k es)) →
  seg_ok d (cut k ino es s) ino (take k es).
Proof.
  intros Hf Hk H64 H63 He Ho Hv Hop Hwd Hn Hfile. pose proof (records_size_take es k).
  assert (length (take k es) = k) as El by (by rewrite length_take_le).
  split; unfold cut; seg_cbn; try done.
  - by rewrite El.
  - rewrite El. lia.
  - by apply Forall_take.
  - by rewrite Ho, take_offsets.
  - unfold name_ok. seg_cbn. by rewrite Hop.
Qed.

(** What [truncate] does once the segment is open. *)
Lemma truncate_file d s ino es k name :
  has_file d name ino (seg_bytes (first_index s) es) →
  fs_ftruncate ino (9 + records_size (take k es)) d = fs_set_data ino (seg_bytes (first_index s) (take k es)) d.
Proof.
  intros Hf. rewrite (seg_bytes_split (first_index s) es k) in Hf.
  rewrite <-(length_seg_bytes (first_index s)). by apply (ftruncate_prefix _ _ _ _ _ Hf).
Qed.

(** The segment open for writing, under its open name. *)
Lemma reopen_spec d s ino es :
  fs_wf d → seg_ok d s ino es → (is_open s = false → file_name s = getFinishFileName s) →
  ∃ s1 d1 fd, fs_wf d1 ∧ is_open s1 = true ∧ first_index s1 = first_index s ∧
    offset_term s1 = offset_term s ∧ seg_version s1 = Some V1 ∧ word (create_time s1) ∧ file_name s1 = getOpenFileName s1 ∧
    has_file d1 (file_name s1) ino (seg_bytes (first_index s) es) ∧
    (∀ n i b, name_index n ≠ first_index s → i ≠ ino → has_file d n i b → has_file d1 n i b) ∧
    (∀ n, named d1 n → n = file_name s1 ∨ named d n ∧ n ≠ file_name s) ∧
    fd_ino fd = ino ∧
    ∀ (g : SegM Z), ((if negb (is_open s) then
           fs ← disk;
           match fs_rename (getFinishFileName s) (getOpenFileName s) fs with
           | None => throw FILE_NOT_FOUND
           | Some fs' =>
               upd_fs (λ _, fs');; upd_seg (λ s, sg_name (getOpenFileName s) s);; upd_seg (sg_open true)
           end
         else mret tt);; openFile;; g) (s, d) = g (sg_fd (Some fd) s1, d1).
Proof.
  intros Hw Hs Hnm. pose proof Hs as [Hf Hl Hfit Hes Hfile Hsz Hoff Hv Hfd Hn].
  unfold name_ok in Hn. destruct (is_open s) eqn:Ho.
  - destruct Hn as [Hwd Hn]. destruct (openFile_spec _ _ _ _ Hs) as (fd & E & Hino & _). exists s, d, fd. split_and!; try done.
    { intros n Hd. destruct (decide (n = file_name s)); auto. }
    intros g. cbn [negb]. sg. by rewrite (bind_Ret _ _ _ _ _ E).
  - specialize (Hnm eq_refl). destruct Hn as (time & Hwd & Hn). rewrite Hnm in Hfile, Hn.
    apply (finish_name_inj (first_index s) (last_index s)) in Hn as <-.
    destruct (rename_spec _ (getOpenFileName s) d ino _ Hw Hfile) as (d1 & Er & Hw1 & Hf1 & Hoth).
    set (s1 := sg_open true (sg_name (getOpenFileName s) s)).
    destruct (openFile_file d1 s1 ino _ ltac:(done) Hf1) as (fd & E & Hino).
    { intros fd Efd. simpl in Efd. rewrite Efd in Hfd. apply Hfd. }
    exists s1, d1, fd. split_and!; try done.
    + intros n i b Hni Hi. apply Hoth.
      * intros ->. destruct Hni. rewrite <-Hnm. by apply (seg_ok_index _ _ _ _ Hs).
      * intros ->. destruct Hni. apply open_name_index. lia.
    + intros n Hd. rewrite Hnm. by apply (rename_named _ _ _ _ _ Er).
    + intros g. cbn [negb]. rewrite bind_assoc. sg. rewrite Er. rewrite bind_assoc. sg. rewrite bind_assoc. sg.
      change (upd_seg _ ≫= ?kk) with (upd_seg (sg_open true) ≫= kk). sg. by rewrite (bind_Ret _ _ _ _ _ E).
Qed.

Lemma truncate_spec d s ino es kept :
  fs_wf d → seg_ok d s ino es → (is_open s = false → file_name s = getFinishFileName s) →
  first_index s - 1 <= kept < last_index s →
  ∃ s' d', truncate kept (s, d) = ((s', d'), Ret 0) ∧ fs_wf d' ∧
    seg_ok d' s' ino (take (Z.to_nat (kept + 1 - first_index s)) es) ∧
    is_open s' = true ∧ first_index s' = first_index s ∧
    (∀ n i b, name_index n ≠ first_index s → i ≠ ino → has_file d n i b → has_file d' n i b) ∧
    (∀ n, named d' n → n = file_name s' ∨ named d n ∧ n ≠ file_name s).
Proof.
  intros Hw Hs Hnm Hk. pose proof Hs as [Hf Hl Hfit Hes Hfile Hsz Hoff Hv Hfd Hn].
  set (k := Z.to_nat (kept + 1 - first_index s)).
  assert (k < length es)%nat as Hlt by lia. destruct (lookup_lt_is_Some_2 es k Hlt) as [e Ee].
  assert (u64 (kept + 1 - first_index s) = Z.of_nat k) as Ek.
  { rewrite wrap_u_id; [lia|]. unfold in_u. lia. }
  unfold truncate. sg. rewrite (proj2 (Z.leb_gt _ _)) by lia. rewrite Ek, Nat2Z.id, Hoff, (offsets_lookup 9 es k e Ee).
  destruct (reopen_spec d s ino es Hw Hs Hnm)
    as (s1 & d1 & fd & Hw1 & Ho1 & Hf1 & Hoff1 & Hv1 & Hwd1 & Hn1 & Hfile1 & Hoth & Hnames & Hino & Hrun).
  rewrite Hrun. sg. cbn [sg_fd seg_fd]. sg.
  exists (cut k ino es s1), (fs_set_data ino (seg_bytes (first_index s) (take k es)) d1). split_and!.
  - rewrite Hino, <-Hf1, (truncate_file d1 s1 ino es k (file_name s1)) by (by rewrite Hf1).
    unfold cut. rewrite Hf1. replace kept with (first_index s + Z.of_nat k - 1) by lia. done.
  - by apply set_data_wf.
  - eapply cut_ok; try done; rewrite ?Hf1, ?Hoff1; try done; try lia. by eapply set_data_file.
  - done.
  - done.
  - intros n i b Hni Hi Hb. apply set_data_other; [done|]. by apply Hoth.
  - done.
Qed.

(** *** Closing a full segment *)

Lemma close_spec d s ino es :
  fs_wf d → seg_ok d s ino es → is_open s = true →
  ∃ s' d', close true (s, d) = ((s', d'), Ret 0) ∧ fs_wf d' ∧ seg_ok d' s' ino es ∧
    is_open s' = false ∧ first_index s' = first_index s ∧ file_name s' = getFinishFileName s' ∧
    (∀ n i b, name_index n ≠ first_index s → has_file d n i b → has_file d' n i b) ∧
    (∀ n, named d' n → n = file_name s' ∨ named d n ∧ n ≠ file_name s).
Proof.
  intros Hw Hs Ho. pose proof Hs as [Hf Hl Hfit Hes Hfile Hsz Hoff Hv Hfd Hn]. unfold name_ok in Hn.
  rewrite Ho in Hn. destruct Hn as [Hwd Hn]. rewrite Hn in Hfile. destruct (rename_spec _ (getFinishFileName s) d ino _ Hw Hfile) as (d1 & Er & Hw1 & Hf1 & Hoth).
  unfold close. sg. rewrite Ho. cbn [negb]. unfold closeFile. rewrite bind_assoc. sg.
  change (getOpenFileName (sg_fd None s)) with (getOpenFileName s).
  change (getFinishFileName (sg_fd None s)) with (getFinishFileName s). rewrite Er. sg.
  eexists _, d1. split; [reflexivity|]. split_and!; try done.
  - split; try done. by exists (create_time s).
  - intros n i b Hni. apply Hoth; intros ->; destruct Hni; [apply open_name_index|apply finish_name_index]; lia.
  - intros n Hd. rewrite Hn. by apply (rename_named _ _ _ _ _ Er).
Qed.

(** *** A new segment *)

Lemma create_spec d first now :
  fs_wf d → 1 <= first < 2 ^ 64 → word now →
  let s := open_Segment first "" "" in
  if fs_exists (open_name first now) d
  then ∃ s', create now (s, d) = ((s', d), Ret (-1))
  else ∃ s' d', create now (s, d) = ((s', (fs_create (open_name first now) d).1), Ret 0) ∧
    writeFileHeader (s', (fs_create (open_name first now) d).1) = ((sg_size 9 (sg_fd (Some (mkFd (fs_next d) 9)) s'), d'), Ret tt) ∧
    fs_wf d' ∧ seg_ok d' (sg_size 9 (sg_fd (Some (mkFd (fs_next d) 9)) s')) (fs_next d) [] ∧
    is_open s' = true ∧ first_index s' = first ∧
    (∀ n i b, has_file d n i b → has_file d' n i b) ∧
    file_name s' = open_name first now ∧ (∀ n, named d' n → n = open_name first now ∨ named d n).
Proof.
  intros Hw Hf Hwd s. unfold create. sg. cbn [is_open open_Segment negb s]. sg.
  match goal with |- context [getOpenFileName ?x] => change (getOpenFileName x) with (open_name first now) end.
  destruct (fs_exists (open_name first now) d) eqn:Ex; [by eexists|].
  destruct (fs_create (open_name first now) d) as [d1 fd] eqn:Ec. sg.
  assert (fd = mkFd (fs_next d) 0) as -> by (unfold fs_create in Ec; by injection Ec as _ <-).
  assert (d1 = (fs_create (open_name first now) d).1) as Ed1 by (by rewrite Ec).
  pose proof (create_file (open_name first now) d) as Hfile. rewrite <-Ed1 in Hfile.
  set (s1 := sg_fd _ _). exists s1, (fs_set_data (fs_next d) file_header d1).
  split; [done|]. split; [|split_and!].
  - unfold writeFileHeader. sg. cbn [s1 s sg_fd is_open seg_fd seg_version negb sg_name sg_time open_Segment fst].
    unfold write_fd. rewrite bind_assoc. sg.
    rewrite (write_append (mkFd (fs_next d) 0) [] _ _ _ Hfile) by done. cbv iota beta. rewrite bind_assoc. sg.
    reflexivity.
  - rewrite Ed1. by apply set_data_wf, create_wf.
  - split; try done.
    + simpl. lia.
    + change (u64 (first - 1) = first + 0 - 1). assert (in_u 64 (first - 1)) by (unfold in_u; lia).
      rewrite wrap_u_id by done. lia.
    + simpl. lia.
    + by eapply set_data_file.
  - done.
  - done.
  - intros n i b Hb. apply set_data_other.
    + destruct Hb as [Hb _]. apply (fs_fresh _ Hw) in Hb. lia.
    + rewrite Ed1. by apply create_other.
  - done.
  - intros n Hd. rewrite Ed1 in Hd. by apply create_named in Hd.
Qed.

(** *** Loading *)

Lemma record_size_pos e : 25 <= record_size e.
Proof. unfold record_size, HEADER_SIZE. lia. Qed.

Lemma scan_spec fuel ino d pre index es :
  fs_content ino d = pre ++ records index es → Forall entry_ok es → (length es < fuel)%nat →
  0 <= index → index + Z.of_nat (length es) < 2 ^ 64 →
  let size := Z.of_nat (length pre) + records_size es in
  size < 2 ^ 63 →
  scan fuel ino (Z.of_nat (length pre)) size d = (offsets (Z.of_nat (length pre)) es, size, 0).
Proof.
  revert pre index es. induction fuel as [|fuel IH]; intros pre index es Hc He Hfu Hi H64 size Hsz; [lia|].
  destruct es as [|e es]; cbn [scan].
  { subst size. simpl in *. rewrite Z.add_0_r, Z.ltb_irrefl. done. }
  apply Forall_cons_1 in He as [He Hes]. pose proof (record_size_pos e). pose proof (records_size_nonneg es).
  cbn [length] in *. assert (size = Z.of_nat (length pre) + record_size e + records_size es) as Es.
  { subst size. simpl. lia. }
  rewrite (proj2 (Z.ltb_lt _ _)) by lia. cbn [records] in Hc.
  rewrite (loadHeader_record _ _ _ _ _ _ Hc He) by (unfold in_u; lia).
  cbn [record_header h_length h_term]. rewrite length_serializeEntry.
  replace (Z.of_nat (length pre) + (HEADER_SIZE + Z.of_nat (S (length (le_data e)))))
    with (Z.of_nat (length pre) + record_size e) by (unfold record_size; lia).
  rewrite wrap_u_id by (unfold in_u; lia). rewrite Z.gtb_ltb, (proj2 (Z.ltb_ge _ _)) by lia.
  specialize (IH (pre ++ record_bytes index e) (index + 1) es).
  rewrite length_app, Nat2Z.inj_add, length_record_bytes in IH. cbv zeta in IH. rewrite <-Es in IH.
  rewrite IH; [done|by rewrite <-(assoc_L (++))|done|lia..].
Qed.

Lemma records_size_length es : Z.of_nat (length es) <= records_size es.
Proof.
  induction es as [|e es IH]; [done|]. pose proof (record_size_pos e).
  change (records_size (e :: es)) with (record_size e + records_size es). cbn [length]. lia.
Qed.

(** The constructors of restored segments and their first offset. *)
Lemma load_spec d s ino es :
  1 <= first_index s → file_name s ≠ "" → has_file d (file_name s) ino (seg_bytes (first_index s) es) →
  seg_fd s = None → offset_term s = [] → Forall entry_ok es →
  first_index s + Z.of_nat (length es) < 2 ^ 64 → 9 + records_size es < 2 ^ 63 →
  (is_open s = false → last_index s = first_index s + Z.of_nat (length es) - 1) →
  name_ok s →
  ∃ s', load (s, d) = ((s', d), Ret 0) ∧ seg_ok d s' ino es ∧ is_open s' = is_open s ∧
    first_index s' = first_index s ∧ file_name s' = file_name s ∧ create_time s' = create_time s.
Proof.
  intros Hf Hne Hfile Hfd Hoff He H64 H63 Hlast Hn.
  destruct (openFile_file d s ino _ Hne Hfile) as (fd & E & Hino); [by rewrite Hfd|].
  unfold load. rewrite (bind_Ret _ _ _ _ _ E). cbn [Z.eqb negb]. sg. cbn [sg_fd seg_fd]. sg.
  assert (fs_size (fd_ino fd) d = 9 + records_size es) as Esz.
  { unfold fs_size. rewrite Hino, (has_file_content _ _ _ _ Hfile). apply length_seg_bytes. }
  rewrite Esz. unfold loadVersion. rewrite bind_assoc. sg. rewrite bind_assoc. sg.
  cbn [sg_size sg_fd seg_fd first_index is_open last_index].
  rewrite (pread_at (fd_ino fd) (seg_bytes (first_index s) es) [] file_header (records (first_index s) es) 9 0 d);
    [|by rewrite Hino; apply (has_file_content _ _ _ _ Hfile)|done..].
  change (bool_decide (length file_header = 9%nat)) with true. cbn [negb].
  change (le_combine (take 8 file_header) =? le_combine MAGIC) with true. cbv iota. rewrite bind_assoc. sg.
  change (version_of (le_combine (drop 8 file_header))) with V1.
  assert (scan (S (Z.to_nat (9 + records_size es))) (fd_ino fd) 9 (9 + records_size es) d =
    (offsets 9 es, 9 + records_size es, 0)) as ->.
  { pose proof (records_size_length es).
    apply (scan_spec _ (fd_ino fd) d file_header (first_index s) es); try done; try lia.
    rewrite Hino. apply (has_file_content _ _ _ _ Hfile). }
  sg.
  rewrite length_offsets. replace (first_index s - 1 + Z.of_nat (length es)) with (first_index s + Z.of_nat (length es) - 1) by lia.
  rewrite (wrap_u_id 64 (first_index s + _ - 1)) by (unfold in_u; lia).
  assert ((is_open s = true ∨ last_index s = first_index s + Z.of_nat (length es) - 1)) as Hol
    by (destruct (is_open s); auto).
  destruct (is_open s) eqn:Ho; cbn [negb andb Z.eqb].
  - sg. rewrite Z.eqb_refl. cbn [negb]. sg. seg_cbn. rewrite ?Ho. seg_cbn. rewrite ?Ho. cbv iota.
    eexists. split; [reflexivity|]. split_and!; try done.
    split; seg_cbn; rewrite ?Ho; try done; [by rewrite Hoff|]. unfold name_ok in *. seg_cbn. by rewrite Ho in *.
  - rewrite (Hlast eq_refl), !Z.eqb_refl. cbn [negb andb Z.eqb]. sg.
    rewrite ?Z.eqb_refl. cbn [negb]. sg. seg_cbn. rewrite ?Ho. seg_cbn. rewrite ?Ho. cbv iota.
    eexists. split; [reflexivity|]. split_and!; try done.
    split; seg_cbn; rewrite ?Ho; try done; [by apply Hlast|by rewrite Hoff].
Qed.
