(* ===== verification/LogStore.v ===== *)
(** * The segmented log: the class LogSegmentStore of
      src/Service/NuRaftLogSegment.{h,cpp}

    Closed segments in the order of their indices and at most one open segment,
    which takes the new entries. The methods are computations over the members
    of the class and the directory; a method of a segment runs on the segment in
    place. [now] is the text of the current time, which names new files.

    Restored file names are scanned as [sscanf] does for the names the program
    itself writes: signs and blanks in the numbers are not recognised. *)

From S2P Require Import Prelude Types ZkIO KeeperPaths Crc32 FileSystem LogSegment LogSegmentInv.
From stdpp Require Import base gmap sets strings option pretty sorting list.
From Stdlib Require Import ZArith Lia Ascii.
Open Scope Z_scope.

Record Store : Type := mkStore {
  first_log_index : Z;
  last_log_index : Z;
  max_log_size : Z;
  max_segment_count : Z;
  segments : list Segment;
  open_segment : option Segment
}.

Definition LogSegmentStore_new : Store := mkStore 1 0 0 0 [] None.

Definition ls_first (z : Z) (st : Store) : Store :=
  mkStore z (last_log_index st) (max_log_size st) (max_segment_count st) (segments st) (open_segment st).
Definition ls_last (z : Z) (st : Store) : Store :=
  mkStore (first_log_index st) z (max_log_size st) (max_segment_count st) (segments st) (open_segment st).
Definition ls_segments (l : list Segment) (st : Store) : Store :=
  mkStore (first_log_index st) (last_log_index st) (max_log_size st) (max_segment_count st) l (open_segment st).
Definition ls_open (o : option Segment) (st : Store) : Store :=
  mkStore (first_log_index st) (last_log_index st) (max_log_size st) (max_segment_count st) (segments st) o.

Abbreviation StoM := (ST (Store * Disk) exn).

Definition sto : StoM Store := fst <$> get.
Definition upd (f : Store → Store) : StoM unit := modify (λ '(st, d), (f st, d)).
Definition dir : StoM Disk := snd <$> get.

(** A method of the open segment, of a closed one, of one that is let go. *)
Definition on_open {A} (m : SegM A) : StoM A := λ '(st, d),
  match open_segment st with
  | None => ((st, d), Crash)
  | Some s => let '((s', d'), o) := m (s, d) in ((ls_open (Some s') st, d'), o)
  end.
Definition on_closed {A} (i : nat) (m : SegM A) : StoM A := λ '(st, d),
  match segments st !! i with
  | None => ((st, d), Crash)
  | Some s => let '((s', d'), o) := m (s, d) in ((ls_segments (<[i := s']> (segments st)) st, d'), o)
  end.
Definition on_released {A} (s : Segment) (m : SegM A) : StoM A := λ '(st, d),
  let '((_, d'), o) := m (s, d) in ((st, d'), o).

Fixpoint remove_all (ss : list Segment) : StoM unit :=
  match ss with
  | [] => mret tt
  | s :: ss => on_released s LogSegment.remove;; remove_all ss
  end.

(** ** Appending *)

(** The open segment stays while it is not too big and not of an old version. *)
Definition open_usable (st : Store) : outcome exn bool :=
  match open_segment st with
  | None => Ret false
  | Some s =>
      if file_size s <=? max_log_size st then
        match seg_version s with
        | None => Crash
        | Some v => Ret (version_code CURRENT_LOG_VERSION <=? version_code v)
        end
      else Ret false
  end.

(** A [catch (...)] around a computation. *)
Definition catch {A} (m : StoM A) (h : StoM A) : StoM A := λ x,
  match m x with (x', Throw _) => h x' | r => r end.

(** A new open segment behind the last entry. *)
Definition start_segment (now : string) : StoM Z :=
  st ← sto;
  upd (ls_open (Some (open_Segment (u64 (last_log_index st + 1)) "" "")));;
  rc ← on_open (create now);
  if negb (rc =? 0) then upd (ls_open None);; mret (-1)
  else catch (on_open writeFileHeader;; mret 0) (upd (ls_open None);; mret (-1)).

Definition openSegment (now : string) : StoM Z :=
  st ← sto;
  usable ← lift (open_usable st);
  if (usable : bool) then mret 0
  else
    (match open_segment st with
     | None => mret tt
     | Some _ =>
         on_open (close true);;
         upd (λ st, match open_segment st with
                    | Some s => ls_open None (ls_segments (segments st ++ [s]) st)
                    | None => st
                    end)
     end);;
    start_segment now.

(** The segment stores its index in [last_log_index] unless it failed. *)
Definition appendEntry (now : string) (e : log_entry) : StoM Z :=
  rc ← openSegment now;
  if negb (rc =? 0) then mret (u64 (-1))
  else
    i ← on_open (LogSegment.appendEntry e);
    (if i =? u64 (-1) then mret tt
     else upd (λ st, match open_segment st with Some s => ls_last (last_index s) st | None => st end));;
    mret i.

(** ** Reading *)

Inductive SegRef : Set := RefOpen | RefClosed (i : nat).

(** The loop over the closed segments keeps the last one that matches. *)
Fixpoint find_closed (index : Z) (i : nat) (ss : list Segment) : option nat :=
  match ss with
  | [] => None
  | s :: ss =>
      match find_closed index (S i) ss with
      | Some j => Some j
      | None => if (first_index s <=? index) && (index <=? last_index s) then Some i else None
      end
  end.

Definition getSegment (index : Z) (st : Store) : option SegRef :=
  if first_log_index st =? u64 (last_log_index st + 1) then None
  else if (index <? first_log_index st) || (index >? last_log_index st) then None
  else
    match open_segment st with
    | Some s => if first_index s <=? index then Some RefOpen else RefClosed <$> find_closed index 0 (segments st)
    | None => RefClosed <$> find_closed index 0 (segments st)
    end.

Definition on_ref {A} (r : SegRef) (m : SegM A) : StoM A :=
  match r with RefOpen => on_open m | RefClosed i => on_closed i m end.

Definition getEntry (index : Z) : StoM (option log_entry) :=
  st ← sto;
  match getSegment index st with
  | None => mret None
  | Some r => on_ref r (LogSegment.getEntry index)
  end.

Definition getTerm (index : Z) : StoM Z :=
  st ← sto;
  match getSegment index st with
  | None => mret 0
  | Some r => on_ref r (s ← seg; lift (LogSegment.getTerm index s))
  end.

(** [getVersion] dereferences the segment it did not find. *)
Definition getVersion (index : Z) : StoM LogVersion :=
  st ← sto;
  match getSegment index st with
  | None => crash
  | Some r => on_ref r (s ← seg; match seg_version s with Some v => mret v | None => crash end)
  end.

Fixpoint get_range (fuel : nat) (index : Z) : StoM (list (option log_entry)) :=
  match fuel with
  | O => mret []
  | S fuel => e ← getEntry index; l ← get_range fuel (index + 1); mret (e :: l)
  end.

Definition getEntries (start_index end_index : Z) : StoM (list (option log_entry)) :=
  get_range (Z.to_nat (end_index - start_index + 1)) start_index.

(** A missing entry is dereferenced. *)
Definition entry_size (e : log_entry) : Z := Z.of_nat (length (le_data e)) + 8 + 1.
Fixpoint range_ext (fuel : nat) (index hint get_size : Z) : StoM (list log_entry) :=
  match fuel with
  | O => mret []
  | S fuel =>
      e ← getEntry index;
      match e with
      | None => crash
      | Some e =>
          if hint <? get_size + entry_size e then mret []
          else l ← range_ext fuel (index + 1) hint (get_size + entry_size e); mret (e :: l)
      end
  end.

Definition getEntriesExt (start_index end_index hint : Z) : StoM (list log_entry) :=
  range_ext (Z.to_nat (end_index - start_index + 1)) start_index hint 0.

(** ** Truncating the tail *)

Definition holds (kept : Z) (s : Segment) : bool := (first_index s <=? kept) && (kept <=? last_index s).

(** The second half of [truncateLog]: the segment that holds the index is cut. *)
Definition truncateAt (last_segment : option SegRef) (last_index_kept : Z) : StoM Z :=
  match last_segment with
  | None => upd (ls_last last_index_kept);; mret 0
  | Some r =>
      ret ← on_ref r (LogSegment.truncate last_index_kept);
      if negb (ret =? 0) then mret ret
      else
        (match r with
         | RefOpen => mret tt
         | RefClosed i =>
             (* it was closed: when it is open now, it becomes the open segment *)
             upd (λ st, match segments st !! i with
                        | Some s => if is_open s
                                    then ls_open (Some s) (ls_segments (take (length (segments st) - 1) (segments st)) st)
                                    else st
                        | None => st
                        end)
         end);;
        upd (ls_last last_index_kept);;
        mret ret
  end.

(** [truncateLog]: the segments past the index go, the one that holds it is cut. *)
Definition truncateLog (last_index_kept : Z) : StoM Z :=
  st ← sto;
  if last_log_index st <=? last_index_kept then mret 0
  else
    let stay := filter (λ s, first_index s <= last_index_kept) (segments st) in
    let go := filter (λ s, ¬ first_index s <= last_index_kept) (segments st) in
    let open_goes := match open_segment st with Some s => last_index_kept <? first_index s | None => false end in
    let last_segment :=
      match open_segment st with
      | Some s => if negb open_goes && holds last_index_kept s then Some RefOpen
                  else RefClosed <$> find_closed last_index_kept 0 stay
      | None => RefClosed <$> find_closed last_index_kept 0 stay
      end in
    upd (λ st, ls_open (if open_goes then None else open_segment st) (ls_segments stay st));;
    remove_all (go ++ (if open_goes then option_list (open_segment st) else []));;
    truncateAt last_segment last_index_kept.

Definition writeAt (now : string) (index : Z) (e : log_entry) : StoM Z :=
  truncateLog (u64 (index - 1));;
  st ← sto;
  if index =? u64 (last_log_index st + 1) then appendEntry now e else mret (u64 (-1)).

(** ** Removing the head *)

Definition reset_last (first last : Z) : bool := (last =? 0) || (u64 (last - 1) <? first).

Fixpoint keep_from (kept first last : Z) (ss : list Segment) : list Segment * list Segment * Z * Z :=
  match ss with
  | [] => ([], [], first, last)
  | s :: ss =>
      if last_index s <? kept then
        let '(stay, go, first, last) := keep_from kept first last ss in (stay, s :: go, first, last)
      else
        let '(first, last) :=
          if first_index s <? first
          then (first_index s, if reset_last (first_index s) last then last_index s else last)
          else (first, last) in
        let '(stay, go, first, last) := keep_from kept first last ss in (s :: stay, go, first, last)
  end.

Definition removeSegment (first_index_kept : Z) : StoM Z :=
  st ← sto;
  if first_index_kept <=? first_log_index st then mret 0
  else
    let '(stay, go, first, last) := keep_from first_index_kept first_index_kept (last_log_index st) (segments st) in
    let '(open, go, first, last) :=
      match open_segment st with
      | None => (None, go, first, last)
      | Some s =>
          if last_index s <? first_index_kept then (None, go ++ [s], first, last)
          else if first_index s <? first
          then (Some s, go, first_index s, if reset_last (first_index s) last then last_index s else last)
          else (Some s, go, first, last)
      end in
    upd (λ st, ls_open open (ls_segments stay (ls_first first (ls_last last st))));;
    remove_all go;;
    upd (λ st, if reset_last (first_log_index st) (last_log_index st)
               then ls_last (u64 (first_log_index st - 1)) st else st);;
    mret 0.

(** [removeSegment()]: the number to remove is unsigned, so it is zero only when
    it is exactly zero; a front of an empty vector is undefined behaviour. *)
Definition by_first (a b : Segment) : Prop := first_index a <= first_index b.
#[export] Instance by_first_dec a b : Decision (by_first a b).
Proof. unfold by_first. apply _. Defined.

Definition removeOldSegments : StoM Z :=
  st ← sto;
  let remove_count := u32 (Z.of_nat (length (segments st)) + 1 - max_segment_count st) in
  if remove_count <=? 0 then mret 0
  else
    let sorted := merge_sort by_first (segments st) in
    if Z.of_nat (length sorted) <? remove_count then crash
    else
      let go := take (Z.to_nat remove_count) sorted in
      upd (λ st, ls_segments (drop (Z.to_nat remove_count) sorted)
                   (ls_first (match last go with Some s => u64 (last_index s + 1) | None => first_log_index st end) st));;
      remove_all go;;
      mret 0.

(** [reset]: the segments are forgotten, their files stay. *)
Definition reset (next_log_index : Z) : StoM Z :=
  if next_log_index <=? 0 then mret 22
  else
    upd (λ st, ls_last (u64 (next_log_index - 1)) (ls_first next_log_index (ls_open None (ls_segments [] st))));;
    mret 0.

(** ** Starting *)

(** [sscanf] of a literal, of [%lu] and of [%s]. *)
Fixpoint scan_literal (l s : string) : option string :=
  match l, s with
  | EmptyString, _ => Some s
  | String a l, String b s => if decide (a = b) then scan_literal l s else None
  | _, _ => None
  end.
Fixpoint skip_space (s : string) : string :=
  match s with
  | String c r => if is_space c then skip_space r else s
  | EmptyString => s
  end.
(** A sign is accepted; a value too large saturates. *)
Definition scan_number (s : string) : option (Z * string) :=
  let s := skip_space s in
  let '(negative, s) :=
    match s with
    | String c r => if bool_decide (c = "-"%char) then (true, r) else if bool_decide (c = "+"%char) then (false, r) else (false, s)
    | EmptyString => (false, s)
    end in
  let '(ds, r) := span_digits s in
  let v := dec_val 0 ds in
  if bool_decide (ds = "") then None
  else Some (if 2 ^ 64 - 1 <? v then 2 ^ 64 - 1 else if negative then u64 (- v) else v, r).
Fixpoint scan_word (s : string) : string :=
  match s with
  | EmptyString => ""
  | String c s => if is_space c then "" else String c (scan_word s)
  end.
Definition scan_time (s : string) : option string :=
  let w := scan_word (skip_space s) in if bool_decide (w = "") then None else Some w.

Definition scan_finish (name : string) : option (Z * Z * string) :=
  r ← scan_literal "log_" name; '(first, r) ← scan_number r;
  r ← scan_literal "_" r; '(last, r) ← scan_number r;
  r ← scan_literal "_" r; t ← scan_time r; Some (first, last, t).
Definition scan_open (name : string) : option (Z * string) :=
  r ← scan_literal "log_" name; '(first, r) ← scan_number r;
  r ← scan_literal "_open_" r; t ← scan_time r; Some (first, t).

(** The loop over the files; [None] on a second open segment. A name without
    "log_" is skipped, as one that neither format matches. *)
Fixpoint list_files (names : list string) (closed : list Segment) (open : option Segment)
    : option (list Segment * option Segment) :=
  match names with
  | [] => Some (closed, open)
  | name :: names =>
      match scan_finish name with
      | Some (first, last, _) => list_files names (closed ++ [closed_Segment first last name]) open
      | None =>
          match scan_open name with
          | Some (first, time) =>
              match open with
              | None => list_files names closed (Some (open_Segment first name time))
              | Some _ => None
              end
          | None => list_files names closed open
          end
      end
  end.

(** The check of the order of the segments never runs: [prev_seg] stays null. *)
Definition listSegments : StoM Z :=
  st ← sto; d ← dir;
  match list_files (map_to_list (fs_names d)).*1 (segments st) (open_segment st) with
  | None => mret (-1)
  | Some (closed, open) =>
      let sorted := merge_sort by_first closed in
      upd (λ st, ls_open open (ls_segments sorted st));;
      (match open with
       | None => mret tt
       | Some s =>
           upd (λ st, ls_last (last_index s)
                  (ls_first (match sorted with c :: _ => first_index c | [] => first_index s end) st))
       end);;
      mret (if bool_decide (Exists (λ s, last_index s < first_index s) sorted) then -1 else 0)
  end.

(** One closed segment after the other; a segment that fails is skipped. *)
Fixpoint load_closed (todo : list nat) : StoM unit :=
  match todo with
  | [] => mret tt
  | i :: todo =>
      ret ← on_closed i load;
      (if negb (ret =? 0) then mret tt
       else upd (λ st, match segments st !! i with
                       | Some s => if last_log_index st <? last_index s then ls_last (last_index s) st else st
                       | None => st
                       end));;
      load_closed todo
  end.

Definition loadSegments : StoM Z :=
  st ← sto;
  load_closed (seq 0 (length (segments st)));;
  ret ← match open_segment st with
        | None => mret 0
        | Some _ =>
            ret ← on_open load;
            if negb (ret =? 0) then mret ret
            else
              upd (λ st, match open_segment st with
                         | Some s => if last_index s <? first_log_index st then ls_open None st
                                     else ls_last (last_index s) st
                         | None => st
                         end);;
              mret 0
        end;
  if negb (ret =? 0) then mret ret
  else
    upd (λ st, if last_log_index st =? 0 then ls_last (u64 (first_log_index st - 1)) st else st);;
    mret 0.

Definition init (now : string) (max_log_size_ max_segment_count_ : Z) : StoM Z :=
  upd (λ st, mkStore 1 0 max_log_size_ max_segment_count_ (segments st) None);;
  ret ← listSegments;
  if negb (ret =? 0) then mret ret
  else
    ret ← loadSegments;
    if negb (ret =? 0) then mret ret
    else openSegment now.

(** ** Ending *)

Definition close_store : StoM Z :=
  st ← sto;
  match open_segment st with
  | None => mret 0
  | Some _ => on_open (close false);; upd (ls_open None);; mret 0
  end.

Definition flush_store : StoM Z :=
  st ← sto; match open_segment st with None => mret 0 | Some _ => on_open flush end.

Definition listFiles (st : Store) : list string :=
  getFileName <$> segments st ++ option_list (open_segment st).
