(* ===== verification/LogStoreInv.v ===== *)
(** * What the segmented log holds: invariant and methods of LogSegmentStore

    [store_ok d st ess eo] says that the closed segments hold the lists of
    entries [ess], the open one, if any, the list [eo], and that their indices
    follow each other. The log is their concatenation. *)

From S2P Require Import Prelude Types ZkIO KeeperPaths Crc32 FileSystem LogSegment LogSegmentInv LogStore.
From stdpp Require Import base gmap sets strings option pretty sorting list.
From Stdlib Require Import ZArith Lia.
Open Scope Z_scope.

Definition seg_of (d : Disk) (s : Segment) (es : list log_entry) : Prop := ∃ ino, seg_ok d s ino es.

(** All segments, the open one at the end. *)
Definition all_segments (st : Store) : list Segment := segments st ++ option_list (open_segment st).

Fixpoint chain (f : Z) (ss : list Segment) (ess : list (list log_entry)) : Prop :=
  match ss, ess with
  | [], [] => True
  | s :: ss, es :: ess => first_index s = f ∧ chain (f + Z.of_nat (length es)) ss ess
  | _, _ => False
  end.

Definition log_of (ess : list (list log_entry)) (eo : option (list log_entry)) : list log_entry :=
  mjoin (ess ++ option_list eo).

Record store_ok (d : Disk) (st : Store) (ess : list (list log_entry)) (eo : option (list log_entry)) : Prop := {
  sk_wf : fs_wf d;
  sk_segs : Forall2 (seg_of d) (all_segments st) (ess ++ option_list eo);
  sk_chain : chain (first_log_index st) (all_segments st) (ess ++ option_list eo);
  sk_len : length (segments st) = length ess;
  sk_closed : Forall (λ s, is_open s = false) (segments st);
  sk_open s : open_segment st = Some s → is_open s = true;
  sk_nonempty : Forall (λ es, es ≠ []) ess;
  sk_first : 1 <= first_log_index st;
  sk_last : last_log_index st = first_log_index st + Z.of_nat (length (log_of ess eo)) - 1;
  sk_fit : first_log_index st + Z.of_nat (length (log_of ess eo)) < 2 ^ 63;
  sk_max : 9 <= max_log_size st < 2 ^ 32;
  sk_tight n : named d n → n ∈ file_name <$> all_segments st
}.

(** ** Chains *)

Lemma chain_lookup f ss ess j s es :
  chain f ss ess → ss !! j = Some s → ess !! j = Some es →
  first_index s = f + Z.of_nat (length (mjoin (take j ess))).
Proof.
  revert f ss ess. induction j as [|j IH]; intros f [|s0 ss] [|es0 ess] Hc Hs He; simpl in *; try done.
  - simplify_eq. lia.
  - destruct Hc as [_ Hc]. rewrite (IH _ _ _ Hc Hs He), length_app. lia.
Qed.

Lemma chain_app f ss ess ss' ess' :
  length ss = length ess →
  chain f (ss ++ ss') (ess ++ ess') ↔
    chain f ss ess ∧ chain (f + Z.of_nat (length (mjoin ess))) ss' ess'.
Proof.
  revert f ess. induction ss as [|s ss IH]; intros f [|es ess] Hl; simpl in *; try done.
  - rewrite Z.add_0_r. naive_solver.
  - rewrite IH by lia. rewrite length_app, Nat2Z.inj_add, Z.add_assoc. naive_solver.
Qed.

Lemma chain_insert f ss ess j s s' es :
  chain f ss ess → ss !! j = Some s → ess !! j = Some es → first_index s' = first_index s →
  chain f (<[j := s']> ss) ess.
Proof.
  revert f ss ess. induction j as [|j IH]; intros f [|s0 ss] [|es0 ess] Hc Hs He Hf; simpl in *; try done.
  - simplify_eq. by rewrite Hf.
  - destruct Hc. eauto.
Qed.

Lemma mjoin_take_lt (ess : list (list log_entry)) i j :
  (i < j)%nat → (∀ k es, (k < j)%nat → ess !! k = Some es → es ≠ []) → (j <= length ess)%nat →
  (length (mjoin (take i ess)) < length (mjoin (take j ess)))%nat.
Proof.
  intros Hij Hne Hj. destruct (lookup_lt_is_Some_2 ess i) as [es He]; [lia|].
  assert (take i (take j ess) = take i ess) as Et by (rewrite take_take; f_equal; lia).
  assert (take j ess !! i = Some es) as He' by (by rewrite lookup_take_lt by lia).
  rewrite <-(take_drop_middle (take j ess) i es He'), join_app, length_app, Et. simpl. rewrite length_app.
  specialize (Hne i es Hij He). destruct es; [done|]. simpl. lia.
Qed.

(** Two segments start at different indices. *)
Lemma chain_first_ne f ss ess i j s1 s2 :
  chain f ss ess → length ss = length ess → (∀ k es, (S k < length ess)%nat → ess !! k = Some es → es ≠ []) →
  ss !! i = Some s1 → ss !! j = Some s2 → i ≠ j → first_index s1 ≠ first_index s2.
Proof.
  intros Hc Hl Hne Hi Hj Hij.
  assert (∀ a b sa sb, (a < b)%nat → ss !! a = Some sa → ss !! b = Some sb → first_index sa < first_index sb) as H.
  { intros a b sa sb Hab Ha Hb. pose proof (lookup_lt_Some _ _ _ Ha). pose proof (lookup_lt_Some _ _ _ Hb).
    destruct (lookup_lt_is_Some_2 ess a) as [ea Ea]; [lia|]. destruct (lookup_lt_is_Some_2 ess b) as [eb Eb]; [lia|].
    rewrite (chain_lookup _ _ _ _ _ _ Hc Ha Ea), (chain_lookup _ _ _ _ _ _ Hc Hb Eb).
    assert (length (mjoin (take a ess)) < length (mjoin (take b ess)))%nat; [|lia].
    apply mjoin_take_lt; [done| |lia]. intros k es Hk. apply Hne. lia. }
  destruct (Nat.lt_total i j) as [|[|]]; [|done|].
  - specialize (H _ _ _ _ H0 Hi Hj). lia.
  - specialize (H _ _ _ _ H0 Hj Hi). lia.
Qed.

Lemma entry_of_range f es index :
  is_Some (entry_of f es index) ↔ f <= index < f + Z.of_nat (length es).
Proof.
  unfold entry_of. destruct (Z.leb_spec f index).
  - rewrite lookup_lt_is_Some. lia.
  - split; [by intros []|lia].
Qed.

Lemma entry_of_cons f es ess index :
  f <= index < f + Z.of_nat (length es) → entry_of f (es ++ ess) index = entry_of f es index.
Proof.
  intros H. unfold entry_of. rewrite (proj2 (Z.leb_le _ _)) by lia. apply lookup_app_l. lia.
Qed.

Lemma entry_of_skip f es ess index :
  f + Z.of_nat (length es) <= index → entry_of f (es ++ ess) index = entry_of (f + Z.of_nat (length es)) ess index.
Proof.
  intros H. unfold entry_of. rewrite !(proj2 (Z.leb_le _ _)) by lia. rewrite lookup_app_r by lia. f_equal. lia.
Qed.

(** The segment that holds an index. *)
Lemma find_closed_spec d f ss ess index i :
  chain f ss ess → Forall2 (seg_of d) ss ess →
  (f <= index < f + Z.of_nat (length (mjoin ess)) →
     ∃ j s es, find_closed index i ss = Some (i + j)%nat ∧ ss !! j = Some s ∧ ess !! j = Some es ∧
       first_index s <= index <= last_index s ∧
       entry_of f (mjoin ess) index = entry_of (first_index s) es index) ∧
  (index < f ∨ f + Z.of_nat (length (mjoin ess)) <= index → find_closed index i ss = None).
Proof.
  intros Hc H2. revert f i Hc. induction H2 as [|s es ss ess [ino Hs] H2 IH]; intros f i Hc; simpl in *; [naive_solver lia|].
  destruct Hc as [Hf Hc]. destruct (IH _ (S i) Hc) as [IHin IHout]. pose proof (so_last _ _ _ _ Hs) as Hl.
  rewrite length_app. split.
  - intros Hr. destruct (decide (index < f + Z.of_nat (length es))) as [Hlt|Hge].
    + rewrite IHout by lia. rewrite (proj2 (Z.leb_le _ _)), (proj2 (Z.leb_le _ _)) by lia. simpl.
      exists 0%nat, s, es. split_and!; [f_equal; lia|done|done|lia|lia|]. rewrite Hf. apply entry_of_cons. lia.
    + destruct IHin as (j & s' & es' & -> & Hj1 & Hj2 & Hr' & He); [lia|].
      exists (S j), s', es'. split_and!; [f_equal; lia|done|done|lia|lia|]. rewrite entry_of_skip by lia. exact He.
  - intros Hr. rewrite IHout by lia.
    destruct Hr; [rewrite (proj2 (Z.leb_gt (first_index s) index)) by lia; done|].
    rewrite (proj2 (Z.leb_gt index (last_index s))) by lia. by rewrite andb_false_r.
Qed.

(** ** Running the methods *)

Lemma sto_run {A} (k : Store → StoM A) st d : (sto ≫= k) (st, d) = k st (st, d).
Proof. done. Qed.
Lemma dir_run {A} (k : Disk → StoM A) st d : (dir ≫= k) (st, d) = k d (st, d).
Proof. done. Qed.
Lemma upd_run {A} f (k : unit → StoM A) st d : (upd f ≫= k) (st, d) = k tt (f st, d).
Proof. done. Qed.
Lemma sret_run {A B} (a : A) (k : A → StoM B) st d : (mret a ≫= k) (st, d) = k a (st, d).
Proof. done. Qed.
Lemma slift_run {A B} (a : A) (k : A → StoM B) st d : (lift (Ret a) ≫= k) (st, d) = k a (st, d).
Proof. done. Qed.

Ltac sto_go := repeat first [rewrite sto_run | rewrite dir_run | rewrite upd_run | rewrite sret_run | rewrite slift_run].

Lemma on_open_run {A} (m : SegM A) st d s s' d' o :
  open_segment st = Some s → m (s, d) = ((s', d'), o) → on_open m (st, d) = ((ls_open (Some s') st, d'), o).
Proof. intros Ho Hm. unfold on_open. by rewrite Ho, Hm. Qed.

Lemma on_closed_run {A} (m : SegM A) i st d s s' d' o :
  segments st !! i = Some s → m (s, d) = ((s', d'), o) →
  on_closed i m (st, d) = ((ls_segments (<[i := s']> (segments st)) st, d'), o).
Proof. intros Ho Hm. unfold on_closed. by rewrite Ho, Hm. Qed.

(** ** Other segments *)

(** A segment changed its file: the others are as before. *)
Lemma seg_of_frame d d' f L E j k s ino es s2 es2 :
  fs_wf d → chain f L E → length L = length E → (∀ k es, (S k < length E)%nat → E !! k = Some es → es ≠ []) →
  L !! j = Some s → seg_ok d s ino es →
  (∀ n i b, name_index n ≠ first_index s → i ≠ ino → has_file d n i b → has_file d' n i b) →
  L !! k = Some s2 → k ≠ j → seg_of d s2 es2 → seg_of d' s2 es2.
Proof.
  intros Hw Hc Hl Hne Hj Hs Hfr Hk Hkj [ino2 Hs2]. exists ino2. eapply seg_ok_frame; [done|].
  pose proof (chain_first_ne _ _ _ _ _ _ _ Hc Hl Hne Hk Hj Hkj) as Hff.
  intros b Hb. apply Hfr; [|  |done].
  - by rewrite (seg_ok_index _ _ _ _ Hs2).
  - eapply (has_file_ne d _ _ _ _ _ _ Hw Hb (so_file _ _ _ _ Hs)). intros En.
    apply Hff. by rewrite <-(seg_ok_index _ _ _ _ Hs2), <-(seg_ok_index _ _ _ _ Hs), En.
Qed.

Lemma nonempty_prefix (ess : list (list log_entry)) eo k es :
  Forall (λ es, es ≠ []) ess → (S k < length (ess ++ option_list eo))%nat →
  (ess ++ option_list eo) !! k = Some es → es ≠ [].
Proof.
  intros Hn Hk He. rewrite length_app in Hk.
  assert (k < length ess)%nat as Hlt by (destruct eo; simpl in Hk; lia).
  rewrite lookup_app_l in He by done. by eapply (Forall_lookup_1 _ _ _ _ Hn).
Qed.

(** ** Reading *)

Lemma log_length d st ess eo :
  store_ok d st ess eo → u64 (last_log_index st + 1) = first_log_index st + Z.of_nat (length (log_of ess eo)).
Proof.
  intros Hk. rewrite (sk_last _ _ _ _ Hk). pose proof (sk_fit _ _ _ _ Hk). pose proof (sk_first _ _ _ _ Hk).
  rewrite wrap_u_id; [lia|]. unfold in_u. lia.
Qed.

(** The segment of a position among all segments. *)
Definition ref_of (st : Store) (j : nat) : SegRef :=
  if decide (j < length (segments st))%nat then RefClosed j else RefOpen.

Lemma all_segments_open st ess eo s d :
  store_ok d st ess eo → open_segment st = Some s →
  ∃ es, eo = Some es ∧ all_segments st !! length (segments st) = Some s ∧
    (ess ++ option_list eo) !! length (segments st) = Some es ∧ seg_of d s es ∧
    first_index s = first_log_index st + Z.of_nat (length (mjoin ess)).
Proof.
  intros Hk Ho. pose proof (sk_segs _ _ _ _ Hk) as H2. pose proof (sk_len _ _ _ _ Hk) as Hl.
  pose proof (sk_chain _ _ _ _ Hk) as Hc.
  unfold all_segments in *. rewrite Ho in *. simpl in *.
  pose proof (Forall2_length _ _ _ H2) as Hl2. rewrite !length_app in Hl2. simpl in Hl2.
  destruct eo as [es|]; simpl in *; [|lia]. exists es. rewrite Hl at 2.
  split_and!; [done|by rewrite lookup_app_r, Nat.sub_diag by lia|by rewrite lookup_app_r, Nat.sub_diag by lia| |].
  - apply Forall2_app_inv in H2 as [_ H2]; [|done]. by inversion H2.
  - apply (chain_app _ _ _ _ _ Hl) in Hc as [_ Hc]. apply Hc.
Qed.

Lemma getSegment_spec d st ess eo index :
  store_ok d st ess eo →
  match entry_of (first_log_index st) (log_of ess eo) index with
  | None => getSegment index st = None
  | Some e => ∃ j s es, getSegment index st = Some (ref_of st j) ∧ all_segments st !! j = Some s ∧
      (ess ++ option_list eo) !! j = Some es ∧ entry_of (first_index s) es index = Some e
  end.
Proof.
  intros Hk. unfold getSegment. rewrite (log_length _ _ _ _ Hk), (sk_last _ _ _ _ Hk).
  pose proof (entry_of_range (first_log_index st) (log_of ess eo) index) as Hr.
  destruct (entry_of (first_log_index st) (log_of ess eo) index) as [e|] eqn:Ee.
  2:{ destruct (Z.eqb_spec (first_log_index st) (first_log_index st + Z.of_nat (length (log_of ess eo)))); [done|].
      destruct (Z.ltb_spec index (first_log_index st)); [done|].
      rewrite Z.gtb_ltb, (proj2 (Z.ltb_lt _ _)); [done|].
      assert (¬ first_log_index st <= index < first_log_index st + Z.of_nat (length (log_of ess eo))); [|lia].
      rewrite <-Hr. by intros []. }
  assert (first_log_index st <= index < first_log_index st + Z.of_nat (length (log_of ess eo))) as Hin
    by (apply Hr; by eexists).
  rewrite (proj2 (Z.eqb_neq _ _)), (proj2 (Z.ltb_ge _ _)), Z.gtb_ltb, (proj2 (Z.ltb_ge _ _)) by lia. simpl.
  pose proof (sk_segs _ _ _ _ Hk) as H2. pose proof (sk_chain _ _ _ _ Hk) as Hc. pose proof (sk_len _ _ _ _ Hk) as Hl.
  assert (∀ e, entry_of (first_log_index st) (log_of ess eo) index = Some e →
    index < first_log_index st + Z.of_nat (length (mjoin ess)) → ∃ j s es,
    RefClosed <$> find_closed index 0 (segments st) = Some (ref_of st j) ∧ all_segments st !! j = Some s ∧
      (ess ++ option_list eo) !! j = Some es ∧ entry_of (first_index s) es index = Some e) as Hclosed.
  { intros e' Ee' Hlt. apply (chain_app _ _ _ _ _ Hl) in Hc as [Hc _].
    apply Forall2_app_inv in H2 as [H2 _]; [|done].
    destruct (proj1 (find_closed_spec d _ _ _ index 0 Hc H2)) as (j & s & es & -> & Hj1 & Hj2 & _ & He); [lia|].
    exists j, s, es. unfold ref_of. rewrite decide_True by (by eapply lookup_lt_Some).
    split_and!; [done|by apply lookup_app_l_Some|by apply lookup_app_l_Some|].
    rewrite <-He, <-Ee'. unfold log_of. rewrite join_app. symmetry. apply entry_of_cons. lia. }
  destruct (open_segment st) as [s|] eqn:Ho.
  - destruct (all_segments_open _ _ _ _ _ Hk Ho) as (es & -> & Hj1 & Hj2 & Hs & Hf).
    destruct (Z.leb_spec (first_index s) index) as [Hle|Hgt]; [|apply Hclosed; [done|lia]].
    exists (length (segments st)), s, es. unfold ref_of. rewrite decide_False by lia. split_and!; try done.
    rewrite <-Ee. unfold log_of. rewrite join_app. simpl. rewrite app_nil_r, entry_of_skip by lia. by rewrite <-Hf.
  - apply Hclosed; [done|]. enough (option_list eo = []) as E by (unfold log_of in Hin; rewrite E, app_nil_r in Hin; lia).
    unfold all_segments in H2. rewrite Ho in H2. simpl in H2. apply Forall2_length in H2. rewrite !length_app in H2.
    destruct eo; simpl in *; [lia|done].
Qed.

Definition replace_segment (st : Store) (j : nat) (s : Segment) : Store :=
  if decide (j < length (segments st))%nat then ls_segments (<[j := s]> (segments st)) st else ls_open (Some s) st.

Lemma on_ref_run {A} (m : SegM A) st d j s s' d' o :
  all_segments st !! j = Some s → m (s, d) = ((s', d'), o) →
  on_ref (ref_of st j) m (st, d) = ((replace_segment st j s', d'), o).
Proof.
  intros Hj Hm. unfold ref_of, replace_segment, all_segments in *. destruct (decide _) as [Hlt|Hge]; cbn [on_ref].
  - rewrite lookup_app_l in Hj by done. by erewrite on_closed_run.
  - rewrite lookup_app_r in Hj by lia. destruct (open_segment st) eqn:Ho; [|done].
    destruct (j - length (segments st))%nat; [|done]. simpl in Hj. simplify_eq. by erewrite on_open_run.
Qed.

Lemma all_segments_replace st j s s' :
  all_segments st !! j = Some s → all_segments (replace_segment st j s') = <[j := s']> (all_segments st).
Proof.
  intros Hj. unfold replace_segment, all_segments in *. destruct (decide _) as [Hlt|Hge]; simpl.
  - by rewrite insert_app_l.
  - rewrite lookup_app_r in Hj by lia. destruct (open_segment st) eqn:Ho; [|done].
    destruct (j - length (segments st))%nat eqn:Ej; [|done]. rewrite insert_app_r_alt by lia. by rewrite Ej.
Qed.

Lemma Forall2_insert_l {A B} (P : A → B → Prop) l k i x y :
  Forall2 P l k → k !! i = Some y → P x y → Forall2 P (<[i := x]> l) k.
Proof.
  intros H Hi Hp. revert i Hi. induction H; intros [|i] Hi; simpl in *; simplify_eq; constructor; auto.
Qed.

(** A segment replaced by one that holds the same, the directory unchanged. *)
Lemma store_replace d st ess eo j s s' es :
  store_ok d st ess eo → all_segments st !! j = Some s → (ess ++ option_list eo) !! j = Some es →
  seg_of d s' es → first_index s' = first_index s → is_open s' = is_open s → file_name s' = file_name s →
  store_ok d (replace_segment st j s') ess eo.
Proof.
  intros Hk Hj He Hs Hf Ho Hnm. pose proof Hk as [Hw H2 Hc Hl Hcl Hop Hne H1 Hla Hfi Hm Htg].
  assert (first_log_index (replace_segment st j s') = first_log_index st ∧
          last_log_index (replace_segment st j s') = last_log_index st ∧
          max_log_size (replace_segment st j s') = max_log_size st) as (E1 & E2 & E3)
    by (unfold replace_segment; by destruct (decide _)).
  split; rewrite ?E1, ?E2, ?E3; try done.
  - rewrite (all_segments_replace _ _ _ _ Hj). by eapply Forall2_insert_l.
  - rewrite (all_segments_replace _ _ _ _ Hj). by eapply chain_insert.
  - unfold replace_segment. destruct (decide _); simpl; by rewrite ?length_insert.
  - unfold replace_segment, all_segments in *. destruct (decide _) as [Hlt|]; simpl; [|done].
    apply Forall_insert; [done|]. rewrite Ho. rewrite lookup_app_l in Hj by done. by eapply (Forall_lookup_1 _ _ _ _ Hcl).
  - unfold replace_segment, all_segments in *. destruct (decide _) as [Hlt|Hge]; simpl; [done|].
    rewrite lookup_app_r in Hj by lia. destruct (open_segment st) as [so|] eqn:Eo; [|done].
    destruct (j - length (segments st))%nat; [|done]. simpl in Hj. simplify_eq. intros s0 [= <-]. rewrite Ho. by apply Hop.
  - intros n Hn. rewrite (all_segments_replace _ _ _ _ Hj), list_fmap_insert, Hnm.
    rewrite list_insert_id by (by rewrite list_lookup_fmap, Hj). auto.
Qed.

Lemma replace_segment_names st j s s' :
  all_segments st !! j = Some s → file_name s' = file_name s → create_time s' = create_time s →
  last_index s' = last_index s → first_index s' = first_index s →
  Forall (λ s, file_name s = getFinishFileName s) (segments st) →
  Forall (λ s, file_name s = getFinishFileName s) (segments (replace_segment st j s')).
Proof.
  intros Hj H1 H2 H3 H4 H. unfold replace_segment, all_segments in *. destruct (decide _) as [Hlt|]; [|done].
  apply Forall_insert; [done|]. rewrite lookup_app_l in Hj by done. pose proof (Forall_lookup_1 _ _ _ _ H Hj) as E.
  unfold getFinishFileName in *. simpl in *. by rewrite H1, H2, H3, H4.
Qed.

(** The closed segments are where their names say, as long as the server runs. *)
Definition renamable (st : Store) : Prop := Forall (λ s, file_name s = getFinishFileName s) (segments st).

Lemma store_get d st ess eo index :
  store_ok d st ess eo →
  ∃ st', getEntry index (st, d) = ((st', d), Ret (entry_of (first_log_index st) (log_of ess eo) index)) ∧
    store_ok d st' ess eo ∧ first_log_index st' = first_log_index st ∧ (renamable st → renamable st').
Proof.
  intros Hk. unfold getEntry. sto_go. pose proof (getSegment_spec _ _ _ _ index Hk) as Hg.
  destruct (entry_of (first_log_index st) (log_of ess eo) index) as [e|].
  - destruct Hg as (j & s & es & -> & Hj & He & Hent).
    pose proof (Forall2_lookup_lr _ _ _ _ _ _ (sk_segs _ _ _ _ Hk) Hj He) as [ino Hs].
    destruct (get_spec d s ino es index Hs) as (fd & E & Hs').
    exists (replace_segment st j (sg_fd (Some fd) s)). rewrite (on_ref_run _ _ _ _ _ _ _ _ Hj E), Hent. split_and!.
    + done.
    + eapply store_replace; try done. by exists ino.
    + unfold replace_segment. by destruct (decide _).
    + by apply (replace_segment_names st j s).
  - rewrite Hg. by exists st.
Qed.

Lemma replace_segment_id st j s : all_segments st !! j = Some s → replace_segment st j s = st.
Proof.
  intros Hj. unfold replace_segment, all_segments in *. destruct (decide _) as [Hlt|Hge].
  - rewrite lookup_app_l in Hj by done. rewrite list_insert_id by done. by destruct st.
  - rewrite lookup_app_r in Hj by lia. destruct (open_segment st) as [so|] eqn:Eo; [|done].
    apply list_lookup_singleton_Some in Hj as [_ ->]. destruct st; simpl in *; by subst.
Qed.

Lemma store_getTerm d st ess eo index :
  store_ok d st ess eo →
  getTerm index (st, d) =
    ((st, d), Ret (default 0 (le_term <$> entry_of (first_log_index st) (log_of ess eo) index))).
Proof.
  intros Hk. unfold getTerm. sto_go. pose proof (getSegment_spec _ _ _ _ index Hk) as Hg.
  destruct (entry_of (first_log_index st) (log_of ess eo) index) as [e|]; [|by rewrite Hg].
  destruct Hg as (j & s & es & -> & Hj & He & Hent).
  pose proof (Forall2_lookup_lr _ _ _ _ _ _ (sk_segs _ _ _ _ Hk) Hj He) as [ino Hs].
  etrans; [eapply on_ref_run; [exact Hj|]|by rewrite (replace_segment_id st j s Hj)].
  rewrite seg_run. unfold lift. by rewrite (getTerm_spec _ _ _ _ index Hs), Hent.
Qed.

(** ** Opening a segment *)

(** The invariant without the open segment: for stores between two segments. *)
(** The last segment has a new name, the directory follows. *)
Lemma tight_last d d' ss s s' :
  (∀ n, named d n → n ∈ file_name <$> ss ++ [s]) → (∀ n, named d' n → n = file_name s' ∨ named d n ∧ n ≠ file_name s) →
  ∀ n, named d' n → n ∈ file_name <$> ss ++ [s'].
Proof.
  intros Ht Hn n Hd. rewrite fmap_app, elem_of_app. destruct (Hn n Hd) as [->|[Hd' Hne]]; [right; by left|].
  apply Ht in Hd'. rewrite fmap_app, elem_of_app in Hd'. destruct Hd' as [?|Hd']; [by left|].
  apply list_elem_of_singleton in Hd'. done.
Qed.

Lemma store_ok_none d st ess : store_ok d st ess None → open_segment st = None.
Proof.
  intros Hk. destruct (open_segment st) as [s|] eqn:Ho; [|done].
  by destruct (all_segments_open _ _ _ _ _ Hk Ho) as (es & ? & _).
Qed.

(** The full open segment becomes the last closed one. *)
Lemma close_open d st ess es s :
  store_ok d st ess (Some es) → open_segment st = Some s → es ≠ [] →
  ∃ s' d', close true (s, d) = ((s', d'), Ret 0) ∧
    store_ok d' (ls_open None (ls_segments (segments st ++ [s']) st)) (ess ++ [es]) None ∧
    (renamable st → renamable (ls_open None (ls_segments (segments st ++ [s']) st))).
Proof.
  intros Hk Ho Hne. destruct (all_segments_open _ _ _ _ _ Hk Ho) as (es' & [= <-] & Hj & He & [ino Hs] & Hf).
  pose proof Hk as [Hw H2 Hc Hl Hcl Hop Hne' H1 Hla Hfi Hm Htg].
  destruct (close_spec d s ino es Hw Hs (Hop _ Ho)) as (s' & d' & E & Hw' & Hs' & Ho' & Hf' & Hn' & Hfr & Hnames).
  exists s', d'. split; [done|]. split.
  2:{ intros Hr. apply Forall_app. split; [done|]. by apply Forall_singleton. }
  assert (all_segments (ls_open None (ls_segments (segments st ++ [s']) st)) = segments st ++ [s']) as Ea
    by (unfold all_segments; simpl; by rewrite app_nil_r).
  unfold all_segments in H2, Hc, Htg. rewrite Ho in H2, Hc, Htg. simpl in H2, Hc.
  split; rewrite ?Ea; try done.
  - simpl. rewrite app_nil_r. apply Forall2_app; [|constructor; [by exists ino|constructor]].
    apply Forall2_same_length_lookup_2; [done|]. intros i si ei Hi Hei.
    eapply (seg_of_frame d d' _ (segments st ++ [s]) (ess ++ [es]) (length (segments st)) i); try done.
    + by eapply Forall2_length.
    + intros k ek. apply (nonempty_prefix ess (Some es) k ek Hne').
    + by rewrite lookup_app_r, Nat.sub_diag by lia.
    + intros n i0 b Hn _. by apply Hfr.
    + by apply lookup_app_l_Some.
    + apply lookup_lt_Some in Hi. lia.
    + apply (Forall2_lookup_lr _ _ _ i _ _ H2); by apply lookup_app_l_Some.
  - simpl. rewrite app_nil_r. apply chain_app in Hc as [Hc1 Hc2]; [|done]. apply chain_app; [done|].
    simpl in *. split; [done|]. by rewrite Hf'.
  - simpl. rewrite !length_app, Hl. done.
  - simpl. apply Forall_app. split; [done|]. by apply Forall_singleton.
  - apply Forall_app. split; [done|]. by apply Forall_singleton.
  - simpl. rewrite Hla. unfold log_of. simpl. by rewrite app_nil_r.
  - unfold log_of in *. simpl in *. by rewrite app_nil_r.
  - by apply (tight_last _ _ _ _ _ Htg).
Qed.

(** The name of the next segment is free. *)
Lemma open_name_free d st ess now :
  store_ok d st ess None → fs_exists (open_name (first_log_index st + Z.of_nat (length (log_of ess None))) now) d = false.
Proof.
  intros Hk. pose proof Hk as [Hw H2 Hc Hl Hcl Hop Hne H1 Hla Hfi Hm Htg]. apply not_named.
  intros (s & Hn & [j Hj]%list_elem_of_lookup)%Htg%list_elem_of_fmap.
  destruct (Forall2_lookup_l _ _ _ _ _ H2 Hj) as (es & He & ino & Hs). simpl in *. rewrite app_nil_r in *.
  pose proof (seg_ok_index _ _ _ _ Hs) as Hi. rewrite <-Hn, open_name_index in Hi by lia.
  rewrite (chain_lookup _ _ _ _ _ _ Hc Hj He) in Hi. pose proof (lookup_lt_Some _ _ _ He).
  assert (length (mjoin (take j ess)) < length (mjoin (take (length ess) ess)))%nat as Hlt.
  { apply mjoin_take_lt; [done| |done]. intros k ek _ Hk'. by apply (Forall_lookup_1 _ _ _ _ Hne Hk'). }
  rewrite (take_ge ess (length ess)) in Hlt by lia. unfold log_of in Hi. simpl in Hi. rewrite app_nil_r in Hi. lia.
Qed.

(** A new, empty open segment behind the closed ones. *)
Lemma new_open d st ess now :
  store_ok d st ess None → word now →
  let first := first_log_index st + Z.of_nat (length (log_of ess None)) in
  ∃ s' s2 d1 d2, create now (open_Segment first "" "", d) = ((s', d1), Ret 0) ∧
    writeFileHeader (s', d1) = ((s2, d2), Ret tt) ∧
    store_ok d2 (ls_open (Some s2) st) ess (Some []) ∧ file_size s2 = 9.
Proof.
  intros Hk Hwd first. pose proof Hk as [Hw H2 Hc Hl Hcl Hop Hne' H1 Hla Hfi Hm Htg].
  assert (1 <= first < 2 ^ 64) as Hr by (subst first; lia).
  pose proof (create_spec d first now Hw Hr Hwd) as Hcr. cbv zeta in Hcr. unfold first in Hcr at 1.
  rewrite (open_name_free _ _ _ now Hk) in Hcr.
  destruct Hcr as (s' & d2 & E1 & E2 & Hw2 & Hs2 & Ho2 & Hf2 & Hfr & Hnm & Hnames).
  eexists s', _, _, d2. split; [exact E1|]. split; [exact E2|]. split; [|done].
  set (s2 := sg_size 9 _) in *.
  assert (all_segments (ls_open (Some s2) st) = segments st ++ [s2]) as Ea by done.
  unfold all_segments in H2, Hc, Htg. rewrite (store_ok_none _ _ _ Hk) in H2, Hc, Htg.
  cbn [option_list] in H2, Hc, Htg. rewrite !app_nil_r in H2, Hc.
  assert (log_of ess (Some []) = log_of ess None) as El.
  { unfold log_of. by rewrite !join_app. }
  split; rewrite ?Ea, ?El; try done.
  - apply Forall2_app; [|constructor; [by eexists|constructor]].
    eapply Forall2_impl; [exact H2|]. intros s es [ino Hs]. exists ino. eapply seg_ok_frame; [done|]. intros. by apply Hfr.
  - simpl. apply chain_app; [done|]. split; [done|]. simpl. split; [|done].
    etrans; [exact Hf2|]. subst first. unfold log_of. simpl. by rewrite app_nil_r.
  - intros s0 [= <-]. exact Ho2.
  - intros n Hn. rewrite fmap_app, elem_of_app. destruct (Hnames _ Hn) as [->|Hn'].
    + right. simpl. rewrite Hnm. by left.
    + left. apply Htg in Hn'. by rewrite app_nil_r in Hn'.
Qed.

(** The open segment has room. *)
Definition has_room (st : Store) (eo : option (list log_entry)) : Prop :=
  ∃ s es, open_segment st = Some s ∧ eo = Some es ∧ file_size s <= max_log_size st.

Lemma start_segment_spec now d st ess :
  store_ok d st ess None → word now →
  ∃ st' d' eo', start_segment now (st, d) = ((st', d'), Ret 0) ∧ store_ok d' st' ess eo' ∧
    log_of ess eo' = log_of ess None ∧ first_log_index st' = first_log_index st ∧ segments st' = segments st ∧
    has_room st' eo'.
Proof.
  intros Hk Hwd. unfold start_segment. sto_go. rewrite (log_length _ _ _ _ Hk).
  destruct (new_open d st ess now Hk Hwd) as (s' & s2 & d1 & d2 & E1 & E2 & Hk2 & Hsz).
  erewrite bind_Ret by (eapply on_open_run; [reflexivity|exact E1]). cbn [Z.eqb negb].
  exists (ls_open (Some s2) st), d2, (Some []). split_and!; try done.
  - unfold catch. by erewrite bind_Ret by (eapply on_open_run; [reflexivity|exact E2]).
  - unfold log_of. by rewrite !join_app.
  - exists s2, []. split_and!; [done|done|]. rewrite Hsz. simpl. apply (sk_max _ _ _ _ Hk).
Qed.

Lemma store_ok_no_open d st ess eo : store_ok d st ess eo → open_segment st = None → eo = None.
Proof.
  intros Hk Ho. pose proof (sk_segs _ _ _ _ Hk) as H2. unfold all_segments in H2. rewrite Ho in H2. simpl in H2.
  apply Forall2_length in H2. rewrite !length_app, (sk_len _ _ _ _ Hk) in H2. destruct eo; simpl in *; [lia|done].
Qed.

Lemma openSegment_spec now d st ess eo :
  store_ok d st ess eo → word now →
  ∃ st' d' ess' eo', openSegment now (st, d) = ((st', d'), Ret 0) ∧ store_ok d' st' ess' eo' ∧
    log_of ess' eo' = log_of ess eo ∧ first_log_index st' = first_log_index st ∧ (renamable st → renamable st') ∧
    has_room st' eo'.
Proof.
  intros Hk Hwd. unfold openSegment. sto_go. destruct (open_segment st) as [s|] eqn:Ho.
  - destruct (all_segments_open _ _ _ _ _ Hk Ho) as (es & -> & Hj & He & [ino Hs] & Hf).
    unfold open_usable. rewrite Ho, (so_version _ _ _ _ Hs).
    destruct (Z.leb_spec (file_size s) (max_log_size st)) as [Hle|Hgt]; sto_go.
    + exists st, d, ess, (Some es). split_and!; try done. by exists s, es.
    + destruct (close_open d st ess es s Hk Ho) as (s' & d' & E & Hk' & Hr).
      { intros ->. pose proof (so_size _ _ _ _ Hs). pose proof (sk_max _ _ _ _ Hk). simpl in *. lia. }
      rewrite bind_assoc, (bind_Ret _ _ _ _ _ (on_open_run _ _ _ _ _ _ _ Ho E)), upd_run. cbn [ls_open open_segment].
      destruct (start_segment_spec now _ _ _ Hk' Hwd) as (st' & d2 & eo' & E2 & Hk2 & Hlog & Hfi & Hsg & Hrc).
      exists st', d2, (ess ++ [es]), eo'. split_and!; try done.
      * rewrite Hlog. unfold log_of. simpl. by rewrite app_nil_r.
      * intros Hren. unfold renamable. rewrite Hsg. by apply Hr.
  - unfold open_usable. rewrite Ho. sto_go. pose proof (store_ok_no_open _ _ _ _ Hk Ho) as ->.
    destruct (start_segment_spec now _ _ _ Hk Hwd) as (st' & d2 & eo' & E & Hk2 & Hlog & Hfi & Hsg & Hrc).
    exists st', d2, ess, eo'. split_and!; try done. intros. unfold renamable. by rewrite Hsg.
Qed.

(** ** Appending *)

(** The last segment changed what it holds and is open now; the rest is as before. *)
Lemma store_set_last d d' st ess0 eo ss ess s es ino s' es' :
  store_ok d st ess0 eo → all_segments st = ss ++ [s] → ess0 ++ option_list eo = ess ++ [es] →
  Forall (λ s, is_open s = false) ss → Forall (λ es, es ≠ []) ess → seg_ok d s ino es → fs_wf d' →
  (∀ n i b, name_index n ≠ first_index s → i ≠ ino → has_file d n i b → has_file d' n i b) →
  (∀ n, named d' n → n = file_name s' ∨ named d n ∧ n ≠ file_name s) →
  seg_ok d' s' ino es' → is_open s' = true → first_index s' = first_index s →
  first_log_index st + Z.of_nat (length (log_of ess (Some es'))) < 2 ^ 63 →
  store_ok d' (ls_last (first_log_index st + Z.of_nat (length (log_of ess (Some es'))) - 1)
    (ls_open (Some s') (ls_segments ss st))) ess (Some es').
Proof.
  intros Hk Ess Ees Hcl Hne Hs Hw' Hfr Hnames Hs' Ho' Hf' Hfit. pose proof Hk as [Hw H2 Hc _ _ _ _ H1 _ _ Hm Htg].
  rewrite Ess, Ees in H2, Hc. rewrite Ess in Htg.
  assert (length ss = length ess) as Hl by (apply Forall2_length in H2; rewrite !length_app in H2; simpl in H2; lia).
  assert (∀ z, all_segments (ls_last z (ls_open (Some s') (ls_segments ss st))) = ss ++ [s']) as Ea by done.
  split; rewrite ?Ea; try done.
  - apply Forall2_app; [|constructor; [by exists ino|constructor]].
    apply Forall2_same_length_lookup_2; [done|]. intros i si ei Hi Hei.
    eapply (seg_of_frame d d' _ (ss ++ [s]) (ess ++ [es]) (length ss) i); try done.
    + by eapply Forall2_length.
    + intros k ek. apply (nonempty_prefix ess (Some es) k ek Hne).
    + by rewrite lookup_app_r, Nat.sub_diag by lia.
    + by apply lookup_app_l_Some.
    + apply lookup_lt_Some in Hi. lia.
    + apply (Forall2_lookup_lr _ _ _ i _ _ H2); by apply lookup_app_l_Some.
  - simpl. apply chain_app in Hc as [Hc1 Hc2]; [|done]. apply chain_app; [done|]. split; [done|].
    simpl in *. split; [|done]. rewrite Hf'. apply Hc2.
  - intros s0 [= <-]. done.
  - by apply (tight_last _ _ _ _ _ Htg).
Qed.

Lemma store_set_open d d' st ess es s ino s' es' :
  store_ok d st ess (Some es) → open_segment st = Some s → seg_ok d s ino es → fs_wf d' →
  (∀ n i b, name_index n ≠ first_index s → i ≠ ino → has_file d n i b → has_file d' n i b) →
  (∀ n, named d' n → n = file_name s' ∨ named d n ∧ n ≠ file_name s) →
  seg_ok d' s' ino es' → is_open s' = true → first_index s' = first_index s →
  first_log_index st + Z.of_nat (length (log_of ess (Some es'))) < 2 ^ 63 →
  store_ok d' (ls_last (first_log_index st + Z.of_nat (length (log_of ess (Some es'))) - 1) (ls_open (Some s') st))
    ess (Some es').
Proof.
  intros Hk Ho Hs Hw' Hfr Hnames Hs' Ho' Hf' Hfit.
  assert (ls_segments (segments st) st = st) as Eeta by (by destruct st).
  rewrite <-Eeta at 2. eapply (store_set_last d d' st ess (Some es)); try done.
  - unfold all_segments. by rewrite Ho.
  - apply (sk_closed _ _ _ _ Hk).
  - apply (sk_nonempty _ _ _ _ Hk).
Qed.

Lemma log_of_open ess es : log_of ess (Some es) = mjoin ess ++ es.
Proof. unfold log_of. rewrite join_app. simpl. by rewrite app_nil_r. Qed.

Lemma store_append now d st ess eo e :
  store_ok d st ess eo → word now → entry_ok e → last_log_index st + 2 < 2 ^ 63 →
  ∃ st' d' ess' eo', appendEntry now e (st, d) = ((st', d'), Ret (last_log_index st + 1)) ∧ store_ok d' st' ess' eo' ∧
    first_log_index st' = first_log_index st ∧ (renamable st → renamable st') ∧
    log_of ess' eo' = log_of ess eo ++ [e].
Proof.
  intros Hk Hwd He Hfit. unfold appendEntry.
  destruct (openSegment_spec now _ _ _ _ Hk Hwd) as (st1 & d1 & ess1 & eo1 & E & Hk1 & Hlog & Hfi & Hren & (s & es & Ho & -> & Hsz)).
  rewrite (bind_Ret _ _ _ _ _ E). cbn [Z.eqb negb].
  destruct (all_segments_open _ _ _ _ _ Hk1 Ho) as (es' & [= <-] & _ & _ & [ino Hs] & Hf).
  pose proof (sk_open _ _ _ _ Hk1 _ Ho) as Hop. pose proof (sk_max _ _ _ _ Hk1) as Hm.
  pose proof (sk_last _ _ _ _ Hk) as Hla. pose proof (sk_first _ _ _ _ Hk) as H1.
  assert (length (log_of ess eo) = length (mjoin ess1) + length es)%nat as Elen
    by (by rewrite <-Hlog, log_of_open, length_app).
  destruct (append_spec d1 s ino es e Hs Hop He) as (s' & Ea & Hs' & Ho' & Hf' & Hn').
  { rewrite Hf, Hfi. lia. }
  { pose proof (so_size _ _ _ _ Hs). destruct He as (_ & _ & He). unfold record_size, HEADER_SIZE. lia. }
  erewrite bind_Ret by (eapply on_open_run; [exact Ho|exact Ea]).
  assert (first_index s + Z.of_nat (length es) = last_log_index st + 1) as Ei by lia.
  rewrite Ei. assert (u64 (-1) = 2 ^ 64 - 1) as Eu by reflexivity.
  rewrite (proj2 (Z.eqb_neq _ _)) by (rewrite Eu; lia). sto_go. cbn [ls_open open_segment].
  assert (last_index s' = first_log_index st1 + Z.of_nat (length (log_of ess1 (Some (es ++ [e])))) - 1) as El.
  { rewrite (so_last _ _ _ _ Hs'), Hf', log_of_open, !length_app. simpl. lia. }
  rewrite El. eexists _, _, ess1, (Some (es ++ [e])). split; [reflexivity|]. split_and!.
  - eapply store_set_open; try done.
    + apply set_data_wf, (sk_wf _ _ _ _ Hk1).
    + intros n i b _ Hi. by apply set_data_other.
    + intros n Hn. rewrite Hn'. destruct (decide (n = file_name s)); auto.
    + rewrite log_of_open, !length_app, Hfi. simpl. lia.
  - done.
  - done.
  - by rewrite <-Hlog, !log_of_open, (assoc_L (++)).
Qed.

(** ** Truncating *)

Lemma chain_ge f ss ess j s :
  chain f ss ess → ss !! j = Some s → f <= first_index s.
Proof.
  revert f ss ess. induction j as [|j IH]; intros f [|s0 ss] [|es ess] Hc Hj; simpl in *; try done; destruct Hc as [H0 Hc].
  - simplify_eq. lia.
  - specialize (IH _ _ _ Hc Hj). lia.
Qed.

Lemma filter_everything {A} (P : A → Prop) `{∀ x, Decision (P x)} l : Forall P l → filter P l = l.
Proof. induction 1; [done|]. rewrite filter_cons_True by done. by f_equal. Qed.

(** The segments that start at or before an index come first. *)
Lemma filter_chain f ss ess kept :
  chain f ss ess →
  ∃ m, (m <= length ss)%nat ∧ filter (λ s, first_index s <= kept) ss = take m ss ∧
    filter (λ s, ¬ first_index s <= kept) ss = drop m ss ∧
    (∀ s, s ∈ take m ss → first_index s <= kept) ∧ (∀ s, s ∈ drop m ss → kept < first_index s).
Proof.
  revert f ess. induction ss as [|s ss IH]; intros f [|es ess] Hc; simpl in *; try done.
  { exists 0%nat. split_and!; [lia|done..| |]; intros s; rewrite elem_of_nil; done. }
  destruct Hc as [Hf Hc]. destruct (decide (first_index s <= kept)) as [Hle|Hgt].
  - destruct (IH _ _ Hc) as (m & Hm & E1 & E2 & H1 & H2). exists (S m). simpl.
    rewrite filter_cons_True, (filter_cons_False _ s) by (done || naive_solver). rewrite E1, E2.
    split_and!; [lia|done|done| |done]. intros x [->|Hx]%elem_of_cons; auto.
  - exists 0%nat. simpl. assert (Forall (λ x, kept < first_index x) (s :: ss)) as Hall.
    { constructor; [lia|]. apply Forall_lookup. intros i x Hx. pose proof (chain_ge _ _ _ _ _ Hc Hx). lia. }
    split_and!; [lia| | | |].
    + apply filter_none. eapply Forall_impl; [done|]. simpl. lia.
    + apply filter_everything. eapply Forall_impl; [done|]. simpl. lia.
    + intros x. by rewrite elem_of_nil.
    + by apply Forall_forall.
Qed.

Lemma remove_all_spec d st gs :
  fs_wf d → Forall (λ s, ∃ es, seg_of d s es) gs → (NoDup (file_name <$> gs)) →
  ∃ d', remove_all gs (st, d) = ((st, d'), Ret tt) ∧ fs_wf d' ∧
    (∀ n i b, (∀ s, s ∈ gs → n ≠ file_name s) → has_file d n i b → has_file d' n i b) ∧
    (∀ n, named d' n → named d n ∧ n ∉ file_name <$> gs).
Proof.
  revert d. induction gs as [|s gs IH]; intros d Hw Hg Hnd; simpl.
  { exists d. split_and!; [done|done|auto|]. intros n Hn. split; [done|]. apply not_elem_of_nil. }
  apply Forall_cons_1 in Hg as [(es & ino & Hs) Hg]. apply NoDup_cons in Hnd as [Hnin Hnd].
  set (d1 := fs_remove (file_name s) d).
  assert (on_released s LogSegment.remove (st, d) = ((st, d1), Ret 0)) as E.
  { unfold on_released, LogSegment.remove, closeFile. rewrite bind_assoc, upd_seg_run, ret_run, seg_run, upd_fs_run.
    assert (getFileName (sg_fd None s) = file_name s) as ->.
    { rewrite <-(seg_ok_getFileName _ _ _ _ Hs). done. }
    by rewrite (has_file_exists _ _ _ _ (so_file _ _ _ _ Hs)). }
  rewrite (bind_Ret _ _ _ _ _ E). destruct (IH d1) as (d' & E' & Hw' & Hfr & Hnames).
  - by apply remove_wf.
  - rewrite Forall_forall in Hg |- *. intros x Hx. destruct (Hg x Hx) as (es' & ino' & Hs'). exists es', ino'.
    eapply seg_ok_frame; [done|]. intros b Hb. apply remove_other; [|done].
    intros En. apply Hnin. rewrite <-En. apply list_elem_of_fmap. by exists x.
  - done.
  - exists d'. split_and!; [done|done| |].
    + intros n i b Hn Hb. apply Hfr; [set_solver|]. apply remove_other; [|done]. apply Hn. by left.
    + intros n [Hn Hg']%Hnames. apply remove_named in Hn as [Hn Hne]. split; [done|]. by rewrite not_elem_of_cons.
Qed.

Lemma store_names_ne d st ess eo i j s1 s2 :
  store_ok d st ess eo → all_segments st !! i = Some s1 → all_segments st !! j = Some s2 → i ≠ j →
  file_name s1 ≠ file_name s2.
Proof.
  intros Hk Hi Hj Hij E. pose proof (sk_segs _ _ _ _ Hk) as H2. pose proof (Forall2_length _ _ _ H2) as Hl.
  apply (chain_first_ne _ _ _ i j s1 s2 (sk_chain _ _ _ _ Hk) Hl) in Hij; try done.
  - destruct (Forall2_lookup_l _ _ _ _ _ H2 Hi) as (e1 & _ & ino1 & Hs1).
    destruct (Forall2_lookup_l _ _ _ _ _ H2 Hj) as (e2 & _ & ino2 & Hs2).
    apply Hij. by rewrite <-(seg_ok_index _ _ _ _ Hs1), <-(seg_ok_index _ _ _ _ Hs2), E.
  - intros k es. apply (nonempty_prefix _ _ _ _ (sk_nonempty _ _ _ _ Hk)).
Qed.

Lemma store_names_NoDup d st ess eo : store_ok d st ess eo → NoDup (file_name <$> all_segments st).
Proof.
  intros Hk. apply NoDup_alt. intros i j n Hi Hj. destruct (decide (i = j)) as [|Hij]; [done|]. exfalso.
  rewrite list_lookup_fmap in Hi, Hj.
  destruct (all_segments st !! i) as [s1|] eqn:E1; [|done]. destruct (all_segments st !! j) as [s2|] eqn:E2; [|done].
  simpl in *. simplify_eq. by apply (store_names_ne _ _ _ _ i j s1 s2 Hk E1 E2 Hij).
Qed.

(** Removing some of the segments leaves the files of the others alone. *)
Lemma remove_part d st st0 ess eo gs ks :
  store_ok d st ess eo → gs ++ ks ≡ₚ all_segments st →
  ∃ d', remove_all gs (st0, d) = ((st0, d'), Ret tt) ∧ fs_wf d' ∧
    (∀ s es, s ∈ ks → seg_of d s es → seg_of d' s es) ∧ (∀ n, named d' n → n ∈ file_name <$> ks).
Proof.
  intros Hk Hp. pose proof (store_names_NoDup _ _ _ _ Hk) as Hnd. rewrite <-Hp, fmap_app in Hnd.
  apply NoDup_app in Hnd as (Hg & Hdis & _). pose proof Hk as [Hw H2 _ _ _ _ _ _ _ _ _ Htg].
  destruct (remove_all_spec d st0 gs Hw) as (d' & E & Hw' & Hfr & Hnames); [|done|].
  - apply Forall_forall. intros s Hs. assert (s ∈ all_segments st) as [i Hi]%list_elem_of_lookup.
    { rewrite <-Hp. apply elem_of_app. by left. }
    destruct (Forall2_lookup_l _ _ _ _ _ H2 Hi) as (es & _ & Hse). by exists es.
  - exists d'. split_and!; [done|done| |].
    + intros s es Hs [ino Hse]. exists ino. eapply seg_ok_frame; [done|].
      intros b Hb. apply Hfr; [|done]. intros s' Hs' En. apply (Hdis (file_name s)).
      * rewrite En. by apply list_elem_of_fmap_2.
      * by apply list_elem_of_fmap_2.
    + intros n [Hn%Htg Hg']%Hnames. rewrite <-Hp, fmap_app, elem_of_app in Hn. naive_solver.
Qed.

(** The store without the segments from the [m]-th on. *)
Definition keep_segments (m : nat) (ess : list (list log_entry)) (st : Store) : Store :=
  ls_last (first_log_index st + Z.of_nat (length (mjoin (take m ess))) - 1)
    (ls_open None (ls_segments (take m (segments st)) st)).

Lemma mjoin_take_prefix (ess : list (list log_entry)) m : mjoin (take m ess) `prefix_of` mjoin ess.
Proof. exists (mjoin (drop m ess)). by rewrite <-join_app, take_drop. Qed.

Lemma drop_tail d st st0 ess eo m :
  store_ok d st ess eo → (m <= length (segments st))%nat →
  ∃ d', remove_all (drop m (segments st) ++ option_list (open_segment st)) (st0, d) = ((st0, d'), Ret tt) ∧
    store_ok d' (keep_segments m ess st) (take m ess) None.
Proof.
  intros Hk Hm. pose proof Hk as [Hw H2 Hc Hl Hcl Hop Hne H1 Hla Hfi Hmx Htg].
  set (gs := drop m (segments st) ++ option_list (open_segment st)).
  destruct (remove_part d st st0 ess eo gs (take m (segments st)) Hk) as (d' & E & Hw' & Hfr & Hnames).
  { unfold gs, all_segments. rewrite <-(take_drop m (segments st)) at 3. solve_Permutation. }
  exists d'. split; [done|]. rewrite <-(take_drop m ess) in H2, Hc. unfold all_segments in H2, Hc.
  rewrite <-(take_drop m (segments st)) in H2, Hc. rewrite <-!(assoc_L (++)) in H2, Hc.
  assert (length (take m (segments st)) = length (take m ess)) as Hlt by (by rewrite !length_take, Hl).
  apply Forall2_app_inv in H2 as [H2 _]; [|done]. apply (chain_app _ _ _ _ _ Hlt) in Hc as [Hc _].
  assert (log_of (take m ess) None = mjoin (take m ess)) as El by (unfold log_of; simpl; by rewrite app_nil_r).
  assert (all_segments (keep_segments m ess st) = take m (segments st)) as Ea by (unfold all_segments; simpl; by rewrite app_nil_r).
  split; rewrite ?Ea, ?El; try done.
  - simpl. rewrite app_nil_r. apply Forall2_same_length_lookup_2; [done|]. intros i s es Hi He.
    apply Hfr; [by eapply list_elem_of_lookup_2|]. by apply (Forall2_lookup_lr _ _ _ _ _ _ H2 Hi He).
  - simpl. by rewrite app_nil_r.
  - by apply Forall_take.
  - by apply Forall_take.
  - pose proof (prefix_length _ _ (mjoin_take_prefix ess m)). unfold log_of in Hfi. rewrite join_app, length_app in Hfi.
    simpl. lia.
Qed.

(** Where the kept segments end, when the truncation is inside or before them. *)
Lemma kept_end d st ess eo m kept :
  store_ok d st ess eo → (m <= length (segments st))%nat → kept < last_log_index st →
  (∀ s, s ∈ drop m (all_segments st) → kept < first_index s) →
  kept < first_log_index st + Z.of_nat (length (mjoin (take m ess))).
Proof.
  intros Hk Hm Hlt Hgo. pose proof Hk as [Hw H2 Hc Hl Hcl Hop Hne H1 Hla Hfi Hmx Htg].
  destruct (all_segments st !! m) as [s|] eqn:Hs.
  - destruct (Forall2_lookup_l _ _ _ _ _ H2 Hs) as (es & He & _).
    assert (kept < first_index s) as Hk' by (apply Hgo, list_elem_of_lookup; exists 0%nat; rewrite lookup_drop; by rewrite Nat.add_0_r).
    rewrite (chain_lookup _ _ _ _ _ _ Hc Hs He) in Hk'. by rewrite take_app_le in Hk' by lia.
  - apply lookup_ge_None in Hs. apply Forall2_length in H2. rewrite length_app in H2.
    assert (option_list eo = []) as Eo by (destruct eo; simpl in *; [lia|done]).
    unfold log_of in Hla. rewrite Eo, app_nil_r in Hla. rewrite take_ge by lia. lia.
Qed.

(** The last kept segment holds the truncation point. *)
Lemma kept_last d st ess ss s kept :
  store_ok d st ess None → segments st = ss ++ [s] →
  first_index s <= kept < first_log_index st + Z.of_nat (length (mjoin ess)) →
  ∃ ess0 es, ess = ess0 ++ [es] ∧ find_closed kept 0 (segments st) = Some (length ss) ∧ seg_of d s es ∧
    open_segment st = None ∧ length ess0 = length ss ∧
    first_index s = first_log_index st + Z.of_nat (length (mjoin ess0)) ∧ kept <= last_index s.
Proof.
  intros Hk Es Hin. pose proof Hk as [Hw H2 Hc Hl Hcl Hop Hne H1 Hla Hfi Hmx Htg].
  assert (open_segment st = None) as Ho.
  { apply Forall2_length in H2. unfold all_segments in H2. rewrite !length_app in H2.
    destruct (open_segment st); simpl in *; [lia|done]. }
  unfold all_segments in H2, Hc. rewrite Ho in H2, Hc. cbn [option_list] in H2, Hc. rewrite !app_nil_r in H2, Hc.
  rewrite Es, length_app in Hl. simpl in Hl.
  destruct ess as [|es ess0 _] using rev_ind; [simpl in Hl; lia|]. rewrite length_app in Hl. simpl in Hl.
  exists ess0, es. assert (length ess0 = length ss) as Hl' by lia.
  pose proof Hc as Hc'. rewrite Es in Hc'. apply chain_app in Hc' as [Hc1 [Hfs _]]; [|done].
  pose proof H2 as H2'. rewrite Es in H2'. apply Forall2_app_inv in H2' as [H2a H2b]; [|done]. inversion H2b as [|? ? ? ? [ino Hs]]; subst.
  destruct (proj1 (find_closed_spec d _ _ _ kept 0 Hc H2)) as (j & s' & es' & Ef & Hj1 & Hj2 & Hr & _).
  { rewrite Es in Hc. pose proof (chain_ge _ _ _ (length ss) s Hc) as Hge.
    rewrite lookup_app_r, Nat.sub_diag in Hge by lia. specialize (Hge eq_refl). lia. }
  assert (j = length ss) as ->.
  { destruct (decide (j = length ss)) as [|Hj]; [done|]. exfalso.
    pose proof (lookup_lt_Some _ _ _ Hj1) as Hlt. rewrite Es, length_app in Hlt. simpl in Hlt.
    rewrite Es, lookup_app_l in Hj1 by lia. rewrite lookup_app_l in Hj2 by lia.
    destruct (Forall2_lookup_lr _ _ _ _ _ _ H2a Hj1 Hj2) as [ino' Hs'].
    pose proof (chain_lookup _ _ _ _ _ _ Hc1 Hj1 Hj2) as Hf'. pose proof (so_last _ _ _ _ Hs') as Hl2.
    assert (length (mjoin (take j ess0)) + length es' <= length (mjoin ess0))%nat as Hlen.
    { rewrite <-(take_drop_middle ess0 j es' Hj2) at 2. rewrite join_app, length_app. simpl. rewrite length_app. lia. }
    lia. }
  rewrite Es in Hj1. rewrite lookup_app_r, Nat.sub_diag in Hj1 by lia. simpl in Hj1. simplify_eq.
  split_and!; try done; [by exists ino|lia].
Qed.

Lemma truncate_nothing d s kept : last_index s <= kept → truncate kept (s, d) = ((s, d), Ret 0).
Proof. intros H. unfold truncate. rewrite seg_run. by rewrite (proj2 (Z.leb_le _ _)) by lia. Qed.

(** The last closed segment is cut and becomes the open segment. *)
Lemma truncateAt_cut d st z ess0 es ss s ino kept :
  store_ok d st (ess0 ++ [es]) None → renamable st → segments st = ss ++ [s] → open_segment st = None →
  length ess0 = length ss → first_index s = first_log_index st + Z.of_nat (length (mjoin ess0)) →
  seg_ok d s ino es → first_index s <= kept < last_index s →
  ∃ st' d' eo', truncateAt (Some (RefClosed (length ss))) kept (ls_last z st, d) = ((st', d'), Ret 0) ∧
    store_ok d' st' ess0 eo' ∧ first_log_index st' = first_log_index st ∧ renamable st' ∧
    log_of ess0 eo' = take (Z.to_nat (kept + 1 - first_log_index st)) (mjoin ess0 ++ es).
Proof.
  intros Hk Hren Es Ho Hl Hfs Hs Hr. pose proof (so_last _ _ _ _ Hs) as Hls. cbn [truncateAt on_ref].
  assert (segments st !! length ss = Some s) as Hj by (by rewrite Es, lookup_app_r, Nat.sub_diag by lia).
  assert (∀ l', take (length ss) (ss ++ [l']) = ss) as Etk by (intros; by rewrite take_app_le, take_ge by lia).
  destruct (truncate_spec d s ino es kept (sk_wf _ _ _ _ Hk) Hs) as (s' & d' & E & Hw' & Hs' & Ho' & Hf' & Hfr & Hnames); [|lia|].
  { intros _. by apply (Forall_lookup_1 _ _ _ _ Hren Hj). }
  erewrite bind_Ret by (eapply on_closed_run; [exact Hj|exact E]). cbn [Z.eqb negb].
  rewrite !upd_run. cbn [ls_segments ls_last segments].
  rewrite list_lookup_insert_eq by (by eapply lookup_lt_Some). rewrite Ho', length_insert, Es, length_app.
  rewrite insert_app_r_alt, Nat.sub_diag by lia. simpl length. rewrite Nat.add_sub. cbn [list_insert insert]. rewrite Etk.
  set (es' := take (Z.to_nat (kept + 1 - first_index s)) es) in *.
  assert (Z.of_nat (length (log_of ess0 (Some es'))) = kept + 1 - first_log_index st) as Elen.
  { rewrite log_of_open, length_app. unfold es'. rewrite length_take. lia. }
  pose proof (sk_fit _ _ _ _ Hk) as Hfit. unfold log_of in Hfit. simpl in Hfit.
  rewrite app_nil_r, join_app, length_app in Hfit. simpl in Hfit. rewrite app_nil_r in Hfit.
  eexists _, d', (Some es'). split; [reflexivity|]. split_and!.
  - pose proof (store_set_last d d' st (ess0 ++ [es]) None ss ess0 s es ino s' es') as H.
    rewrite Elen in H. replace (first_log_index st + (kept + 1 - first_log_index st) - 1) with kept in H by lia.
    refine (H Hk _ _ _ _ Hs Hw' Hfr Hnames Hs' Ho' Hf' _).
    + unfold all_segments. rewrite Es, Ho. simpl. by rewrite app_nil_r.
    + simpl. by rewrite app_nil_r.
    + pose proof (sk_closed _ _ _ _ Hk) as Hcl. rewrite Es in Hcl. by apply Forall_app in Hcl as [? _].
    + pose proof (sk_nonempty _ _ _ _ Hk) as Hne'. by apply Forall_app in Hne' as [? _].
    + lia.
  - done.
  - unfold renamable in *. simpl. rewrite Es in Hren. by apply Forall_app in Hren as [? _].
  - rewrite log_of_open. unfold es'. rewrite take_app, (take_ge (mjoin ess0)) by lia. f_equal. f_equal. lia.
Qed.

(** Cutting a store whose segments all start at or before the truncation point;
    its [last_log_index] is not up to date yet. *)
Lemma truncateAt_closed d st z ess kept :
  store_ok d st ess None → renamable st → (∀ s, s ∈ segments st → first_index s <= kept) →
  first_log_index st - 1 <= kept < first_log_index st + Z.of_nat (length (mjoin ess)) →
  ∃ st' d' ess' eo', truncateAt (RefClosed <$> find_closed kept 0 (segments st)) kept (ls_last z st, d) = ((st', d'), Ret 0) ∧
    store_ok d' st' ess' eo' ∧ first_log_index st' = first_log_index st ∧ renamable st' ∧
    log_of ess' eo' = take (Z.to_nat (kept + 1 - first_log_index st)) (mjoin ess).
Proof.
  intros Hk Hren Hin Hr.
  destruct (segments st) as [|s ss _] eqn:Es using rev_ind.
  - assert (ess = []) as -> by (pose proof (sk_len _ _ _ _ Hk) as Hl; rewrite Es in Hl; by destruct ess).
    simpl in Hr. assert (kept = first_log_index st - 1) as -> by lia.
    exists (ls_last (first_log_index st - 1) st), d, [], None. split_and!; try done.
    + replace (ls_last (first_log_index st - 1) st) with st; [done|].
      pose proof (sk_last _ _ _ _ Hk) as Hla. destruct st; simpl in *. unfold ls_last. simpl. f_equal. lia.
    + change (mjoin []) with (@nil log_entry). by rewrite take_nil.
  - assert (first_index s <= kept) as Hfk by (apply Hin; rewrite elem_of_app; right; by left).
    destruct (kept_last d st ess ss s kept Hk Es) as (ess0 & es & -> & Ef & [ino Hs] & Ho & Hl & Hfs & Hle); [lia|].
    assert (segments st !! length ss = Some s) as Hj by (by rewrite Es, lookup_app_r, Nat.sub_diag by lia).
    rewrite <-Es, Ef. cbn [fmap option_fmap option_map].
    pose proof (so_last _ _ _ _ Hs) as Hls. rewrite join_app, length_app in *. simpl in *. rewrite app_nil_r in *.
    destruct (decide (kept = last_index s)) as [->|Hne].
    + (* the whole segment stays, and it stays closed *)
      cbn [truncateAt on_ref]. erewrite bind_Ret by (eapply on_closed_run; [exact Hj|by apply truncate_nothing]). cbn [Z.eqb negb].
      rewrite !upd_run. cbn [ls_segments ls_last segments]. rewrite (list_insert_id _ _ _ Hj), Hj.
      rewrite (Forall_lookup_1 _ _ _ _ (sk_closed _ _ _ _ Hk) Hj).
      eexists _, d, (ess0 ++ [es]), None. split; [reflexivity|]. split_and!.
      * eapply (eq_ind st (λ st, store_ok d st (ess0 ++ [es]) None)); [exact Hk|].
        pose proof (sk_last _ _ _ _ Hk) as Hla. unfold log_of in Hla. simpl in Hla.
        rewrite app_nil_r, join_app, length_app in Hla. simpl in Hla. rewrite app_nil_r in Hla.
        destruct st; unfold ls_last, ls_segments; simpl in *. f_equal. lia.
      * done.
      * done.
      * unfold log_of. simpl. rewrite app_nil_r, join_app. simpl. rewrite app_nil_r. rewrite take_ge; [done|].
        rewrite length_app. lia.
    + destruct (truncateAt_cut d st z ess0 es ss s ino kept) as (st' & d' & eo' & H); try done; [lia|].
      by exists st', d', ess0, eo'.
Qed.

(** The truncation point is in the open segment. *)
Lemma truncate_open d st ess es s kept :
  store_ok d st ess (Some es) → open_segment st = Some s → first_index s <= kept < last_log_index st →
  ∃ st' d' es', truncateAt (Some RefOpen) kept (st, d) = ((st', d'), Ret 0) ∧
    store_ok d' st' ess (Some es') ∧ first_log_index st' = first_log_index st ∧ segments st' = segments st ∧
    log_of ess (Some es') = take (Z.to_nat (kept + 1 - first_log_index st)) (log_of ess (Some es)).
Proof.
  intros Hk Ho Hr. destruct (all_segments_open _ _ _ _ _ Hk Ho) as (es0 & [= <-] & _ & _ & [ino Hs] & Hf).
  pose proof (sk_last _ _ _ _ Hk) as Hla. pose proof (so_last _ _ _ _ Hs) as Hls. pose proof (sk_fit _ _ _ _ Hk) as Hfit.
  rewrite log_of_open, length_app in Hla, Hfit.
  destruct (truncate_spec d s ino es kept (sk_wf _ _ _ _ Hk) Hs) as (s' & d' & E & Hw' & Hs' & Ho' & Hf' & Hfr & Hnames).
  { rewrite (sk_open _ _ _ _ Hk _ Ho). done. }
  { lia. }
  cbn [truncateAt on_ref]. erewrite bind_Ret by (eapply on_open_run; [exact Ho|exact E]). cbn [Z.eqb negb].
  rewrite sret_run, upd_run. set (es' := take (Z.to_nat (kept + 1 - first_index s)) es) in *.
  assert (log_of ess (Some es') = take (Z.to_nat (kept + 1 - first_log_index st)) (log_of ess (Some es))) as El.
  { rewrite !log_of_open. unfold es'. rewrite take_app, (take_ge (mjoin ess)) by lia. f_equal. f_equal. lia. }
  pose proof (f_equal (Z.of_nat ∘ length) El) as Elen. simpl in Elen. rewrite length_take, log_of_open, !length_app in Elen.
  eexists _, d', es'. split; [reflexivity|]. split_and!; [|done..|done].
  pose proof (store_set_open d d' st ess es s ino s' es' Hk Ho Hs Hw' Hfr Hnames Hs' Ho' Hf') as H.
  rewrite El, length_take, log_of_open, length_app in H.
  replace (first_log_index st + Z.of_nat (_ `min` _) - 1) with kept in H by lia. apply H. lia.
Qed.

(** The truncation point is in the open segment: every closed segment stays. *)
Lemma truncateLog_open d st ess eo s kept :
  store_ok d st ess eo → renamable st → open_segment st = Some s → first_index s <= kept < last_log_index st →
  ∃ st' d' ess' eo', truncateLog kept (st, d) = ((st', d'), Ret 0) ∧ store_ok d' st' ess' eo' ∧
    first_log_index st' = first_log_index st ∧ renamable st' ∧
    log_of ess' eo' = take (Z.to_nat (kept + 1 - first_log_index st)) (log_of ess eo).
Proof.
  intros Hk Hren Ho Hr. unfold truncateLog. sto_go. rewrite (proj2 (Z.leb_gt _ _)) by lia. cbv zeta.
  destruct (all_segments_open _ _ _ _ _ Hk Ho) as (es & -> & Hj & He & [ino Hs] & Hf).
  pose proof (sk_len _ _ _ _ Hk) as Hl. pose proof (proj1 (chain_app _ _ _ _ _ Hl) (sk_chain _ _ _ _ Hk)) as [Hc _].
  assert (Forall (λ s, first_index s <= kept) (segments st)) as Hall.
  { apply Forall_lookup. intros k x Hx. destruct (lookup_lt_is_Some_2 ess k) as [ek Hek]; [rewrite <-Hl; by eapply lookup_lt_Some|].
    pose proof (chain_lookup _ _ _ _ _ _ Hc Hx Hek). pose proof (prefix_length _ _ (mjoin_take_prefix ess k)). lia. }
  assert (filter (λ s, first_index s <= kept) (segments st) = segments st ∧
          filter (λ s, ¬ first_index s <= kept) (segments st) = []) as [-> ->].
  { split; [by apply filter_everything|]. apply filter_none. eapply Forall_impl; [exact Hall|]. simpl. lia. }
  rewrite Ho, (proj2 (Z.ltb_ge _ _)) by lia. cbn [negb andb]. unfold holds.
  pose proof (so_last _ _ _ _ Hs) as Hls. pose proof (sk_last _ _ _ _ Hk) as Hla. rewrite log_of_open, length_app in Hla.
  rewrite (proj2 (Z.leb_le _ _)), (proj2 (Z.leb_le _ _)) by lia. cbn [andb].
  rewrite upd_run. replace (ls_open (open_segment st) (ls_segments (segments st) st)) with st by (by destruct st).
  destruct (truncate_open d st ess es s kept Hk Ho) as (st' & d' & es' & H & Hk' & Hf' & Hsg & Hlog); [lia|].
  exists st', d', ess, (Some es'). split_and!; [exact H|done..| |done]. unfold renamable. by rewrite Hsg.
Qed.

(** The truncation point is before the open segment, which goes. *)
Lemma truncateLog_closed d st ess eo kept :
  store_ok d st ess eo → renamable st → (∀ s, open_segment st = Some s → kept < first_index s) →
  first_log_index st - 1 <= kept < last_log_index st →
  ∃ st' d' ess' eo', truncateLog kept (st, d) = ((st', d'), Ret 0) ∧ store_ok d' st' ess' eo' ∧
    first_log_index st' = first_log_index st ∧ renamable st' ∧
    log_of ess' eo' = take (Z.to_nat (kept + 1 - first_log_index st)) (log_of ess eo).
Proof.
  intros Hk Hren Hno Hr. unfold truncateLog. sto_go. rewrite (proj2 (Z.leb_gt _ _)) by lia.
  pose proof (sk_len _ _ _ _ Hk) as Hl. pose proof (proj1 (chain_app _ _ _ _ _ Hl) (sk_chain _ _ _ _ Hk)) as [Hc _].
  destruct (filter_chain _ _ _ kept Hc) as (m & Hm & E1 & E2 & Hin & Hout). cbv zeta. rewrite E1, E2, upd_run.
  set (goes := match open_segment st with Some s => kept <? first_index s | None => false end).
  assert ((if goes then option_list (open_segment st) else []) = option_list (open_segment st) ∧
          (if goes then None else open_segment st) = None ∧
          ∀ (A : Type) (x y : A), match open_segment st with Some s => if negb goes && holds kept s then x else y | None => y end = y)
    as (-> & -> & ->).
  { unfold goes. destruct (open_segment st) as [s|]; [|done]. by rewrite (proj2 (Z.ltb_lt _ _)) by auto. }
  destruct (drop_tail d st (ls_open None (ls_segments (take m (segments st)) st)) ess eo m Hk Hm) as (d' & E & Hk').
  rewrite (bind_Ret _ _ _ _ _ E).
  assert (kept < first_log_index st + Z.of_nat (length (mjoin (take m ess)))) as Hend.
  { eapply kept_end; try done; [lia|]. unfold all_segments. rewrite drop_app_le by done. intros s [Hs|Hs]%elem_of_app; [auto|].
    destruct (open_segment st) as [s0|]; simpl in Hs; [apply list_elem_of_singleton in Hs as ->; auto|by apply elem_of_nil in Hs]. }
  destruct (truncateAt_closed d' (keep_segments m ess st) (last_log_index st) (take m ess) kept Hk')
    as (st' & d2 & ess' & eo' & H & Hk2 & Hf2 & Hren2 & Hlog); [by apply Forall_take|done|simpl; lia|].
  exists st', d2, ess', eo'. simpl in *. split_and!; try done.
  rewrite Hlog. destruct (mjoin_take_prefix ess m) as [l El]. unfold log_of. rewrite join_app, El, <-(assoc_L (++)).
  rewrite (take_app_le (mjoin (take m ess))); [done|]. lia.
Qed.

Lemma store_truncate d st ess eo kept :
  store_ok d st ess eo → renamable st → first_log_index st - 1 <= kept →
  ∃ st' d' ess' eo', truncateLog kept (st, d) = ((st', d'), Ret 0) ∧ store_ok d' st' ess' eo' ∧
    first_log_index st' = first_log_index st ∧ renamable st' ∧
    log_of ess' eo' = take (Z.to_nat (kept + 1 - first_log_index st)) (log_of ess eo).
Proof.
  intros Hk Hren Hr. destruct (Z.leb_spec (last_log_index st) kept) as [Hle|Hgt].
  { exists st, d, ess, eo. unfold truncateLog. sto_go. rewrite (proj2 (Z.leb_le _ _)) by lia.
    split_and!; try done. rewrite take_ge; [done|]. pose proof (sk_last _ _ _ _ Hk). lia. }
  destruct (open_segment st) as [s|] eqn:Ho.
  - destruct (Z.leb_spec (first_index s) kept).
    + by eapply truncateLog_open.
    + eapply truncateLog_closed; try done. rewrite Ho. by intros ? [= <-].
  - eapply truncateLog_closed; try done. by rewrite Ho.
Qed.
