(* ===== verification/LogStoreCompact.v ===== *)
(** * Overwriting and compacting the segmented log

    [writeAt] replaces an index and what follows it; [removeSegment] drops the
    segments before an index. Both keep the invariant of the store. *)

From S2P Require Import Prelude Types ZkIO KeeperPaths Crc32 FileSystem LogSegment LogSegmentInv LogStore LogStoreInv.
From stdpp Require Import base gmap sets strings option pretty sorting list.
From Stdlib Require Import ZArith Lia.
Open Scope Z_scope.

(** ** Overwriting *)

(** An index past the end of the log is refused. *)
Lemma store_writeAt now d st ess eo index e :
  store_ok d st ess eo → renamable st → word now → entry_ok e → first_log_index st <= index → index + 1 < 2 ^ 63 →
  let i := if index <=? last_log_index st + 1 then index else u64 (-1) in
  ∃ st' d' ess' eo', writeAt now index e (st, d) = ((st', d'), Ret i) ∧ store_ok d' st' ess' eo' ∧
    first_log_index st' = first_log_index st ∧ renamable st' ∧
    log_of ess' eo' = if index <=? last_log_index st + 1
      then take (Z.to_nat (index - first_log_index st)) (log_of ess eo) ++ [e] else log_of ess eo.
Proof.
  intros Hk Hren Hwd He Hf Hfit. pose proof (sk_first _ _ _ _ Hk) as H1. pose proof (sk_last _ _ _ _ Hk) as Hla.
  unfold writeAt. rewrite (wrap_u_id 64 (index - 1)) by (unfold in_u; lia).
  destruct (store_truncate d st ess eo (index - 1) Hk Hren) as (st1 & d1 & ess1 & eo1 & E & Hk1 & Hf1 & Hren1 & Hlog1); [lia|].
  rewrite (bind_Ret _ _ _ _ _ E), sto_run, (log_length _ _ _ _ Hk1), Hf1.
  replace (index - 1 + 1 - first_log_index st) with (index - first_log_index st) in Hlog1 by lia.
  pose proof (f_equal length Hlog1) as Hlen. rewrite length_take in Hlen. pose proof (sk_last _ _ _ _ Hk1) as Hla1.
  destruct (Z.leb_spec index (last_log_index st + 1)).
  - rewrite (proj2 (Z.eqb_eq _ _)) by lia.
    destruct (store_append now d1 st1 ess1 eo1 e Hk1 Hwd He) as (st2 & d2 & ess2 & eo2 & E2 & Hk2 & Hf2 & Hren2 & Hres); [lia|].
    exists st2, d2, ess2, eo2. rewrite E2. split_and!; [|done|by rewrite Hf2|auto|by rewrite <-Hlog1].
    by replace (last_log_index st1 + 1) with index by lia.
  - rewrite (proj2 (Z.eqb_neq _ _)) by lia. exists st1, d1, ess1, eo1. split_and!; try done.
    rewrite Hlog1. apply take_ge. lia.
Qed.

(** ** Compacting *)

(** From the first segment that stays, all stay. *)
Lemma keep_from_rest d kept first last f ss ess :
  chain f ss ess → Forall2 (seg_of d) ss ess → Forall (λ es, es ≠ []) ess → first <= f → kept <= f →
  keep_from kept first last ss = (ss, [], first, last).
Proof.
  revert f ess. induction ss as [|s ss IH]; intros f [|es ess] Hc H2 Hne Hf Hk; simpl in *; try done.
  destruct Hc as [Ef Hc]. apply Forall2_cons in H2 as [[ino Hs] H2]. apply Forall_cons in Hne as [Hn Hne].
  pose proof (so_last _ _ _ _ Hs) as Hl. assert (length es ≠ 0%nat) by (by destruct es).
  rewrite (proj2 (Z.ltb_ge (last_index s) kept)), (proj2 (Z.ltb_ge (first_index s) first)) by lia.
  by rewrite (IH _ _ Hc H2 Hne) by lia.
Qed.

Lemma no_reset first last : 0 < first → first < last < 2 ^ 64 → reset_last first last = false.
Proof.
  intros H1 H2. unfold reset_last. rewrite (proj2 (Z.eqb_neq _ _)) by lia.
  rewrite wrap_u_id by (unfold in_u; lia). by rewrite (proj2 (Z.ltb_ge _ _)) by lia.
Qed.

(** The closed segments that go come first; [first] becomes the start of the
    segment that holds the kept index. *)
Lemma keep_from_chain d kept last f ss ess :
  chain f ss ess → Forall2 (seg_of d) ss ess → Forall (λ es, es ≠ []) ess → 0 < f <= kept → 
  f + Z.of_nat (length (mjoin ess)) - 1 <= last < 2 ^ 64 →
  ∃ m first', keep_from kept kept last ss = (drop m ss, take m ss, first', last) ∧
    ((m < length ss)%nat ∧ first' = f + Z.of_nat (length (mjoin (take m ess))) ∧ first' <= kept ∧
       kept < f + Z.of_nat (length (mjoin ess)) ∨
     m = length ss ∧ first' = kept ∧ f + Z.of_nat (length (mjoin ess)) <= kept).
Proof.
  revert f ess. induction ss as [|s ss IH]; intros f [|es ess] Hc H2 Hne Hf Hla; simpl in *; try done.
  { exists 0%nat, kept. split; [done|]. right. split_and!; [done|done|lia]. }
  destruct Hc as [Ef Hc]. apply Forall2_cons in H2 as [[ino Hs] H2]. apply Forall_cons in Hne as [Hn Hne].
  pose proof (so_last _ _ _ _ Hs) as Hl. assert (length es ≠ 0%nat) by (by destruct es).
  rewrite length_app in Hla |- *. destruct (Z.ltb_spec (last_index s) kept) as [Hgo|Hstay].
  - destruct (IH _ _ Hc H2 Hne) as (m & first' & E & Hcase); [lia|lia|]. rewrite E.
    exists (S m), first'. split; [done|]. destruct Hcase as [(Hm & -> & ? & ?)|(-> & -> & ?)]; [left|right].
    + simpl. rewrite length_app. split_and!; lia.
    + split_and!; [done|done|lia].
  - exists 0%nat, f. simpl. rewrite Ef. destruct (Z.ltb_spec f kept) as [Hlt|Hge].
    + rewrite no_reset by lia. rewrite (keep_from_rest d kept f last _ _ _ Hc H2 Hne) by lia.
      split; [done|]. left. simpl. split_and!; lia.
    + rewrite (keep_from_rest d kept kept last _ _ _ Hc H2 Hne) by lia. replace kept with f by lia.
      split; [done|]. left. simpl. split_and!; lia.
Qed.

(** The store without its first [m] closed segments. *)
Lemma drop_head d st st0 ess eo m :
  store_ok d st ess eo → (m <= length (segments st))%nat →
  ∃ d', remove_all (take m (segments st)) (st0, d) = ((st0, d'), Ret tt) ∧
    store_ok d' (ls_first (first_log_index st + Z.of_nat (length (mjoin (take m ess))))
      (ls_segments (drop m (segments st)) st)) (drop m ess) eo.
Proof.
  intros Hk Hm. pose proof Hk as [Hw H2 Hc Hl Hcl Hop Hne H1 Hla Hfi Hmx Htg].
  destruct (remove_part d st st0 ess eo (take m (segments st)) (drop m (segments st) ++ option_list (open_segment st)) Hk)
    as (d' & E & Hw' & Hfr & Hnames).
  { unfold all_segments. by rewrite (assoc_L (++)), take_drop. }
  exists d'. split; [done|]. unfold all_segments in H2, Hc. rewrite <-(take_drop m ess) in H2, Hc.
  rewrite <-(take_drop m (segments st)) in H2, Hc. rewrite <-!(assoc_L (++)) in H2, Hc.
  assert (length (take m (segments st)) = length (take m ess)) as Hlt by (by rewrite !length_take, Hl).
  apply Forall2_app_inv in H2 as [_ H2]; [|done]. apply (chain_app _ _ _ _ _ Hlt) in Hc as [_ Hc].
  assert (length (log_of ess eo) = length (mjoin (take m ess)) + length (log_of (drop m ess) eo))%nat as El.
  { unfold log_of. rewrite !join_app, !length_app, Nat.add_assoc. f_equal. by rewrite <-length_app, <-join_app, take_drop. }
  split; try done; simpl.
  - apply Forall2_same_length_lookup_2; [by eapply Forall2_length|]. intros i s es Hi He.
    apply Hfr; [by eapply list_elem_of_lookup_2|]. by apply (Forall2_lookup_lr _ _ _ _ _ _ H2 Hi He).
  - by rewrite !length_drop, Hl.
  - by apply Forall_drop.
  - by apply Forall_drop.
  - lia.
  - lia.
  - lia.
Qed.

(** Every segment removed: the log is empty and starts at the kept index. *)
Lemma drop_all d st st0 ess eo kept :
  store_ok d st ess eo → 1 <= kept < 2 ^ 63 →
  ∃ d', remove_all (all_segments st) (st0, d) = ((st0, d'), Ret tt) ∧
    store_ok d' (ls_open None (ls_segments [] (ls_first kept (ls_last (kept - 1) st)))) [] None.
Proof.
  intros Hk Hr. destruct (remove_part d st st0 ess eo (all_segments st) [] Hk) as (d' & E & Hw' & _ & Hnames).
  { by rewrite app_nil_r. }
  exists d'. split; [done|]. split; simpl; try done; try lia; [constructor..|apply (sk_max _ _ _ _ Hk)].
Qed.

(** What remains after compaction starts at or before the kept index and holds
    every entry from there on. *)
Definition compacted (kept : Z) (st : Store) (log : list log_entry) (st' : Store) (log' : list log_entry) : Prop :=
  first_log_index st <= first_log_index st' <= kept ∧
  log' = drop (Z.to_nat (first_log_index st' - first_log_index st)) log.

(** The segment that holds the kept index is a closed one. *)
Lemma compact_closed d st ess eo kept m :
  store_ok d st ess eo → (m < length (segments st))%nat →
  let first' := first_log_index st + Z.of_nat (length (mjoin (take m ess))) in
  first' <= kept → kept < first_log_index st + Z.of_nat (length (mjoin ess)) → kept ≠ last_log_index st →
  keep_from kept kept (last_log_index st) (segments st) =
    (drop m (segments st), take m (segments st), first', last_log_index st) →
  first_log_index st < kept →
  ∃ st' d' ess', removeSegment kept (st, d) = ((st', d'), Ret 0) ∧ store_ok d' st' ess' eo ∧
    compacted kept st (log_of ess eo) st' (log_of ess' eo) ∧ (renamable st → renamable st').
Proof.
  intros Hk Hm first' Hf Hend Hne E Hlt. pose proof Hk as [Hw H2 Hc Hl Hcl Hop Hne' H1 Hla Hfi Hmx Htg].
  unfold removeSegment. sto_go. rewrite (proj2 (Z.leb_gt _ _)), E by lia.
  assert (length (mjoin ess) <= length (log_of ess eo))%nat as Hlen by (unfold log_of; rewrite join_app, length_app; lia).
  assert (∀ (A : Type) (k : option Segment → list Segment → Z → Z → A),
    (let '(open, go, first, last) :=
      match open_segment st with
      | None => (None, take m (segments st), first', last_log_index st)
      | Some s =>
          if last_index s <? kept then (None, take m (segments st) ++ [s], first', last_log_index st)
          else if first_index s <? first'
          then (Some s, take m (segments st), first_index s,
                if reset_last (first_index s) (last_log_index st) then last_index s else last_log_index st)
          else (Some s, take m (segments st), first', last_log_index st)
      end in k open go first last) = k (open_segment st) (take m (segments st)) first' (last_log_index st)) as Eo.
  { intros A k. destruct (open_segment st) as [s|] eqn:Ho; [|done].
    destruct (all_segments_open _ _ _ _ _ Hk Ho) as (es & -> & _ & _ & [ino Hs] & Hfs). pose proof (so_last _ _ _ _ Hs) as Hls.
    by rewrite (proj2 (Z.ltb_ge _ _)), (proj2 (Z.ltb_ge _ _)) by lia. }
  rewrite (Eo _ (λ open go first last, _)). rewrite upd_run.
  edestruct (drop_head d st) as (d' & Er & Hk'); [done|apply Nat.lt_le_incl, Hm|].
  rewrite (bind_Ret _ _ _ _ _ Er), upd_run. cbn [first_log_index last_log_index ls_open ls_segments ls_first ls_last].
  rewrite no_reset by lia. eexists _, d', (drop m ess). split; [reflexivity|]. split_and!.
  - eapply (eq_ind _ (λ st, store_ok d' st (drop m ess) eo)); [exact Hk'|]. by destruct st.
  - split; simpl; [lia|]. unfold log_of. rewrite !join_app. 
    rewrite <-(take_drop m ess) at 2. rewrite join_app, <-(assoc_L (++)), drop_app_ge by lia.
    symmetry. by replace (Z.to_nat _ - _)%nat with 0%nat by lia.
  - intros Hren. by apply Forall_drop.
Qed.

(** Only the open segment stays. *)
Lemma compact_open d st ess es s kept :
  store_ok d st ess (Some es) → open_segment st = Some s → first_index s <= kept < last_log_index st →
  keep_from kept kept (last_log_index st) (segments st) =
    (drop (length (segments st)) (segments st), take (length (segments st)) (segments st), kept, last_log_index st) →
  first_log_index st < kept →
  ∃ st' d' ess', removeSegment kept (st, d) = ((st', d'), Ret 0) ∧ store_ok d' st' ess' (Some es) ∧
    compacted kept st (log_of ess (Some es)) st' (log_of ess' (Some es)) ∧ (renamable st → renamable st').
Proof.
  intros Hk Ho Hr E Hlt. pose proof Hk as [Hw H2 Hc Hl Hcl Hop Hne' H1 Hla Hfi Hmx Htg].
  unfold removeSegment. sto_go. rewrite (proj2 (Z.leb_gt _ _)), E, Ho by lia.
  destruct (all_segments_open _ _ _ _ _ Hk Ho) as (es' & [= <-] & _ & _ & [ino Hs] & Hfs).
  pose proof (so_last _ _ _ _ Hs) as Hls. rewrite log_of_open, length_app in *.
  rewrite (proj2 (Z.ltb_ge _ _)), no_reset by lia.
  destruct (drop_head d st (ls_open (open_segment st) (ls_segments [] (ls_first (first_index s) st))) ess (Some es) _ Hk (Nat.le_refl _))
    as (d' & Er & Hk').
  rewrite (take_ge ess), <-Hfs, (drop_ge (segments st)) in Hk' by lia. rewrite (drop_ge (segments st)) by lia.
  assert ((if first_index s <? kept then (Some s, take (length (segments st)) (segments st), first_index s, last_log_index st)
           else (Some s, take (length (segments st)) (segments st), kept, last_log_index st)) =
          (Some s, take (length (segments st)) (segments st), first_index s, last_log_index st)) as ->.
  { destruct (Z.ltb_spec (first_index s) kept); [done|]. do 2 f_equal. lia. }
  rewrite upd_run. replace (ls_open (Some s) _) with (ls_open (open_segment st) (ls_segments [] (ls_first (first_index s) st)))
    by (destruct st; simpl in *; by subst).
  rewrite (bind_Ret _ _ _ _ _ Er), upd_run. cbn [first_log_index last_log_index ls_open ls_segments ls_first].
  rewrite no_reset by lia. eexists _, d', (drop (length (segments st)) ess). split; [reflexivity|]. split_and!.
  - eapply (eq_ind _ (λ st, store_ok d' st _ _)); [exact Hk'|]. by destruct st.
  - split; simpl; [lia|]. rewrite log_of_open, (drop_ge ess) by lia. simpl.
    rewrite drop_app_ge by lia. by replace (Z.to_nat _ - _)%nat with 0%nat by lia.
  - intros Hren. simpl. constructor.
Qed.

(** Nothing stays. *)
Lemma compact_all d st ess eo kept :
  store_ok d st ess eo → last_log_index st < kept < 2 ^ 63 →
  keep_from kept kept (last_log_index st) (segments st) =
    (drop (length (segments st)) (segments st), take (length (segments st)) (segments st), kept, last_log_index st) →
  first_log_index st < kept →
  ∃ st' d', removeSegment kept (st, d) = ((st', d'), Ret 0) ∧ store_ok d' st' [] None ∧ 
    compacted kept st (log_of ess eo) st' (log_of [] None) ∧ (renamable st → renamable st').
Proof.
  intros Hk Hr E Hlt. pose proof Hk as [Hw H2 Hc Hl Hcl Hop Hne' H1 Hla Hfi Hmx Htg].
  unfold removeSegment. sto_go. rewrite (proj2 (Z.leb_gt _ _)), E, drop_ge, take_ge by lia.
  assert (match open_segment st with
      | None => (None, segments st, kept, last_log_index st)
      | Some s =>
          if last_index s <? kept then (None, segments st ++ [s], kept, last_log_index st)
          else if first_index s <? kept
          then (Some s, segments st, first_index s,
                if reset_last (first_index s) (last_log_index st) then last_index s else last_log_index st)
          else (Some s, segments st, kept, last_log_index st)
      end = (None, all_segments st, kept, last_log_index st)) as ->.
  { unfold all_segments. destruct (open_segment st) as [s|] eqn:Ho; simpl; [|by rewrite app_nil_r].
    destruct (all_segments_open _ _ _ _ _ Hk Ho) as (es & -> & _ & _ & [ino Hs] & Hfs). pose proof (so_last _ _ _ _ Hs) as Hls.
    rewrite log_of_open, length_app in *. by rewrite (proj2 (Z.ltb_lt _ _)) by lia. }
  rewrite upd_run. edestruct (drop_all d st) as (d' & Er & Hk'); [done|split; [|apply Hr]; lia|].
  rewrite (bind_Ret _ _ _ _ _ Er), upd_run. cbn [first_log_index last_log_index ls_open ls_segments ls_first ls_last].
  assert (reset_last kept (last_log_index st) = true) as ->.
  { unfold reset_last. destruct (Z.eqb_spec (last_log_index st) 0); [done|]. simpl.
    rewrite wrap_u_id by (unfold in_u; lia). apply Z.ltb_lt. lia. }
  rewrite wrap_u_id by (unfold in_u; lia). eexists _, d'. split; [reflexivity|]. split_and!.
  - eapply (eq_ind _ (λ st, store_ok d' st _ _)); [exact Hk'|]. by destruct st.
  - split; simpl; [lia|]. symmetry. apply drop_ge. lia.
  - intros _. constructor.
Qed.

Lemma store_compact d st ess eo kept :
  store_ok d st ess eo → kept < 2 ^ 63 → kept ≠ last_log_index st → 
  ∃ st' d' ess' eo', removeSegment kept (st, d) = ((st', d'), Ret 0) ∧ store_ok d' st' ess' eo' ∧
    (compacted kept st (log_of ess eo) st' (log_of ess' eo') ∨ kept <= first_log_index st ∧ st' = st ∧ log_of ess' eo' = log_of ess eo) ∧
    (renamable st → renamable st').
Proof.
  intros Hk Hlt Hne. destruct (Z.leb_spec kept (first_log_index st)) as [Hle|Hgt].
  { exists st, d, ess, eo. unfold removeSegment. sto_go. rewrite (proj2 (Z.leb_le _ _)) by lia. naive_solver. }
  pose proof Hk as [Hw H2 Hc Hl Hcl Hop Hne' H1 Hla Hfi Hmx Htg].
  apply Forall2_app_inv in H2 as [H2 _]; [|done]. apply (chain_app _ _ _ _ _ Hl) in Hc as [Hc _].
  assert (length (mjoin ess) <= length (log_of ess eo))%nat as Hlen by (unfold log_of; rewrite join_app, length_app; lia).
  destruct (keep_from_chain d kept (last_log_index st) _ _ _ Hc H2 Hne') as (m & first' & E & Hcase); [lia|lia|].
  destruct Hcase as [(Hm & -> & Hf & Hend)|(-> & -> & Hend)].
  - destruct (compact_closed d st ess eo kept m Hk Hm) as (st' & d' & ess' & H); try done. naive_solver.
  - destruct (Z.ltb_spec (last_log_index st) kept).
    + destruct (compact_all d st ess eo kept Hk) as (st' & d' & H'); try done. naive_solver.
    + destruct (open_segment st) as [s|] eqn:Ho.
      * destruct (all_segments_open _ _ _ _ _ Hk Ho) as (es & -> & _ & _ & [ino Hs] & Hfs).
        destruct (compact_open d st ess es s kept Hk Ho) as (st' & d' & ess' & H'); try done; [lia|]. naive_solver.
      * pose proof (store_ok_no_open _ _ _ _ Hk Ho) as ->. unfold log_of in *. simpl in *. rewrite app_nil_r in *. lia.
Qed.
