(* ===== verification/LogStoreReload.v ===== *)
(** * Starting from the directory of a log

    [init] lists the directory, restores the closed segments and the open one
    from their names, and loads them. The log it finds is the log that was
    written, whichever order the directory lists its files in. *)

From S2P Require Import Prelude Types ZkIO KeeperPaths Crc32 FileSystem LogSegment LogSegmentInv LogStore LogStoreInv.
From stdpp Require Import base gmap sets strings option pretty sorting list.
From Stdlib Require Import ZArith Lia Ascii.
Open Scope Z_scope.

(** ** Names *)

Lemma digit_char c : (0 <=? digit c) && (digit c <? 10) = true →
  is_space c = false ∧ c ≠ "-"%char ∧ c ≠ "+"%char.
Proof. destruct c as [[] [] [] [] [] [] [] []]; vm_compute; try done; intros _; split_and!; done. Qed.

Lemma scan_number_pretty n r :
  0 <= n < 2 ^ 64 → scan_number (pretty n +:+ String "_"%char r)%string = Some (n, String "_"%char r).
Proof.
  intros Hn. destruct (pretty_digits n ltac:(lia)) as (E & D & Hne).
  assert (span_digits (pretty n +:+ String "_"%char r)%string = (pretty n, String "_"%char r)) as Es
    by (by apply span_digits_app).
  destruct (pretty n) as [|c s] eqn:Ep; [done|].
  pose proof D as D'. simpl in D'. apply andb_true_iff in D' as [Dc _].
  destruct (digit_char _ Dc) as (H1 & H2 & H3).
  unfold scan_number. change (String c s +:+ String "_"%char r)%string with (String c (s +:+ String "_"%char r)%string) in *.
  cbn [skip_space]. rewrite H1. rewrite !bool_decide_eq_false_2 by done. rewrite Es, E.
  rewrite bool_decide_eq_false_2 by done. by rewrite (proj2 (Z.ltb_ge _ _)) by lia.
Qed.

Lemma scan_time_word t : word t → scan_time t = Some t.
Proof.
  intros [Hne Hs]. unfold scan_time. assert (skip_space t = t) as ->.
  { destruct t as [|c s]; [done|]. simpl in *. apply andb_true_iff in Hs as [Hc _].
    apply negb_true_iff in Hc. by rewrite Hc. }
  assert (scan_word t = t) as ->; [|by rewrite bool_decide_eq_false_2].
  clear Hne. induction t as [|c s IH]; [done|]. simpl in *. apply andb_true_iff in Hs as [Hc Hs].
  apply negb_true_iff in Hc. by rewrite Hc, IH.
Qed.

Lemma scan_finish_name first last t :
  0 <= first < 2 ^ 64 → 0 <= last < 2 ^ 64 → word t → scan_finish (finish_name first last t) = Some (first, last, t).
Proof.
  intros H1 H2 Ht. unfold scan_finish.
  change (scan_literal "log_" (finish_name first last t))
    with (Some (pretty first +:+ String "_"%char (pretty last +:+ String "_"%char t))%string). simpl mbind.
  rewrite scan_number_pretty by done. simpl. rewrite scan_number_pretty by done. simpl. by rewrite scan_time_word.
Qed.

Lemma scan_finish_open first t : 0 <= first < 2 ^ 64 → scan_finish (open_name first t) = None.
Proof.
  intros H1. unfold scan_finish.
  change (scan_literal "log_" (open_name first t)) with (Some (pretty first +:+ String "_"%char ("open_" +:+ t))%string).
  simpl mbind. by rewrite scan_number_pretty by done.
Qed.

Lemma scan_open_name first t : 0 <= first < 2 ^ 64 → word t → scan_open (open_name first t) = Some (first, t).
Proof.
  intros H1 Ht. unfold scan_open.
  change (scan_literal "log_" (open_name first t)) with (Some (pretty first +:+ String "_"%char ("open_" +:+ t))%string).
  simpl mbind. rewrite scan_number_pretty by done. simpl. by rewrite scan_time_word.
Qed.

(** ** Listing *)

(** What the constructors make of the name of a segment. *)
Definition restored (s : Segment) : Segment :=
  if is_open s then open_Segment (first_index s) (file_name s) (create_time s)
  else closed_Segment (first_index s) (last_index s) (file_name s).

Definition listable (s : Segment) : Prop :=
  name_ok s ∧ 0 <= first_index s < 2 ^ 64 ∧ (is_open s = false → 0 <= last_index s < 2 ^ 64).

Abbreviation closed_of gs := (filter (λ s, is_open s = false) gs).
Abbreviation open_of gs := (filter (λ s, is_open s = true) gs).

Lemma list_files_spec gs closed open :
  Forall listable gs → (length (open_of gs) + length (option_list open) <= 1)%nat →
  list_files (file_name <$> gs) closed open =
    Some (closed ++ (restored <$> closed_of gs), from_option Some (restored <$> head (open_of gs)) open).
Proof.
  revert closed open. induction gs as [|s gs IH]; intros closed open Hl Hn; cbn [fmap list_fmap list_files].
  { rewrite app_nil_r. by destruct open. }
  apply Forall_cons in Hl as [(Hnm & Hf & Hla) Hl]. unfold name_ok in Hnm. destruct (is_open s) eqn:Ho.
  - destruct Hnm as [Hwd Hnm]. rewrite (filter_cons_True (λ s, is_open s = true)) in Hn |- * by done.
    rewrite (filter_cons_False (λ s, is_open s = false)) by congruence.
    cbn [length] in Hn. destruct open; [simpl in Hn; lia|].
    assert (file_name s = open_name (first_index s) (create_time s)) as En by done. rewrite En at 1.
    rewrite scan_finish_open by done. rewrite En at 1. rewrite scan_open_name by done.
    rewrite IH; [|done|simpl in *; lia]. unfold restored. simpl. by rewrite Ho.
  - destruct Hnm as (t & Hwd & Hnm). specialize (Hla eq_refl). rewrite (filter_cons_False (λ s, is_open s = true)) in Hn |- * by congruence.
    rewrite (filter_cons_True (λ s, is_open s = false)) by done. rewrite Hnm at 1. rewrite scan_finish_name by done.
    rewrite IH by done. rewrite <-(assoc_L (++)). cbn [app fmap list_fmap].
    by replace (restored s) with (closed_Segment (first_index s) (last_index s) (file_name s)) by (unfold restored; by rewrite Ho).
Qed.

Lemma seg_listable d s es : seg_of d s es → (is_open s = false → es ≠ []) → listable s.
Proof.
  intros [ino Hs] Hne. pose proof (so_first _ _ _ _ Hs). pose proof (so_last _ _ _ _ Hs). pose proof (so_fit _ _ _ _ Hs).
  split_and!; [apply (so_name _ _ _ _ Hs)|lia..|]. intros Ho. specialize (Hne Ho). destruct es; [done|]. simpl in *. lia.
Qed.

(** The directory lists the files of the segments in some order. *)
Lemma directory_listing d st ess eo :
  store_ok d st ess eo →
  ∃ gs, (map_to_list (fs_names d)).*1 = file_name <$> gs ∧ gs ≡ₚ all_segments st.
Proof.
  intros Hk. pose proof Hk as [Hw H2 Hc Hl Hcl Hop Hne H1 Hla Hfi Hm Htg].
  assert ((map_to_list (fs_names d)).*1 ≡ₚ file_name <$> all_segments st) as Hp.
  { apply NoDup_Permutation; [apply NoDup_fst_map_to_list|by eapply store_names_NoDup|]. intros n. split.
    - intros ([n' i] & -> & Hin)%list_elem_of_fmap. apply elem_of_map_to_list in Hin. apply Htg. by exists i.
    - intros (s & -> & [j Hj]%list_elem_of_lookup)%list_elem_of_fmap.
      destruct (Forall2_lookup_l _ _ _ _ _ H2 Hj) as (es & _ & ino & Hs).
      apply list_elem_of_fmap. exists (file_name s, ino). split; [done|]. apply elem_of_map_to_list.
      apply (so_file _ _ _ _ Hs). }
  apply Permutation_map_inv in Hp as (gs & E & Hgs). by exists gs.
Qed.

Lemma closed_of_all st d ess eo : store_ok d st ess eo →
  closed_of (all_segments st) = segments st ∧ open_of (all_segments st) = option_list (open_segment st).
Proof.
  intros Hk. pose proof (sk_closed _ _ _ _ Hk) as Hcl. unfold all_segments. rewrite !filter_app.
  rewrite (filter_everything _ (segments st)) by done.
  rewrite (filter_none (λ s, is_open s = true) (segments st)) by (eapply Forall_impl; [done|]; simpl; congruence).
  destruct (open_segment st) as [s|] eqn:Ho; simpl; [|by rewrite app_nil_r].
  pose proof (sk_open _ _ _ _ Hk _ Ho) as Hop. rewrite !filter_cons, !filter_nil, Hop. simpl. by rewrite app_nil_r.
Qed.

#[export] Instance by_first_trans : Transitive by_first.
Proof. unfold by_first. intros x y z. lia. Qed.
#[export] Instance by_first_total : Total by_first.
Proof. unfold by_first. intros x y. lia. Qed.

Lemma chain_sorted f ss ess : chain f ss ess → StronglySorted by_first ss.
Proof.
  revert f ess. induction ss as [|s ss IH]; intros f [|es ess] Hc; simpl in *; try done; [constructor|].
  destruct Hc as [Hf Hc]. constructor; [by eapply IH|]. apply Forall_lookup. intros i x Hx.
  pose proof (chain_ge _ _ _ _ _ Hc Hx). unfold by_first. lia.
Qed.

(** Sorting brings the restored segments back in order. *)
Lemma sort_restored d st ess eo gs :
  store_ok d st ess eo → gs ≡ₚ all_segments st →
  merge_sort by_first (restored <$> closed_of gs) = restored <$> segments st.
Proof.
  intros Hk Hp. pose proof Hk as [Hw H2 Hc Hl Hcl Hop Hne H1 Hla Hfi Hm Htg].
  assert (restored <$> closed_of gs ≡ₚ restored <$> segments st) as Hp'.
  { by rewrite Hp, (proj1 (closed_of_all _ _ _ _ Hk)). }
  apply (chain_app _ _ _ _ _ Hl) in Hc as [Hc _].
  assert (∀ x y, by_first x y → by_first (restored x) (restored y)) as Hmono.
  { intros x y. unfold by_first, restored. by destruct (is_open x), (is_open y). }
  eapply (StronglySorted_unique_strong by_first).
  - intros x y Hx Hy Hxy Hyx. rewrite merge_sort_Permutation, Hp' in Hx.
    apply list_elem_of_fmap in Hx as (sx & -> & [i Hi]%list_elem_of_lookup), Hy as (sy & -> & [j Hj]%list_elem_of_lookup).
    assert (first_index sx = first_index sy) as E.
    { unfold by_first, restored in *. destruct (is_open sx), (is_open sy); simpl in *; lia. }
    destruct (decide (i = j)) as [->|Hij]; [congruence|]. exfalso.
    eapply (chain_first_ne _ _ _ i j sx sy Hc Hl); try done.
    intros k es _ He. by apply (Forall_lookup_1 _ _ _ _ Hne He).
  - apply (StronglySorted_merge_sort by_first).
  - eapply StronglySorted_fmap; [exact Hmono|]. by eapply chain_sorted.
  - by rewrite merge_sort_Permutation.
Qed.

(** ** Loading *)

Lemma load_restored d s es :
  seg_of d s es →
  ∃ s', load (restored s, d) = ((s', d), Ret 0) ∧ seg_of d s' es ∧ is_open s' = is_open s ∧
    first_index s' = first_index s ∧ file_name s' = file_name s.
Proof.
  intros [ino Hs]. pose proof Hs as [Hf Hl [Hfit1 Hfit2] Hes Hfile Hsz Hoff Hv Hfd Hn].
  assert (is_open (restored s) = is_open s ∧ first_index (restored s) = first_index s ∧
    file_name (restored s) = file_name s ∧ seg_fd (restored s) = None ∧ offset_term (restored s) = [])
    as (E1 & E2 & E3 & E4 & E5) by (unfold restored; destruct (is_open s) eqn:Ho; simpl; by rewrite ?Ho).
  destruct (load_spec d (restored s) ino es) as (s' & E & Hs' & Ho' & Hf' & Hn' & _); rewrite ?E2, ?E3; try done.
  - rewrite <-(seg_ok_getFileName _ _ _ _ Hs). unfold getFileName. case_bool_decide as Hb; [|done].
    by destruct (is_open s); unfold getOpenFileName, getFinishFileName.
  - unfold restored. by destruct (is_open s).
  - unfold name_ok, restored in *. destruct (is_open s) eqn:Ho; simpl; [|done].
    destruct Hn as [? Hn]. by split.
  - exists s'. rewrite Ho', Hf', Hn', E1, E2, E3. split_and!; try done. by exists ino.
Qed.

Definition last_seen (L : Z) (ss : list Segment) : Z :=
  foldl (λ L s, if L <? last_index s then last_index s else L) L ss.

Lemma load_closed_spec d todo ess pre st :
  Forall2 (seg_of d) todo ess → Forall (λ s, is_open s = false) todo →
  segments st = pre ++ (restored <$> todo) →
  ∃ todo', load_closed (seq (length pre) (length todo)) (st, d) =
      ((ls_last (last_seen (last_log_index st) todo) (ls_segments (pre ++ todo') st), d), Ret tt) ∧
    Forall2 (seg_of d) todo' ess ∧ Forall (λ s, is_open s = false) todo' ∧
    first_index <$> todo' = first_index <$> todo ∧ file_name <$> todo' = file_name <$> todo.
Proof.
  intros H2. revert pre st. induction H2 as [|s es todo ess Hs H2 IH]; intros pre st Hcl Es; cbn [length seq load_closed].
  { exists []. simpl in Es. split_and!; try done. simpl. rewrite <-Es. by destruct st. }
  apply Forall_cons in Hcl as [Ho Hcl].
  destruct (load_restored d s es Hs) as (s' & E & Hs' & Ho' & Hf' & Hn').
  assert (segments st !! length pre = Some (restored s)) as Hj by (rewrite Es, lookup_app_r, Nat.sub_diag by lia; done).
  assert (last_index s' = last_index s) as Hl'.
  { destruct Hs as [i1 Hs], Hs' as [i2 Hs']. rewrite (so_last _ _ _ _ Hs), (so_last _ _ _ _ Hs'). lia. }
  erewrite bind_Ret by (eapply on_closed_run; [exact Hj|exact E]). cbn [Z.eqb negb].
  set (st1 := ls_segments _ st). rewrite upd_run.
  assert (segments st1 !! length pre = Some s') as -> by (apply list_lookup_insert_eq; by eapply lookup_lt_Some).
  set (st2 := if last_log_index st1 <? last_index s' then ls_last (last_index s') st1 else st1).
  assert (segments st2 = (pre ++ [s']) ++ (restored <$> todo)) as Es2.
  { assert (segments st2 = segments st1) as -> by (unfold st2; by case_match). simpl. rewrite Es.
    rewrite insert_app_r_alt, Nat.sub_diag by lia. simpl. by rewrite <-(assoc_L (++)). }
  destruct (IH (pre ++ [s']) st2 Hcl Es2) as (todo' & E' & H2' & Hcl' & Hf2 & Hn2).
  rewrite length_app in E'. simpl in E'. rewrite Nat.add_1_r in E'. rewrite E'. exists (s' :: todo'). split_and!.
  - f_equal. f_equal. rewrite <-(assoc_L (++)). cbn [app].
    assert (last_log_index st2 = if last_log_index st <? last_index s then last_index s else last_log_index st) as ->.
    { unfold st2. rewrite Hl'. change (last_log_index st1) with (last_log_index st). destruct (last_log_index st <? last_index s); reflexivity. }
    unfold st2. change (last_log_index st1) with (last_log_index st). destruct (last_log_index st <? last_index s'); by destruct st.
  - by constructor.
  - constructor; [congruence|done].
  - cbn [fmap list_fmap]. f_equal; [exact Hf'|exact Hf2].
  - cbn [fmap list_fmap]. f_equal; [exact Hn'|exact Hn2].
Qed.

Lemma last_seen_chain d L f ss ess :
  chain f ss ess → Forall2 (seg_of d) ss ess → f - 1 <= L →
  last_seen L ss = Z.max L (f + Z.of_nat (length (mjoin ess)) - 1).
Proof.
  intros Hc H2. revert f L Hc. induction H2 as [|s es ss ess [ino Hs] H2 IH]; intros f L Hc HL; simpl in *; [lia|].
  destruct Hc as [Hf Hc]. pose proof (so_last _ _ _ _ Hs) as Hl. unfold last_seen in *. simpl.
  rewrite length_app. destruct (Z.ltb_spec L (last_index s)); rewrite (IH _ _ Hc); lia.
Qed.

Lemma chain_ext f ss ss' ess : first_index <$> ss = first_index <$> ss' → chain f ss ess → chain f ss' ess.
Proof.
  revert f ss' ess. induction ss as [|s ss IH]; intros f [|s' ss'] [|es ess] E Hc; simpl in *; try done.
  injection E as E1 E2. destruct Hc as [Hf Hc]. split; [congruence|]. by eapply IH.
Qed.

(** ** Starting *)

Lemma listSegments_spec d st ess eo st0 :
  store_ok d st ess eo → segments st0 = [] → open_segment st0 = None →
  ∃ st1, listSegments (st0, d) = ((st1, d), Ret 0) ∧ segments st1 = restored <$> segments st ∧
    open_segment st1 = restored <$> open_segment st ∧ max_log_size st1 = max_log_size st0 ∧
    match open_segment st with
    | Some s => first_log_index st1 = first_log_index st ∧ last_log_index st1 = first_index s - 1
    | None => first_log_index st1 = first_log_index st0 ∧ last_log_index st1 = last_log_index st0
    end.
Proof.
  intros Hk Es Eo. pose proof Hk as [Hw H2 Hc Hl Hcl Hop Hne H1 Hla Hfi Hm Htg].
  unfold listSegments. sto_go. destruct (directory_listing d st ess eo Hk) as (gs & -> & Hp).
  destruct (closed_of_all st d ess eo Hk) as [Ecl Eop].
  assert (open_of gs = option_list (open_segment st)) as Eg.
  { assert (open_of gs ≡ₚ option_list (open_segment st)) as Hpo by (by rewrite Hp, Eop).
    destruct (open_segment st); simpl in *; [by apply Permutation_singleton_r|by apply Permutation_nil_r]. }
  rewrite Es, Eo, list_files_spec, Eg.
  2:{ rewrite Hp. apply Forall_lookup. intros i s Hs. destruct (Forall2_lookup_l _ _ _ _ _ H2 Hs) as (es & He & Hse).
      eapply seg_listable; [done|]. intros Ho. unfold all_segments in Hs. apply lookup_app_Some in Hs as [Hs|[Hle Hs]].
      - rewrite lookup_app_l in He by (rewrite <-Hl; by eapply lookup_lt_Some). by apply (Forall_lookup_1 _ _ _ _ Hne He).
      - destruct (open_segment st) as [s0|] eqn:Ho'; [|done]. apply list_lookup_singleton_Some in Hs as [_ ->].
        specialize (Hop s eq_refl). congruence. }
  2:{ rewrite Eg. destruct (open_segment st); simpl; lia. }
  cbn [app from_option]. rewrite (sort_restored d st ess eo gs Hk Hp). cbv zeta. rewrite upd_run.
  apply Forall2_app_inv in H2 as [H2 _]; [|done].
  assert (bool_decide (Exists (λ s, last_index s < first_index s) (restored <$> segments st)) = false) as ->.
  { apply bool_decide_eq_false_2. rewrite Exists_exists. intros (s & (s1 & -> & [i Hi]%list_elem_of_lookup)%list_elem_of_fmap & Hlt).
    destruct (Forall2_lookup_l _ _ _ _ _ H2 Hi) as (es & He & ino & Hs). pose proof (so_last _ _ _ _ Hs).
    pose proof (Forall_lookup_1 _ _ _ _ Hne He). unfold restored in Hlt.
    rewrite (Forall_lookup_1 _ _ _ _ Hcl Hi) in Hlt. destruct es; [done|]. simpl in *. lia. }
  destruct (open_segment st) as [s|] eqn:Ho; simpl head; cbn [fmap option_fmap option_map]; rewrite ?upd_run, ?sret_run.
  - eexists. split; [reflexivity|]. split_and!; try done; simpl.
    + unfold all_segments in Hc. rewrite Ho in Hc. destruct (segments st) as [|s1 ss]; destruct ess as [|es ess]; try done; simpl in *.
      * unfold restored. rewrite (Hop _ eq_refl). simpl. by destruct eo, Hc.
      * destruct Hc as [Hc _]. unfold restored. by destruct (is_open s1).
    + destruct (all_segments_open _ _ _ _ _ Hk Ho) as (es & -> & _ & _ & [ino Hs] & _). pose proof (so_first _ _ _ _ Hs).
      pose proof (so_fit _ _ _ _ Hs). unfold restored. rewrite (Hop _ eq_refl). simpl.
      rewrite wrap_u_id; [done|]. unfold in_u. lia.
  - eexists. split; [reflexivity|]. by split_and!.
Qed.

(** A store over the same files that agrees on the segments is as good. *)
Lemma store_rebuilt d st st2 ess eo :
  store_ok d st ess eo → Forall2 (seg_of d) (all_segments st2) (ess ++ option_list eo) →
  first_index <$> all_segments st2 = first_index <$> all_segments st →
  file_name <$> all_segments st2 = file_name <$> all_segments st →
  length (segments st2) = length (segments st) → Forall (λ s, is_open s = false) (segments st2) →
  (∀ s, open_segment st2 = Some s → is_open s = true) →
  first_log_index st2 = first_log_index st → last_log_index st2 = last_log_index st →
  9 <= max_log_size st2 < 2 ^ 32 → store_ok d st2 ess eo.
Proof.
  intros [Hw H2 Hc Hl Hcl Hop Hne H1 Hla Hfi Hm Htg] H2' Ef En Elen Hcl' Hop' E1 E2 Hm'.
  split; rewrite ?E1, ?E2, ?En, ?Elen; try done. by eapply chain_ext.
Qed.

Lemma loadSegments_spec d st ess eo st1 :
  store_ok d st ess eo → log_of ess eo ≠ [] → segments st1 = restored <$> segments st →
  open_segment st1 = restored <$> open_segment st → first_log_index st1 = first_log_index st →
  9 <= max_log_size st1 < 2 ^ 32 →
  last_log_index st1 = match open_segment st with Some s => first_index s - 1 | None => first_log_index st - 1 end →
  ∃ st2, loadSegments (st1, d) = ((st2, d), Ret 0) ∧ store_ok d st2 ess eo ∧ first_log_index st2 = first_log_index st.
Proof.
  intros Hk Hlog Es Eo Ef Emax El. pose proof Hk as [Hw H2 Hc Hl Hcl Hop Hne H1 Hla Hfi Hm Htg].
  pose proof (proj1 (chain_app _ _ _ _ _ Hl) Hc) as [Hc1 _].
  pose proof (proj1 (Forall2_app_inv _ _ _ _ _ Hl H2)) as H2c.
  unfold loadSegments. sto_go. rewrite Es, length_fmap.
  destruct (load_closed_spec d (segments st) ess [] st1 H2c Hcl Es) as (ss & E & H2' & Hcl' & Hf' & Hn').
  simpl length in E. rewrite (bind_Ret _ _ _ _ _ E). clear E. rewrite Eo.
  assert (length (mjoin ess) <= length (log_of ess eo))%nat as Hlen by (unfold log_of; rewrite join_app, length_app; lia).
  assert (length (log_of ess eo) ≠ 0%nat) as Hlen0 by (by destruct (log_of ess eo)).
  set (L := last_seen _ _).
  assert (L = first_log_index st + Z.of_nat (length (mjoin ess)) - 1) as EL.
  { unfold L. rewrite El, (last_seen_chain d _ _ _ _ Hc1 H2c).
    - destruct (open_segment st) as [s|] eqn:Ho; [|lia].
      destruct (all_segments_open _ _ _ _ _ Hk Ho) as (es & -> & _ & _ & _ & ->). lia.
    - destruct (open_segment st) as [s|] eqn:Ho; [|lia].
      destruct (all_segments_open _ _ _ _ _ Hk Ho) as (es & -> & _ & _ & _ & ->). lia. }
  destruct (open_segment st) as [s|] eqn:Ho; cbn [fmap option_fmap option_map].
  - destruct (all_segments_open _ _ _ _ _ Hk Ho) as (es & -> & _ & _ & Hs & Hfs).
    destruct (load_restored d s es Hs) as (s' & E & Hs' & Ho' & Hf2 & Hn2).
    assert (last_index s' = last_log_index st) as Hls.
    { destruct Hs' as [ino' Hs']. rewrite (so_last _ _ _ _ Hs'), Hla, log_of_open, length_app. lia. }
    rewrite bind_assoc. erewrite bind_Ret by (eapply on_open_run; [exact Eo|exact E]). cbn [Z.eqb negb].
    rewrite bind_assoc, upd_run. cbn [ls_open open_segment first_log_index ls_last ls_segments].
    rewrite Hls, Ef, (proj2 (Z.ltb_ge _ _)) by lia. rewrite sret_run. cbn [Z.eqb negb]. rewrite upd_run.
    cbn [last_log_index ls_last]. rewrite (proj2 (Z.eqb_neq _ _)) by lia.
    eexists. split; [reflexivity|]. split; [|done].
    eapply (store_rebuilt d st); try done; simpl.
    + unfold all_segments. simpl. apply Forall2_app; [done|]. by constructor.
    + unfold all_segments. simpl. rewrite Ho, !fmap_app. f_equal; [done|]. simpl. f_equal. exact Hf2.
    + unfold all_segments. simpl. rewrite Ho, !fmap_app. f_equal; [done|]. simpl. f_equal. exact Hn2.
    + by rewrite <-(length_fmap first_index), Hf', length_fmap.
    + intros s0 [= <-]. rewrite Ho'. by apply Hop.
  - pose proof (store_ok_no_open _ _ _ _ Hk Ho) as ->. rewrite sret_run. cbn [Z.eqb negb]. rewrite upd_run.
    unfold log_of in *. simpl in Hlen0, Hla. rewrite app_nil_r in Hlen0, Hla.
    cbn [last_log_index ls_last]. rewrite (proj2 (Z.eqb_neq _ _)) by lia.
    eexists. split; [reflexivity|]. split; [|done].
    eapply (store_rebuilt d st); try done; simpl.
    + unfold all_segments. simpl. rewrite Eo. simpl. by rewrite !app_nil_r.
    + unfold all_segments. simpl. rewrite Eo, Ho. simpl. by rewrite !app_nil_r.
    + unfold all_segments. simpl. rewrite Eo, Ho. simpl. by rewrite !app_nil_r.
    + by rewrite <-(length_fmap first_index), Hf', length_fmap.
    + rewrite Eo. done.
    + lia.
Qed.

(** The log after a restart is the log before it, wherever the server stopped,
    when it is not empty and the open segment was there (or the log starts at 1). *)
Lemma init_spec d st ess eo st0 now max count :
  store_ok d st ess eo → log_of ess eo ≠ [] → (open_segment st = None → first_log_index st = 1) →
  segments st0 = [] → word now → 9 <= max < 2 ^ 32 →
  ∃ st' d' ess' eo', init now max count (st0, d) = ((st', d'), Ret 0) ∧ store_ok d' st' ess' eo' ∧
    log_of ess' eo' = log_of ess eo ∧ first_log_index st' = first_log_index st ∧ has_room st' eo'.
Proof.
  intros Hk Hlog Hfirst Es Hwd Hmax. unfold init. rewrite upd_run, Es.
  destruct (listSegments_spec d st ess eo (mkStore 1 0 max count [] None) Hk eq_refl eq_refl)
    as (st1 & E1 & Es1 & Eo1 & Em1 & Hidx).
  rewrite (bind_Ret _ _ _ _ _ E1). cbn [Z.eqb negb].
  destruct (loadSegments_spec d st ess eo st1 Hk Hlog Es1 Eo1) as (st2 & E2 & Hk2 & Hf2).
  - destruct (open_segment st); [apply Hidx|]. by rewrite (proj1 Hidx), Hfirst.
  - by rewrite Em1.
  - destruct (open_segment st); [apply Hidx|]. by rewrite (proj2 Hidx), Hfirst.
  - rewrite (bind_Ret _ _ _ _ _ E2). cbn [Z.eqb negb].
    destruct (openSegment_spec now _ _ _ _ Hk2 Hwd) as (st' & d' & ess' & eo' & E & Hk' & Hlog' & Hf' & _ & Hroom).
    exists st', d', ess', eo'. split_and!; try done. congruence.
Qed.
