(* ===== verification/LogStoreProps.v ===== *)
(** * What the segmented log promises

    The abstract log is a first index and a list of entries. Every sequence of
    calls on the store behaves like the same sequence on the abstract log, a
    restart finds the log that was written, and an entry whose record was
    damaged on disk is refused. *)

From S2P Require Import Prelude Types ZkIO KeeperPaths Crc32 FileSystem LogSegment LogSegmentInv LogStore LogStoreInv LogStoreCompact LogStoreReload.
From stdpp Require Import base gmap sets strings option pretty sorting list.
From Stdlib Require Import ZArith Lia Ascii.
Open Scope Z_scope.

Record Log : Type := mkLog { lg_first : Z; lg_entries : list log_entry }.

Definition lg_last (l : Log) : Z := lg_first l + Z.of_nat (length (lg_entries l)) - 1.
Definition lg_get (l : Log) (index : Z) : option log_entry := entry_of (lg_first l) (lg_entries l) index.
Definition lg_take (n : Z) (l : Log) : Log := mkLog (lg_first l) (take (Z.to_nat (n - lg_first l)) (lg_entries l)).

Inductive log_call : Type :=
  | CallAppend (now : string) (e : log_entry)
  | CallGet (index : Z)
  | CallTerm (index : Z)
  | CallRange (start_index end_index : Z)
  | CallTruncate (last_index_kept : Z)
  | CallWriteAt (now : string) (index : Z) (e : log_entry)
  | CallCompact (first_index_kept : Z).

Inductive log_answer : Type :=
  | AnsIndex (z : Z)
  | AnsEntry (e : option log_entry)
  | AnsEntries (es : list (option log_entry)).

Definition run_call (c : log_call) : StoM log_answer :=
  match c with
  | CallAppend now e => z ← LogStore.appendEntry now e; mret (AnsIndex z)
  | CallGet i => e ← LogStore.getEntry i; mret (AnsEntry e)
  | CallTerm i => z ← LogStore.getTerm i; mret (AnsIndex z)
  | CallRange a b => es ← getEntries a b; mret (AnsEntries es)
  | CallTruncate k => z ← truncateLog k; mret (AnsIndex z)
  | CallWriteAt now i e => z ← writeAt now i e; mret (AnsIndex z)
  | CallCompact k => z ← removeSegment k; mret (AnsIndex z)
  end.

(** What each call does to the abstract log. Compaction removes whole segments:
    which index the log starts at then is between the old one and the kept one. *)
Inductive log_does (l : Log) : log_call → log_answer → Log → Prop :=
  | does_append now e :
      log_does l (CallAppend now e) (AnsIndex (lg_last l + 1)) (mkLog (lg_first l) (lg_entries l ++ [e]))
  | does_get i : log_does l (CallGet i) (AnsEntry (lg_get l i)) l
  | does_term i : log_does l (CallTerm i) (AnsIndex (default 0 (le_term <$> lg_get l i))) l
  | does_range a b : log_does l (CallRange a b) (AnsEntries (lg_get l <$> seqZ a (b - a + 1))) l
  | does_truncate k : log_does l (CallTruncate k) (AnsIndex 0) (lg_take (k + 1) l)
  | does_write now i e :
      i <= lg_last l + 1 →
      log_does l (CallWriteAt now i e) (AnsIndex i) (mkLog (lg_first l) (lg_entries (lg_take i l) ++ [e]))
  | does_write_refused now i e :
      lg_last l + 1 < i → log_does l (CallWriteAt now i e) (AnsIndex (2 ^ 64 - 1)) l
  | does_compact k l' :
      lg_first l <= lg_first l' <= Z.max k (lg_first l) →
      lg_entries l' = drop (Z.to_nat (lg_first l' - lg_first l)) (lg_entries l) →
      log_does l (CallCompact k) (AnsIndex 0) l'.

(** The calls the server makes: entries that fit, indices not before the log,
    and no compaction that would keep exactly the last entry. *)
Definition permitted (l : Log) (c : log_call) : Prop :=
  match c with
  | CallAppend now e => word now ∧ entry_ok e ∧ lg_last l + 2 < 2 ^ 63
  | CallTruncate k => lg_first l - 1 <= k
  | CallWriteAt now i e => word now ∧ entry_ok e ∧ lg_first l <= i ∧ i + 1 < 2 ^ 63
  | CallCompact k => k < 2 ^ 63 ∧ k ≠ lg_last l
  | _ => True
  end.

Abbreviation valid := (valid_calls permitted log_does).
Abbreviation log_runs := (runs log_does).

(** The store and its directory hold the log. *)
Definition holds_log (d : Disk) (st : Store) (l : Log) : Prop :=
  ∃ ess eo, store_ok d st ess eo ∧ l = mkLog (first_log_index st) (log_of ess eo).

Lemma holds_last d st l : holds_log d st l → last_log_index st = lg_last l.
Proof. intros (ess & eo & Hk & ->). apply (sk_last _ _ _ _ Hk). Qed.

Lemma get_range_spec d st ess eo fuel index :
  store_ok d st ess eo →
  ∃ st', get_range fuel index (st, d) =
      ((st', d), Ret (entry_of (first_log_index st) (log_of ess eo) <$> seqZ index (Z.of_nat fuel))) ∧
    store_ok d st' ess eo ∧ first_log_index st' = first_log_index st ∧ (renamable st → renamable st').
Proof.
  revert st index. induction fuel as [|fuel IH]; intros st index Hk; cbn [get_range].
  { exists st. by rewrite seqZ_nil by lia. }
  destruct (store_get d st ess eo index Hk) as (st1 & E1 & Hk1 & Hf1 & Hr1).
  destruct (IH st1 (index + 1) Hk1) as (st2 & E2 & Hk2 & Hf2 & Hr2). rewrite Hf1 in *.
  exists st2. rewrite (bind_Ret _ _ _ _ _ E1), (bind_Ret _ _ _ _ _ E2). split_and!; auto.
  rewrite (seqZ_cons index) by lia. cbn [fmap list_fmap].
  replace (Z.succ index) with (index + 1) by lia. by replace (Z.pred (Z.of_nat (S fuel))) with (Z.of_nat fuel) by lia.
Qed.

(** One call. *)
Lemma call_refines d st l c :
  holds_log d st l → renamable st → permitted l c →
  ∃ st' d' a l', run_call c (st, d) = ((st', d'), Ret a) ∧ log_does l c a l' ∧ holds_log d' st' l' ∧ renamable st'.
Proof.
  intros Hh Hren Hp. pose proof (holds_last _ _ _ Hh) as Hlast. destruct Hh as (ess & eo & Hk & ->).
  destruct c as [now e|i|i|a b|k|now i e|k]; cbn [run_call permitted] in *.
  - destruct Hp as (Hwd & He & Hfit). rewrite <-Hlast in Hfit.
    destruct (store_append now d st ess eo e Hk Hwd He Hfit) as (st' & d' & ess' & eo' & E & Hk' & Hf & Hr & Hlog).
    rewrite (bind_Ret _ _ _ _ _ E), Hlast. eexists _, _, _, _. split; [reflexivity|]. split; [constructor|].
    split; [|auto]. exists ess', eo'. by rewrite Hf, Hlog.
  - destruct (store_get d st ess eo i Hk) as (st' & E & Hk' & Hf & Hr).
    rewrite (bind_Ret _ _ _ _ _ E). eexists _, _, _, _. split; [reflexivity|]. split; [constructor|].
    split; [|auto]. exists ess, eo. by rewrite Hf.
  - rewrite (bind_Ret _ _ _ _ _ (store_getTerm d st ess eo i Hk)). eexists _, _, _, _. split; [reflexivity|].
    split; [constructor|]. split; [|done]. by exists ess, eo.
  - destruct (get_range_spec d st ess eo (Z.to_nat (b - a + 1)) a Hk) as (st' & E & Hk' & Hf & Hr).
    unfold getEntries. rewrite (bind_Ret _ _ _ _ _ E). eexists _, _, _, _. split; [reflexivity|]. split; [|split; [|auto]].
    + replace (seqZ a (Z.of_nat _)) with (seqZ a (b - a + 1)); [constructor|].
      destruct (decide (0 <= b - a + 1)); [by rewrite Z2Nat.id by lia|]. by rewrite !seqZ_nil by lia.
    + exists ess, eo. by rewrite Hf.
  - destruct (store_truncate d st ess eo k Hk Hren Hp) as (st' & d' & ess' & eo' & E & Hk' & Hf & Hr & Hlog).
    rewrite (bind_Ret _ _ _ _ _ E). eexists _, _, _, _. split; [reflexivity|]. split; [constructor|].
    split; [|done]. exists ess', eo'. by rewrite Hf, Hlog.
  - destruct Hp as (Hwd & He & Hi & Hfit).
    destruct (store_writeAt now d st ess eo i e Hk Hren Hwd He Hi Hfit) as (st' & d' & ess' & eo' & E & Hk' & Hf & Hr & Hlog).
    rewrite (bind_Ret _ _ _ _ _ E). rewrite Hlast in *. destruct (Z.leb_spec i (lg_last (mkLog (first_log_index st) (log_of ess eo)) + 1)).
    + eexists _, _, _, _. split; [reflexivity|]. split; [by constructor|]. split; [|done]. exists ess', eo'. by rewrite Hf, Hlog.
    + eexists _, _, _, _. split; [reflexivity|]. split; [by apply does_write_refused|].
      split; [|done]. exists ess', eo'. by rewrite Hf, Hlog.
  - destruct Hp as [Hfit Hne]. rewrite <-Hlast in Hne.
    destruct (store_compact d st ess eo k Hk Hfit Hne) as (st' & d' & ess' & eo' & E & Hk' & Hc & Hr).
    rewrite (bind_Ret _ _ _ _ _ E). eexists _, _, _, (mkLog (first_log_index st') (log_of ess' eo')).
    split; [reflexivity|]. split; [|split; [by exists ess', eo'|auto]].
    destruct Hc as [[Hc1 Hc2]|(Hle & -> & Hlog)]; constructor; simpl; [lia|done|lia|by rewrite Z.sub_diag].
Qed.

Definition serves (s : Store * Disk) (l : Log) : Prop := holds_log s.2 s.1 l ∧ renamable s.1.

Lemma call_simulates s l c :
  serves s l → permitted l c → ∃ s' a l', run_call c s = (s', Ret a) ∧ log_does l c a l' ∧ serves s' l'.
Proof.
  destruct s as [st d]. intros [Hh Hren] Hp. destruct (call_refines d st l c Hh Hren Hp) as (st' & d' & a & l' & E & Hd & Hh' & Hren').
  by exists (st', d'), a, l'.
Qed.

(** ** From an empty directory *)

Definition new_store : Store := LogSegmentStore_new.
Definition no_files : Disk := mkDisk ∅ ∅ 0.

Lemma init_empty now max count :
  word now → 9 <= max < 2 ^ 32 →
  ∃ st d, init now max count (new_store, no_files) = ((st, d), Ret 0) ∧ holds_log d st (mkLog 1 []) ∧ renamable st.
Proof.
  intros Hwd Hmax. set (st1 := mkStore 1 0 max count [] None).
  assert (store_ok no_files st1 [] None) as Hk.
  { split; try done; try (by constructor); try (simpl; lia).
    intros n [i Hn]. simpl in Hn. by rewrite lookup_empty in Hn. }
  destruct (openSegment_spec now no_files st1 [] None Hk Hwd) as (st & d & ess & eo & E & Hk' & Hlog & Hf & Hren & _).
  exists st, d. split; [exact E|]. split; [|by apply Hren; constructor]. exists ess, eo. by rewrite Hlog, Hf.
Qed.

Definition session (now : string) (max count : Z) (cs : list log_call) : StoM (list log_answer) :=
  init now max count;; run_calls run_call cs.

Lemma session_refines now max count cs :
  word now → 9 <= max < 2 ^ 32 → valid (mkLog 1 []) cs →
  ∃ st d acs l, session now max count cs (new_store, no_files) = ((st, d), Ret acs) ∧
    log_runs (mkLog 1 []) cs acs l ∧ holds_log d st l.
Proof.
  intros Hwd Hmax Hv. destruct (init_empty now max count Hwd Hmax) as (st & d & E & Hh & Hren).
  destruct (simulation run_call permitted log_does serves call_simulates (st, d) _ cs (conj Hh Hren) Hv)
    as ([st' d'] & acs & l & E' & Hr & Hh' & _).
  exists st', d', acs, l. unfold session. by rewrite (bind_Ret _ _ _ _ _ E).
Qed.

(** C5: a log segment store started on an empty directory answers every
    permitted sequence of appends, reads, range reads, truncations, overwrites
    and compactions as the abstract log does, however the entries are spread
    over segment files, and its files hold that log at the end. *)
Theorem store_refines_log now max count cs :
  word now → 9 <= max < 2 ^ 32 → valid (mkLog 1 []) cs →
  ∃ st d acs l, session now max count cs (new_store, no_files) = ((st, d), Ret acs) ∧
    log_runs (mkLog 1 []) cs acs l ∧ holds_log d st l.
Proof. apply session_refines. Qed.


(** ** Damage on disk *)

(** The file with one byte replaced. *)
Definition damage (ino : nat) (pos : nat) (b : Byte.byte) (d : Disk) : Disk :=
  fs_set_data ino (<[pos := b]> (fs_content ino d)) d.

Lemma crc_detects_byte body k b :
  (k < length body)%nat → body !! k ≠ Some b → getCRC32 (<[k := b]> body) ≠ getCRC32 body.
Proof.
  intros Hk Hb E. destruct (lookup_lt_is_Some_2 body k Hk) as [c Hc].
  rewrite <-(take_drop_middle body k c Hc) in E at 2. rewrite insert_take_drop in E by done.
  apply getCRC32_one_byte in E. congruence.
Qed.

Lemma loadEntry_damaged ino d pre index e post k b :
  fs_content ino d = pre ++ (write_header (record_header index e) ++ <[k := b]> (serializeEntry e)) ++ post →
  entry_ok e → in_u 64 index → (k < length (serializeEntry e))%nat → serializeEntry e !! k ≠ Some b →
  loadEntry ino (Z.of_nat (length pre)) d = Ret None.
Proof.
  intros Hc He Hi Hk Hb. unfold loadEntry.
  rewrite (loadHeader_at ino d pre index e (<[k := b]> (serializeEntry e) ++ post)) by (by rewrite ?Hc, <-?(assoc_L (++))).
  cbn [record_header h_term h_index h_length h_crc].
  rewrite (pread_at ino _ (pre ++ write_header (record_header index e)) (<[k := b]> (serializeEntry e)) post _ _ d Hc);
    [|by rewrite <-!(assoc_L (++))|rewrite length_app, length_write_header; unfold HEADER_SIZE; lia|by rewrite length_insert].
  rewrite length_insert, bool_decide_eq_true_2 by done. cbn [negb]. unfold verifyCRC32.
  by rewrite (proj2 (Z.eqb_neq _ _)) by (by apply not_eq_sym, crc_detects_byte).
Qed.

(** C38: when one byte of the body of a stored entry changes on disk, reading the
    entry gives no entry, never a different one: the checksum of the record
    does not match. *)
Theorem damaged_entry_refused d s ino es i e k b :
  seg_ok d s ino es → es !! i = Some e → (k < length (serializeEntry e))%nat → serializeEntry e !! k ≠ Some b →
  let pos := (9 + Z.to_nat (records_size (take i es)) + 24 + k)%nat in
  ∃ s', LogSegment.getEntry (first_index s + Z.of_nat i) (s, damage ino pos b d) = ((s', damage ino pos b d), Ret None).
Proof.
  intros Hs Hi Hk Hb pos. pose proof (lookup_lt_Some _ _ _ Hi) as Hlt.
  pose proof (so_file _ _ _ _ Hs) as Hfile. pose proof (records_size_nonneg (take i es)) as Hnn.
  set (d' := damage ino pos b d).
  assert (∃ fd, openFile (s, d') = ((sg_fd (Some fd) s, d'), Ret 0) ∧ fd_ino fd = ino) as (fd & E & Hino).
  { eapply (openFile_file d' s ino); [|by eapply set_data_file|].
    - intros E. pose proof (seg_ok_index _ _ _ _ Hs) as Hx. rewrite E in Hx. pose proof (so_first _ _ _ _ Hs). simpl in Hx. lia.
    - intros fd E. pose proof (so_fd _ _ _ _ Hs) as Hfd. rewrite E in Hfd. apply Hfd. }
  exists (sg_fd (Some fd) s). unfold LogSegment.getEntry. rewrite (bind_Ret _ _ _ _ _ E). cbn [Z.eqb negb]. sg.
  pose proof (getMeta_spec _ _ _ _ (first_index s + Z.of_nat i) Hs) as Hm. unfold entry_of in Hm.
  rewrite (proj2 (Z.leb_le _ _)) in Hm by lia.
  replace (Z.to_nat (first_index s + Z.of_nat i - first_index s)) with i in Hm by lia. rewrite Hi in Hm.
  destruct Hm as [len Hm]. change (getMeta _ (sg_fd (Some fd) s)) with (getMeta (first_index s + Z.of_nat i) s).
  rewrite Hm. sg. cbn [sg_fd seg_fd lm_offset]. unfold lift. f_equal. rewrite Hino.
  set (pre := file_header ++ records (first_index s) (take i es)).
  assert (Z.of_nat (length pre) = 9 + records_size (take i es)) as Elen
    by (unfold pre; rewrite length_app, Nat2Z.inj_add, length_records; done).
  rewrite <-Elen. eapply (loadEntry_damaged ino d' pre (first_index s + Z.of_nat i) e _ k b); try done.
  - unfold d', damage. rewrite content_set_data.
    rewrite (has_file_content _ _ _ _ Hfile). unfold seg_bytes. rewrite (records_middle _ _ _ _ Hi).
    rewrite (assoc_L (++) file_header). fold pre. rewrite insert_app_r_alt by lia. f_equal.
    unfold record_bytes. rewrite insert_app_l by (rewrite length_app, length_write_header; lia). f_equal.
    rewrite insert_app_r_alt by (rewrite length_write_header; lia). rewrite length_write_header.
    by replace (pos - length pre - 24)%nat with k by lia.
  - eapply Forall_lookup_1; [apply (so_entries _ _ _ _ Hs)|done].
  - pose proof (so_fit _ _ _ _ Hs). pose proof (so_first _ _ _ _ Hs). unfold in_u. lia.
Qed.

(** ** A run that rolls segments, cuts them, overwrites and compacts *)

Module LogDemo.

Definition entry (term : Z) (data : bytes) : log_entry := mkLogEntry term 1 data.
Definition e1 : log_entry := entry 1 [Byte.x61].
Definition e2 : log_entry := entry 1 [Byte.x62; Byte.x63].
Definition e3 : log_entry := entry 2 [].
Definition e4 : log_entry := entry 3 [Byte.x64].

Definition time : string := "20221018120000".

Definition calls : list log_call :=
  [CallAppend time e1; CallAppend time e2; CallAppend time e3; CallAppend time e4; CallGet 2; CallTerm 3;
   CallTruncate 3; CallAppend time e1; CallWriteAt time 3 e4; CallAppend time e3; CallWriteAt time 9 e1;
   CallAppend time e1; CallCompact 4; CallRange 4 5].

(** The answers, and the files that are left: a segment is full at 30 bytes. *)
Lemma answers :
  let run := session time 30 3 calls (new_store, no_files) in
  run.2 = Ret [AnsIndex 1; AnsIndex 2; AnsIndex 3; AnsIndex 4; AnsEntry (Some e2); AnsIndex 2;
    AnsIndex 0; AnsIndex 4; AnsIndex 3; AnsIndex 4; AnsIndex (2 ^ 64 - 1);
    AnsIndex 5; AnsIndex 0; AnsEntries [Some e3; Some e1]] ∧
  listFiles run.1.1 = ["log_4_4_20221018120000"; "log_5_open_20221018120000"].
Proof. vm_compute. done. Qed.

Ltac permit := unfold permitted, word, entry_ok, in_u; apply (bool_decide_unpack _); vm_compute; exact I.
Ltac valid_run := repeat (constructor; [permit|intros ? ? Hdoes; inversion Hdoes; subst; clear Hdoes]); try constructor.

Lemma calls_valid : valid (mkLog 1 []) calls.
Proof. unfold calls. valid_run. Qed.

End LogDemo.

Lemma demo_word : word LogDemo.time.
Proof. by split. Qed.

Lemma store_refines_log_witness :
  valid (mkLog 1 []) LogDemo.calls ∧
  ∃ st d acs l, session LogDemo.time 30 3 LogDemo.calls (new_store, no_files) = ((st, d), Ret acs) ∧
    log_runs (mkLog 1 []) LogDemo.calls acs l ∧ holds_log d st l.
Proof.
  split; [exact LogDemo.calls_valid|].
  exact (store_refines_log LogDemo.time 30 3 LogDemo.calls demo_word ltac:(lia) LogDemo.calls_valid).
Defined.


(** The closed segment with the entry [e2] in it, after two appends. *)
Definition demo_disk : Disk := mkDisk {["log_1_open_t" := 0%nat]} {[0%nat := seg_bytes 1 [LogDemo.e1; LogDemo.e2]]} 1.
Definition demo_segment : Segment :=
  mkSegment 1 2 "log_1_open_t" "t" (Some (mkFd 0 (9 + records_size [LogDemo.e1; LogDemo.e2])))
    (9 + records_size [LogDemo.e1; LogDemo.e2]) true (offsets 9 [LogDemo.e1; LogDemo.e2]) (Some V1).

Lemma demo_segment_ok : seg_ok demo_disk demo_segment 0 [LogDemo.e1; LogDemo.e2].
Proof.
  split.
  - apply (bool_decide_unpack _). vm_compute. exact I.
  - reflexivity.
  - apply (bool_decide_unpack _). vm_compute. exact I.
  - unfold entry_ok, in_u. apply (bool_decide_unpack _). vm_compute. exact I.
  - split; vm_compute; reflexivity.
  - reflexivity.
  - reflexivity.
  - reflexivity.
  - split; [reflexivity|]. intros _. reflexivity.
  - split; [|vm_compute; reflexivity]. unfold word. apply (bool_decide_unpack _). vm_compute. exact I.
Qed.

Lemma damaged_entry_refused_witness :
  let pos := (9 + Z.to_nat (records_size (take 1 [LogDemo.e1; LogDemo.e2])) + 24 + 1)%nat in
  ∃ s', LogSegment.getEntry (first_index demo_segment + Z.of_nat 1) (demo_segment, damage 0 pos Byte.x00 demo_disk) =
    ((s', damage 0 pos Byte.x00 demo_disk), Ret None).
Proof.
  refine (damaged_entry_refused demo_disk demo_segment 0 [LogDemo.e1; LogDemo.e2] 1 LogDemo.e2 1 Byte.x00
    demo_segment_ok eq_refl _ _).
  - apply (bool_decide_unpack _). vm_compute. exact I.
  - vm_compute. discriminate.
Defined.
