(* ===== verification/LogStoreFindings.v ===== *)
(** * Where the segmented log does not keep its log

    Concrete runs of the model in which the store loses sight of an entry or
    cannot be started again. Each is outside the hypotheses of the theorems on
    the log. *)

From S2P Require Import Prelude Types ZkIO KeeperPaths Crc32 FileSystem LogSegment LogSegmentInv LogStore LogStoreInv LogStoreProps.
From stdpp Require Import base gmap sets strings option list.
From Stdlib Require Import ZArith.
Open Scope Z_scope.

Definition t1 : string := "20221018120000".
Definition t2 : string := "20221018120001".
Definition t3 : string := "20221018120002".

Definition after (d : Disk) (m : StoM Z) : Store * Disk := (m (new_store, d)).1.

(** Compaction that keeps exactly the last entry: the open segment still holds
    entry 2, but [last_log_index] is 1 and the entry is not found. *)
Lemma compaction_hides_last :
  let '(st, d) := (session t1 30 3 [CallAppend t1 LogDemo.e1; CallAppend t1 LogDemo.e2; CallCompact 2] (new_store, no_files)).1 in
  (first_log_index st, last_log_index st) = (2, 1) ∧
  (last_index <$> open_segment st) = Some 2 ∧
  (LogStore.getEntry 2 (st, d)).2 = Ret None.
Proof. vm_compute. done. Qed.

(** A server started twice before its first entry: the second start forgets the
    empty open segment without removing its file, the third finds two open
    files and fails. *)
Lemma third_start_fails :
  let d1 := (after no_files (init t1 30 3)).2 in
  let d2 := (after d1 (init t2 30 3)).2 in
  (init t2 30 3 (new_store, d1)).2 = Ret 0 ∧ (init t3 30 3 (new_store, d2)).2 = Ret (-1).
Proof. vm_compute. done. Qed.

(** Within the same second even the second start fails. *)
Lemma second_start_same_second :
  (init t1 30 3 (new_store, (after no_files (init t1 30 3)).2)).2 = Ret (-1).
Proof. vm_compute. done. Qed.

(** Truncating into a segment restored from its name: the restored segment has
    no creation time, so the file to rename is not found. *)
Lemma truncate_restored_throws :
  let d := (session t1 70 3 [CallAppend t1 LogDemo.e1; CallAppend t1 LogDemo.e2; CallAppend t1 LogDemo.e3; CallAppend t1 LogDemo.e4]
             (new_store, no_files)).1.2 in
  (truncateLog 1 (after d (init t2 70 3))).2 = Throw FILE_NOT_FOUND.
Proof. vm_compute. done. Qed.

(** Only closed segments left: the restarted store starts its log at 1. *)
Lemma restart_moves_first :
  let '(st, d) := (session t1 30 3 [CallAppend t1 LogDemo.e1; CallAppend t1 LogDemo.e2; CallAppend t1 LogDemo.e3; CallCompact 2; CallTruncate 2]
                     (new_store, no_files)).1 in
  first_log_index st = 2 ∧ first_log_index (after d (init t2 30 3)).1 = 1.
Proof. vm_compute. done. Qed.

(** A torn last record: the start fails instead of cutting it off. *)
Lemma torn_record_fails :
  let d := (session t1 90 3 [CallAppend t1 LogDemo.e1; CallAppend t1 LogDemo.e2] (new_store, no_files)).1.2 in
  (init t2 90 3 (new_store, fs_ftruncate 0 60 d)).2 = Ret (-1).
Proof. vm_compute. done. Qed.

(** A file without its header, as a crash right after [create] leaves it, makes
    the start throw. *)
Lemma headerless_file_throws :
  (init t2 90 3 (new_store, (fs_create (open_name 1 t1) no_files).1)).2 = Throw CANNOT_READ_FROM_FILE_DESCRIPTOR.
Proof. vm_compute. done. Qed.

(** The version of an index that is not in the log. *)
Lemma version_of_missing_index : (getVersion 5 (new_store, no_files)).2 = Crash.
Proof. done. Qed.
