(* ===== verification/FileLogStore.v ===== *)
(** * The log store NuRaft sees: src/Service/NuRaftFileLogStore.cpp and .h

    [NuRaftFileLogStore] puts a cache of the newest 65536 entries
    ([LogEntryQueue]) in front of a segmented log. What it needs of that log is
    the class [LogBackend]; src/Service/NuRaftLogSegment.cpp provides it (the
    instance is in FileLogStoreProps). *)

From S2P Require Import Prelude Types ZkIO LogSegment LogStore.
From stdpp Require Import base gmap sets strings option list.
From Stdlib Require Import ZArith Lia.
Open Scope Z_scope.

(** ** The queue of recent entries *)

Definition BIT_SIZE : Z := 16.
Definition MAX_VECTOR_SIZE : Z := 65536.

(** The array of pointers by its non-null elements. *)
Record LogEntryQueue : Type := mkQueue {
  batch_index : Z;
  max_index : Z;
  entry_vec : gmap Z log_entry
}.

Definition new_queue : LogEntryQueue := mkQueue 0 0 ∅.

Definition slot (index : Z) : Z := Z.land index (MAX_VECTOR_SIZE - 1).
Definition in_batch (index : Z) (q : LogEntryQueue) : bool :=
  (Z.shiftr index BIT_SIZE =? batch_index q) || (Z.shiftr index BIT_SIZE =? u64 (batch_index q - 1)).

Definition queue_getEntry (index : Z) (q : LogEntryQueue) : option log_entry :=
  if (max_index q <? index) || (MAX_VECTOR_SIZE <=? u64 (max_index q - index)) then None
  else if in_batch index q then entry_vec q !! slot index else None.

Definition putEntry (index : Z) (e : log_entry) (q : LogEntryQueue) : LogEntryQueue :=
  mkQueue (Z.max (batch_index q) (Z.shiftr index BIT_SIZE)) (Z.max (max_index q) index)
    (<[slot index := e]> (entry_vec q)).

Definition clear (q : LogEntryQueue) : LogEntryQueue := mkQueue 0 0 ∅.

Definition putEntryOrClear (index : Z) (e : log_entry) (q : LogEntryQueue) : LogEntryQueue :=
  if in_batch index q then mkQueue (batch_index q) index (<[slot index := e]> (entry_vec q)) else clear q.

(** ** What the segmented log provides *)

Class LogBackend (S : Type) : Type := {
  be_firstLogIndex : S → Z;
  be_lastLogIndex : S → Z;
  be_appendEntry : string → log_entry → ST S exn Z;
  be_getEntry : Z → ST S exn (option log_entry);
  be_getVersion : Z → ST S exn LogVersion;
  be_writeAt : string → Z → log_entry → ST S exn Z;
  be_removeSegment : Z → ST S exn Z;
  be_flush : ST S exn Z
}.

Inductive FsyncMode : Set := FSYNC_PARALLEL | FSYNC | FSYNC_BATCH.
#[export] Instance FsyncMode_eq_dec : EqDecision FsyncMode.
Proof. solve_decision. Defined.

(** ** The store; [fsync_event] is the event the fsync thread waits for *)

Record FileLogStore (S : Type) : Type := mkFileLogStore {
  segment_store : S;
  log_queue : LogEntryQueue;
  last_log_entry : option log_entry;
  log_fsync_mode : FsyncMode;
  log_fsync_interval : Z;
  to_flush_count : Z;
  disk_last_durable_index : Z;
  fsync_event : bool
}.
Arguments mkFileLogStore {_}.
Arguments segment_store {_}.
Arguments log_queue {_}.
Arguments last_log_entry {_}.
Arguments log_fsync_mode {_}.
Arguments log_fsync_interval {_}.
Arguments to_flush_count {_}.
Arguments disk_last_durable_index {_}.
Arguments fsync_event {_}.

Section store.
Context {S : Type} `{!LogBackend S}.
Implicit Types (f : FileLogStore S).

Definition fl_segment (s : S) f : FileLogStore S :=
  mkFileLogStore s (log_queue f) (last_log_entry f) (log_fsync_mode f) (log_fsync_interval f) (to_flush_count f)
    (disk_last_durable_index f) (fsync_event f).
Definition fl_queue (q : LogEntryQueue) f : FileLogStore S :=
  mkFileLogStore (segment_store f) q (last_log_entry f) (log_fsync_mode f) (log_fsync_interval f) (to_flush_count f)
    (disk_last_durable_index f) (fsync_event f).
Definition fl_last (e : option log_entry) f : FileLogStore S :=
  mkFileLogStore (segment_store f) (log_queue f) e (log_fsync_mode f) (log_fsync_interval f) (to_flush_count f)
    (disk_last_durable_index f) (fsync_event f).
Definition fl_count (c : Z) f : FileLogStore S :=
  mkFileLogStore (segment_store f) (log_queue f) (last_log_entry f) (log_fsync_mode f) (log_fsync_interval f) c
    (disk_last_durable_index f) (fsync_event f).
Definition fl_durable (z : Z) f : FileLogStore S :=
  mkFileLogStore (segment_store f) (log_queue f) (last_log_entry f) (log_fsync_mode f) (log_fsync_interval f)
    (to_flush_count f) z (fsync_event f).
Definition fl_event (b : bool) f : FileLogStore S :=
  mkFileLogStore (segment_store f) (log_queue f) (last_log_entry f) (log_fsync_mode f) (log_fsync_interval f)
    (to_flush_count f) (disk_last_durable_index f) b.

Abbreviation FlM := (ST (FileLogStore S) exn).

(** A call on the segmented log. *)
Definition on_segment {A} (m : ST S exn A) : FlM A :=
  λ f, let '(s, o) := m (segment_store f) in (fl_segment s f, o).

Definition wake : FlM unit := modify (fl_event true).
Definition is_parallel f : bool := bool_decide (log_fsync_mode f = FSYNC_PARALLEL).

(** The type code of an application entry in NuRaft's log_val_type. *)
Definition app_log : Z := 1.

(** After its segmented log has started. *)
Definition construct (s : S) (mode : FsyncMode) (interval : Z) : outcome exn (FileLogStore S) :=
  let f e := mkFileLogStore s new_queue e mode interval 0 (be_lastLogIndex s) false in
  if be_lastLogIndex s <? 1 then Ret (f (Some (mkLogEntry 0 app_log [])))
  else match be_getEntry (be_lastLogIndex s) s with
       | (s', Ret e) => Ret (fl_segment s' (f e))
       | (_, Throw x) => Throw x
       | (_, Crash) => Crash
       end.

Definition next_slot f : Z := u64 (be_lastLogIndex (segment_store f) + 1).
Definition start_index f : Z := be_firstLogIndex (segment_store f).
Definition last_entry f : option log_entry := last_log_entry f.

Definition append (now : string) (e : log_entry) : FlM Z :=
  log_index ← on_segment (be_appendEntry now e);
  modify (λ f, fl_last (Some e) (fl_queue (putEntry log_index e (log_queue f)) f));;
  f ← get;
  (if is_parallel f && negb (le_type e =? app_log) then wake else mret tt);;
  mret log_index.

Definition write_at (now : string) (index : Z) (e : log_entry) : FlM unit :=
  r ← on_segment (be_writeAt now index e);
  (if r =? index then modify (λ f, fl_queue (clear (log_queue f)) f) else mret tt);;
  modify (fl_last (Some e));;
  f ← get;
  if is_parallel f && negb (le_type e =? app_log) then wake else mret tt.

Definition flush : FlM bool := z ← on_segment be_flush; mret (0 <? z).

(** A remainder by zero is undefined behaviour. *)
Definition end_of_append_batch (start cnt : Z) : FlM unit :=
  f ← get;
  match log_fsync_mode f with
  | FSYNC_PARALLEL => wake
  | FSYNC_BATCH =>
      if log_fsync_interval f =? 0 then crash
      else if to_flush_count f mod log_fsync_interval f =? 0
      then modify (fl_count 0);; flush;; mret tt
      else mret tt
  | FSYNC => flush;; mret tt
  end.

Definition entry_at (index : Z) : FlM (option log_entry) :=
  f ← get;
  match queue_getEntry index (log_queue f) with
  | Some e => mret (Some e)
  | None => on_segment (be_getEntry index)
  end.

Definition term_at (index : Z) : FlM Z :=
  e ← entry_at index;
  match e with
  | None => mret 0
  | Some _ => e ← entry_at index; match e with Some e => mret (le_term e) | None => crash end
  end.

Fixpoint entries_from (fuel : nat) (index : Z) : FlM (list (option log_entry)) :=
  match fuel with
  | O => mret []
  | Datatypes.S fuel => e ← entry_at index; l ← entries_from fuel (index + 1); mret (e :: l)
  end.
Definition log_entries (start end_ : Z) : FlM (list (option log_entry)) :=
  entries_from (Z.to_nat (end_ - start)) start.

(** A missing entry is dereferenced. *)
Fixpoint entries_ext (fuel : nat) (index hint get_size : Z) : FlM (list log_entry) :=
  match fuel with
  | O => mret []
  | Datatypes.S fuel =>
      e ← entry_at index;
      match e with
      | None => crash
      | Some e =>
          if (0 <? hint) && (hint <? get_size + entry_size e) then mret []
          else l ← entries_ext fuel (index + 1) hint (get_size + entry_size e); mret (e :: l)
      end
  end.
Definition log_entries_ext (start end_ hint : Z) : FlM (list log_entry) :=
  entries_ext (Z.to_nat (end_ - start)) start hint 0.

Fixpoint entries_version (fuel : nat) (index hint get_size : Z) : FlM (list (LogVersion * log_entry)) :=
  match fuel with
  | O => mret []
  | Datatypes.S fuel =>
      e ← entry_at index;
      match e with
      | None => crash
      | Some e =>
          if (0 <? hint) && (hint <? get_size + entry_size e) then mret []
          else
            v ← on_segment (be_getVersion index);
            l ← entries_version fuel (index + 1) hint (get_size + entry_size e);
            mret ((v, e) :: l)
      end
  end.
Definition log_entries_version_ext (start end_ hint : Z) : FlM (list (LogVersion * log_entry)) :=
  entries_version (Z.to_nat (end_ - start)) start hint 0.

Definition compact (last_log_index : Z) : FlM bool :=
  on_segment (be_removeSegment (u64 (last_log_index + 1)));;
  modify (λ f, fl_queue (clear (log_queue f)) f);;
  mret true.

Definition last_durable_index f : Z :=
  if is_parallel f then disk_last_durable_index f else u64 (next_slot f - 1).

(** One round of the fsync thread, once the event is set. *)
Definition fsync_round : FlM unit :=
  modify (fl_event false);;
  z ← on_segment be_flush;
  if z =? 0 then mret tt else modify (fl_durable z).

(** *** Packs; entries and numbers go through NuRaft's buffers *)

Section packs.
Context (put_int : Z → bytes) (get_int : bytes → outcome exn (Z * bytes)).
Context (serialize : log_entry → bytes) (deserialize : bytes → outcome exn log_entry).

(** [le->serialize()] of a missing entry dereferences null. *)
Fixpoint pack_entries (es : list (option log_entry)) : option (list bytes) :=
  match es with
  | [] => Some []
  | None :: _ => None
  | Some e :: es => bs ← pack_entries es; Some (serialize e :: bs)
  end.
Definition pack (index cnt : Z) : FlM bytes :=
  es ← log_entries index (u64 (index + cnt));
  match pack_entries es with
  | None => crash
  | Some bs => mret (put_int cnt ++ mjoin ((λ b, put_int (Z.of_nat (length b)) ++ b) <$> bs))
  end.

(** A negative size is no allocation, a size past the end overflows. *)
Fixpoint apply_entries (now : string) (n : nat) (index : Z) (b : bytes) : FlM unit :=
  match n with
  | O => mret tt
  | Datatypes.S n =>
      '(size, b) ← lift (get_int b);
      if (size <? 0) || (Z.of_nat (length b) <? size) then throw BUFFER_OVERFLOW
      else
        e ← lift (deserialize (take (Z.to_nat size) b));
        on_segment (be_writeAt now index e);;
        apply_entries now n (u64 (index + 1)) (drop (Z.to_nat size) b)
  end.
Definition apply_pack (now : string) (index : Z) (b : bytes) : FlM unit :=
  '(num_logs, b) ← lift (get_int b);
  apply_entries now (Z.to_nat num_logs) index b;;
  f ← get;
  if is_parallel f then wake else mret tt.
End packs.
End store.
