(* ===== verification/FileLogStoreProps.v ===== *)
(** * The cached log store reads what the log holds

    The laws [LogBackendOk] say what the segmented log promises the store in
    front of it. They are enough for the store to answer every sequence of calls
    as the abstract log does, whether an entry comes from the cache or from a
    file, and for a pack of entries to arrive whole on another server. The
    segmented log of src/Service/NuRaftLogSegment.cpp satisfies them. *)

From coqutil Require Import Word.LittleEndianList Byte.
From S2P Require Import Prelude Types ZkIO FileSystem LogSegment LogSegmentInv LogStore LogStoreInv LogStoreCompact LogStoreReload LogStoreProps FileLogStore.
From stdpp Require Import base gmap sets strings option list.
From Stdlib Require Import ZArith Lia.
Open Scope Z_scope.

Definition lg_snoc (l : Log) (e : log_entry) : Log := mkLog (lg_first l) (lg_entries l ++ [e]).

Class LogBackendOk (S : Type) `{!LogBackend S} (holds : S → Log → Prop) : Prop := {
  be_bounds s l : holds s l → 1 <= lg_first l ∧ lg_last l + 1 < 2 ^ 63;
  be_first_ok s l : holds s l → be_firstLogIndex s = lg_first l;
  be_last_ok s l : holds s l → be_lastLogIndex s = lg_last l;
  be_append_ok s l now e :
    holds s l → permitted l (CallAppend now e) →
    ∃ s', be_appendEntry now e s = (s', Ret (lg_last l + 1)) ∧ holds s' (lg_snoc l e);
  be_get_ok s l index : holds s l → ∃ s', be_getEntry index s = (s', Ret (lg_get l index)) ∧ holds s' l;
  be_write_ok s l now index e :
    holds s l → permitted l (CallWriteAt now index e) → index <= lg_last l + 1 →
    ∃ s', be_writeAt now index e s = (s', Ret index) ∧ holds s' (lg_snoc (lg_take index l) e);
  be_remove_ok s l k :
    holds s l → permitted l (CallCompact k) →
    ∃ s' l', be_removeSegment k s = (s', Ret 0) ∧ log_does l (CallCompact k) (AnsIndex 0) l' ∧ holds s' l'
}.

(** ** The cache *)

(** Every cached entry is the entry of the one index of its slot within the
    newest 65536. *)
Record queue_ok (q : LogEntryQueue) (l : Log) : Prop := {
  qo_range : 0 <= max_index q < 2 ^ 63;
  qo_batch : batch_index q = Z.shiftr (max_index q) BIT_SIZE;
  qo_max : entry_vec q = ∅ ∧ max_index q = 0 ∨ max_index q = lg_last l;
  qo_vec k e : entry_vec q !! k = Some e →
    ∃ i, slot i = k ∧ max_index q - MAX_VECTOR_SIZE < i <= max_index q ∧ lg_get l i = Some e
}.

Lemma new_queue_ok l : queue_ok new_queue l.
Proof. split; simpl; [lia|done|by left|]. intros k e. by rewrite lookup_empty. Qed.

Lemma slot_mod i : slot i = i mod 2 ^ 16.
Proof. unfold slot, MAX_VECTOR_SIZE. change (65536 - 1) with (Z.ones 16). by apply Z.land_ones. Qed.

(** Two indices of one window share a slot only when they are equal. *)
Lemma slot_window i j m :
  m - MAX_VECTOR_SIZE < i <= m → m - MAX_VECTOR_SIZE < j <= m → slot i = slot j → i = j.
Proof.
  unfold MAX_VECTOR_SIZE. rewrite !slot_mod. intros Hi Hj E. change (2 ^ 16) with 65536 in E.
  assert ((i - j) mod 65536 = 0) as Hd by (rewrite Zminus_mod, E, Z.sub_diag; done).
  apply Z.mod_divide in Hd as [c Hc]; [|done]. assert (c = 0) as -> by nia. lia.
Qed.

Lemma queue_sound q l index e :
  queue_ok q l → 0 <= index → queue_getEntry index q = Some e → lg_get l index = Some e.
Proof.
  intros [Hr Hb Hm Hv] Hi. unfold queue_getEntry.
  destruct (Z.ltb_spec (max_index q) index); [done|]. cbn [orb].
  rewrite wrap_u_id by (unfold in_u; lia). destruct (Z.leb_spec MAX_VECTOR_SIZE (max_index q - index)); [done|].
  destruct (in_batch index q); [|done]. intros (i & Es & Hw & Hg)%Hv.
  by rewrite <-(slot_window i index (max_index q)) by (done || lia).
Qed.

Lemma lg_get_snoc l e i x : lg_get l i = Some x → lg_get (lg_snoc l e) i = Some x.
Proof.
  unfold lg_get, entry_of. simpl. destruct (_ <=? _); [|done]. intros H. by apply lookup_app_l_Some.
Qed.

Lemma lg_get_last l e : lg_get (lg_snoc l e) (lg_last l + 1) = Some e.
Proof.
  unfold lg_get, entry_of, lg_last. simpl. rewrite (proj2 (Z.leb_le _ _)) by lia.
  rewrite lookup_app_r by lia. by replace (Z.to_nat _ - _)%nat with 0%nat by lia.
Qed.

Lemma lg_last_snoc l e : lg_last (lg_snoc l e) = lg_last l + 1.
Proof. unfold lg_last. simpl. rewrite length_app. simpl. lia. Qed.

Lemma put_ok q l e :
  queue_ok q l → 1 <= lg_first l → lg_last l + 1 < 2 ^ 63 → queue_ok (putEntry (lg_last l + 1) e q) (lg_snoc l e).
Proof.
  intros [Hr Hb Hm Hv] Hf Hl. assert (0 <= lg_last l) as H0 by (unfold lg_last; lia).
  assert (max_index q <= lg_last l) as Hle by (destruct Hm as [[_ ->]| ->]; lia).
  assert (Z.max (max_index q) (lg_last l + 1) = lg_last l + 1) as Em by lia.
  split; simpl; rewrite ?Em, ?lg_last_snoc; [lia| |by right|].
  - rewrite Hb, Z.max_r; [done|]. rewrite !Z.shiftr_div_pow2 by done. apply Z.div_le_mono; [done|lia].
  - intros k x. rewrite lookup_insert. case_decide as Hk.
    + intros [= <-]. exists (lg_last l + 1). split_and!; [done|unfold MAX_VECTOR_SIZE; lia|lia|apply lg_get_last].
    + destruct Hm as [[-> _]|Hm]; [by rewrite lookup_empty|].
      intros (i & Es & Hw & Hg)%Hv. exists i. split_and!; [done| |lia|by apply lg_get_snoc].
      rewrite Hm in Hw. destruct (decide (i = lg_last l + 1 - MAX_VECTOR_SIZE)) as [->|]; [|lia].
      exfalso. apply Hk. rewrite <-Es, !slot_mod. unfold MAX_VECTOR_SIZE.
      replace (lg_last l + 1) with (lg_last l + 1 - 65536 + 1 * 2 ^ 16) at 1 by lia. by rewrite Z_mod_plus_full.
Qed.

(** ** The store in front of any such log *)

Inductive fl_call : Type :=
  | FAppend (now : string) (e : log_entry)
  | FWriteAt (now : string) (index : Z) (e : log_entry)
  | FEntryAt (index : Z)
  | FTermAt (index : Z)
  | FEntries (start end_ : Z)
  | FEntriesExt (start end_ hint : Z)
  | FCompact (last_log_index : Z)
  | FNextSlot
  | FStartIndex
  | FLastEntry.

(** The longest part of a range that fits the size hint. *)
Fixpoint fitting (hint size : Z) (es : list log_entry) : list log_entry :=
  match es with
  | [] => []
  | e :: es => if (0 <? hint) && (hint <? size + entry_size e) then [] else e :: fitting hint (size + entry_size e) es
  end.

(** The entries of a range of the log. *)
Definition lg_slice (l : Log) (a b : Z) : list log_entry :=
  take (Z.to_nat (b - a)) (drop (Z.to_nat (a - lg_first l)) (lg_entries l)).

Inductive fl_does (l : Log) : fl_call → log_answer → Log → Prop :=
  | fl_append now e : fl_does l (FAppend now e) (AnsIndex (lg_last l + 1)) (lg_snoc l e)
  | fl_write now i e : fl_does l (FWriteAt now i e) (AnsIndex 0) (lg_snoc (lg_take i l) e)
  | fl_entry i : fl_does l (FEntryAt i) (AnsEntry (lg_get l i)) l
  | fl_term i : fl_does l (FTermAt i) (AnsIndex (default 0 (le_term <$> lg_get l i))) l
  | fl_entries a b : fl_does l (FEntries a b) (AnsEntries (lg_get l <$> seqZ a (b - a))) l
  | fl_entries_ext a b hint :
      fl_does l (FEntriesExt a b hint) (AnsEntries (Some <$> fitting hint 0 (lg_slice l a b))) l
  | fl_compact k l' :
      log_does l (CallCompact (k + 1)) (AnsIndex 0) l' → fl_does l (FCompact k) (AnsIndex 1) l'
  | fl_next : fl_does l FNextSlot (AnsIndex (lg_last l + 1)) l
  | fl_start : fl_does l FStartIndex (AnsIndex (lg_first l)) l
  | fl_lastentry : fl_does l FLastEntry (AnsEntry (lg_get l (lg_last l))) l.

Definition fl_permitted (l : Log) (c : fl_call) : Prop :=
  match c with
  | FAppend now e => permitted l (CallAppend now e)
  | FWriteAt now i e => permitted l (CallWriteAt now i e) ∧ i <= lg_last l + 1
  | FEntryAt i | FTermAt i => 0 <= i
  | FEntries a b => 0 <= a
  | FEntriesExt a b hint => lg_first l <= a ∧ b <= lg_last l + 1
  | FCompact k => 0 <= k < 2 ^ 63 - 1 ∧ k + 1 ≠ lg_last l
  | FLastEntry => lg_entries l ≠ []
  | _ => True
  end.

Section cached.
Context {S : Type} `{!LogBackend S} (holds : S → Log → Prop) `{!LogBackendOk S holds}.
Implicit Types (f : FileLogStore S).

Definition run_fcall (c : fl_call) : ST (FileLogStore S) exn log_answer :=
  match c with
  | FAppend now e => z ← append now e; mret (AnsIndex z)
  | FWriteAt now i e => write_at now i e;; mret (AnsIndex 0)
  | FEntryAt i => e ← entry_at i; mret (AnsEntry e)
  | FTermAt i => z ← term_at i; mret (AnsIndex z)
  | FEntries a b => es ← log_entries a b; mret (AnsEntries es)
  | FEntriesExt a b hint => es ← log_entries_ext a b hint; mret (AnsEntries (Some <$> es))
  | FCompact k => b ← compact k; mret (AnsIndex (Z.b2z b))
  | FNextSlot => f ← get; mret (AnsIndex (next_slot f))
  | FStartIndex => f ← get; mret (AnsIndex (start_index f))
  | FLastEntry => f ← get; mret (AnsEntry (last_entry f))
  end.

Record fl_ok f (l : Log) : Prop := {
  fo_holds : holds (segment_store f) l;
  fo_queue : queue_ok (log_queue f) l;
  fo_last : lg_entries l ≠ [] → last_log_entry f = lg_get l (lg_last l)
}.

Lemma on_segment_run {A} (m : ST S exn A) f s o :
  m (segment_store f) = (s, o) → on_segment m f = (fl_segment s f, o).
Proof. intros E. unfold on_segment. by rewrite E. Qed.

Lemma modify_run {T E A} (g : T → T) (k : unit → ST T E A) s : (modify g ≫= k) s = k tt (g s).
Proof. done. Qed.
Lemma get_run {T E A} (k : T → ST T E A) s : (get ≫= k) s = k s s.
Proof. done. Qed.

(** Waking the fsync thread changes nothing a reader sees. *)
Lemma wake_ok (b : bool) f l : fl_ok f l → ∃ f', (if b then wake else mret tt) f = (f', Ret tt) ∧ fl_ok f' l.
Proof. intros [H1 H2 H3]. destruct b; [exists (fl_event true f)|exists f]; by split. Qed.

Lemma fl_ok_segment f l s : fl_ok f l → holds s l → fl_ok (fl_segment s f) l.
Proof. intros [H1 H2 H3] Hs. by split. Qed.

Lemma entry_at_ok f l index :
  fl_ok f l → 0 <= index → ∃ f', entry_at index f = (f', Ret (lg_get l index)) ∧ fl_ok f' l.
Proof.
  intros Hk Hi. unfold entry_at. rewrite get_run. destruct (queue_getEntry index (log_queue f)) as [e|] eqn:Eq.
  - exists f. by rewrite (queue_sound _ _ _ _ (fo_queue _ _ Hk) Hi Eq).
  - destruct (be_get_ok _ _ index (fo_holds _ _ Hk)) as (s & E & Hs). rewrite (on_segment_run _ _ _ _ E).
    exists (fl_segment s f). split; [done|]. by apply fl_ok_segment.
Qed.

Lemma lg_entries_snoc l e : lg_entries (lg_snoc l e) ≠ [].
Proof. simpl. by destruct (lg_entries l). Qed.

Lemma append_ok f l now e :
  fl_ok f l → permitted l (CallAppend now e) → ∃ f', append now e f = (f', Ret (lg_last l + 1)) ∧ fl_ok f' (lg_snoc l e).
Proof.
  intros [H1 H2 H3] Hp. destruct (be_bounds _ _ H1) as [Hb1 Hb2].
  destruct (be_append_ok _ _ now e H1 Hp) as (s & E & Hs). unfold append.
  rewrite (bind_Ret _ _ _ _ _ (on_segment_run _ _ _ _ E)), modify_run, get_run.
  edestruct (wake_ok (is_parallel (fl_last (Some e) (fl_queue (putEntry (lg_last l + 1) e (log_queue f)) (fl_segment s f)))
      && negb (le_type e =? app_log))) as (f' & Ew & Hf'); [|rewrite (bind_Ret _ _ _ _ _ Ew); by exists f'].
  split; [done|by apply put_ok|]. intros _. simpl. by rewrite lg_last_snoc, lg_get_last.
Qed.

Lemma lg_last_take i l : lg_first l <= i <= lg_last l + 1 → lg_last (lg_take i l) = i - 1.
Proof. unfold lg_last. simpl. rewrite length_take. lia. Qed.

Lemma write_at_ok f l now i e :
  fl_ok f l → permitted l (CallWriteAt now i e) → i <= lg_last l + 1 →
  ∃ f', write_at now i e f = (f', Ret tt) ∧ fl_ok f' (lg_snoc (lg_take i l) e).
Proof.
  intros [H1 H2 H3] Hp Hi. destruct (be_write_ok _ _ now i e H1 Hp Hi) as (s & E & Hs). unfold write_at.
  rewrite (bind_Ret _ _ _ _ _ (on_segment_run _ _ _ _ E)), Z.eqb_refl, modify_run, modify_run, get_run.
  apply (wake_ok _ _ (lg_snoc (lg_take i l) e)). split; [done|apply new_queue_ok|].
  intros _. simpl. by rewrite lg_last_snoc, lg_get_last.
Qed.

(** What is left after compaction ends where the log ended. *)
Lemma compact_last l l' k :
  log_does l (CallCompact k) (AnsIndex 0) l' → lg_entries l' ≠ [] →
  lg_entries l ≠ [] ∧ lg_last l' = lg_last l ∧ lg_get l' (lg_last l') = lg_get l (lg_last l).
Proof.
  inversion 1 as [| | | | | | |? ? Hf He]; subst. unfold lg_last, lg_get, entry_of. rewrite He, length_drop. intros Hne.
  assert (length (lg_entries l') ≠ 0%nat) as Hn0 by (by destruct (lg_entries l')).
  rewrite He, length_drop in Hn0. split_and!.
  - intros Hnil. rewrite Hnil in Hn0. simpl in Hn0. lia.
  - lia.
  - rewrite !(proj2 (Z.leb_le _ _)) by lia. rewrite lookup_drop. f_equal. lia.
Qed.

Lemma compact_ok f l k :
  fl_ok f l → 0 <= k < 2 ^ 63 - 1 → k + 1 ≠ lg_last l →
  ∃ f' l', compact k f = (f', Ret true) ∧ log_does l (CallCompact (k + 1)) (AnsIndex 0) l' ∧ fl_ok f' l'.
Proof.
  intros [H1 H2 H3] Hk Hne. unfold compact. rewrite wrap_u_id by (unfold in_u; lia).
  destruct (be_remove_ok _ _ (k + 1) H1) as (s & l' & E & Hd & Hs); [simpl; lia|].
  rewrite (bind_Ret _ _ _ _ _ (on_segment_run _ _ _ _ E)), modify_run.
  eexists _, l'. split; [reflexivity|]. split; [done|]. split; [done|apply new_queue_ok|].
  intros Hne'. simpl. destruct (compact_last _ _ _ Hd Hne') as (Hn & _ & ->). auto.
Qed.

Lemma term_at_ok f l index :
  fl_ok f l → 0 <= index → ∃ f', term_at index f = (f', Ret (default 0 (le_term <$> lg_get l index))) ∧ fl_ok f' l.
Proof.
  intros Hk Hi. unfold term_at. destruct (entry_at_ok f l index Hk Hi) as (f1 & E1 & Hk1).
  rewrite (bind_Ret _ _ _ _ _ E1). destruct (lg_get l index) as [e|] eqn:Ee; [|by exists f1].
  destruct (entry_at_ok f1 l index Hk1 Hi) as (f2 & E2 & Hk2). rewrite (bind_Ret _ _ _ _ _ E2), Ee. by exists f2.
Qed.

Lemma entries_from_ok f l n index :
  fl_ok f l → 0 <= index →
  ∃ f', entries_from n index f = (f', Ret (lg_get l <$> seqZ index (Z.of_nat n))) ∧ fl_ok f' l.
Proof.
  revert f index. induction n as [|n IH]; intros f index Hk Hi; cbn [entries_from].
  { exists f. by rewrite seqZ_nil by lia. }
  destruct (entry_at_ok f l index Hk Hi) as (f1 & E1 & Hk1).
  destruct (IH f1 (index + 1) Hk1 ltac:(lia)) as (f2 & E2 & Hk2).
  exists f2. rewrite (bind_Ret _ _ _ _ _ E1), (bind_Ret _ _ _ _ _ E2). split; [|done].
  rewrite (seqZ_cons index) by lia. cbn [fmap list_fmap].
  replace (Z.succ index) with (index + 1) by lia. by replace (Z.pred (Z.of_nat (Datatypes.S n))) with (Z.of_nat n) by lia.
Qed.

Lemma log_entries_ok f l a b :
  fl_ok f l → 0 <= a → ∃ f', log_entries a b f = (f', Ret (lg_get l <$> seqZ a (b - a))) ∧ fl_ok f' l.
Proof.
  intros Hk Ha. unfold log_entries. destruct (entries_from_ok f l (Z.to_nat (b - a)) a Hk Ha) as (f' & E & Hk').
  exists f'. rewrite E. split; [|done]. destruct (decide (0 <= b - a)); [by rewrite Z2Nat.id by lia|].
  by rewrite !seqZ_nil by lia.
Qed.

Lemma slice_cons l n a :
  lg_first l <= a → a + Z.of_nat (Datatypes.S n) <= lg_last l + 1 →
  ∃ e, lg_get l a = Some e ∧
    lg_slice l a (a + Z.of_nat (Datatypes.S n)) = e :: lg_slice l (a + 1) (a + 1 + Z.of_nat n).
Proof.
  intros Ha Hb. unfold lg_last in Hb. destruct (lookup_lt_is_Some_2 (lg_entries l) (Z.to_nat (a - lg_first l))) as [e He]; [lia|].
  exists e. unfold lg_get, entry_of. rewrite (proj2 (Z.leb_le _ _)) by lia. split; [done|]. unfold lg_slice.
  rewrite (drop_S _ _ _ He). replace (Z.to_nat (a + Z.of_nat (Datatypes.S n) - a)) with (Datatypes.S n) by lia.
  replace (Z.to_nat (a + 1 + Z.of_nat n - (a + 1))) with n by lia.
  by replace (Z.to_nat (a + 1 - lg_first l)) with (Datatypes.S (Z.to_nat (a - lg_first l))) by lia.
Qed.

Lemma entries_ext_ok f l n a hint size :
  fl_ok f l → lg_first l <= a → a + Z.of_nat n <= lg_last l + 1 →
  ∃ f', entries_ext n a hint size f = (f', Ret (fitting hint size (lg_slice l a (a + Z.of_nat n)))) ∧ fl_ok f' l.
Proof.
  revert f a size. induction n as [|n IH]; intros f a size Hk Ha Hb; cbn [entries_ext].
  { exists f. unfold lg_slice. by rewrite Z.add_0_r, Z.sub_diag. }
  destruct (be_bounds _ _ (fo_holds _ _ Hk)) as [Hf _].
  destruct (slice_cons l n a Ha Hb) as (e & He & ->). destruct (entry_at_ok f l a Hk ltac:(lia)) as (f1 & E1 & Hk1).
  rewrite (bind_Ret _ _ _ _ _ E1), He. cbn [fitting]. destruct (_ && _); [by exists f1|].
  destruct (IH f1 (a + 1) (size + entry_size e) Hk1 ltac:(lia) ltac:(lia)) as (f2 & E2 & Hk2).
  exists f2. by rewrite (bind_Ret _ _ _ _ _ E2).
Qed.

Lemma log_entries_ext_ok f l a b hint :
  fl_ok f l → lg_first l <= a → b <= lg_last l + 1 →
  ∃ f', log_entries_ext a b hint f = (f', Ret (fitting hint 0 (lg_slice l a b))) ∧ fl_ok f' l.
Proof.
  intros Hk Ha Hb. unfold log_entries_ext. destruct (decide (a <= b)) as [Hab|Hab].
  - destruct (entries_ext_ok f l (Z.to_nat (b - a)) a hint 0 Hk Ha ltac:(lia)) as (f' & E & Hk'). exists f'.
    rewrite E. by replace (a + Z.of_nat (Z.to_nat (b - a))) with b by lia.
  - exists f. unfold lg_slice. by replace (Z.to_nat (b - a)) with 0%nat by lia.
Qed.

Lemma fcall_simulates f l c :
  fl_ok f l → fl_permitted l c → ∃ f' a l', run_fcall c f = (f', Ret a) ∧ fl_does l c a l' ∧ fl_ok f' l'.
Proof.
  intros Hk Hp. destruct (be_bounds _ _ (fo_holds _ _ Hk)) as [Hb1 Hb2].
  assert (0 <= lg_last l) as Hb0 by (unfold lg_last; lia).
  destruct c as [now e|now i e|i|i|a b|a b hint|k| | |]; cbn [fl_permitted run_fcall] in *.
  - destruct (append_ok f l now e Hk Hp) as (f' & E & Hk'). rewrite (bind_Ret _ _ _ _ _ E). eexists _, _, _.
    split; [reflexivity|]. split; [constructor|done].
  - destruct Hp as [Hp Hi]. destruct (write_at_ok f l now i e Hk Hp Hi) as (f' & E & Hk').
    rewrite (bind_Ret _ _ _ _ _ E). eexists _, _, _.
    split; [reflexivity|]. split; [constructor|done].
  - destruct (entry_at_ok f l i Hk Hp) as (f' & E & Hk'). rewrite (bind_Ret _ _ _ _ _ E). eexists _, _, _.
    split; [reflexivity|]. split; [constructor|done].
  - destruct (term_at_ok f l i Hk Hp) as (f' & E & Hk'). rewrite (bind_Ret _ _ _ _ _ E). eexists _, _, _.
    split; [reflexivity|]. split; [constructor|done].
  - destruct (log_entries_ok f l a b Hk Hp) as (f' & E & Hk'). rewrite (bind_Ret _ _ _ _ _ E). eexists _, _, _.
    split; [reflexivity|]. split; [constructor|done].
  - destruct Hp as [Ha Hb]. destruct (log_entries_ext_ok f l a b hint Hk Ha Hb) as (f' & E & Hk').
    rewrite (bind_Ret _ _ _ _ _ E). eexists _, _, _.
    split; [reflexivity|]. split; [constructor|done].
  - destruct Hp as [Hr Hne]. destruct (compact_ok f l k Hk Hr Hne) as (f' & l' & E & Hd & Hk').
    rewrite (bind_Ret _ _ _ _ _ E). eexists _, _, _. split; [reflexivity|]. split; [by constructor|done].
  - exists f, (AnsIndex (next_slot f)), l. split; [done|]. split; [|done].
    assert (next_slot f = lg_last l + 1) as ->; [|constructor]. unfold next_slot.
    rewrite (be_last_ok _ _ (fo_holds _ _ Hk)). apply wrap_u_id. unfold in_u. lia.
  - exists f, (AnsIndex (start_index f)), l. split; [done|]. split; [|done]. unfold start_index.
    rewrite (be_first_ok _ _ (fo_holds _ _ Hk)). constructor.
  - exists f, (AnsEntry (last_entry f)), l. split; [done|]. split; [|done]. unfold last_entry.
    rewrite (fo_last _ _ Hk Hp). constructor.
Qed.

(** The constructor, on a log that has started. *)
Lemma construct_ok s l mode interval :
  holds s l → ∃ f, construct s mode interval = Ret f ∧ fl_ok f l.
Proof.
  intros Hs. destruct (be_bounds _ _ Hs) as [Hb1 Hb2]. unfold construct. rewrite (be_last_ok _ _ Hs).
  destruct (Z.ltb_spec (lg_last l) 1).
  - eexists. split; [reflexivity|]. split; [done|apply new_queue_ok|]. intros Hne. exfalso.
    unfold lg_last in *. destruct (lg_entries l); [done|]. simpl in *. lia.
  - destruct (be_get_ok _ _ (lg_last l) Hs) as (s' & -> & Hs'). eexists. split; [reflexivity|].
    split; [done|apply new_queue_ok|done].
Qed.
End cached.

(** ** The segmented log keeps the laws *)

#[export] Instance segment_backend : LogBackend (Store * Disk) := {|
  be_firstLogIndex s := first_log_index s.1;
  be_lastLogIndex s := last_log_index s.1;
  be_appendEntry := LogStore.appendEntry;
  be_getEntry := LogStore.getEntry;
  be_getVersion := LogStore.getVersion;
  be_writeAt := LogStore.writeAt;
  be_removeSegment := LogStore.removeSegment;
  be_flush := LogStore.flush_store
|}.

Lemma answer_inv {T E A B} (m : ST T E A) (g : A → B) s s' b :
  (x ← m; mret (g x)) s = (s', Ret b) → ∃ x, m s = (s', Ret x) ∧ b = g x.
Proof. intros H. apply bind_inv_Ret in H as (s1 & x & E1 & E2). injection E2 as -> <-. by exists x. Qed.

(** A call of the simulation, as the method it stands for. *)
Ltac by_call c :=
  match goal with H : serves ?s ?l |- _ =>
    destruct (call_simulates s l c H) as (?s' & ?a & ?l' & ?E & ?Hdoes & ?Hserves); [try done|];
    cbn [run_call] in E; apply answer_inv in E as (?x & ?E & ->); inversion Hdoes; subst
  end.

#[export] Instance segment_backend_ok : LogBackendOk (Store * Disk) serves.
Proof.
  split.
  - intros [st d] l [(ess & eo & Hk & ->) _]. unfold lg_last. cbn [lg_first lg_entries].
    pose proof (sk_first _ _ _ _ Hk). pose proof (sk_fit _ _ _ _ Hk). lia.
  - intros [st d] l [(ess & eo & Hk & ->) _]. done.
  - intros [st d] l [Hh _]. by apply (holds_last d st l).
  - intros s l now e Hs Hp. by_call (CallAppend now e). by eexists.
  - intros s l index Hs. by_call (CallGet index). by eexists.
  - intros s l now index e Hs Hp Hi. by_call (CallWriteAt now index e); [by eexists|lia].
  - intros s l k Hs Hp. by_call (CallCompact k). by eexists _, _.
Qed.

(** ** The store over segment files *)

(** Start on an empty directory, then a sequence of calls. *)
Definition file_session (now : string) (max count : Z) (mode : FsyncMode) (interval : Z) (cs : list fl_call)
    : option (FileLogStore (Store * Disk) * outcome exn (list log_answer)) :=
  match init now max count (new_store, no_files) with
  | (s, Ret _) => match construct s mode interval with
                  | Ret f => Some (run_calls run_fcall cs f)
                  | _ => None
                  end
  | _ => None
  end.

Lemma file_session_ok now max count mode interval cs :
  word now → 9 <= max < 2 ^ 32 → valid_calls fl_permitted fl_does (mkLog 1 []) cs →
  ∃ f acs l, file_session now max count mode interval cs = Some (f, Ret acs) ∧
    runs fl_does (mkLog 1 []) cs acs l ∧ fl_ok serves f l.
Proof.
  intros Hwd Hmax Hv. destruct (init_empty now max count Hwd Hmax) as (st & d & E & Hh & Hren).
  destruct (construct_ok serves (st, d) _ mode interval (conj Hh Hren)) as (f & Ef & Hf).
  destruct (simulation run_fcall fl_permitted fl_does (fl_ok serves) (fcall_simulates serves) f _ cs Hf Hv)
    as (f' & acs & l & Er & Hr & Hf').
  exists f', acs, l. unfold file_session. by rewrite E, Ef, Er.
Qed.


(** ** Packs *)

Section packs.
Context {S : Type} `{!LogBackend S} (holds : S → Log → Prop) `{!LogBackendOk S holds}.
Context (put_int : Z → bytes) (get_int : bytes → outcome exn (Z * bytes)).
Context (serialize : log_entry → bytes) (deserialize : bytes → outcome exn log_entry).

(** NuRaft's buffers give back the numbers and the entries put into them. *)
Hypothesis get_put_int : ∀ z rest, in_s 32 z → get_int (put_int z ++ rest) = Ret (z, rest).
Hypothesis deserialize_serialize : ∀ e, entry_ok e → deserialize (serialize e) = Ret e.

Definition packed (es : list log_entry) : bytes :=
  mjoin ((λ b, put_int (Z.of_nat (length b)) ++ b) <$> (serialize <$> es)).

Definition packable (e : log_entry) : Prop := entry_ok e ∧ Z.of_nat (length (serialize e)) < 2 ^ 31.

Lemma pack_entries_some es : pack_entries serialize (Some <$> es) = Some (serialize <$> es).
Proof.
  induction es as [|e es IH]; [done|].
  change (pack_entries serialize (Some <$> e :: es)) with (bs ← pack_entries serialize (Some <$> es); Some (serialize e :: bs)).
  by rewrite IH.
Qed.

Lemma slice_get l a n :
  lg_first l <= a → a + Z.of_nat n <= lg_last l + 1 →
  lg_get l <$> seqZ a (Z.of_nat n) = Some <$> lg_slice l a (a + Z.of_nat n).
Proof.
  revert a. induction n as [|n IH]; intros a Ha Hb.
  { rewrite seqZ_nil by lia. unfold lg_slice. by rewrite Z.add_0_r, Z.sub_diag. }
  destruct (slice_cons l n a Ha Hb) as (e & He & ->). rewrite seqZ_cons by lia. cbn [fmap list_fmap].
  rewrite He. f_equal. replace (Z.pred (Z.of_nat (Datatypes.S n))) with (Z.of_nat n) by lia.
  replace (Z.succ a) with (a + 1) by lia. apply IH; lia.
Qed.

Lemma pack_ok (f : FileLogStore S) l index cnt :
  fl_ok holds f l → lg_first l <= index → 0 <= cnt → index + cnt <= lg_last l + 1 →
  ∃ f', pack put_int serialize index cnt f = (f', Ret (put_int cnt ++ packed (lg_slice l index (index + cnt)))) ∧ fl_ok holds f' l.
Proof.
  intros Hk Hi Hc Hb. destruct (be_bounds _ _ (fo_holds _ _ _ Hk)) as [Hb1 Hb2]. unfold pack.
  rewrite wrap_u_id by (unfold in_u; lia).
  destruct (log_entries_ok holds f l index (index + cnt) Hk ltac:(lia)) as (f' & E & Hk'). exists f'.
  rewrite (bind_Ret _ _ _ _ _ E). replace (index + cnt - index) with (Z.of_nat (Z.to_nat cnt)) by lia.
  rewrite slice_get by lia. replace (index + Z.of_nat (Z.to_nat cnt)) with (index + cnt) by lia.
  by rewrite pack_entries_some.
Qed.

(** Each entry is written where the previous one ended. *)
Lemma apply_entries_ok now es index (f : FileLogStore S) l :
  word now → Forall packable es → holds (segment_store f) l → lg_first l <= index <= lg_last l + 1 →
  index + Z.of_nat (length es) + 1 < 2 ^ 63 →
  ∃ s, apply_entries get_int deserialize now (length es) index (packed es) f = (fl_segment s f, Ret tt) ∧
    holds s (if decide (es = []) then l else mkLog (lg_first l) (lg_entries (lg_take index l) ++ es)).
Proof.
  intros Hwd. revert index f l. induction es as [|e es IH]; intros index f l He Hh Hi Hfit; cbn [apply_entries length].
  { exists (segment_store f). by destruct f. }
  apply Forall_cons in He as [[He Hlen] Hes]. destruct (be_bounds _ _ Hh) as [Hb1 Hb2].
  change (packed (e :: es)) with ((put_int (Z.of_nat (length (serialize e))) ++ serialize e) ++ packed es).
  rewrite <-(assoc_L (++)). unfold lift at 1.
  erewrite bind_Ret by (rewrite get_put_int by (unfold in_s; lia); reflexivity).
  cbv beta iota. rewrite (proj2 (Z.ltb_ge _ 0)), (proj2 (Z.ltb_ge _ _)) by (rewrite ?length_app; lia). cbn [orb].
  rewrite Nat2Z.id, take_app_length, drop_app_length.
  erewrite bind_Ret by (unfold lift; rewrite deserialize_serialize by done; reflexivity).
  cbn [length] in Hfit.
  destruct (be_write_ok _ _ now index e Hh) as (s & E & Hs); [simpl; split_and!; [done|done|lia|lia]|lia|].
  rewrite (bind_Ret _ _ _ _ _ (on_segment_run _ _ _ _ E)). rewrite wrap_u_id by (unfold in_u; lia).
  assert (lg_last (lg_snoc (lg_take index l) e) = index) as El by (rewrite lg_last_snoc, lg_last_take by lia; lia).
  destruct (IH (index + 1) (fl_segment s f) _ Hes Hs) as (s' & E' & Hs'); [simpl; rewrite El; lia|lia|].
  exists s'. rewrite E'. split; [done|]. rewrite decide_False by done. destruct (decide (es = [])) as [->|Hne]; [done|].
  enough (lg_entries (lg_take (index + 1) (lg_snoc (lg_take index l) e)) = lg_entries (lg_take index l) ++ [e]) as E1.
  { rewrite E1, <-(assoc_L (++)) in Hs'. exact Hs'. }
  simpl. rewrite take_ge; [done|]. rewrite length_app, length_take. simpl. lia.
Qed.

Lemma apply_pack_ok now cnt es index (f : FileLogStore S) l :
  word now → cnt = Z.of_nat (length es) → in_s 32 cnt → Forall packable es → holds (segment_store f) l → es ≠ [] →
  lg_first l <= index <= lg_last l + 1 → index + cnt + 1 < 2 ^ 63 →
  ∃ f', apply_pack get_int deserialize now index (put_int cnt ++ packed es) f = (f', Ret tt) ∧
    log_queue f' = log_queue f ∧
    holds (segment_store f') (mkLog (lg_first l) (lg_entries (lg_take index l) ++ es)).
Proof.
  intros Hwd -> Hcnt Hes Hh Hne Hi Hfit. unfold apply_pack.
  erewrite bind_Ret by (unfold lift; rewrite get_put_int by done; reflexivity).
  cbv beta iota. rewrite Nat2Z.id. destruct (apply_entries_ok now es index f l Hwd Hes Hh Hi Hfit) as (s & E & Hs).
  rewrite decide_False in Hs by done. rewrite (bind_Ret _ _ _ _ _ E), get_run.
  destruct (is_parallel _); [exists (fl_event true (fl_segment s f))|exists (fl_segment s f)]; by split_and!.
Qed.

(** A pack of consecutive entries made on one server and applied on another,
    at an index its log reaches, puts exactly those entries at those indices:
    the receiving log keeps what was before them and ends with them. *)
Theorem pack_arrives now (f g : FileLogStore S) l m index cnt :
  word now → fl_ok holds f l → holds (segment_store g) m →
  lg_first l <= index → 0 < cnt < 2 ^ 31 → index + cnt <= lg_last l + 1 →
  lg_first m <= index <= lg_last m + 1 → index + cnt + 1 < 2 ^ 63 →
  Forall packable (lg_slice l index (index + cnt)) →
  ∃ f' b g', pack put_int serialize index cnt f = (f', Ret b) ∧
    apply_pack get_int deserialize now index b g = (g', Ret tt) ∧ log_queue g' = log_queue g ∧
    holds (segment_store g') (mkLog (lg_first m) (lg_entries (lg_take index m) ++ lg_slice l index (index + cnt))).
Proof.
  intros Hwd Hf Hg Hi Hc Hb Him Hfit Hp.
  assert (length (lg_slice l index (index + cnt)) = Z.to_nat cnt) as Hlen.
  { unfold lg_slice, lg_last in *. rewrite length_take, length_drop. lia. }
  destruct (pack_ok f l index cnt Hf Hi ltac:(lia) Hb) as (f' & E & _).
  destruct (apply_pack_ok now cnt (lg_slice l index (index + cnt)) index g m) as (g' & E' & Hq & Hh); try done.
  - lia.
  - unfold in_s. lia.
  - intros Hnil. rewrite Hnil in Hlen. simpl in Hlen. lia.
  - by exists f', (put_int cnt ++ packed (lg_slice l index (index + cnt))), g'.
Qed.
End packs.

(** ** Two servers *)

Module FileDemo.
Import LogDemo.

Definition sender_calls : list fl_call :=
  [FAppend time e1; FAppend time e2; FEntryAt 1; FWriteAt time 2 e3; FTermAt 2; FAppend time e2; FEntries 1 4;
   FEntriesExt 1 4 30; FNextSlot; FStartIndex; FLastEntry].
Definition receiver_calls : list fl_call := [FAppend time e4; FAppend time e4].

(** The answers; a segment is full at 30 bytes. *)
Lemma file_answers :
  (λ r, r.2) <$> file_session time 30 3 FSYNC 1 sender_calls =
    Some (Ret [AnsIndex 1; AnsIndex 2; AnsEntry (Some e1); AnsIndex 0; AnsIndex 2; AnsIndex 3;
      AnsEntries [Some e1; Some e3; Some e2]; AnsEntries [Some e1; Some e3; Some e2];
      AnsIndex 4; AnsIndex 1; AnsEntry (Some e2)]).
Proof. vm_compute. done. Qed.

Ltac fl_valid :=
  repeat (constructor; [unfold fl_permitted; LogDemo.permit|intros ? ? Hdoes; inversion Hdoes; subst; clear Hdoes]);
  try constructor.

Lemma sender_valid : valid_calls fl_permitted fl_does (mkLog 1 []) sender_calls.
Proof. unfold sender_calls. fl_valid. Qed.
Lemma receiver_valid : valid_calls fl_permitted fl_does (mkLog 1 []) receiver_calls.
Proof. unfold receiver_calls. fl_valid. Qed.

(** Numbers and entries as NuRaft's buffers lay them out. *)
Definition put_int (z : Z) : bytes := le_split 4 z.
Definition get_int (b : bytes) : outcome exn (Z * bytes) :=
  if bool_decide (length b < 4)%nat then Throw BUFFER_OVERFLOW
  else Ret (wrap_s 32 (le_combine (take 4 b)), drop 4 b).
Definition serialize (e : log_entry) : bytes := le_split 8 (le_term e) ++ serializeEntry e.
Definition deserialize (b : bytes) : outcome exn log_entry := parseEntry (drop 8 b) (le_combine (take 8 b)).

Lemma get_put_int z rest : in_s 32 z → get_int (put_int z ++ rest) = Ret (z, rest).
Proof.
  intros Hz. unfold get_int, put_int. rewrite length_app, length_le_split, bool_decide_eq_false_2 by lia.
  rewrite take_app_length', drop_app_length' by (by rewrite length_le_split).
  rewrite le_combine_split. change (z mod 2 ^ (Z.of_nat 4 * 8)) with (wrap_u 32 z).
  rewrite wrap_s_wrap_u by done. by rewrite wrap_s_id.
Qed.

Lemma deserialize_serialize e : entry_ok e → deserialize (serialize e) = Ret e.
Proof.
  intros (Ht & Hty & _). unfold deserialize, serialize.
  rewrite take_app_length', drop_app_length' by (by rewrite length_le_split).
  rewrite LogSegmentInv.split_combine by (unfold in_u in Ht; lia). by apply parse_serialize.
Qed.

(** The log a run ends with. *)
Ltac fl_follow Hr :=
  repeat (inversion Hr; subst; clear Hr;
    match goal with H : fl_does _ _ _ _, H' : runs _ _ _ _ _ |- _ => inversion H; subst; clear H; rename H' into Hr end);
  inversion Hr; subst.

Lemma sender : ∃ f, fl_ok serves f (mkLog 1 [e1; e3; e2]).
Proof.
  destruct (file_session_ok time 30 3 FSYNC 1 sender_calls demo_word ltac:(lia) sender_valid) as (f & acs & l & _ & Hr & Hf).
  exists f. unfold sender_calls in Hr. fl_follow Hr. exact Hf.
Qed.

Lemma receiver : ∃ g, fl_ok serves g (mkLog 1 [e4; e4]).
Proof.
  destruct (file_session_ok time 30 3 FSYNC_PARALLEL 1 receiver_calls demo_word ltac:(lia) receiver_valid) as (g & acs & l & _ & Hr & Hg).
  exists g. unfold receiver_calls in Hr. fl_follow Hr. exact Hg.
Qed.

Lemma all_packable : Forall (packable serialize) [e3; e2].
Proof. unfold packable, entry_ok, in_u. apply (bool_decide_unpack _). vm_compute. exact I. Qed.
End FileDemo.


(** ** Where the cache and the log part *)

Import LogDemo.

(** [apply_pack] overwrites the log but not the cache: the store still answers
    with the entry that was replaced. *)
Lemma pack_leaves_cache :
  match file_session time 100 3 FSYNC 1 [FAppend time e1; FAppend time e2] with
  | Some (g, _) =>
      let b := FileDemo.put_int 1 ++ packed FileDemo.put_int FileDemo.serialize [e4] in
      let g' := (apply_pack FileDemo.get_int FileDemo.deserialize time 2 b g).1 in
      (entry_at 2 g').2 = Ret (Some e2) ∧ (LogStore.getEntry 2 (segment_store g')).2 = Ret (Some e4)
  | None => False
  end.
Proof. vm_compute. done. Qed.

(** A write past the end of the log is refused by the log, yet becomes the last
    entry of the store. *)
Lemma refused_write_is_last :
  match file_session time 100 3 FSYNC 1 [FAppend time e1] with
  | Some (g, _) =>
      let g' := (write_at time 5 e4 g).1 in
      last_entry g' = Some e4 ∧ next_slot g' = 2
  | None => False
  end.
Proof. vm_compute. done. Qed.

(** In batch mode every batch is flushed, whatever the interval: the counter the
    interval is taken of is never incremented. *)
Lemma batch_interval_unused {S} `{!LogBackend S} (f : FileLogStore S) start cnt :
  log_fsync_mode f = FSYNC_BATCH → log_fsync_interval f ≠ 0 → to_flush_count f = 0 →
  end_of_append_batch start cnt f = (flush;; mret tt) f.
Proof.
  intros Hm Hi Hc. unfold end_of_append_batch. rewrite get_run, Hm, (proj2 (Z.eqb_neq _ _) Hi), Hc, Z.mod_0_l by done.
  cbn [Z.eqb]. rewrite modify_run. f_equal. destruct f; simpl in *. by subst.
Qed.
