(* ===== verification/StateMachine.v ===== *)
(** * The state machine NuRaft drives: src/Service/NuRaftStateMachine.cpp

    A log entry holds a serialized request, or the number(s) of a session
    request, told apart by its size. [commit] applies an entry to the store, or
    hands the request to the request processor; at start the constructor replays
    the log behind the last snapshot. NuRaft's buffer numbers are parameters. *)

From coqutil Require Import Word.LittleEndianList Byte.
From S2P Require Import Prelude Types ZkIO ZkCodec KeeperStore RequestsQueue LogSegment LogStoreProps FileLogStore FileLogStoreProps.
From stdpp Require Import base gmap sets strings option list.
From Stdlib Require Import ZArith Lia.
Open Scope Z_scope.

(** ** Requests in log entries *)

(** [writeIntBinary] and [readIntBinary] of a session id: the host's order. *)
Definition write_session_id (sid : Z) : bytes := le_split 8 sid.
Definition read_session_id : reader Z := b ← rb_readStrict 8; mret (s64 (le_combine b)).

Definition serializeRequest (r : RequestForSession) : bytes :=
  write_session_id (rs_session_id r) ++ request_write (rs_request r) ++ write_i64 (rs_create_time r).

(** The length is read and not used; an entry without a time gets the present. *)
Definition parseRequest (now : Z) (data : bytes) : outcome exn RequestForSession :=
  ((session_id ← read_session_id;
   _ ← read_i32;
   request ← request_read;
   eof ← rb_eof;
   time ← (if (eof : bool) then mret now else read_i64);
   mret (mkRFS session_id request time (-1) (-1)) : reader RequestForSession) data).2.

Definition createRequestSession (now : Z) (e : log_entry) : outcome exn (option RequestForSession) :=
  if negb (le_type e =? app_log) then Ret None
  else
    ((session_id ← read_session_id;
      eof ← rb_eof;
      if (eof : bool) then mret None
      else
        length ← read_i32;
        if length <=? 0 then mret None
        else
          request ← request_read;
          eof ← rb_eof;
          time ← (if (eof : bool) then mret now else read_i64);
          mret (Some (mkRFS session_id request time (-1) (-1))) : reader (option RequestForSession)) (le_data e)).2.

Definition isNewSessionRequest (data : bytes) : bool := bool_decide (length data = 8%nat).
Definition isUpdateSessionRequest (data : bytes) : bool := bool_decide (length data = (8 + 8)%nat).

(** ** RaftTaskManager: the last committed index on disk *)

Definition BatchSize : nat := 1000.

Record TaskManager : Type := mkTasks { task_queue : list Z; committed_file : bytes }.

Definition afterCommitted (index : Z) (t : TaskManager) : TaskManager :=
  mkTasks (task_queue t ++ [index]) (committed_file t).

(** One round of the writer: it pops until the queue is empty or the batch is
    full and writes the task it popped last. *)
Definition task_round (t : TaskManager) : TaskManager :=
  match last (take BatchSize (task_queue t)) with
  | None => t
  | Some index => mkTasks (drop BatchSize (task_queue t)) (le_split 8 index)
  end.

(** A file that is too short leaves the caller's variable as it was. *)
Definition getLastCommitted (get_ulong : bytes → outcome exn Z) (t : TaskManager) (last_committed_index : Z) : outcome exn Z :=
  if bool_decide (length (committed_file t) < 8)%nat then Ret last_committed_index
  else get_ulong (take 8 (committed_file t)).

(** ** The machine *)

Record Machine : Type := mkMachine {
  sm_store : KeeperStore;
  sm_responses : Queue;
  last_committed_idx : Z;
  task_manager : TaskManager;
  (* the sessions a thread waits for, and those it was notified of *)
  new_session_id_callback : gset Z;
  notified : list Z;
  (* the commit queue of the request processor, when there is one *)
  request_processor : option (list RequestForSession)
}.

Definition sm_committed (log_idx : Z) (m : Machine) : Machine :=
  mkMachine (sm_store m) (sm_responses m) log_idx (afterCommitted log_idx (task_manager m))
    (new_session_id_callback m) (notified m) (request_processor m).
Definition sm_last (log_idx : Z) (m : Machine) : Machine :=
  mkMachine (sm_store m) (sm_responses m) log_idx (task_manager m)
    (new_session_id_callback m) (notified m) (request_processor m).
Definition sm_notify (sid : Z) (m : Machine) : Machine :=
  if bool_decide (sid ∈ new_session_id_callback m)
  then mkMachine (sm_store m) (sm_responses m) (last_committed_idx m) (task_manager m)
         (new_session_id_callback m) (notified m ++ [sid]) (request_processor m)
  else m.
Definition sm_push (r : RequestForSession) (l : list RequestForSession) (m : Machine) : Machine :=
  mkMachine (sm_store m) (sm_responses m) (last_committed_idx m) (task_manager m)
    (new_session_id_callback m) (notified m) (Some (l ++ [r])).

Abbreviation SmM := (ST Machine exn).

(** A call on the store and the response queue. *)
Definition on_keeper {A} (k : ST (KeeperStore * Queue) exn A) : SmM A := λ m,
  let '((s, q), o) := k (sm_store m, sm_responses m) in
  (mkMachine s q (last_committed_idx m) (task_manager m) (new_session_id_callback m) (notified m)
     (request_processor m), o).

Section machine.
Context (getSHA1 base64Encode : string → string).
Context (put_i64 : Z → bytes) (get_i64 : bytes → outcome exn (Z * bytes)) (put_i8 : Z → bytes)
  (get_ulong : bytes → outcome exn Z).

Definition commit (now log_idx : Z) (data : bytes) (ignore_response : bool) : SmM (option bytes) :=
  if isNewSessionRequest data then
    '(session_timeout_ms, _) ← lift (get_i64 data);
    session_id ← on_keeper (on_store (getSessionID now session_timeout_ms));
    modify (sm_committed log_idx);;
    modify (sm_notify session_id);;
    mret (Some (put_i64 session_id))
  else if isUpdateSessionRequest data then
    '(session_id, rest) ← lift (get_i64 data);
    '(session_timeout_ms, _) ← lift (get_i64 rest);
    is_success ← on_keeper (on_store (updateSessionTimeout now session_id));
    modify (sm_committed log_idx);;
    modify (sm_notify session_id);;
    mret (Some (put_i8 (Z.b2z is_success)))
  else
    r ← lift (parseRequest now data);
    m ← get;
    (match request_processor m with
     | Some l => modify (sm_push r l)
     | None =>
         on_keeper (processRequest getSHA1 base64Encode now (rs_request r) (rs_session_id r) (rs_create_time r)
                      None true ignore_response)
     end);;
    modify (sm_committed log_idx);;
    mret None.

(** *** Replay *)

(** The loader's part of a batch: the requests of the entries, null for others. *)
Fixpoint load_batch (now : Z) (es : list log_entry) : outcome exn (list (option RequestForSession)) :=
  match es with
  | [] => Ret []
  | e :: es =>
      match (if negb (le_type e =? app_log) || isNewSessionRequest (le_data e) || isUpdateSessionRequest (le_data e)
             then Ret None else createRequestSession now e) with
      | Ret r => match load_batch now es with Ret rs => Ret (r :: rs) | Throw x => Throw x | Crash => Crash end
      | Throw x => Throw x
      | Crash => Crash
      end
  end.

(** One entry of a loaded batch; a null request is dereferenced. *)
Definition replay_entry (now : Z) (e : log_entry) (r : option RequestForSession) : SmM unit :=
  if negb (le_type e =? app_log) then mret tt
  else if isNewSessionRequest (le_data e) then
    session_timeout_ms ← lift (get_ulong (le_data e));
    on_keeper (on_store (getSessionID now (s64 session_timeout_ms)));; mret tt
  else if isUpdateSessionRequest (le_data e) then
    '(session_id, rest) ← lift (get_i64 (le_data e));
    '(_, _) ← lift (get_i64 rest);
    on_keeper (on_store (updateSessionTimeout now session_id));; mret tt
  else
    match r with
    | None => crash
    | Some r =>
        on_keeper (processRequest getSHA1 base64Encode now (rs_request r) (rs_session_id r) (rs_create_time r)
                     None true true);;
        on_keeper (on_store (modify (λ s, if session_id_counter s <? rs_session_id r
                                          then upd_counter (λ _, rs_session_id r) s else s)))
    end.

Fixpoint replay_batch (now : Z) (es : list log_entry) (rs : list (option RequestForSession)) : SmM unit :=
  match es, rs with
  | e :: es, r :: rs => replay_entry now e r;; replay_batch now es rs
  | [], _ => mret tt
  | _ :: _, [] => crash
  end.

(** The batches [[start, end)] of at most 10000 entries; the clock is read once
    per batch. *)
Fixpoint replay_batches (fuel : nat) (clock : Z → Z) (log : Log) (batch_start last_log_index : Z) : SmM unit :=
  match fuel with
  | O => mret tt
  | S fuel =>
      if batch_start <? last_log_index then
        let batch_end := Z.min (batch_start + 10000) (last_log_index + 1) in
        let es := lg_slice log batch_start batch_end in
        rs ← lift (load_batch (clock batch_start) es);
        replay_batch (clock batch_start) es rs;;
        modify (sm_last (batch_end - 1));;
        replay_batches fuel clock log batch_end last_log_index
      else mret tt
  end.

(** The last entry to replay: the last one known to be committed, when the file
    of the task manager names one of the log. *)
Definition replay_last (log : Log) (prev_last_committed_idx : Z) : Z :=
  if negb (prev_last_committed_idx =? 0) && (prev_last_committed_idx <? lg_last log)
  then prev_last_committed_idx else lg_last log.

(** The replay of the constructor. The result says up to which index the log is
    to be compacted, when it is behind the snapshot. *)
Definition replay (clock : Z → Z) (log : Log) (prev_last_committed_idx : Z) : SmM (option Z) :=
  m ← get;
  let next_slot := lg_last log + 1 in
  let last_log_index := replay_last log prev_last_committed_idx in
  let start := last_committed_idx m + 1 in
  replay_batches (Z.to_nat (last_log_index + 1 - start)) clock log start last_log_index;;
  m ← get;
  mret (if next_slot <=? last_committed_idx m then Some (last_committed_idx m) else None).
End machine.
