(* ===== verification/StateMachineProps.v ===== *)
(** * Log entries and their replay

    A request read back from a log entry is the request that was written, and is
    never taken for a session request. Replaying the log at start gives the
    state that committing it gave. *)

From coqutil Require Import Word.LittleEndianList Byte.
From S2P Require Import Prelude Types ZkIO ZkCodec SessionExpiryQueue KeeperStore StoreRequest StoreReplica RequestsQueue LogSegment LogSegmentInv LogStoreProps FileLogStore FileLogStoreProps StateMachine.
From stdpp Require Import base gmap sets strings option list.
From Stdlib Require Import ZArith Lia.
Open Scope Z_scope.

(** ** Entries *)

(** A request as a client session sends it, small enough for its length field. *)
Definition loggable (r : RequestForSession) : Prop :=
  request_ok (rs_request r) ∧ in_s 64 (rs_session_id r) ∧ in_s 64 (rs_create_time r) ∧
  Z.of_nat (length (request_packet (rs_request r))) < 2 ^ 31.

(** The entry does not say which server forwarded the request. *)
Definition logged (r : RequestForSession) : RequestForSession :=
  mkRFS (rs_session_id r) (rs_request r) (rs_create_time r) (-1) (-1).

Lemma reads_session_id sid : in_s 64 sid → reads read_session_id (write_session_id sid) sid.
Proof.
  intros Hs. unfold read_session_id, write_session_id. intros rest.
  assert (length (le_split 8 sid) = 8%nat) as Hl by apply length_le_split.
  pose proof (reads_Strict 8 (le_split 8 sid) Hl rest) as E. rewrite (bind_Ret _ _ _ _ _ E).
  rewrite le_combine_split. change (sid mod 2 ^ (Z.of_nat 8 * 8)) with (wrap_u 64 sid).
  rewrite wrap_s_wrap_u, wrap_s_id by done. done.
Qed.

(** Both readers, after the session id. *)
Lemma read_tail now r rest0 (H : loggable r) :
  (request ← request_read; eof ← rb_eof; time ← (if (eof : bool) then mret now else read_i64);
   mret (mkRFS (rs_session_id r) request time (-1) (-1)) : reader RequestForSession)
    (request_packet (rs_request r) ++ write_i64 (rs_create_time r) ++ rest0) = (rest0, Ret (logged r)).
Proof.
  destruct H as (Hok & _ & Ht & _). rewrite (bind_Ret _ _ _ _ _ (request_read_write _ _ Hok)).
  assert (length (write_i64 (rs_create_time r)) = 8%nat) as Hl by apply length_write_int.
  unfold rb_eof. erewrite bind_Ret; [|reflexivity]. rewrite bool_decide_eq_false_2.
  - by rewrite (bind_Ret _ _ _ _ _ (reads_i64 _ Ht _)).
  - intros E. apply (f_equal length) in E. rewrite length_app, Hl in E. simpl in E. lia.
Qed.

Lemma length_serializeRequest r :
  length (serializeRequest r) = (8 + (4 + length (request_packet (rs_request r))) + 8)%nat.
Proof.
  unfold serializeRequest, request_write, write_session_id, write_i64, write_i32.
  rewrite !length_app, length_le_split, !length_write_int. lia.
Qed.

Lemma packet_long r : (8 <= length (request_packet r))%nat.
Proof.
  unfold request_packet, write_OpNum, write_i32. rewrite !length_app, !length_write_int. lia.
Qed.

Lemma parse_serialized now r : loggable r → parseRequest now (serializeRequest r) = Ret (logged r).
Proof.
  intros Hl. unfold parseRequest, serializeRequest. pose proof Hl as (_ & Hs & _ & Hlen).
  rewrite (bind_Ret _ _ _ _ _ (reads_session_id _ Hs _)).
  assert (in_s 32 (s32 (Z.of_nat (length (request_packet (rs_request r)))))) as H32 by (apply wrap_s_range; lia).
  unfold request_write. rewrite <-(assoc_L (++)), (bind_Ret _ _ _ _ _ (reads_i32 _ H32 _)).
  rewrite <-(app_nil_r (write_i64 _)). by rewrite (read_tail now r [] Hl).
Qed.

Lemma create_serialized now r term :
  loggable r → createRequestSession now (mkLogEntry term app_log (serializeRequest r)) = Ret (Some (logged r)).
Proof.
  intros Hl. unfold createRequestSession. cbn [le_type le_data]. change (negb (app_log =? app_log)) with false. cbv iota.
  unfold serializeRequest. pose proof Hl as (_ & Hs & _ & Hlen).
  rewrite (bind_Ret _ _ _ _ _ (reads_session_id _ Hs _)).
  pose proof (packet_long (rs_request r)) as H8.
  assert (in_s 32 (Z.of_nat (length (request_packet (rs_request r))))) as H32 by (unfold in_s; lia).
  unfold request_write. rewrite (wrap_s_id 32) by done. rewrite <-(assoc_L (++)).
  unfold rb_eof at 1. erewrite bind_Ret; [|reflexivity]. rewrite bool_decide_eq_false_2.
  2:{ intros E. apply (f_equal length) in E. rewrite length_app in E. unfold write_i32 in E. rewrite length_write_int in E. simpl in E. lia. }
  rewrite (bind_Ret _ _ _ _ _ (reads_i32 _ H32 _)), (proj2 (Z.leb_gt _ _)) by lia.
  pose proof (read_tail now r [] Hl) as Ht. rewrite app_nil_r in Ht.
  apply bind_inv_Ret in Ht as (b1 & q & E1 & Ht). rewrite (bind_Ret _ _ _ _ _ E1).
  apply bind_inv_Ret in Ht as (b2 & e & E2 & Ht). rewrite (bind_Ret _ _ _ _ _ E2).
  apply bind_inv_Ret in Ht as (b3 & t & E3 & Ht). rewrite (bind_Ret _ _ _ _ _ E3).
  apply (f_equal snd) in Ht. cbn in Ht. by injection Ht as -> ->.
Qed.

Lemma request_is_no_session r :
  isNewSessionRequest (serializeRequest r) = false ∧ isUpdateSessionRequest (serializeRequest r) = false.
Proof.
  unfold isNewSessionRequest, isUpdateSessionRequest. rewrite length_serializeRequest.
  split; apply bool_decide_eq_false_2; lia.
Qed.

(** A request written into a log entry is read back as it was, by the commit
    and by the replay at start alike, and an entry with a request is never taken
    for one that opens or updates a session, which only its size tells apart. *)
Theorem request_entry_roundtrip now r term :
  loggable r →
  parseRequest now (serializeRequest r) = Ret (logged r) ∧
  createRequestSession now (mkLogEntry term app_log (serializeRequest r)) = Ret (Some (logged r)) ∧
  isNewSessionRequest (serializeRequest r) = false ∧ isUpdateSessionRequest (serializeRequest r) = false.
Proof.
  intros Hl. split; [by apply parse_serialized|]. split; [by apply create_serialized|]. apply request_is_no_session.
Qed.

(** ** What the log of this server holds *)

Inductive item : Type :=
  | NewSession (session_timeout_ms : Z)
  | UpdateSession (session_id session_timeout_ms : Z)
  | Write (r : RequestForSession)
  | NotApp (type : Z) (data : bytes).

Section replay.
Context (getSHA1 base64Encode : string → string).
Context (put_i64 : Z → bytes) (get_i64 : bytes → outcome exn (Z * bytes)) (put_i8 : Z → bytes)
  (get_ulong : bytes → outcome exn Z).
(** Numbers in NuRaft's buffers. *)
Hypothesis length_put_i64 : ∀ z, length (put_i64 z) = 8%nat.
Hypothesis get_put_i64 : ∀ z rest, in_s 64 z → get_i64 (put_i64 z ++ rest) = Ret (z, rest).
Hypothesis get_ulong_put : ∀ z, in_s 64 z → get_ulong (put_i64 z) = Ret (u64 z).

Abbreviation commit := (commit getSHA1 base64Encode put_i64 get_i64 put_i8).
Abbreviation replay_entry := (replay_entry getSHA1 base64Encode get_i64 get_ulong).
Abbreviation replay_batch := (replay_batch getSHA1 base64Encode get_i64 get_ulong).
Abbreviation replay_batches := (replay_batches getSHA1 base64Encode get_i64 get_ulong).
Abbreviation replay := (replay getSHA1 base64Encode get_i64 get_ulong).

Definition item_entry (term : Z) (i : item) : log_entry :=
  match i with
  | NewSession t => mkLogEntry term app_log (put_i64 t)
  | UpdateSession s t => mkLogEntry term app_log (put_i64 s ++ put_i64 t)
  | Write r => mkLogEntry term app_log (serializeRequest r)
  | NotApp ty data => mkLogEntry term ty data
  end.

Definition item_ok (i : item) : Prop :=
  match i with
  | NewSession t => in_s 64 t
  | UpdateSession s t => in_s 64 s ∧ in_s 64 t
  | Write r => loggable r
  | NotApp ty _ => ty ≠ app_log
  end.

(** What a running server did with the entries: NuRaft commits the application's
    entries one by one. *)
Definition is_app (i : item) : bool := match i with NotApp _ _ => false | _ => true end.
Definition commit_item (now log_idx : Z) (i : item) : SmM unit :=
  if is_app i then commit now log_idx (le_data (item_entry 0 i)) false;; mret tt else mret tt.
Fixpoint commit_all (clock : Z → Z) (log_idx : Z) (items : list item) : SmM unit :=
  match items with
  | [] => mret tt
  | i :: items => commit_item (clock log_idx) log_idx i;; commit_all clock (log_idx + 1) items
  end.

(** Every request is of a session whose number has been issued. *)
Fixpoint issued (clock : Z → Z) (log_idx : Z) (items : list item) (m : Machine) : Prop :=
  match items with
  | [] => True
  | i :: items =>
      let m' := (commit_item (clock log_idx) log_idx i m).1 in
      match i with Write r => rs_session_id r <= session_id_counter (sm_store m') | _ => True end ∧
      issued clock (log_idx + 1) items m'
  end.

(** ** Agreement *)

(** The two machines hold the same replicated state and apply requests
    themselves. *)
Record alike (m1 m2 : Machine) : Prop := {
  al_agree : agree (sm_store m1) (sm_store m2);
  al_own1 : own_wf (sm_store m1);
  al_own2 : own_wf (sm_store m2);
  al_proc : request_processor m2 = None
}.

Lemma agrees_getSessionID now1 now2 t :
  agrees eq (on_store (getSessionID now1 t)) (on_store (getSessionID now2 t)).
Proof.
  intros s1 q1 s2 q2 Ha H1 H2. pose proof (agree_graft _ _ Ha) as E. rewrite E in H2 |- *.
  unfold on_store, getSessionID, getZXID, mbind, ST_bind, modify, get, mret, ST_ret. cbn.
  unfold on_expiry. cbn.
  destruct (addNewSessionOrUpdate_ok now1 (session_id_counter s1) t (session_expiry_queue s1) H1) as (qa & ? & Ea & Wa & _).
  destruct (addNewSessionOrUpdate_ok now2 (session_id_counter s1) t (session_expiry_queue s2) H2) as (qb & ? & Eb & Wb & _).
  rewrite Ea, Eb. by split_and!.
Qed.

Lemma agrees_updateSession now1 now2 sid :
  agrees eq (on_store (updateSessionTimeout now1 sid)) (on_store (updateSessionTimeout now2 sid)).
Proof.
  intros s1 q1 s2 q2 Ha H1 H2. pose proof (agree_graft _ _ Ha) as E. rewrite E in H2 |- *.
  unfold on_store, updateSessionTimeout, mbind, ST_bind, get, mret, ST_ret. cbn.
  destruct (session_and_timeout s1 !! sid) as [t|]; [|done]. unfold on_expiry. cbn.
  destruct (addNewSessionOrUpdate_ok now1 sid t (session_expiry_queue s1) H1) as (qa & ? & Ea & Wa & _).
  destruct (addNewSessionOrUpdate_ok now2 sid t (session_expiry_queue s2) H2) as (qb & ? & Eb & Wb & _).
  rewrite Ea, Eb. by split_and!.
Qed.

(** A call on the store that completes on one machine completes on the other. *)
Lemma on_keeper_alike {A} (R : A → A → Prop) k1 k2 m1 m2 m2' b :
  agrees R k1 k2 → alike m1 m2 → on_keeper k2 m2 = (m2', Ret b) →
  ∃ m1' a, on_keeper k1 m1 = (m1', Ret a) ∧ R a b ∧ alike m1' m2' ∧
    last_committed_idx m1' = last_committed_idx m1.
Proof.
  intros Hk [Ha H1 H2 Hp]. unfold on_keeper.
  destruct (Hk (sm_store m1) (sm_responses m1) (sm_store m2) (sm_responses m2) Ha H1 H2) as (Ha' & H1' & H2' & Ho).
  destruct (k1 _) as [[s1 q1] o1], (k2 _) as [[s2 q2] o2]. cbn in *. intros [= <- ->].
  destruct o1 as [a| |]; try done. eexists _, a. by split_and!.
Qed.

Lemma session_sizes t s :
  isNewSessionRequest (put_i64 t) = true ∧ isNewSessionRequest (put_i64 s ++ put_i64 t) = false ∧
  isUpdateSessionRequest (put_i64 s ++ put_i64 t) = true.
Proof.
  unfold isNewSessionRequest, isUpdateSessionRequest. rewrite length_app, !length_put_i64. by split_and!.
Qed.

(** What the loader makes of an entry. *)
Definition loaded (i : item) : option RequestForSession := match i with Write r => Some (logged r) | _ => None end.

Lemma load_batch_items now terms items :
  Forall item_ok items → length terms = length items →
  load_batch now (zip_with item_entry terms items) = Ret (loaded <$> items).
Proof.
  intros Hok. revert terms. induction Hok as [|i items Hi Hok IH]; intros [|term terms] Hl; simpl in Hl; try done.
  cbn [zip_with load_batch fmap list_fmap]. rewrite (IH terms) by lia.
  destruct i as [t|s t|r|ty data]; cbn [item_entry le_type le_data loaded].
  - rewrite (proj1 (session_sizes t 0)), orb_true_r. reflexivity.
  - destruct (session_sizes t s) as (_ & -> & ->). rewrite orb_true_r. reflexivity.
  - destruct (request_is_no_session r) as [-> ->]. change (negb (app_log =? app_log) || false || false) with false. cbv iota.
    rewrite create_serialized by exact Hi. reflexivity.
  - rewrite (proj2 (Z.eqb_neq _ _) Hi). reflexivity.
Qed.

Lemma lift_Ret_run {T A B} (a : A) (k : A → ST T exn B) s : (lift (Ret a) ≫= k) s = k a s.
Proof. done. Qed.

(** What a completed commit did. *)
Lemma commit_new now idx t m m' x :
  in_s 64 t → commit now idx (put_i64 t) false m = (m', Ret x) →
  ∃ m1 sid, on_keeper (on_store (getSessionID now t)) m = (m1, Ret sid) ∧ m' = sm_notify sid (sm_committed idx m1).
Proof.
  intros Ht. unfold StateMachine.commit. rewrite (proj1 (session_sizes t 0)).
  pose proof (get_put_i64 t [] Ht) as Eg. rewrite app_nil_r in Eg. rewrite Eg, lift_Ret_run.
  intros H. apply bind_inv_Ret in H as (m1 & sid & E & H). exists m1, sid. split; [done|]. by injection H as <- _.
Qed.

Lemma commit_update now idx s t m m' x :
  in_s 64 s → in_s 64 t → commit now idx (put_i64 s ++ put_i64 t) false m = (m', Ret x) →
  ∃ m1 b, on_keeper (on_store (updateSessionTimeout now s)) m = (m1, Ret b) ∧ m' = sm_notify s (sm_committed idx m1).
Proof.
  intros Hs Ht. unfold StateMachine.commit. destruct (session_sizes t s) as (_ & -> & ->).
  rewrite get_put_i64, lift_Ret_run by done.
  pose proof (get_put_i64 t [] Ht) as Eg. rewrite app_nil_r in Eg. rewrite Eg, lift_Ret_run.
  intros H. apply bind_inv_Ret in H as (m1 & b & E & H). exists m1, b. split; [done|]. by injection H as <- _.
Qed.

Lemma commit_write now idx r m m' x :
  loggable r → request_processor m = None → commit now idx (serializeRequest r) false m = (m', Ret x) →
  ∃ m1, on_keeper (processRequest getSHA1 base64Encode now (rs_request r) (rs_session_id r) (rs_create_time r)
          None true false) m = (m1, Ret tt) ∧ m' = sm_committed idx m1.
Proof.
  intros Hr Hp. unfold StateMachine.commit. destruct (request_is_no_session r) as [-> ->].
  rewrite (parse_serialized now r Hr), lift_Ret_run, get_run, Hp.
  intros H. apply bind_inv_Ret in H as (m1 & [] & E & H). exists m1. split; [done|]. by injection H as <- _.
Qed.

Lemma alike_committed m1 m2 idx : alike m1 m2 → alike m1 (sm_committed idx m2).
Proof. intros [Ha H1 H2 Hp]. exact (Build_alike _ (sm_committed idx m2) Ha H1 H2 Hp). Qed.
Lemma alike_notify m1 m2 sid : alike m1 m2 → alike m1 (sm_notify sid m2).
Proof.
  intros [Ha H1 H2 Hp]. unfold sm_notify. case_bool_decide; [|by apply Build_alike].
  exact (Build_alike _ (mkMachine _ _ _ _ _ _ _) Ha H1 H2 Hp).
Qed.

Lemma commit_item_inv now idx i m m' :
  is_app i = true → commit_item now idx i m = (m', Ret tt) →
  ∃ x, commit now idx (le_data (item_entry 0 i)) false m = (m', Ret x).
Proof.
  unfold commit_item. intros -> H. apply bind_inv_Ret in H as (m1 & x & E & H).
  apply (f_equal fst) in H. cbn in H. subst m1. by exists x.
Qed.

(** One entry: replaying it does to the replicated state what committing it did. *)
Lemma replay_item now1 now2 idx term i m1 m2 m2' :
  item_ok i → alike m1 m2 → commit_item now2 idx i m2 = (m2', Ret tt) →
  match i with Write r => rs_session_id r <= session_id_counter (sm_store m2') | _ => True end →
  ∃ m1', replay_entry now1 (item_entry term i) (loaded i) m1 = (m1', Ret tt) ∧ alike m1' m2' ∧
    last_committed_idx m1' = last_committed_idx m1.
Proof.
  intros Hi Hal Hc Hiss. destruct i as [t|s t|r|ty data]; unfold StateMachine.replay_entry;
    cbn [item_entry le_type le_data loaded item_ok] in *.
  - apply commit_item_inv in Hc as [x Hc]; [|done]. apply commit_new in Hc as (m3 & sid & Ek & ->); [|done].
    destruct (on_keeper_alike eq _ _ m1 _ _ _ (agrees_getSessionID now1 now2 t) Hal Ek) as (m1' & a1 & E1 & _ & Hal' & Hlast).
    rewrite (proj1 (session_sizes t 0)), get_ulong_put by done. change (negb (app_log =? app_log)) with false. cbv iota.
    rewrite lift_Ret_run. assert (s64 (u64 t) = t) as -> by (rewrite wrap_s_wrap_u, wrap_s_id by done; done).
    rewrite (bind_Ret _ _ _ _ _ E1). exists m1'. split; [reflexivity|]. split; [by apply alike_notify, alike_committed|done].
  - destruct Hi as [Hs Ht]. apply commit_item_inv in Hc as [x Hc]; [|done]. apply commit_update in Hc as (m3 & b & Ek & ->); [|done..].
    destruct (on_keeper_alike eq _ _ m1 _ _ _ (agrees_updateSession now1 now2 s) Hal Ek) as (m1' & a1 & E1 & _ & Hal' & Hlast).
    destruct (session_sizes t s) as (_ & -> & ->). change (negb (app_log =? app_log)) with false. cbv iota.
    rewrite get_put_i64, lift_Ret_run by done. pose proof (get_put_i64 t [] Ht) as Eg. rewrite app_nil_r in Eg.
    rewrite Eg, lift_Ret_run, (bind_Ret _ _ _ _ _ E1). exists m1'. split; [reflexivity|].
    split; [by apply alike_notify, alike_committed|done].
  - apply commit_item_inv in Hc as [x Hc]; [|done]. apply commit_write in Hc as (m3 & Ek & ->); [|done|apply (al_proc _ _ Hal)].
    destruct (on_keeper_alike (λ _ _, True) _ _ m1 _ _ _
      (processRequest_agrees getSHA1 base64Encode now1 now2 (rs_request r) (rs_session_id r) (rs_create_time r) None true true false)
      Hal Ek) as (m1' & [] & E1 & _ & Hal' & Hlast).
    destruct (request_is_no_session r) as [-> ->]. change (negb (app_log =? app_log)) with false. cbv iota.
    cbn [logged rs_request rs_session_id rs_create_time]. rewrite (bind_Ret _ _ _ _ _ E1). exists m1'.
    assert (session_id_counter (sm_store m1') = session_id_counter (sm_store m3)) as Ecnt.
    { pose proof (al_agree _ _ Hal') as Ha. unfold agree, replicated in Ha. congruence. }
    simpl in Hiss. unfold on_keeper, on_store, modify. rewrite (proj2 (Z.ltb_ge _ _)) by lia.
    split; [by destruct m1'|]. split; [by apply alike_committed|done].
  - injection Hc as <-. rewrite (proj2 (Z.eqb_neq _ _) Hi). by exists m1.
Qed.

(** *** Batches *)

Lemma replay_batch_items now clock idx terms items m1 m2 m2' :
  Forall item_ok items → length terms = length items → alike m1 m2 →
  commit_all clock idx items m2 = (m2', Ret tt) → issued clock idx items m2 →
  ∃ m1', replay_batch now (zip_with item_entry terms items) (loaded <$> items) m1 = (m1', Ret tt) ∧ alike m1' m2' ∧
    last_committed_idx m1' = last_committed_idx m1.
Proof.
  intros Hok. revert idx terms m1 m2. induction Hok as [|i items Hi Hok IH]; intros idx [|term terms] m1 m2 Hl Hal Hc Hiss;
    simpl in Hl; try lia.
  - injection Hc as <-. by exists m1.
  - cbn [commit_all] in Hc. apply bind_inv_Ret in Hc as (m3 & [] & E & Hc).
    cbn [issued] in Hiss. rewrite E in Hiss. destruct Hiss as [Hi' Hiss].
    destruct (replay_item now (clock idx) idx term i m1 m2 m3 Hi Hal E Hi') as (ma & Ea & Hala & La).
    destruct (IH (idx + 1) terms ma m3 ltac:(lia) Hala Hc Hiss) as (mb & Eb & Halb & Lb).
    exists mb. cbn [zip_with replay_batch fmap list_fmap]. rewrite (bind_Ret _ _ _ _ _ Ea). split_and!; [exact Eb|exact Halb|congruence].
Qed.

Lemma commit_all_app clock idx l1 l2 m m' :
  commit_all clock idx (l1 ++ l2) m = (m', Ret tt) →
  ∃ m1, commit_all clock idx l1 m = (m1, Ret tt) ∧ commit_all clock (idx + Z.of_nat (length l1)) l2 m1 = (m', Ret tt).
Proof.
  revert idx m. induction l1 as [|i l1 IH]; intros idx m; cbn [app commit_all length].
  - rewrite Z.add_0_r. intros H. by exists m.
  - intros H. apply bind_inv_Ret in H as (m1 & [] & E & H). apply IH in H as (m2 & E1 & E2).
    exists m2. rewrite (bind_Ret _ _ _ _ _ E). split; [exact E1|]. by replace (idx + Z.of_nat (S (length l1))) with (idx + 1 + Z.of_nat (length l1)) by lia.
Qed.

Lemma commit_all_join clock idx l1 l2 m m1 m' :
  commit_all clock idx l1 m = (m1, Ret tt) → commit_all clock (idx + Z.of_nat (length l1)) l2 m1 = (m', Ret tt) →
  commit_all clock idx (l1 ++ l2) m = (m', Ret tt).
Proof.
  revert idx m. induction l1 as [|i l1 IH]; intros idx m; cbn [app commit_all length].
  - rewrite Z.add_0_r. by intros [= ->].
  - intros H H2. apply bind_inv_Ret in H as (ma & [] & E & H). rewrite (bind_Ret _ _ _ _ _ E). apply IH; [exact H|].
    by replace (idx + 1 + Z.of_nat (length l1)) with (idx + Z.of_nat (S (length l1))) by lia.
Qed.

Lemma issued_app clock idx l1 l2 m m1 :
  issued clock idx (l1 ++ l2) m → commit_all clock idx l1 m = (m1, Ret tt) →
  issued clock idx l1 m ∧ issued clock (idx + Z.of_nat (length l1)) l2 m1.
Proof.
  revert idx m. induction l1 as [|i l1 IH]; intros idx m; cbn [app issued commit_all length].
  - rewrite Z.add_0_r. by intros H [= ->].
  - intros [Hi H] Hc. apply bind_inv_Ret in Hc as (ma & [] & E & Hc). rewrite E in *. cbn [fst] in *.
    destruct (IH _ _ H Hc) as [H1 H2]. split; [by split|]. by replace (idx + Z.of_nat (S (length l1))) with (idx + 1 + Z.of_nat (length l1)) by lia.
Qed.

(** The number of entries the loop gets to, of [n]: it stops at a single one. *)
Definition replayed (n : Z) : Z := if n mod 10000 =? 1 then n - 1 else n.

Lemma replayed_batch n k : 2 <= n → k = Z.min 10000 n → replayed n = k + replayed (n - k).
Proof.
  intros Hn ->. unfold replayed. destruct (Z.le_gt_cases n 10000) as [|Hg].
  - replace (Z.min 10000 n) with n by lia. rewrite Z.sub_diag, Z.mod_0_l by lia. cbn [Z.eqb].
    rewrite (proj2 (Z.eqb_neq _ _)); [lia|]. destruct (decide (n = 10000)) as [->|]; [done|]. rewrite Z.mod_small; lia.
  - replace (Z.min 10000 n) with 10000 by lia. replace (n mod 10000) with ((n - 10000) mod 10000); [case_match; lia|].
    rewrite <-(Z_mod_plus_full n (-1) 10000). f_equal; lia.
Qed.

Lemma replayed_nonneg n : 0 <= n → 0 <= replayed n.
Proof.
  intros Hn. unfold replayed. destruct (Z.eqb_spec (n mod 10000) 1) as [E|]; [|done].
  destruct (decide (n = 0)) as [->|]; [done|lia].
Qed.

Lemma lg_slice_split log a k b :
  lg_first log <= a → 0 <= k → a + k <= b →
  lg_slice log a (a + k) = take (Z.to_nat k) (lg_slice log a b) ∧
  lg_slice log (a + k) b = drop (Z.to_nat k) (lg_slice log a b).
Proof.
  intros Ha Hk Hb. unfold lg_slice. split.
  - rewrite take_take. f_equal. lia.
  - rewrite skipn_firstn_comm, drop_drop. f_equal; [lia|f_equal; lia].
Qed.

Lemma replay_short fuel rclock log start last m : last <= start → replay_batches fuel rclock log start last m = (m, Ret tt).
Proof. intros H. destruct fuel; [done|]. cbn [StateMachine.replay_batches]. by rewrite (proj2 (Z.ltb_ge _ _)). Qed.

(** One round of the loop. *)
Lemma replay_round fuel rclock log start k n es rs m m' :
  2 <= n → k = Z.min 10000 n → lg_slice log start (start + k) = es → load_batch (rclock start) es = Ret rs →
  replay_batch (rclock start) es rs m = (m', Ret tt) →
  replay_batches (S fuel) rclock log start (start + n - 1) m =
  replay_batches fuel rclock log (start + k) (start + k + (n - k) - 1) (sm_last (start + k - 1) m').
Proof.
  intros Hn -> He Hl Hb. cbn [StateMachine.replay_batches]. rewrite (proj2 (Z.ltb_lt _ _)) by lia.
  replace (Z.min (start + 10000) (start + n - 1 + 1)) with (start + Z.min 10000 n) by lia. rewrite He, Hl, lift_Ret_run.
  rewrite (bind_Ret _ _ _ _ _ Hb), modify_run. f_equal; lia.
Qed.

Lemma alike_last m1 m2 idx : alike m1 m2 → alike (sm_last idx m1) m2.
Proof. intros [Ha H1 H2 Hp]. exact (Build_alike (sm_last idx m1) _ Ha H1 H2 Hp). Qed.

Lemma replay_batches_items fuel rclock clock log start terms items m1 m2 m2' :
  lg_first log <= start → lg_slice log start (start + Z.of_nat (length items)) = zip_with item_entry terms items →
  length terms = length items → (length items <= fuel)%nat → Forall item_ok items →
  alike m1 m2 → last_committed_idx m1 = start - 1 →
  commit_all clock start items m2 = (m2', Ret tt) → issued clock start items m2 →
  ∃ m1' m2n, replay_batches fuel rclock log start (start + Z.of_nat (length items) - 1) m1 = (m1', Ret tt) ∧
    commit_all clock start (take (Z.to_nat (replayed (Z.of_nat (length items)))) items) m2 = (m2n, Ret tt) ∧
    alike m1' m2n ∧ last_committed_idx m1' = start - 1 + replayed (Z.of_nat (length items)).
Proof.
  revert start terms items m1 m2. induction fuel as [|fuel IH];
    intros start terms items m1 m2 Hf Hs Hl Hfuel Hok Hal Hlast Hc Hiss.
  { exists m1, m2. assert (length items = 0)%nat as -> by lia. rewrite replay_short by lia. split_and!; [done..|].
    change (replayed (Z.of_nat 0)) with 0. lia. }
  destruct (Z.le_gt_cases (Z.of_nat (length items)) 1) as [Hn|Hn].
  { exists m1, m2. rewrite replay_short by lia.
    assert (replayed (Z.of_nat (length items)) = 0) as -> by (by destruct items as [|? [|??]]; simpl in Hn |- *; [..|lia]).
    split_and!; [done..|lia]. }
  set (n := Z.of_nat (length items)) in *. set (k := Z.min 10000 n). assert (1 <= k <= n) as Hk by lia.
  assert (Hrep := replayed_batch n k ltac:(lia) eq_refl).
  set (a := take (Z.to_nat k) items). set (b := drop (Z.to_nat k) items).
  assert (items = a ++ b) as Eab by (symmetry; apply take_drop).
  assert (length a = Z.to_nat k) as La by (subst a; rewrite length_take; lia).
  assert (Z.of_nat (length b) = n - k) as Lb by (subst b; rewrite length_drop; lia).
  destruct (lg_slice_split log start k (start + n) Hf ltac:(lia) ltac:(lia)) as [E1 E2].
  rewrite Hs, zip_with_take in E1. rewrite Hs, zip_with_drop in E2. fold a in E1. fold b in E2.
  rewrite Eab in Hc, Hiss, Hok. apply Forall_app in Hok as [Hoka Hokb].
  apply commit_all_app in Hc as (m3 & Ha & Hb). destruct (issued_app _ _ _ _ _ _ Hiss Ha) as [Hia Hib].
  rewrite La, Z2Nat.id in Hb, Hib by lia.
  assert (length (take (Z.to_nat k) terms) = length a) as Hta by (rewrite La, length_take; lia).
  destruct (replay_batch_items (rclock start) clock start _ a m1 m2 m3 Hoka Hta Hal Ha Hia) as (ma & Ea & Hala & _).
  rewrite (replay_round fuel rclock log start k n _ _ m1 ma ltac:(lia) eq_refl E1 (load_batch_items _ _ _ Hoka Hta) Ea).
  destruct (IH (start + k) (drop (Z.to_nat k) terms) b (sm_last (start + k - 1) ma) m3) as (m1' & m2n & Er & Ec & Halr & Hlr);
    [lia|rewrite Lb; replace (start + k + (n - k)) with (start + n) by lia; exact E2|rewrite length_drop; lia|lia|exact Hokb|
     by apply alike_last|done|exact Hb|exact Hib|].
  rewrite Lb in Er, Ec, Hlr. exists m1', m2n. split; [exact Er|]. rewrite Hrep. split_and!; [|exact Halr|lia].
  assert (H0 := replayed_nonneg (n - k) ltac:(lia)).
  rewrite Eab, take_app, La. replace (Z.to_nat (k + replayed (n - k)) - Z.to_nat k)%nat with (Z.to_nat (replayed (n - k))) by lia.
  rewrite (take_ge a) by lia. apply (commit_all_join _ _ _ _ _ m3); [exact Ha|]. by rewrite La, Z2Nat.id by lia.
Qed.

Lemma length_lg_slice log a b :
  lg_first log <= a → a <= b → b <= lg_last log + 1 → Z.of_nat (length (lg_slice log a b)) = b - a.
Proof. unfold lg_slice, lg_last. intros. rewrite length_take, length_drop. lia. Qed.

End replay.

(** ** Witnesses *)

Module MachineDemo.
Definition put (z : Z) : bytes := le_split 8 z.
Definition get_s (b : bytes) : outcome exn (Z * bytes) :=
  if bool_decide (8 <= length b)%nat then Ret (s64 (le_combine (take 8 b)), drop 8 b) else Crash.
Definition get_u (b : bytes) : outcome exn Z := Ret (le_combine (take 8 b)).

Lemma length_put z : length (put z) = 8%nat.
Proof. apply length_le_split. Qed.
Lemma put_value z : le_combine (put z) = u64 z.
Proof. unfold put. by rewrite le_combine_split. Qed.
Lemma get_put z rest : in_s 64 z → get_s (put z ++ rest) = Ret (z, rest).
Proof.
  intros Hz. unfold get_s. rewrite bool_decide_eq_true_2 by (rewrite length_app, length_put; lia).
  rewrite take_app_length', drop_app_length' by (symmetry; apply length_put).
  by rewrite put_value, wrap_s_wrap_u, wrap_s_id.
Qed.
Lemma get_put_u z : in_s 64 z → get_u (put z) = Ret (u64 z).
Proof. intros _. unfold get_u. rewrite take_ge by (rewrite length_put; lia). by rewrite put_value. Qed.

Definition create : RequestForSession :=
  mkRFS 1 (mkRequest 7 false (CreateRequest "/a" "x" false false [])) 1000 3 4.
Definition items : list item := [NewSession 30000; Write create; UpdateSession 1 30000; NotApp 2 []].
Definition log : Log := mkLog 1 (zip_with (item_entry put) [1; 1; 1; 2] items).
Definition machine : Machine := mkMachine (KeeperStore_new 500 "") [] 0 (mkTasks [] []) ∅ [] None.
Definition id (s : string) : string := s.
End MachineDemo.

Lemma create_loggable : loggable MachineDemo.create.
Proof.
  unfold loggable. split; [|by split_and!].
  cbn [request_ok rs_request MachineDemo.create]. unfold vec_ok, string_ok, in_s. by split_and!.
Qed.

Lemma demo_items_ok : Forall item_ok MachineDemo.items.
Proof.
  unfold MachineDemo.items. repeat apply Forall_cons_2; [done|exact create_loggable|done|done|apply Forall_nil_2].
Qed.

Lemma demo_alike : alike MachineDemo.machine MachineDemo.machine.
Proof. pose proof (Queue_new_wf 500) as H. by apply Build_alike. Qed.

Lemma run_unit {S} (x : S * outcome exn unit) : match x.2 with Ret _ => true | _ => false end = true → x = (x.1, Ret tt).
Proof. by destruct x as [s [[]|e|]]. Qed.

