(* ===== verification/Snapshot.v ===== *)
(** * Snapshots: src/Service/NuRaftLogSnapshot.{h,cpp}

    A snapshot is a number of object files: the counters, the sessions, the ACL
    numbers and the nodes of the tree, each a header, batches of items with their
    checksums and a tail with the checksum of the checksums. The directory is a
    map from file names to contents; an opened file is truncated, writes append
    and do not fail. The batch message is generated by protobuf from
    src/Service/proto/Log.proto: a class of two functions.

    Loading runs in eight threads on one store. A thread is a [load]: it ends,
    or performs one locked access to the store and goes on; the scheduler picks
    a thread for every access. *)

From coqutil Require Import Word.LittleEndianList Byte.
From S2P Require Import Prelude Types ZkIO ZkCodec ACLMap SessionExpiryQueue KeeperPaths KeeperNode KeeperStore Crc32 LogSegmentInv LogStore.
From stdpp Require Import base gmap sets strings option pretty sorting list.
From Stdlib Require Import ZArith Lia Ascii.
Open Scope Z_scope.

(** ** Constants and messages *)

Definition SNAPSHOT_TYPE_DATA : Z := 0.
Definition SNAPSHOT_TYPE_CONFIG : Z := 2.
Definition SNAPSHOT_TYPE_SERVER : Z := 3.
Definition SNAPSHOT_TYPE_SESSION : Z := 4.
Definition SNAPSHOT_TYPE_UINTMAP : Z := 6.
Definition SNAPSHOT_TYPE_ACLMAP : Z := 7.

Record SnapshotBatchPB : Type := mkBatch { batch_type : Z; batch_data : list bytes }.

(** [cs_new<SnapshotBatchPB>()]: the first enumerator, no items. *)
Definition new_batch : SnapshotBatchPB := mkBatch SNAPSHOT_TYPE_DATA [].
Definition set_batch_type (t : Z) (b : SnapshotBatchPB) : SnapshotBatchPB := mkBatch t (batch_data b).
Definition add_data (item : bytes) (b : SnapshotBatchPB) : SnapshotBatchPB :=
  mkBatch (batch_type b) (batch_data b ++ [item]).

Class BatchCodec : Type := {
  SerializeToString : SnapshotBatchPB → bytes;
  ParseFromString : bytes → SnapshotBatchPB
}.

Definition SNAPSHOT_V0 : Z := 0.
Definition SNAPSHOT_V1 : Z := 1.
Definition SNAPSHOT_None : Z := 255.
Definition CURRENT_SNAPSHOT_VERSION : Z := SNAPSHOT_V1.

Definition BATCH_HEADER_SIZE : Z := 8.
Definition MAX_OBJECT_NODE_SIZE : Z := 1000000.
Definition SAVE_BATCH_SIZE : Z := 10000.
Definition SNAPSHOT_THREAD_NUM : nat := 8.

Definition MAGIC_SNAPSHOT_HEAD : bytes := String.list_byte_of_string "SnapHead".
Definition MAGIC_SNAPSHOT_TAIL : bytes := String.list_byte_of_string "SnapTail".
Definition isFileHeader (magic : Z) : bool := magic =? le_combine MAGIC_SNAPSHOT_HEAD.
Definition isFileTail (magic : Z) : bool := magic =? le_combine MAGIC_SNAPSHOT_TAIL.

(** ** A snapshot and its object files *)

(** What the code uses of [nuraft::snapshot]. *)
Record snapshot : Type := mkSnapshot { last_log_idx : Z; last_log_term : Z; snp_size : Z }.

Record KeeperSnapshotStore : Type := mkSnap {
  snap_meta : snapshot;
  max_object_node_size : Z;
  save_batch_size : Z;
  objects_path : gmap Z string;
  curr_time : string;
  curr_time_t : Z
}.

Definition KeeperSnapshotStore_new (meta : snapshot) (max_object_node_size_ : Z) : KeeperSnapshotStore :=
  mkSnap meta (if max_object_node_size_ =? 0 then MAX_OBJECT_NODE_SIZE else max_object_node_size_) SAVE_BATCH_SIZE ∅ "" 0.

(** The name in the snapshot directory; never as long as the buffer it is
    printed into. *)
Definition getObjectPath (st : KeeperSnapshotStore) (object_id : Z) : string :=
  ("snapshot_" +:+ curr_time st +:+ "_" +:+ pretty (last_log_idx (snap_meta st)) +:+ "_" +:+ pretty object_id)%string.

(** [std::string::find] from a position. *)
Fixpoint find_from (c : ascii) (pos : nat) (s : string) : option nat :=
  match s with
  | EmptyString => None
  | String a s' =>
      match pos with
      | O => if bool_decide (a = c) then Some O else S <$> find_from c O s'
      | S pos => S <$> find_from c pos s'
      end
  end.

(** [substr(it1 + 1, it2 - it1)] of the unsigned positions. *)
Definition getFileTime (file_name : string) : string :=
  match find_from "_"%char O file_name with
  | Some it1 =>
      match find_from "_"%char (S it1) file_name with
      | Some it2 => String.substring (S it1) (it2 - it1) file_name
      | None => String.substring (S it1) (String.length file_name) file_name
      end
  | None => ""
  end.

(** [std::stoi]. *)
Definition stoi (s : string) : outcome exn Z :=
  let s := skip_space s in
  let '(negative, s) :=
    match s with
    | String c r => if bool_decide (c = "-"%char) then (true, r) else if bool_decide (c = "+"%char) then (false, r) else (false, s)
    | EmptyString => (false, s)
    end in
  let ds := (span_digits s).1 in
  if bool_decide (ds = "") then Throw STD_INVALID_ARGUMENT
  else
    let v := if (negative : bool) then - dec_val 0 ds else dec_val 0 ds in
    if bool_decide (in_s 32 v) then Ret v else Throw STD_OUT_OF_RANGE.

(** Converted to [size_t]. *)
Definition getObjectIdx (file_name : string) : outcome exn Z :=
  let number :=
    match rfind "_"%char file_name with
    | Some it1 => String.substring (S it1) (String.length file_name) file_name
    | None => file_name
    end in
  match stoi number with Ret v => Ret (u64 v) | Throw e => Throw e | Crash => Crash end.

Abbreviation Files := (gmap string bytes).

Definition addObjectPath (obj_id : Z) (path : string) (st : KeeperSnapshotStore) : KeeperSnapshotStore :=
  mkSnap (snap_meta st) (max_object_node_size st) (save_batch_size st) (<[obj_id := path]> (objects_path st))
    (curr_time st) (curr_time_t st).

Abbreviation SnapM := (ST (KeeperSnapshotStore * Files) exn).
Definition on_files {A} (m : ST Files exn A) : SnapM A := λ '(st, fs), let '(fs', r) := m fs in ((st, fs'), r).
Definition upd_snap (f : KeeperSnapshotStore → KeeperSnapshotStore) : SnapM unit := modify (λ '(st, fs), (f st, fs)).

(** ** Writing objects *)

(** The local variables of the functions that write: the file being written, the
    batch being filled, the checksum and the number of nodes so far. *)
Record Out : Type := mkOut {
  o_files : Files;
  o_path : option string;
  o_batch : option SnapshotBatchPB;
  o_checksum : Z;
  o_processed : Z
}.
Definition set_files (f : Files → Files) (o : Out) : Out :=
  mkOut (f (o_files o)) (o_path o) (o_batch o) (o_checksum o) (o_processed o).
Definition set_path (p : string) (o : Out) : Out :=
  mkOut (o_files o) (Some p) (o_batch o) (o_checksum o) (o_processed o).
Definition set_batch (b : SnapshotBatchPB) (o : Out) : Out :=
  mkOut (o_files o) (o_path o) (Some b) (o_checksum o) (o_processed o).
Definition set_checksum (c : Z) (o : Out) : Out :=
  mkOut (o_files o) (o_path o) (o_batch o) c (o_processed o).
Definition set_processed (n : Z) (o : Out) : Out :=
  mkOut (o_files o) (o_path o) (o_batch o) (o_checksum o) n.

Abbreviation OutM := (ST Out exn).

(** [WriteBufferFromFile::write]; a null buffer is dereferenced. *)
Definition out_write (b : bytes) : OutM unit :=
  o ← get;
  match o_path o with
  | None => crash
  | Some p => modify (set_files (λ fs, <[p := default [] (fs !! p) ++ b]> fs))
  end.

Definition openFileAndWriteHeader (path : string) (version : Z) : OutM unit :=
  modify (set_files <[path := []]>);;
  modify (set_path path);;
  out_write MAGIC_SNAPSHOT_HEAD;;
  out_write (le_split 1 version).

Definition writeTailAndClose (checksum : Z) : OutM unit :=
  out_write MAGIC_SNAPSHOT_TAIL;;
  out_write (le_split 4 checksum).

Definition updateCheckSum (checksum data_crc : Z) : Z := getCRC32 (le_split 4 checksum ++ le_split 4 data_crc).

(** [x % n == 0] of the source, [n] not null. *)
Definition divides (n x : Z) : OutM bool := if n =? 0 then crash else mret (x mod n =? 0).

Section writing.
Context `{BatchCodec}.

Definition saveBatch : OutM (Z * Z) :=
  o ← get;
  let batch := default new_batch (o_batch o) in
  modify (set_batch batch);;
  let str_buf := SerializeToString batch in
  let data_length := u32 (Z.of_nat (length str_buf)) in
  let data_crc := getCRC32 str_buf in
  out_write (le_split 4 data_length);;
  out_write (le_split 4 data_crc);;
  out_write (take (Z.to_nat data_length) str_buf);;
  mret (BATCH_HEADER_SIZE + data_length, data_crc).

Definition saveBatchAndUpdateCheckSum (checksum : Z) : OutM (Z * Z) :=
  '(save_size, data_crc) ← saveBatch;
  modify (set_batch new_batch);;
  mret (save_size, updateCheckSum checksum data_crc).

(** The callers keep the new checksum. *)
Definition save_and_check : OutM unit :=
  o ← get; '(_, new_checksum) ← saveBatchAndUpdateCheckSum (o_checksum o); modify (set_checksum new_checksum).

(** The loop over the entries of a map, each as the bytes of its item. *)
Fixpoint save_items (type save_batch_size : Z) (items : list bytes) (index : Z) : OutM unit :=
  match items with
  | [] => mret tt
  | item :: items =>
      full ← divides save_batch_size index;
      (if (full : bool) then
         (if negb (index =? 0) then save_and_check else mret tt);;
         modify (set_batch (set_batch_type type new_batch))
       else mret tt);;
      o ← get;
      match o_batch o with
      | None => crash
      | Some b => modify (set_batch (add_data item b));; save_items type save_batch_size items (index + 1)
      end
  end.

(** A whole object of one map: header, batches, tail. *)
Definition serialize_object (type save_batch_size version : Z) (items : list bytes) (path : string) : ST Files exn unit := λ fs,
  let '(o, r) :=
    (openFileAndWriteHeader path version;;
     save_items type save_batch_size items 0;;
     save_and_check;;
     o ← get; writeTailAndClose (o_checksum o)) (mkOut fs None None 0 0) in
  (o_files o, r).

(** *** Items *)

Definition acl_item (x : Z * ACLs) : bytes := write_int 8 x.1 ++ write_vec write_ACL x.2.
Definition session_item (auth : gmap Z AuthIDs) (x : Z * Z) : bytes :=
  write_i64 x.1 ++ write_i64 x.2 ++ write_vec write_AuthID (default [] (auth !! x.1)).
Definition map_item (x : string * Z) : bytes := write_string x.1 ++ write_i64 x.2.
Definition node_item (path : string) (n : KeeperNode) : bytes :=
  write_string path ++ write_string (node_data n) ++ write_int 8 (node_acl_id n) ++ write_bool (node_is_ephemeral n) ++
  write_bool (node_is_sequental n) ++ write_Stat (node_stat n).

Definition serializeAcls (acls : ACLMap) (path : string) (save_batch_size version : Z) : ST Files exn unit :=
  serialize_object SNAPSHOT_TYPE_ACLMAP save_batch_size version (acl_item <$> map_to_list (num_to_acl acls)) path.

Definition serializeSessions (store : KeeperStore) (save_batch_size version : Z) (path : string) : ST Files exn Z :=
  serialize_object SNAPSHOT_TYPE_SESSION save_batch_size version
    (session_item (session_and_auth store) <$> map_to_list (session_and_timeout store)) path;;
  mret (session_id_counter store).

Definition serializeMap (snap_map : gmap string Z) (save_batch_size version : Z) (path : string) : ST Files exn unit :=
  serialize_object SNAPSHOT_TYPE_UINTMAP save_batch_size version (map_item <$> map_to_list snap_map) path.

(** *** The data tree *)

Definition appendNodeToBatch (path : string) (n : KeeperNode) : OutM unit :=
  o ← get;
  match o_batch o with
  | None => crash
  | Some b => modify (set_batch (add_data (node_item path n) b))
  end.

(** A new object file when it is time for one. *)
Definition next_object (st : KeeperSnapshotStore) (version : Z) : OutM unit :=
  o ← get;
  new_object ← divides (max_object_node_size st) (o_processed o);
  if (new_object : bool) then
    let obj_id := o_processed o / max_object_node_size st in
    (if negb (obj_id =? 0) then
       save_and_check;;
       o ← get; writeTailAndClose (o_checksum o);;
       modify (set_checksum 0)
     else mret tt);;
    openFileAndWriteHeader (getObjectPath st (obj_id + 4)) version
  else mret tt.

(** A full batch is flushed. *)
Definition next_batch (st : KeeperSnapshotStore) : OutM unit :=
  o ← get;
  full ← divides (save_batch_size st) (o_processed o);
  if (full : bool) then
    if negb (o_processed o =? 0) then save_and_check
    else modify (λ o, set_batch (default new_batch (o_batch o)) o)
  else mret tt.

(** Depth first; a child whose node is gone is skipped. *)
Fixpoint serializeNode (fuel : nat) (st : KeeperSnapshotStore) (version : Z) (c : gmap string KeeperNode) (path : string)
    : OutM unit :=
  match fuel with
  | O => crash
  | S fuel =>
      match c !! path with
      | None => mret tt
      | Some node =>
          next_object st version;;
          next_batch st;;
          appendNodeToBatch path (KeeperNode_clone node);;
          modify (λ o, set_processed (o_processed o + 1) o);;
          let path_with_slash := (if bool_decide (path = "/") then path else path +:+ "/")%string in
          foldr (λ child rest, serializeNode fuel st version c (path_with_slash +:+ child)%string;; rest) (mret tt)
            (elements (node_children node))
      end
  end.

(** Every call is for a longer path than its caller's. *)
Definition tree_fuel (c : gmap string KeeperNode) : nat :=
  S (S (foldr Nat.max O ((λ x, String.length x.1) <$> map_to_list c))).

Definition serializeDataTree (st : KeeperSnapshotStore) (version : Z) (store : KeeperStore) : ST Files exn Z := λ fs,
  let '(o, r) :=
    (serializeNode (tree_fuel (container store)) st version (container store) "/";;
     save_and_check;;
     o ← get; writeTailAndClose (o_checksum o);;
     match o_path o with None => crash | Some p => lift (getObjectIdx p) end) (mkOut fs None None 0 0) in
  (o_files o, r).

(** *** createObjects *)

Definition add_paths (n : nat) (st : KeeperSnapshotStore) : KeeperSnapshotStore :=
  foldl (λ s i, addObjectPath (Z.of_nat i) (getObjectPath st (Z.of_nat i)) s) st (seq 1 n).

Definition createObjects (store : KeeperStore) (next_zxid next_session_id : Z) : SnapM Z :=
  '(st, _) ← get;
  if snp_size (snap_meta st) =? 0 then mret 0
  else
    let int_map : gmap string Z := <["SESSIONID" := next_session_id]> {["ZXID" := next_zxid]} in
    let version := CURRENT_SNAPSHOT_VERSION in
    on_files (serializeMap int_map (save_batch_size st) version (getObjectPath st 1));;
    on_files (serializeSessions store (save_batch_size st) version (getObjectPath st 2));;
    on_files (serializeAcls (acl_map store) (getObjectPath st 3) (save_batch_size st) version);;
    total_obj_count ← on_files (serializeDataTree st version store);
    upd_snap (add_paths (Z.to_nat total_obj_count));;
    mret total_obj_count.

(** [init]: the time of the file, or the present. *)
Definition snap_init (parseTime : string → Z) (now create_time : string) (st : KeeperSnapshotStore) : KeeperSnapshotStore :=
  let t := if bool_decide (create_time = "") then now else create_time in
  mkSnap (snap_meta st) (max_object_node_size st) (save_batch_size st) (objects_path st) t (parseTime t).
End writing.

(** ** Loading objects *)

(** A thread of the loader: what it does to the store it finds, and how it goes
    on from what it saw. *)
Inductive load (A : Type) : Type :=
  | LDone (o : outcome exn A)
  | LStep (f : KeeperStore → KeeperStore) (k : KeeperStore → load A).
Arguments LDone {A} o.
Arguments LStep {A} f k.

#[export] Instance load_ret : MRet load := λ A a, LDone (Ret a).
#[export] Instance load_bind : MBind load := λ A B f,
  fix go (m : load A) : load B :=
    match m with
    | LDone (Ret a) => f a
    | LDone (Throw e) => LDone (Throw e)
    | LDone Crash => LDone Crash
    | LStep f' k => LStep f' (λ s, go (k s))
    end.

(** One access to the store. *)
Definition access {A} (m : STS A) : load A := LStep (λ s, (m s).1) (λ s, LDone (m s).2).

Definition is_keeper_exception (e : exn) : bool := match e with KEEPER_EXCEPTION _ => true | _ => false end.

(** *** Items: [true] goes on with the next one, [false] leaves the batch *)

Section loading.
Context `{BatchCodec}.
(** [buffer::put] of a string into a buffer one byte longer. *)
Context (put_str : bytes → bytes).

(** Reading an item; an exception of the wire format leaves the batch. *)
Definition reading {A} (r : reader A) (b : bytes) (k : A → bytes → load bool) : load bool :=
  match r b with
  | (b', Ret a) => k a b'
  | (_, Throw e) => if is_keeper_exception e then mret false else LDone (Throw e)
  | (_, Crash) => LDone Crash
  end.

(** The number of the ACL of a node; a list in snapshots without numbers. *)
Definition reading_acl (version : Z) (b : bytes) (k : Z → bytes → load bool) : load bool :=
  if SNAPSHOT_V1 <=? version then reading (read_uint 8) b k
  else if version =? SNAPSHOT_V0 then
    reading (read_vec read_ACL) b (λ acls b,
      acl_id ← access (λ s, let '(m, id) := convertACLs acls (acl_map s) in (upd_acl (λ _, m) s, Ret id));
      k acl_id b)
  else k 0 b.

Definition load_node (version : Z) (data : bytes) : load bool :=
  reading read_string (put_str data) (λ key b,
  reading read_string b (λ d b,
  reading_acl version b (λ acl_id b,
    let acl_id := if acl_id =? 2 ^ 64 - 1 then 0 else acl_id in
    access (modify (upd_acl (addUsage acl_id 1)));;
    reading read_bool b (λ is_ephemeral b,
    reading read_bool b (λ is_sequental b,
    reading read_Stat b (λ stat b,
      access (modify (upd_container <[key := mkNode d acl_id is_ephemeral is_sequental stat ∅]>));;
      (if negb (ephemeralOwner stat =? 0)
       then access (modify (upd_ephemerals (set_emplace (ephemeralOwner stat) key))) else mret tt);;
      mret true)))))).

(** [clock] is the time when a session is added. *)
Definition load_session (clock : Z → Z) (version : Z) (data : bytes) : load bool :=
  reading read_i64 (put_str data) (λ session_id b,
  reading read_i64 b (λ timeout b,
  if SNAPSHOT_V1 <=? version then
    reading (read_vec read_AuthID) b (λ ids b,
      (if bool_decide (ids = []) then mret tt else access (modify (upd_auth <[session_id := ids]>)));;
      access (addSessionID (clock session_id) session_id timeout);;
      mret true)
  else
    access (addSessionID (clock session_id) session_id timeout);;
    mret true)).

(** No exception is caught here. *)
Definition load_acl (data : bytes) : load bool :=
  match (acl_id ← read_uint 8; acls ← read_vec read_ACL; mret (acl_id, acls)) (put_str data) with
  | (_, Ret (acl_id, acls)) => access (modify (upd_acl (addMapping acl_id acls)));; mret true
  | (_, Throw e) => LDone (Throw e)
  | (_, Crash) => LDone Crash
  end.

Fixpoint read_int_map (items : list bytes) (int_map : gmap string Z) : outcome exn (gmap string Z) :=
  match items with
  | [] => Ret int_map
  | item :: items =>
      match (key ← read_string; value ← read_i64; mret (key, value)) (put_str item) with
      | (_, Ret (key, value)) => read_int_map items (<[key := value]> int_map)
      | (_, Throw e) => if is_keeper_exception e then Ret int_map else Throw e
      | (_, Crash) => Crash
      end
  end.

Definition load_int_map (items : list bytes) : load unit :=
  int_map ← LDone (read_int_map items ∅);
  (match (int_map : gmap string Z) !! "ZXID" with Some z => access (modify (upd_zxid z)) | None => mret tt end);;
  (match int_map !! "SESSIONID" with Some z => access (modify (upd_counter (λ _, z))) | None => mret tt end).

Fixpoint load_items (f : bytes → load bool) (items : list bytes) : load unit :=
  match items with
  | [] => mret tt
  | item :: items => go_on ← f item; if (go_on : bool) then load_items f items else mret tt
  end.

Definition load_batch (clock : Z → Z) (version : Z) (b : SnapshotBatchPB) : load unit :=
  if batch_type b =? SNAPSHOT_TYPE_DATA then load_items (load_node version) (batch_data b)
  else if batch_type b =? SNAPSHOT_TYPE_SESSION then load_items (load_session clock version) (batch_data b)
  else if batch_type b =? SNAPSHOT_TYPE_ACLMAP then
    if SNAPSHOT_V1 <=? version then load_items load_acl (batch_data b) else mret tt
  else if batch_type b =? SNAPSHOT_TYPE_UINTMAP then load_int_map (batch_data b)
  else mret tt.

(** *** One object file *)

(** [fs->read] into a variable of [n] bytes that held [junk]: what is missing at
    the end of the file stays as it was. *)
Definition read_over (n : nat) (junk : Z) (b : bytes) : Z :=
  le_combine (take n b ++ drop (length (take n b)) (le_split n junk)).

(** [loadHeader]; the length and the checksum of the batch. *)
Definition load_batch_header (b : bytes) : option (Z * Z) :=
  if bool_decide (length b < 8)%nat then None
  else Some (le_combine (take 4 b), le_combine (take 4 (drop 4 b))).

(** A batch at the start of [rest], and the loop [go_on] behind it. *)
Definition with_batch (clock : Z → Z) (version : Z) (rest : bytes) (checksum : Z) (go_on : bytes → Z → load bool) : load bool :=
  match load_batch_header rest with
  | None => LDone (Throw CORRUPTED_DATA)
  | Some (data_length, data_crc) =>
      let checksum := updateCheckSum checksum data_crc in
      let body := drop 8 rest in
      if Z.of_nat (length body) <? data_length then mret false
      else
        let body_buf := take (Z.to_nat data_length) body in
        if negb (verifyCRC32 body_buf data_crc) then mret false
        else
          load_batch clock version (ParseFromString body_buf);;
          go_on (drop (Z.to_nat data_length) body) checksum
  end.

(** The loop over the batches, from the bytes that are left. [magic] and
    [file_checksum] are not initialized. *)
Fixpoint parse_batches (fuel : nat) (clock : Z → Z) (junk junk_checksum : Z) (rest : bytes) (version checksum : Z) : load bool :=
  match fuel with
  | O => LDone Crash
  | S fuel =>
      let next version rest :=
        with_batch clock version rest checksum (λ rest checksum, parse_batches fuel clock junk junk_checksum rest version checksum) in
      let magic := read_over 8 junk rest in
      if isFileHeader magic then
        next (match drop 8 rest with v :: _ => byte.unsigned v | [] => version end) (drop 9 rest)
      else if isFileTail magic then
        if read_over 4 junk_checksum (drop 8 rest) =? checksum then mret true else LDone (Throw CHECKSUM_DOESNT_MATCH)
      else next (if version =? SNAPSHOT_None then SNAPSHOT_V0 else version) rest
  end.

Definition parseOneObject (clock : Z → Z) (junk junk_checksum : Z) (obj_path : string) (fs : Files) : load bool :=
  match fs !! obj_path with
  | None => mret false
  | Some b => parse_batches (S (length b)) clock junk junk_checksum b SNAPSHOT_None 0
  end.

(** *** parseObject *)

(** Results are not looked at and exceptions are logged. *)
Fixpoint swallow {A} (m : load A) : load unit :=
  match m with
  | LDone (Ret _) => mret tt
  | LDone (Throw _) => mret tt
  | LDone Crash => LDone Crash
  | LStep f k => LStep f (λ s, swallow (k s))
  end.

Definition by_id (x y : Z * string) : Prop := x.1 <= y.1.
#[export] Instance by_id_dec x y : Decision (by_id x y).
Proof. unfold by_id. apply _. Defined.

(** The objects in the order of the map, with their position. *)
Definition objects_of (st : KeeperSnapshotStore) : list string := (merge_sort by_id (map_to_list (objects_path st))).*2.

Definition thread_load (clock : Z → Z) (junk junk_checksum : Z) (paths : list string) (fs : Files) (thread_idx : nat) : load unit :=
  foldr (λ '(obj_idx, path) rest,
    (if bool_decide (obj_idx `mod` SNAPSHOT_THREAD_NUM = thread_idx)%nat
     then swallow (parseOneObject clock junk junk_checksum path fs) else mret tt);; rest)
    (mret tt) (imap pair paths).

(** The scheduler names the thread of every access. *)
Fixpoint run_threads (schedule : list nat) (ts : list (load unit)) (s : KeeperStore) : list (load unit) * KeeperStore :=
  match schedule with
  | [] => (ts, s)
  | i :: schedule =>
      match ts !! i with
      | Some (LStep f k) => run_threads schedule (<[i := k s]> ts) (f s)
      | _ => run_threads schedule ts s
      end
  end.

(** What the pool waits for. *)
Definition completed (t : load unit) : bool := match t with LDone (Ret _) => true | _ => false end.

(** [None]: a thread has not ended, or cannot. The check of the version compares
    it with itself. *)
Definition parseObject (clock : Z → Z) (junk junk_checksum : Z) (schedule : list nat) (st : KeeperSnapshotStore) (fs : Files)
    (s : KeeperStore) : option (KeeperStore * outcome exn unit) :=
  let ts := thread_load clock junk junk_checksum (objects_of st) fs <$> seq 0 SNAPSHOT_THREAD_NUM in
  let '(ts, s) := run_threads schedule ts s in
  if forallb completed ts then Some (buildPathChildren false s) else None.
End loading.
