(* ===== verification/SnapshotManager.v ===== *)
(** * The snapshots of a server

    [KeeperSnapshotManager] of src/Service/NuRaftLogSnapshot.cpp: the snapshots
    by the index of their last log entry, their object files as they are sent to
    another server, and the directory at start. *)

From coqutil Require Import Word.LittleEndianList Byte.
From S2P Require Import Prelude Types ZkIO KeeperStore LogSegmentInv LogStore Snapshot.
From stdpp Require Import base gmap sets strings option sorting list.
From Stdlib Require Import ZArith Lia Ascii.
Open Scope Z_scope.

(** ** Objects as they are sent *)

Definition IO_BUFFER_SIZE : Z := 16384.

Definition existObject (obj_id : Z) (st : KeeperSnapshotStore) : bool := bool_decide (is_Some (objects_path st !! obj_id)).

(** The reads of [loadObject] and the writes of [saveObject], a piece of the
    buffer size at a time. *)
Fixpoint pieces (fuel : nat) (b : bytes) : list bytes :=
  match fuel with
  | O => []
  | S fuel =>
      if bool_decide (b = []) then []
      else take (Z.to_nat IO_BUFFER_SIZE) b :: pieces fuel (drop (Z.to_nat IO_BUFFER_SIZE) b)
  end.

(** [None]: the caller's buffer is left as it was. *)
Definition loadObject (obj_id : Z) (st : KeeperSnapshotStore) (fs : Files) : option bytes :=
  path ← objects_path st !! obj_id;
  content ← fs !! path;
  Some (concat (pieces (length content) content)).

(** The file is opened without truncation and written from its start. *)
Definition saveObject (obj_id : Z) (buffer : bytes) : SnapM unit :=
  '(st, fs) ← get;
  let path := getObjectPath st obj_id in
  let new := concat (pieces (length buffer) buffer) in
  let old := default [] (fs !! path) in
  on_files (modify <[path := new ++ drop (length new) old]>);;
  upd_snap (addObjectPath obj_id path).

(** ** The manager *)

Record KeeperSnapshotManager : Type := mkManager {
  keep_max_snapshot_count : Z;
  object_node_size : Z;
  snapshots : gmap Z KeeperSnapshotStore
}.
Definition upd_snapshots (f : gmap Z KeeperSnapshotStore → gmap Z KeeperSnapshotStore) (m : KeeperSnapshotManager)
    : KeeperSnapshotManager :=
  mkManager (keep_max_snapshot_count m) (object_node_size m) (f (snapshots m)).

Abbreviation MgrM := (ST (KeeperSnapshotManager * Files) exn).
Definition upd_mgr (f : KeeperSnapshotManager → KeeperSnapshotManager) : MgrM unit := modify (λ '(m, fs), (f m, fs)).

(** A call on the snapshot of an index; the map keeps a pointer to it. *)
Definition on_snapshot {A} (st : KeeperSnapshotStore) (k : SnapM A) : MgrM (KeeperSnapshotStore * A) := λ '(m, fs),
  match k (st, fs) with
  | ((st', fs'), Ret a) => ((m, fs'), Ret (st', a))
  | ((_, fs'), Throw e) => ((m, fs'), Throw e)
  | ((_, fs'), Crash) => ((m, fs'), Crash)
  end.

Definition set_size (n : Z) (meta : snapshot) : snapshot := mkSnapshot (last_log_idx meta) (last_log_term meta) n.

Section manager.
Context `{BatchCodec}.
Context (put_str : bytes → bytes) (parseTime : string → Z).
(** The names in the directory, in the order it is listed. *)
Context (list_dir : Files → list string).

(** The size is set on the caller's object. *)
Definition createSnapshot (now : string) (meta : snapshot) (storage : KeeperStore) (next_zxid next_session_id : Z)
    : MgrM (snapshot * Z) :=
  let meta := set_size (Z.of_nat (size (container storage) + size (ephemerals storage))) meta in
  '(m, _) ← get;
  let snap_store := snap_init parseTime now "" (KeeperSnapshotStore_new meta (object_node_size m)) in
  '(snap_store, obj_size) ← on_snapshot snap_store (createObjects storage next_zxid next_session_id);
  upd_mgr (upd_snapshots <[last_log_idx meta := snap_store]>);;
  mret (meta, obj_size).

Definition receiveSnapshot (now : string) (meta : snapshot) : MgrM bool :=
  '(m, _) ← get;
  upd_mgr (upd_snapshots <[last_log_idx meta := snap_init parseTime now "" (KeeperSnapshotStore_new meta (object_node_size m))]>);;
  mret true.

Definition existSnapshot (meta : snapshot) (m : KeeperSnapshotManager) : bool :=
  bool_decide (is_Some (snapshots m !! last_log_idx meta)).

Definition existSnapshotObject (meta : snapshot) (obj_id : Z) (m : KeeperSnapshotManager) : bool :=
  match snapshots m !! last_log_idx meta with
  | None => false
  | Some store => existObject obj_id store
  end.

(** The buffer of the caller, when it is filled. *)
Definition loadSnapshotObject (meta : snapshot) (obj_id : Z) (m : KeeperSnapshotManager) (fs : Files) : bool * option bytes :=
  match snapshots m !! last_log_idx meta with
  | None => (false, None)
  | Some store => (true, loadObject obj_id store fs)
  end.

Definition saveSnapshotObject (now : string) (meta : snapshot) (obj_id : Z) (buffer : bytes) : MgrM bool :=
  '(m, _) ← get;
  let store :=
    match snapshots m !! last_log_idx meta with
    | Some store => store
    | None => snap_init parseTime now "" (KeeperSnapshotStore_new (set_size 0 meta) MAX_OBJECT_NODE_SIZE)
    end in
  '(store, _) ← on_snapshot store (saveObject obj_id buffer);
  upd_mgr (upd_snapshots <[last_log_idx meta := store]>);;
  mret true.

(** [None]: the threads of the loader have not ended. *)
Definition parseSnapshot (clock : Z → Z) (junk junk_checksum : Z) (schedule : list nat) (meta : snapshot)
    (m : KeeperSnapshotManager) (fs : Files) (storage : KeeperStore) : option (KeeperStore * outcome exn bool) :=
  match snapshots m !! last_log_idx meta with
  | None => Some (storage, Ret false)
  | Some store =>
      match parseObject put_str clock junk junk_checksum schedule store fs storage with
      | None => None
      | Some (s, Ret _) => Some (s, Ret true)
      | Some (s, Throw e) => Some (s, Throw e)
      | Some (s, Crash) => Some (s, Crash)
      end
  end.

(** *** The directory at start *)

Fixpoint span_until (c : ascii) (s : string) : string * string :=
  match s with
  | EmptyString => ("", "")
  | String a r => if bool_decide (a = c) then ("", s) else let '(x, y) := span_until c r in (String a x, y)
  end.

(** [sscanf(file, "snapshot_%[^_]_%lu_%lu", ...)]: what does not match keeps the
    values of the file before. *)
Definition scan_snapshot (file : string) (old : string * Z * Z) : string * Z * Z :=
  let '(t0, i0, o0) := old in
  match scan_literal "snapshot_" file with
  | None => old
  | Some r =>
      let '(t, r) := span_until "_"%char r in
      if bool_decide (t = "") then old
      else
        match r ← scan_literal "_" r; scan_number r with
        | None => (t, i0, o0)
        | Some (i, r) =>
            match r ← scan_literal "_" r; scan_number r with
            | None => (t, i, o0)
            | Some (o, _) => (t, i, o)
            end
        end
  end.

(** The term is not in the name and is taken to be 1. *)
Fixpoint load_metas (files : list string) (vars : string * Z * Z) (m : KeeperSnapshotManager) : KeeperSnapshotManager :=
  match files with
  | [] => m
  | file :: files =>
      match String.index 0 "snapshot_" file with
      | None => load_metas files vars m
      | Some _ =>
          let '(time_str, log_last_index, object_id) := scan_snapshot file vars in
          let fresh := snap_init parseTime "" time_str (KeeperSnapshotStore_new (mkSnapshot log_last_index 1 0) (object_node_size m)) in
          let store := default fresh (snapshots m !! log_last_index) in
          load_metas files (time_str, log_last_index, object_id)
            (upd_snapshots <[log_last_index := addObjectPath object_id file store]> m)
      end
  end.

(** [junk] is what the variables held. *)
Definition loadSnapshotMetas (junk : string * Z * Z) : MgrM Z :=
  '(_, fs) ← get;
  upd_mgr (load_metas (list_dir fs) junk);;
  '(m, _) ← get;
  mret (Z.of_nat (size (snapshots m))).

(** *** The last and the first snapshot *)

Definition snapshot_indices (m : KeeperSnapshotManager) : list Z := merge_sort Z.le (map_to_list (snapshots m)).*1.

Definition lastSnapshot (m : KeeperSnapshotManager) : option snapshot :=
  k ← last (snapshot_indices m); st ← snapshots m !! k; Some (snap_meta st).

Definition getLastCreateTime (m : KeeperSnapshotManager) : Z :=
  default 0 (k ← last (snapshot_indices m); st ← snapshots m !! k; Some (curr_time_t st)).

(** The files of the oldest snapshot, in the order the directory lists them. *)
Fixpoint remove_files (remove_log_index : Z) (files : list string) (vars : string * Z * Z) : MgrM (string * Z * Z) :=
  match files with
  | [] => mret vars
  | file :: files =>
      match String.index 0 "snapshot_" file with
      | None => remove_files remove_log_index files vars
      | Some _ =>
          let vars := scan_snapshot file vars in
          (if vars.1.2 =? remove_log_index then
             modify (λ '(m, fs), (upd_snapshots (delete remove_log_index) m, delete file fs))
           else mret tt);;
          remove_files remove_log_index files vars
      end
  end.

Fixpoint remove_oldest (remove_count : nat) (vars : string * Z * Z) : MgrM unit :=
  match remove_count with
  | O => mret tt
  | S remove_count =>
      '(m, fs) ← get;
      match snapshot_indices m with
      | [] => crash
      | remove_log_index :: _ =>
          vars ← remove_files remove_log_index (list_dir fs) vars;
          remove_oldest remove_count vars
      end
  end.

Definition removeSnapshots (junk : string * Z * Z) : MgrM Z :=
  '(m, _) ← get;
  remove_oldest (Z.to_nat (Z.of_nat (size (snapshots m)) - keep_max_snapshot_count m)) junk;;
  '(m, _) ← get;
  mret (Z.of_nat (size (snapshots m))).
End manager.
