(* ===== verification/SnapshotWrite.v ===== *)
(** * What the snapshot files hold

    The bytes of an object file from its batches, and that the functions that
    write a snapshot produce exactly these files, the nodes of the tree each
    once and in the order of the traversal. *)

From coqutil Require Import Word.LittleEndianList Byte.
From S2P Require Import Prelude Types ZkIO ZkCodec ACLMap KeeperPaths KeeperNode KeeperStore StoreTree StoreInv Crc32 LogSegmentInv LogStore LogStoreReload FileLogStoreProps Snapshot.
From stdpp Require Import base gmap sets strings option pretty sorting list.
From Stdlib Require Import ZArith Lia Ascii.
Open Scope Z_scope.

Section write.
Context `{BatchCodec}.

(** ** Objects as bytes *)

Definition batch_bytes (b : SnapshotBatchPB) : bytes :=
  le_split 4 (Z.of_nat (length (SerializeToString b))) ++ le_split 4 (getCRC32 (SerializeToString b)) ++ SerializeToString b.

Definition checksum_of (bs : list SnapshotBatchPB) : Z :=
  foldl (λ c b, updateCheckSum c (getCRC32 (SerializeToString b))) 0 bs.

Definition open_bytes (bs : list SnapshotBatchPB) : bytes :=
  MAGIC_SNAPSHOT_HEAD ++ le_split 1 SNAPSHOT_V1 ++ mjoin (batch_bytes <$> bs).
Definition object_bytes (bs : list SnapshotBatchPB) : bytes :=
  open_bytes bs ++ MAGIC_SNAPSHOT_TAIL ++ le_split 4 (checksum_of bs).

(** Shorter than the number the magic words start with. *)
Definition short (b : SnapshotBatchPB) : Prop :=
  Z.of_nat (length (SerializeToString b)) < le_combine (take 4 MAGIC_SNAPSHOT_HEAD).

Lemma short_u32 b : short b → u32 (Z.of_nat (length (SerializeToString b))) = Z.of_nat (length (SerializeToString b)).
Proof. intros Hb. apply wrap_u_id. unfold short, in_u in *. vm_compute (le_combine _) in Hb. lia. Qed.

Lemma open_bytes_snoc bs b : open_bytes (bs ++ [b]) = open_bytes bs ++ batch_bytes b.
Proof.
  unfold open_bytes. rewrite fmap_app, join_app. cbn [fmap list_fmap mjoin list_join]. by rewrite app_nil_r, !(assoc_L (++)).
Qed.
Lemma checksum_snoc bs b : checksum_of (bs ++ [b]) = updateCheckSum (checksum_of bs) (getCRC32 (SerializeToString b)).
Proof. unfold checksum_of. by rewrite foldl_app. Qed.

(** ** Runs of the writer *)

(** The file being written, what it holds, the batches in it and the one being
    filled. *)
Definition writing (fs : Files) (path : string) (bs : list SnapshotBatchPB) (b : option SnapshotBatchPB) (n : Z) : Out :=
  mkOut (<[path := open_bytes bs]> fs) (Some path) b (checksum_of bs) n.

Lemma out_write_run x fs p c b k n :
  out_write x (mkOut (<[p := c]> fs) (Some p) b k n) = (mkOut (<[p := c ++ x]> fs) (Some p) b k n, Ret tt).
Proof.
  unfold out_write. rewrite get_run. cbn [o_path]. unfold modify, set_files. cbn.
  by rewrite lookup_insert_eq, insert_insert_eq.
Qed.

Lemma open_run path fs p b k n :
  openFileAndWriteHeader path SNAPSHOT_V1 (mkOut fs p b k n) = (mkOut (<[path := open_bytes []]> fs) (Some path) b k n, Ret tt).
Proof.
  unfold openFileAndWriteHeader. rewrite !modify_run. unfold set_files, set_path. cbn [o_files o_path o_batch o_checksum o_processed].
  rewrite (bind_Ret _ _ _ _ _ (out_write_run _ _ _ _ _ _ _)), out_write_run. unfold open_bytes. cbn [fmap list_fmap mjoin list_join].
  by rewrite app_nil_r.
Qed.

Lemma save_run fs path bs b n :
  short (default new_batch b) →
  save_and_check (writing fs path bs b n) = (writing fs path (bs ++ [default new_batch b]) (Some new_batch) n, Ret tt).
Proof.
  intros Hb. unfold writing. rewrite open_bytes_snoc, checksum_snoc. unfold batch_bytes.
  assert (saveBatch (mkOut (<[path := open_bytes bs]> fs) (Some path) b (checksum_of bs) n) =
    (mkOut (<[path := open_bytes bs ++ batch_bytes (default new_batch b)]> fs) (Some path) (Some (default new_batch b))
       (checksum_of bs) n, Ret (BATCH_HEADER_SIZE + Z.of_nat (length (SerializeToString (default new_batch b))),
       getCRC32 (SerializeToString (default new_batch b))))) as E.
  { unfold saveBatch. rewrite get_run, modify_run. cbn zeta. cbn [o_batch]. rewrite (short_u32 _ Hb). unfold set_batch.
    cbn [o_files o_path o_batch o_checksum o_processed]. rewrite !(bind_Ret _ _ _ _ _ (out_write_run _ _ _ _ _ _ _)).
    unfold batch_bytes. rewrite Nat2Z.id, take_ge, <-!(assoc_L (++)) by done. done. }
  unfold save_and_check, saveBatchAndUpdateCheckSum. rewrite get_run, bind_assoc, (bind_Ret _ _ _ _ _ E).
  cbv beta iota. rewrite bind_assoc, modify_run. done.
Qed.

Lemma divides_run n x o : 0 < n → divides n x o = (o, Ret (x mod n =? 0)).
Proof. intros Hn. unfold divides. by rewrite (proj2 (Z.eqb_neq _ _)) by lia. Qed.

(** ** Objects of one map *)

(** Batches of one type, or fresh ones, with at most [sbs] items. *)
Definition batch_ok (type sbs : Z) (b : SnapshotBatchPB) : Prop :=
  (batch_type b = type ∨ b = new_batch) ∧ Z.of_nat (length (batch_data b)) <= sbs.

Definition items_of (bs : list SnapshotBatchPB) : list bytes := mjoin (batch_data <$> bs).

Lemma items_of_app l1 l2 : items_of (l1 ++ l2) = items_of l1 ++ items_of l2.
Proof. unfold items_of. by rewrite fmap_app, join_app. Qed.
Lemma items_of_one b : items_of [b] = batch_data b.
Proof. unfold items_of. cbn. apply app_nil_r. Qed.

(** Every batch of a type that can be made of the items is short. *)
Definition all_short (type sbs : Z) (items : list bytes) : Prop :=
  ∀ b, batch_ok type sbs b → batch_data b ⊆ items → short b.

Section object.
Context (type sbs : Z) (all : list bytes) (Hsbs : 0 < sbs) (Hall : all_short type sbs all).

(** The batches so far and the one being filled hold the items so far. *)
Record filling (index : Z) (seen : list bytes) (bs : list SnapshotBatchPB) (b : option SnapshotBatchPB) : Prop := {
  fi_items : items_of bs ++ batch_data (default new_batch b) = seen;
  fi_bs : Forall (batch_ok type sbs) bs;
  fi_b : batch_ok type sbs (default new_batch b);
  fi_start : index = 0 ∧ b = None ∨
    ∃ q b', b = Some b' ∧ batch_type b' = type ∧ 0 < Z.of_nat (length (batch_data b')) ∧
      index = sbs * q + Z.of_nat (length (batch_data b')) ∧ 0 <= q
}.

Lemma filling_short index seen bs b : filling index seen bs b → seen ⊆ all → short (default new_batch b).
Proof. intros [Hi _ Hb _] Hs. apply Hall; [done|]. subst seen. set_solver. Qed.

Lemma full_batch q r : 0 <= q → 0 < r <= sbs → ((sbs * q + r) mod sbs =? 0) = (r =? sbs).
Proof.
  intros Hq Hr. rewrite Z.add_comm, Z.mul_comm, Z_mod_plus_full. destruct (decide (r = sbs)) as [->|].
  - by rewrite Z_mod_same_full, !Z.eqb_refl.
  - rewrite Z.mod_small by lia. rewrite !(proj2 (Z.eqb_neq _ _)) by lia. done.
Qed.

(** One turn of the loop, before the item is added. *)
Lemma save_turn fs path n index seen bs b :
  filling index seen bs b → seen ⊆ all →
  ∃ bs' b', ((full ← divides sbs index;
     (if (full : bool) then
        (if negb (index =? 0) then save_and_check else mret tt);;
        modify (set_batch (set_batch_type type new_batch))
      else mret tt)) : OutM unit) (writing fs path bs b n) = (writing fs path bs' (Some b') n, Ret tt) ∧
    items_of bs' ++ batch_data b' = seen ∧ Forall (batch_ok type sbs) bs' ∧ batch_type b' = type ∧
    Z.of_nat (length (batch_data b')) < sbs ∧ ∃ q, 0 <= q ∧ index = sbs * q + Z.of_nat (length (batch_data b')).
Proof.
  intros Hf Hs. pose proof (filling_short _ _ _ _ Hf Hs) as Hsh. destruct Hf as [Hi Hbs Hb Hst].
  rewrite (bind_Ret _ _ _ _ _ (divides_run sbs index _ Hsbs)).
  destruct Hst as [[-> ->]|(q & b' & -> & Ht & Hpos & Hidx & Hq)].
  - exists bs, (set_batch_type type new_batch). rewrite Z.mod_0_l by lia. cbn. split_and!; try done. exists 0. lia.
  - cbn [default id from_option] in Hi, Hb, Hsh. destruct Hb as [_ Hlen]. rewrite Hidx, full_batch by lia.
    destruct (Z.eqb_spec (Z.of_nat (length (batch_data b'))) sbs) as [E|E].
    + exists (bs ++ [b']), (set_batch_type type new_batch).
      rewrite (proj2 (Z.eqb_neq _ _)) by nia. cbn [negb]. rewrite (bind_Ret _ _ _ _ _ (save_run _ _ _ (Some b') _ Hsh)).
      split_and!; try done.
      * rewrite items_of_app, items_of_one. cbn [batch_data set_batch_type new_batch]. by rewrite app_nil_r.
      * apply Forall_app. split; [done|]. constructor; [|done]. split; [by left|lia].
      * exists (q + 1). cbn. nia.
    + exists bs, b'. split_and!; try done; [lia|]. by exists q.
Qed.

Lemma save_items_run fs path n items : ∀ index seen bs b,
  filling index seen bs b → seen ++ items ⊆ all →
  ∃ bs' b', save_items type sbs items index (writing fs path bs b n) = (writing fs path bs' b' n, Ret tt) ∧
    filling (index + Z.of_nat (length items)) (seen ++ items) bs' b'.
Proof.
  induction items as [|item items IH]; intros index seen bs b Hf Hs.
  { exists bs, b. rewrite app_nil_r, Z.add_0_r. done. }
  destruct (save_turn fs path n index seen bs b Hf ltac:(set_solver)) as (bs1 & b1 & E & Hi & Hbs & Ht & Hlen & q & Hq & Hidx).
  destruct (IH (index + 1) (seen ++ [item]) bs1 (Some (add_data item b1))) as (bs2 & b2 & E2 & Hf2).
  - split; cbn [default from_option id add_data batch_data batch_type].
    + rewrite <-Hi. by rewrite (assoc_L (++)).
    + done.
    + split; [by left|]. cbn [add_data batch_data]. rewrite length_app. cbn. lia.
    + right. exists q, (add_data item b1). cbn [add_data batch_data batch_type]. rewrite length_app. cbn [length]. split_and!; try done; lia.
  - set_solver.
  - exists bs2, b2. cbn [save_items length]. rewrite <-bind_assoc, (bind_Ret _ _ _ _ _ E), get_run. cbn [writing o_batch].
    rewrite modify_run. rewrite <-(assoc_L (++)) in Hf2. replace (index + Z.of_nat (S (length items))) with (index + 1 + Z.of_nat (length items)) by lia.
    split; [exact E2|exact Hf2].
Qed.

Lemma serialize_object_run fs path :
  ∃ bs, serialize_object type sbs SNAPSHOT_V1 all path fs = (<[path := object_bytes bs]> fs, Ret tt) ∧
    items_of bs = all ∧ Forall (batch_ok type sbs) bs ∧ Forall short bs ∧ bs ≠ [].
Proof.
  assert (filling 0 [] [] None) as H0 by (split; try done; [|by left]; split; [by right|cbn; lia]).
  destruct (save_items_run fs path 0 all 0 [] [] None H0 ltac:(set_solver)) as (bs & b & E & Hf).
  exists (bs ++ [default new_batch b]). pose proof (filling_short _ _ _ _ Hf ltac:(set_solver)) as Hsh. destruct Hf as [Hi Hbs Hb _]. cbn [app] in Hi.
  split_and!.
  - unfold serialize_object. rewrite (bind_Ret _ _ _ _ _ (open_run path fs None None 0 0)).
    change (mkOut (<[path := open_bytes []]> fs) (Some path) None 0 0) with (writing fs path [] None 0).
    rewrite (bind_Ret _ _ _ _ _ E), (bind_Ret _ _ _ _ _ (save_run _ _ _ _ _ Hsh)), get_run. unfold writeTailAndClose, writing.
    rewrite (bind_Ret _ _ _ _ _ (out_write_run _ _ _ _ _ _ _)), out_write_run. cbn [o_files o_checksum]. unfold object_bytes. by rewrite (assoc_L (++)).
  - by rewrite items_of_app, items_of_one.
  - apply Forall_app. split; [done|]. by constructor.
  - apply Forall_app. split; [|by constructor]. rewrite Forall_forall in Hbs |- *. intros x Hx. apply Hall; [by apply Hbs|].
    rewrite <-Hi. unfold items_of. apply list_elem_of_lookup in Hx as [i Hx].
    intros y Hy. apply elem_of_app. left. apply list_elem_of_join. exists (batch_data x). split; [done|].
    apply list_elem_of_fmap. exists x. split; [done|]. by eapply list_elem_of_lookup_2.
  - by destruct bs.
Qed.
End object.

(** ** The data tree *)

(** The nodes in the order of the traversal. *)
Fixpoint dfs (fuel : nat) (c : gmap string KeeperNode) (path : string) : list (string * KeeperNode) :=
  match fuel with
  | O => []
  | S fuel =>
      match c !! path with
      | None => []
      | Some n => (path, n) :: (elements (node_children n) ≫= λ child, dfs fuel c (joinPath path child))
      end
  end.

Definition emit (st : KeeperSnapshotStore) (x : string * KeeperNode) : OutM unit :=
  next_object st SNAPSHOT_V1;;
  next_batch st;;
  appendNodeToBatch x.1 (KeeperNode_clone x.2);;
  modify (λ o, set_processed (o_processed o + 1) o).

Fixpoint emit_all (st : KeeperSnapshotStore) (l : list (string * KeeperNode)) : OutM unit :=
  match l with
  | [] => mret tt
  | x :: l => emit st x;; emit_all st l
  end.

Lemma bind_ext {S E A B} (m : ST S E A) (f g : A → ST S E B) s : (∀ a s, f a s = g a s) → (m ≫= f) s = (m ≫= g) s.
Proof. intros Hfg. unfold mbind, ST_bind. by destruct (m s) as [s' [a|e|]]. Qed.

Lemma mret_run {S E A B} (a : A) (f : A → ST S E B) s : ((mret a : ST S E A) ≫= f) s = f a s.
Proof. done. Qed.

Lemma bind_left {S E A B} (m1 m2 : ST S E A) (f : A → ST S E B) s : m1 s = m2 s → (m1 ≫= f) s = (m2 ≫= f) s.
Proof. intros Hm. unfold mbind, ST_bind. by rewrite Hm. Qed.

Lemma emit_all_app st l1 l2 o : emit_all st (l1 ++ l2) o = (emit_all st l1;; emit_all st l2) o.
Proof.
  revert o. induction l1 as [|x l1 IH]; intros o; cbn [app emit_all]; [done|]. rewrite bind_assoc. apply bind_ext. intros _ o'. apply IH.
Qed.

Section tree.
Context (st : KeeperSnapshotStore) (c : gmap string KeeperNode) (e : Ephemerals) (Hwf : tree_wf c e).

Lemma joinPath_slash path child : ((if bool_decide (path = "/") then path else path +:+ "/") +:+ child)%string = joinPath path child.
Proof.
  unfold joinPath. case_bool_decide; [subst; by rewrite decide_True|]. rewrite decide_False by done. by rewrite <-string_app_assoc.
Qed.

Lemma length_joinPath path child : child ≠ "" → (String.length path < String.length (joinPath path child))%nat.
Proof.
  intros Hc. unfold joinPath. case_decide as E; [subst; destruct child; [done|cbn; lia]|].
  rewrite length_string_app. cbn. lia.
Qed.

(** With fuel for every path as long as one of the tree. *)
Lemma serializeNode_emits L fuel path o :
  (∀ p n, c !! p = Some n → (String.length p <= L)%nat) → (1 <= fuel)%nat → (L + 1 < fuel + String.length path)%nat →
  serializeNode fuel st SNAPSHOT_V1 c path o = emit_all st (dfs fuel c path) o.
Proof.
  intros HL. revert path o. induction fuel as [|fuel IH]; intros path o H1 Hf; [lia|]. cbn [serializeNode dfs].
  destruct (c !! path) as [n|] eqn:Hn; [|done]. cbn [emit_all]. unfold emit. rewrite !bind_assoc.
  apply bind_ext. intros _ o1. rewrite bind_assoc. apply bind_ext. intros _ o2. rewrite bind_assoc. apply bind_ext. intros _ o3.
  apply bind_ext. intros _ o4. cbn [fst snd]. clear o o1 o2 o3.
  assert (∀ b, b ∈ elements (node_children n) → b ≠ "") as Hne.
  { intros b Hb%elem_of_elements. by destruct (wf_child _ _ Hwf _ _ _ Hn Hb) as (_ & ? & _). }
  pose proof (HL _ _ Hn) as HLp. revert o4 Hne. induction (elements (node_children n)) as [|b l IHl]; intros o Hne; [done|].
  cbn [foldr mbind list_bind]. rewrite emit_all_app, joinPath_slash.
  pose proof (length_joinPath path b (Hne b ltac:(set_solver))).
  rewrite (bind_left _ (emit_all st (dfs fuel c (joinPath path b)))) by (apply IH; lia).
  apply bind_ext. intros _ o'. apply IHl. set_solver.
Qed.

(** *** Each node once *)

Inductive below (p : string) : string → Prop :=
  | below_refl : below p p
  | below_child q : q ≠ "/" → below p (parentPath q) → below p q.

Lemma below_up p q n : below p q → c !! q = Some n → ∃ m, c !! p = Some m.
Proof.
  intros Hb. revert n. induction Hb as [|q Hq Hb IH]; intros n Hn; [eauto|].
  destruct (wf_parent _ _ Hwf _ _ Hn Hq) as (pn & Hpn & _). eauto.
Qed.

Lemma parent_shorter q n : c !! q = Some n → q ≠ "/" → (String.length (parentPath q) < String.length q)%nat.
Proof.
  intros Hn Hq. destruct (wf_parent _ _ Hwf _ _ Hn Hq) as (_ & _ & _ & Hb).
  rewrite <-(joinPath_split q) at 2 by (by eapply wf_valid). by apply length_joinPath.
Qed.

Lemma below_shorter p q n : below p q → c !! q = Some n → (String.length p <= String.length q)%nat.
Proof.
  intros Hb. revert n. induction Hb as [|q Hq Hb IH]; intros n Hn; [done|].
  pose proof (parent_shorter _ _ Hn Hq). destruct (wf_parent _ _ Hwf _ _ Hn Hq) as (pn & Hpn & _). specialize (IH _ Hpn). lia.
Qed.

Lemma below_trans p q r : below p q → below q r → below p r.
Proof. intros H1 H2. induction H2; [done|]. by apply below_child. Qed.

Lemma below_chain m1 m2 q : below m1 q → below m2 q → below m1 m2 ∨ below m2 m1.
Proof.
  intros H1. revert m2. induction H1 as [|q Hq Hb IH]; intros m2 H2; [by right|].
  inversion H2 as [|? ? H3]; subst; [left; by apply below_child|]. by apply IH.
Qed.

(** The first step down. *)
Lemma below_first p q : below p q → q = p ∨ ∃ m, m ≠ "/" ∧ parentPath m = p ∧ below m q.
Proof.
  induction 1 as [|q Hq Hb IH]; [by left|]. right. destruct IH as [E|(m & ? & ? & ?)].
  - exists q. split_and!; [done|done|apply below_refl].
  - exists m. split_and!; [done|done|by apply below_child].
Qed.

Lemma child_not_above m n : c !! m = Some n → m ≠ "/" → ¬ below m (parentPath m).
Proof.
  intros Hn Hm Hb. pose proof (parent_shorter _ _ Hn Hm). destruct (wf_parent _ _ Hwf _ _ Hn Hm) as (pn & Hpn & _).
  pose proof (below_shorter _ _ _ Hb Hpn). lia.
Qed.

Lemma siblings_apart m1 m2 q n :
  c !! q = Some n → m1 ≠ "/" → m2 ≠ "/" → parentPath m1 = parentPath m2 → below m1 q → below m2 q → m1 = m2.
Proof.
  intros Hn N1 N2 P B1 B2. destruct (below_up _ _ _ B1 Hn) as [n1 Hn1], (below_up _ _ _ B2 Hn) as [n2 Hn2].
  destruct (below_chain _ _ _ B1 B2) as [B|B]; inversion B as [|? ? B']; subst; try done.
  - rewrite <-P in B'. by destruct (child_not_above _ _ Hn1 N1).
  - rewrite P in B'. by destruct (child_not_above _ _ Hn2 N2).
Qed.

(** The children of a node, as paths. *)
Lemma child_path p n b : c !! p = Some n → b ∈ node_children n →
  joinPath p b ≠ "/" ∧ parentPath (joinPath p b) = p ∧ b ≠ "" ∧ ∃ m, c !! joinPath p b = Some m.
Proof.
  intros Hn Hb. destruct (wf_child _ _ Hwf _ _ _ Hn Hb) as (Hs & Hne & [m Hm]). pose proof (wf_valid _ _ Hwf _ _ Hn) as Hv.
  split_and!; [|by apply parentPath_join, Hs; apply valid_path_nonempty|done|by exists m].
  intros E. pose proof (length_joinPath p b Hne) as HL. rewrite E in HL. destruct p; [done|cbn in HL; lia].
Qed.

Section fuel.
Context (L : nat) (HL : ∀ p n, c !! p = Some n → (String.length p <= L)%nat).

Lemma dfs_elem fuel p q n : (L + 1 < fuel + String.length p)%nat →
  (q, n) ∈ dfs fuel c p ↔ c !! q = Some n ∧ below p q ∧ is_Some (c !! p).
Proof.
  revert p. induction fuel as [|fuel IH]; intros p Hf; cbn [dfs].
  { split; [by intros ?%elem_of_nil|]. intros (_ & _ & [m Hm]). apply HL in Hm. lia. }
  destruct (c !! p) as [m|] eqn:Hm; [|split; [by intros ?%elem_of_nil|by intros (_ & _ & [? ?])]].
  rewrite elem_of_cons, list_elem_of_bind. split.
  - intros [[= -> ->]|(b & Hq & Hb%elem_of_elements)]; [split_and!; [done|apply below_refl|done]|].
    destruct (child_path _ _ _ Hm Hb) as (Hne & Hpar & Hbne & _). pose proof (length_joinPath p b Hbne).
    apply IH in Hq as (Hq & Hbel & _); [|lia]. split_and!; [done| |done]. apply (below_trans _ (joinPath p b)); [|done].
    apply below_child; [done|]. rewrite Hpar. apply below_refl.
  - intros (Hq & Hb & _). destruct (below_first _ _ Hb) as [->|(k & Hk & Hpar & Hb')]; [left; congruence|right].
    destruct (below_up _ _ _ Hb' Hq) as [kn Hkn]. destruct (wf_parent _ _ Hwf _ _ Hkn Hk) as (pn & Hpn & Hin & Hbne).
    rewrite Hpar, Hm in Hpn. injection Hpn as <-. exists (getBaseName k). rewrite elem_of_elements. split; [|done].
    pose proof (length_joinPath p (getBaseName k) Hbne).
    assert (joinPath p (getBaseName k) = k) as E by (rewrite <-Hpar; by eapply joinPath_split, wf_valid).
    rewrite E in *. apply IH; [lia|]. by split_and!.
Qed.

Lemma dfs_NoDup fuel p : (L + 1 < fuel + String.length p)%nat → NoDup (dfs fuel c p).
Proof.
  revert p. induction fuel as [|fuel IH]; intros p Hf; cbn [dfs]; [constructor|].
  destruct (c !! p) as [m|] eqn:Hm; [|constructor].
  assert (∀ b, b ∈ elements (node_children m) → b ≠ "") as Hne by (intros b Hb%elem_of_elements; by apply (child_path _ _ _ Hm Hb)).
  assert (∀ b, b ∈ elements (node_children m) → (L + 1 < fuel + String.length (joinPath p b))%nat) as Hfuel.
  { intros b Hb%Hne. pose proof (length_joinPath p b Hb). lia. }
  constructor.
  - intros (b & Hq & Hb)%list_elem_of_bind. apply dfs_elem in Hq as (_ & Hbel & _); [|by apply Hfuel].
    apply elem_of_elements in Hb. destruct (child_path _ _ _ Hm Hb) as (? & Hpar & _ & [k Hk]).
    rewrite <-Hpar in Hbel at 2. by destruct (child_not_above _ _ Hk).
  - apply NoDup_bind; [|intros b Hb; by apply IH, Hfuel|apply NoDup_elements].
    intros b1 b2 [q n] H1 H2 Hq1 Hq2. apply dfs_elem in Hq1 as (Hq & B1 & _); [|by apply Hfuel].
    apply dfs_elem in Hq2 as (_ & B2 & _); [|by apply Hfuel]. apply elem_of_elements in H1, H2.
    destruct (child_path _ _ _ Hm H1) as (N1 & P1 & _ & _), (child_path _ _ _ Hm H2) as (N2 & P2 & _ & _).
    assert (joinPath p b1 = joinPath p b2) as E by (apply (siblings_apart _ _ q n); congruence).
    destruct (wf_child _ _ Hwf _ _ _ Hm H1) as (S1 & _), (wf_child _ _ Hwf _ _ _ Hm H2) as (S2 & _).
    rewrite <-(getBaseName_join p b1 S1), <-(getBaseName_join p b2 S2). by rewrite E.
Qed.
End fuel.

Lemma all_below_root q n : c !! q = Some n → below "/" q.
Proof.
  remember (String.length q) as k eqn:Ek. revert q n Ek. induction k as [k IH] using lt_wf_ind. intros q n -> Hq.
  destruct (decide (q = "/")) as [->|Hne]; [apply below_refl|]. apply below_child; [done|].
  destruct (wf_parent _ _ Hwf _ _ Hq Hne) as (pn & Hpn & _). eapply IH; [by eapply parent_shorter|done|done].
Qed.

Lemma tree_fuel_enough p n : c !! p = Some n → (String.length p + 2 <= tree_fuel c)%nat.
Proof.
  intros Hp%elem_of_map_to_list. unfold tree_fuel. induction (map_to_list c) as [|x l IH]; [by apply elem_of_nil in Hp|].
  cbn. apply elem_of_cons in Hp as [<-|Hp]; [cbn; lia|]. apply IH in Hp. lia.
Qed.

(** The traversal meets every node once. *)
Lemma dfs_all : dfs (tree_fuel c) c "/" ≡ₚ map_to_list c.
Proof.
  set (L := (tree_fuel c - 2)%nat). destruct (wf_root _ _ Hwf) as (r & Hr & _).
  assert (∀ p n, c !! p = Some n → (String.length p <= L)%nat) as HL by (intros p n Hp%tree_fuel_enough; lia).
  assert (L + 1 < tree_fuel c + String.length "/")%nat as Hf by (unfold L, tree_fuel; cbn; lia).
  apply NoDup_Permutation; [by apply (dfs_NoDup L)|apply NoDup_map_to_list|].
  intros [q n]. rewrite (dfs_elem L), elem_of_map_to_list by done. split; [by intros [? _]|].
  intros Hq. split_and!; [done|by eapply all_below_root|by exists r].
Qed.

Lemma serializeNode_all o :
  serializeNode (tree_fuel c) st SNAPSHOT_V1 c "/" o = emit_all st (dfs (tree_fuel c) c "/") o.
Proof.
  apply (serializeNode_emits (tree_fuel c - 2)); [|unfold tree_fuel; lia|unfold tree_fuel; cbn; lia].
  intros p n Hp%tree_fuel_enough. lia.
Qed.
End tree.

(** ** The objects of the data tree *)

Section objects.
Context (st : KeeperSnapshotStore) (all : list bytes) (fs : Files).
Context (Hmax : 0 < max_object_node_size st) (Hsbs : 0 < save_batch_size st) (Hall : all_short SNAPSHOT_TYPE_DATA (save_batch_size st) all).

(** Object files from number [id] on. *)
Fixpoint close_objects (id : Z) (objs : list (list SnapshotBatchPB)) (fs : Files) : Files :=
  match objs with
  | [] => fs
  | bs :: objs => close_objects (id + 1) objs (<[getObjectPath st id := object_bytes bs]> fs)
  end.

Lemma close_objects_snoc id objs bs f :
  close_objects id (objs ++ [bs]) f = <[getObjectPath st (id + Z.of_nat (length objs)) := object_bytes bs]> (close_objects id objs f).
Proof.
  revert id f. induction objs as [|x objs IH]; intros id f; cbn [app close_objects length]; [by rewrite Z.add_0_r|].
  rewrite IH. by replace (id + 1 + Z.of_nat (length objs)) with (id + Z.of_nat (S (length objs))) by lia.
Qed.

(** [n] nodes were written: closed objects, the batches of the open one and the
    batch being filled. *)
Definition tree_out (objs : list (list SnapshotBatchPB)) (cur : list SnapshotBatchPB) (b : SnapshotBatchPB) (n : Z) : Out :=
  writing (close_objects 4 objs fs) (getObjectPath st (4 + Z.of_nat (length objs))) cur (Some b) n.

Record tree_filling (seen : list bytes) (objs : list (list SnapshotBatchPB)) (cur : list SnapshotBatchPB) (b : SnapshotBatchPB)
    (n : Z) : Prop := {
  tf_items : items_of (mjoin objs ++ cur) ++ batch_data b = seen;
  tf_count : n = Z.of_nat (length seen);
  tf_objs : Z.of_nat (length objs) = (n - 1) / max_object_node_size st;
  tf_ok : Forall (λ x, batch_ok SNAPSHOT_TYPE_DATA (save_batch_size st) x ∧ short x) (mjoin objs ++ cur);
  tf_some : Forall (λ o, o ≠ []) objs;
  tf_type : batch_type b = SNAPSHOT_TYPE_DATA;
  tf_len : 0 < Z.of_nat (length (batch_data b)) <= (n - 1) mod save_batch_size st + 1
}.

Lemma div_pred n m : 0 < m → 0 < n → n / m = (n - 1) / m + (if n mod m =? 0 then 1 else 0).
Proof.
  intros Hm Hn. pose proof (Z.div_mod n m ltac:(lia)). pose proof (Z.mod_pos_bound n m Hm).
  destruct (Z.eqb_spec (n mod m) 0) as [E|E].
  - rewrite <-(Z.div_unique_pos (n - 1) m (n / m - 1) (m - 1)); nia.
  - rewrite <-(Z.div_unique_pos (n - 1) m (n / m) (n mod m - 1)); nia.
Qed.

Lemma mod_pred n m : 0 < m → 0 < n → n mod m ≠ 0 → (n - 1) mod m + 1 = n mod m.
Proof.
  intros Hm Hn E. pose proof (Z.div_mod n m ltac:(lia)). pose proof (Z.mod_pos_bound n m Hm).
  rewrite <-(Z.mod_unique_pos (n - 1) m (n / m) (n mod m - 1)); nia.
Qed.

(** What the two guards leave: a batch with room. *)
Record tree_ready (seen : list bytes) (objs : list (list SnapshotBatchPB)) (cur : list SnapshotBatchPB) (b : SnapshotBatchPB)
    (n : Z) : Prop := {
  tr_items : items_of (mjoin objs ++ cur) ++ batch_data b = seen;
  tr_objs : Z.of_nat (length objs) = n / max_object_node_size st;
  tr_ok : Forall (λ x, batch_ok SNAPSHOT_TYPE_DATA (save_batch_size st) x ∧ short x) (mjoin objs ++ cur);
  tr_some : Forall (λ o, o ≠ []) objs;
  tr_type : batch_type b = SNAPSHOT_TYPE_DATA;
  tr_len : Z.of_nat (length (batch_data b)) <= n mod save_batch_size st
}.

(** A batch that was being filled can be written. *)
Lemma filled_ok seen objs cur b :
  items_of (mjoin objs ++ cur) ++ batch_data b = seen → seen ⊆ all → batch_type b = SNAPSHOT_TYPE_DATA →
  Z.of_nat (length (batch_data b)) <= save_batch_size st →
  Forall (λ x, batch_ok SNAPSHOT_TYPE_DATA (save_batch_size st) x ∧ short x) (mjoin objs ++ cur) →
  short b ∧ Forall (λ x, batch_ok SNAPSHOT_TYPE_DATA (save_batch_size st) x ∧ short x) (mjoin objs ++ cur ++ [b]) ∧
  items_of (mjoin objs ++ cur ++ [b]) = seen.
Proof.
  intros Hi Hs Ht Hl Hok. assert (short b) as Hb by (apply Hall; [by split; [left|]|set_solver]). rewrite (assoc_L (++)). split_and!; [done| |].
  - apply Forall_app. split; [done|]. constructor; [|done]. split; [|done]. split; [by left|done].
  - by rewrite items_of_app, items_of_one.
Qed.

Lemma next_object_run seen objs cur b n :
  tree_filling seen objs cur b n → seen ⊆ all →
  ∃ objs' cur' b', next_object st SNAPSHOT_V1 (tree_out objs cur b n) = (tree_out objs' cur' b' n, Ret tt) ∧
    items_of (mjoin objs' ++ cur') ++ batch_data b' = seen ∧ Z.of_nat (length objs') = n / max_object_node_size st ∧
    Forall (λ x, batch_ok SNAPSHOT_TYPE_DATA (save_batch_size st) x ∧ short x) (mjoin objs' ++ cur') ∧ Forall (λ o, o ≠ []) objs' ∧
    batch_type b' = SNAPSHOT_TYPE_DATA ∧ Z.of_nat (length (batch_data b')) <= (n - 1) mod save_batch_size st + 1.
Proof.
  intros [Hi Hn Ho Hok Hsome Ht Hl] Hs. assert (0 < n) as Hpos.
  { subst n. rewrite <-Hi, length_app. lia. }
  pose proof (Z.mod_pos_bound (n - 1) _ Hsbs).
  destruct (filled_ok _ _ _ _ Hi Hs Ht ltac:(lia) Hok) as (Hb & Hok' & Hi').
  unfold next_object. rewrite get_run, (bind_Ret _ _ _ _ _ (divides_run _ _ _ Hmax)). cbn [tree_out writing o_processed].
  pose proof (div_pred n _ Hmax Hpos) as Hdiv. destruct (Z.eqb_spec (n mod max_object_node_size st) 0) as [E|E].
  - exists (objs ++ [cur ++ [b]]), [], new_batch. split_and!.
    + assert (n / max_object_node_size st ≠ 0) as Hne by lia. rewrite (proj2 (Z.eqb_neq _ _) Hne). cbn [negb]. unfold tree_out.
      rewrite bind_assoc, (bind_Ret _ _ _ _ _ (save_run _ _ _ (Some b) _ Hb)), bind_assoc, get_run. unfold writeTailAndClose, writing.
      cbn [o_checksum default from_option id]. rewrite !bind_assoc, (bind_Ret _ _ _ _ _ (out_write_run _ _ _ _ _ _ _)).
      rewrite (bind_Ret _ _ _ _ _ (out_write_run _ _ _ _ _ _ _)), modify_run. unfold set_checksum.
      cbn [o_files o_path o_batch o_checksum o_processed]. rewrite open_run, close_objects_snoc, length_app. cbn [length].
      replace (n / max_object_node_size st + 4) with (4 + Z.of_nat (length objs + 1)) by lia. unfold object_bytes. by rewrite (assoc_L (++)).
    + rewrite join_app. cbn [mjoin list_join batch_data new_batch]. by rewrite !app_nil_r.
    + rewrite length_app. cbn [length]. lia.
    + rewrite join_app. cbn [mjoin list_join]. by rewrite !app_nil_r.
    + apply Forall_app. split; [done|]. constructor; [by destruct cur|done].
    + done.
    + cbn. lia.
  - exists objs, cur, b. split_and!; try done; lia.
Qed.

Lemma next_batch_run seen objs cur b n :
  0 < n → items_of (mjoin objs ++ cur) ++ batch_data b = seen → Z.of_nat (length objs) = n / max_object_node_size st →
  Forall (λ x, batch_ok SNAPSHOT_TYPE_DATA (save_batch_size st) x ∧ short x) (mjoin objs ++ cur) → Forall (λ o, o ≠ []) objs →
  batch_type b = SNAPSHOT_TYPE_DATA → Z.of_nat (length (batch_data b)) <= (n - 1) mod save_batch_size st + 1 → seen ⊆ all →
  ∃ cur' b', next_batch st (tree_out objs cur b n) = (tree_out objs cur' b' n, Ret tt) ∧ tree_ready seen objs cur' b' n.
Proof.
  intros Hpos Hi Ho Hok Hsome Ht Hl Hs. pose proof (Z.mod_pos_bound (n - 1) _ Hsbs).
  destruct (filled_ok _ _ _ _ Hi Hs Ht ltac:(lia) Hok) as (Hb & Hok' & Hi').
  unfold next_batch. rewrite get_run, (bind_Ret _ _ _ _ _ (divides_run _ _ _ Hsbs)). cbn [tree_out writing o_processed].
  destruct (Z.eqb_spec (n mod save_batch_size st) 0) as [E|E].
  - exists (cur ++ [b]), new_batch. rewrite (proj2 (Z.eqb_neq _ _)) by lia. cbn [negb]. split; [by apply (save_run _ _ _ (Some b))|].
    split; [|done|done|done|done|cbn; lia]. cbn [batch_data new_batch]. by rewrite app_nil_r.
  - exists cur, b. split; [done|]. split; try done. pose proof (mod_pred n _ Hsbs Hpos E). lia.
Qed.

(** A node more. *)
Definition add_node (x : string * KeeperNode) (b : SnapshotBatchPB) : SnapshotBatchPB := add_data (node_item x.1 x.2) b.

Lemma append_ready seen objs cur b n x :
  tree_ready seen objs cur b n → n = Z.of_nat (length seen) →
  tree_filling (seen ++ [node_item x.1 x.2]) objs cur (add_node x b) (n + 1).
Proof.
  intros [Hi Ho Hok Hsome Ht Hl] Hn. pose proof (Z.mod_pos_bound n _ Hsbs). split; try done.
  - cbn [add_node add_data batch_data]. by rewrite (assoc_L (++)), Hi.
  - rewrite length_app. cbn [length]. lia.
  - rewrite Ho. f_equal. lia.
  - cbn [add_node add_data batch_data]. rewrite length_app. cbn [length]. replace (n + 1 - 1) with n by lia. lia.
Qed.

Lemma append_run x objs cur b n :
  (appendNodeToBatch x.1 (KeeperNode_clone x.2);; modify (λ o, set_processed (o_processed o + 1) o)) (tree_out objs cur b n)
  = (tree_out objs cur (add_node x b) (n + 1), Ret tt).
Proof.
  unfold appendNodeToBatch. rewrite bind_assoc, get_run. cbn [tree_out writing o_batch]. rewrite modify_run. reflexivity.
Qed.

Lemma emit_next seen objs cur b n x :
  tree_filling seen objs cur b n → seen ⊆ all →
  ∃ objs' cur' b', emit st x (tree_out objs cur b n) = (tree_out objs' cur' b' (n + 1), Ret tt) ∧
    tree_filling (seen ++ [node_item x.1 x.2]) objs' cur' b' (n + 1).
Proof.
  intros Hf Hs. pose proof (tf_count _ _ _ _ _ Hf) as Hn. pose proof (tf_len _ _ _ _ _ Hf) as Hl. pose proof (tf_items _ _ _ _ _ Hf) as Hi.
  assert (0 < n) as Hpos by (subst n; rewrite <-Hi, length_app; lia).
  destruct (next_object_run _ _ _ _ _ Hf Hs) as (objs' & cur' & b' & E1 & Hi' & Ho' & Hok' & Hsome' & Ht' & Hl').
  destruct (next_batch_run _ _ _ _ _ Hpos Hi' Ho' Hok' Hsome' Ht' Hl' Hs) as (cur2 & b2 & E2 & Hr).
  exists objs', cur2, (add_node x b2). split; [|by apply append_ready].
  unfold emit. rewrite (bind_Ret _ _ _ _ _ E1), (bind_Ret _ _ _ _ _ E2). apply append_run.
Qed.

Lemma emit_first x :
  emit st x (mkOut fs None None 0 0) = (tree_out [] [] (add_node x new_batch) 1, Ret tt) ∧
  tree_filling [node_item x.1 x.2] [] [] (add_node x new_batch) 1.
Proof.
  split.
  - unfold emit, next_object. rewrite bind_assoc, get_run, bind_assoc, (bind_Ret _ _ _ _ _ (divides_run _ _ _ Hmax)). cbn [o_processed].
    rewrite Z.mod_0_l, Z.div_0_l by lia. cbn [Z.eqb negb Z.add]. rewrite bind_assoc.
    rewrite mret_run, (bind_Ret _ _ _ _ _ (open_run _ _ _ _ _ _)).
    unfold next_batch. rewrite bind_assoc, get_run, bind_assoc, (bind_Ret _ _ _ _ _ (divides_run _ _ _ Hsbs)). cbn [o_processed].
    rewrite Z.mod_0_l by lia. cbn [Z.eqb negb]. rewrite modify_run. apply (append_run x [] [] new_batch 0).
  - by split.
Qed.

Lemma emit_all_run l : ∀ seen objs cur b n,
  tree_filling seen objs cur b n → seen ++ ((λ x, node_item x.1 x.2) <$> l) ⊆ all →
  ∃ objs' cur' b' n', emit_all st l (tree_out objs cur b n) = (tree_out objs' cur' b' n', Ret tt) ∧
    tree_filling (seen ++ ((λ x, node_item x.1 x.2) <$> l)) objs' cur' b' n'.
Proof.
  induction l as [|x l IH]; intros seen objs cur b n Hf Hs; cbn [fmap list_fmap] in *.
  { exists objs, cur, b, n. by rewrite app_nil_r. }
  destruct (emit_next _ _ _ _ _ x Hf ltac:(set_solver)) as (o1 & c1 & b1 & E1 & Hf1).
  destruct (IH _ _ _ _ _ Hf1) as (o2 & c2 & b2 & n2 & E2 & Hf2); [by rewrite <-(assoc_L (++))|].
  exists o2, c2, b2, n2. rewrite <-(assoc_L (++)) in Hf2. cbn [emit_all]. rewrite (bind_Ret _ _ _ _ _ E1). by split.
Qed.
End objects.

(** ** Names of objects *)

Lemma digits_no_underscore s : all_digits s = true → has_char "_"%char s = false.
Proof.
  induction s as [|a s IH]; [done|]. cbn [all_digits has_char]. intros [Ha Hs]%andb_true_iff. rewrite IH, orb_false_r by done.
  apply bool_decide_eq_false_2. intros ->. done.
Qed.

Lemma span_digits_all s : all_digits s = true → span_digits s = (s, "").
Proof. induction s as [|a s IH]; [done|]. cbn [all_digits span_digits]. intros [Ha Hs]%andb_true_iff. by rewrite Ha, IH. Qed.

Lemma stoi_pretty z : 0 <= z < 2 ^ 31 → stoi (pretty z) = Ret z.
Proof.
  intros Hz. destruct (pretty_digits z ltac:(lia)) as (E & D & Hne). pose proof (span_digits_all _ D) as Es. unfold stoi.
  destruct (pretty z) as [|c s] eqn:Ep; [done|]. pose proof D as D'. cbn [all_digits] in D'. apply andb_true_iff in D' as [Dc _].
  destruct (digit_char _ Dc) as (H1 & H2 & H3). cbn [skip_space]. rewrite H1, !bool_decide_eq_false_2 by done. rewrite Es. cbn [fst].
  rewrite bool_decide_eq_false_2 by done. rewrite E, bool_decide_eq_true_2; [done|]. unfold in_s. lia.
Qed.

Lemma substring_long s n : (String.length s <= n)%nat → String.substring 0 n s = s.
Proof.
  revert n. induction s as [|a s IH]; intros n Hn; [by destruct n|]. destruct n as [|n]; cbn in *; [lia|]. by rewrite IH by lia.
Qed.

Lemma getObjectPath_split st : ∃ pre, ∀ id, getObjectPath st id = (pre +:+ String "_"%char (pretty id))%string.
Proof.
  exists ("snapshot_" +:+ curr_time st +:+ "_" +:+ pretty (last_log_idx (snap_meta st)))%string. intros id'. unfold getObjectPath.
  rewrite <-!string_app_assoc. done.
Qed.

Lemma getObjectIdx_path st id : 0 <= id < 2 ^ 31 → getObjectIdx (getObjectPath st id) = Ret id.
Proof.
  intros Hid. destruct (getObjectPath_split st) as [pre Hp]. rewrite Hp. unfold getObjectIdx.
  destruct (pretty_digits id ltac:(lia)) as (E & D & Hne). rewrite rfind_last by (by apply digits_no_underscore).
  replace (String.substring _ _ _) with (pretty id).
  - rewrite stoi_pretty by done. rewrite wrap_u_id by (unfold in_u; lia). done.
  - replace (pre +:+ String "_"%char (pretty id))%string with ((pre +:+ "_") +:+ pretty id)%string by (by rewrite <-string_app_assoc).
    replace (S (String.length pre)) with (String.length (pre +:+ "_")) by (rewrite length_string_app; cbn; lia).
    rewrite substring_app_r, length_string_app. symmetry. apply substring_long. lia.
Qed.

Lemma getObjectPath_inj st a b : getObjectPath st a = getObjectPath st b → a = b.
Proof. destruct (getObjectPath_split st) as [pre Hp]. rewrite !Hp. intros H1. apply (inj _) in H1. injection H1. apply (inj _). Qed.

(** ** Whole snapshots *)

Lemma serializeDataTree_run st store fs all :
  tree_wf (container store) (ephemerals store) → 0 < max_object_node_size st → 0 < save_batch_size st →
  (λ x, node_item x.1 x.2) <$> dfs (tree_fuel (container store)) (container store) "/" = all →
  all_short SNAPSHOT_TYPE_DATA (save_batch_size st) all → Z.of_nat (size (container store)) < 2 ^ 31 - 4 →
  ∃ objs, serializeDataTree st SNAPSHOT_V1 store fs = (close_objects st 4 objs fs, Ret (3 + Z.of_nat (length objs))) ∧
    items_of (mjoin objs) = all ∧
    Forall (λ x, batch_ok SNAPSHOT_TYPE_DATA (save_batch_size st) x ∧ short x) (mjoin objs) ∧ Forall (λ o, o ≠ []) objs ∧
    Z.of_nat (length objs) < 2 ^ 31 - 3.
Proof.
  intros Hwf Hmax Hsbs Ha Hall Hsize. pose proof (dfs_all _ _ Hwf) as Hp. unfold serializeDataTree.
  rewrite (bind_left _ _ _ _ (serializeNode_all st _ _ Hwf _)).
  destruct (dfs _ _ _) as [|x l] eqn:Ed.
  { apply Permutation_nil_l, symmetry, map_to_list_empty_iff in Hp. destruct (wf_root _ _ Hwf) as (r & Hr & _). by rewrite Hp in Hr. }
  destruct (emit_first st fs Hmax Hsbs x) as [E1 Hf1].
  destruct (emit_all_run st all fs Hmax Hsbs Hall l _ _ _ _ _ Hf1) as (objs & cur & b & n & E2 & Hf); [by subst all|].
  change ([node_item x.1 x.2] ++ ((λ x, node_item x.1 x.2) <$> l)) with ((λ x, node_item x.1 x.2) <$> x :: l) in Hf. rewrite Ha in Hf.
  destruct Hf as [Hi Hn Ho Hok Hsome Ht Hl]. pose proof (Z.mod_pos_bound (n - 1) _ Hsbs).
  destruct (filled_ok st all Hmax Hsbs Hall _ _ _ _ Hi ltac:(set_solver) Ht ltac:(lia) Hok) as (Hb & Hok' & Hi').
  assert (Z.of_nat (length objs) <= n - 1 ∧ n = Z.of_nat (size (container store))) as [Hlen Hcnt].
  { assert (n = Z.of_nat (size (container store))) as Hc.
    { rewrite Hn, <-Ha, length_fmap, Hp. by rewrite length_map_to_list. }
    split; [|done]. rewrite Ho. apply Z.div_le_upper_bound; [lia|].
    assert (0 < n) by (rewrite Hn, <-Ha; cbn; lia). nia. }
  exists (objs ++ [cur ++ [b]]). rewrite join_app. cbn [mjoin list_join]. rewrite app_nil_r, length_app. cbn [length].
  split_and!; [|done|done|apply Forall_app; split; [done|constructor; [by destruct cur|done]]|lia].
  cbn [emit_all]. rewrite bind_assoc, (bind_Ret _ _ _ _ _ E1), (bind_Ret _ _ _ _ _ E2).
  unfold tree_out. rewrite (bind_Ret _ _ _ _ _ (save_run _ _ _ (Some b) _ Hb)), get_run. unfold writeTailAndClose, writing.
  cbn [o_checksum o_path]. rewrite bind_assoc, !(bind_Ret _ _ _ _ _ (out_write_run _ _ _ _ _ _ _)). unfold lift. cbn [o_files].
  rewrite getObjectIdx_path by lia. rewrite close_objects_snoc. unfold object_bytes.
  rewrite (assoc_L (++)). by replace (4 + Z.of_nat (length objs)) with (3 + Z.of_nat (length objs + 1)) by lia.
Qed.

(** What [createObjects] writes: the counters, the sessions, the ACL numbers and
    the nodes. *)
Definition counter_items (next_zxid next_session_id : Z) : list bytes :=
  map_item <$> map_to_list (<["SESSIONID" := next_session_id]> {["ZXID" := next_zxid]} : gmap string Z).
Definition session_items (s : KeeperStore) : list bytes :=
  session_item (session_and_auth s) <$> map_to_list (session_and_timeout s).
Definition acl_items (s : KeeperStore) : list bytes := acl_item <$> map_to_list (num_to_acl (acl_map s)).
Definition tree_items (s : KeeperStore) : list bytes :=
  (λ x, node_item x.1 x.2) <$> dfs (tree_fuel (container s)) (container s) "/".

(** Everything fits a batch. *)
Definition batches_short (st : KeeperSnapshotStore) (s : KeeperStore) (next_zxid next_session_id : Z) : Prop :=
  all_short SNAPSHOT_TYPE_UINTMAP (save_batch_size st) (counter_items next_zxid next_session_id) ∧
  all_short SNAPSHOT_TYPE_SESSION (save_batch_size st) (session_items s) ∧ all_short SNAPSHOT_TYPE_ACLMAP (save_batch_size st) (acl_items s) ∧
  all_short SNAPSHOT_TYPE_DATA (save_batch_size st) (tree_items s).

Definition object_ok (type : Z) (bs : list SnapshotBatchPB) : Prop :=
  Forall (λ b, batch_type b = type ∨ b = new_batch) bs ∧ Forall short bs ∧ bs ≠ [].

Lemma on_files_run {A} (m : ST Files exn A) st fs fs' r : m fs = (fs', r) → on_files m (st, fs) = ((st, fs'), r).
Proof. intros Hm. unfold on_files. by rewrite Hm. Qed.

Lemma serializeSessions_run s sbs v path fs fs' :
  serialize_object SNAPSHOT_TYPE_SESSION sbs v (session_items s) path fs = (fs', Ret tt) →
  serializeSessions s sbs v path fs = (fs', Ret (session_id_counter s)).
Proof. intros Hm. unfold serializeSessions. by rewrite (bind_Ret _ _ _ _ _ Hm). Qed.

Lemma createObjects_run st s fs next_zxid next_session_id :
  tree_wf (container s) (ephemerals s) → snp_size (snap_meta st) ≠ 0 → 0 < max_object_node_size st → 0 < save_batch_size st →
  batches_short st s next_zxid next_session_id → Z.of_nat (size (container s)) < 2 ^ 31 - 4 →
  ∃ counters sessions acls nodes,
    let objs := counters :: sessions :: acls :: nodes in
    createObjects s next_zxid next_session_id (st, fs)
      = ((add_paths (length objs) st, close_objects st 1 objs fs), Ret (Z.of_nat (length objs))) ∧
    items_of counters = counter_items next_zxid next_session_id ∧ items_of sessions = session_items s ∧
    items_of acls = acl_items s ∧ items_of (mjoin nodes) = tree_items s ∧
    object_ok SNAPSHOT_TYPE_UINTMAP counters ∧ object_ok SNAPSHOT_TYPE_SESSION sessions ∧ object_ok SNAPSHOT_TYPE_ACLMAP acls ∧
    Forall (object_ok SNAPSHOT_TYPE_DATA) nodes ∧ Z.of_nat (length objs) < 2 ^ 31.
Proof.
  intros Hwf Hsz Hmax Hsbs (S1 & S2 & S3 & S4) Hsize.
  destruct (serialize_object_run SNAPSHOT_TYPE_UINTMAP _ _ Hsbs S1 fs (getObjectPath st 1)) as (b1 & E1 & I1 & O1 & T1 & N1).
  destruct (serialize_object_run SNAPSHOT_TYPE_SESSION _ _ Hsbs S2 (<[getObjectPath st 1 := object_bytes b1]> fs) (getObjectPath st 2))
    as (b2 & E2 & I2 & O2 & T2 & N2).
  destruct (serialize_object_run SNAPSHOT_TYPE_ACLMAP _ _ Hsbs S3
    (<[getObjectPath st 2 := object_bytes b2]> (<[getObjectPath st 1 := object_bytes b1]> fs)) (getObjectPath st 3)) as (b3 & E3 & I3 & O3 & T3 & N3).
  destruct (serializeDataTree_run st s (<[getObjectPath st 3 := object_bytes b3]>
    (<[getObjectPath st 2 := object_bytes b2]> (<[getObjectPath st 1 := object_bytes b1]> fs))) _ Hwf Hmax Hsbs eq_refl S4 Hsize)
    as (objs & E4 & I4 & O4 & N4 & Hlen).
  exists b1, b2, b3, objs. cbn zeta.
  assert (∀ ty bs, Forall (batch_ok ty (save_batch_size st)) bs → Forall short bs → bs ≠ [] → object_ok ty bs) as Hobj.
  { intros ty bs Hb Hsh Hne. split; [|split; assumption]. eapply Forall_impl; [exact Hb|]. by intros ? [? _]. }
  split; [|split_and!; [exact I1|exact I2|exact I3|exact I4|apply Hobj; assumption|apply Hobj; assumption|apply Hobj; assumption| |cbn [length]; lia]].
  - unfold createObjects. rewrite get_run. cbv beta iota. rewrite (proj2 (Z.eqb_neq _ _) Hsz).
    unfold serializeMap, serializeAcls. change CURRENT_SNAPSHOT_VERSION with SNAPSHOT_V1.
    fold (counter_items next_zxid next_session_id) (acl_items s). rewrite (bind_Ret _ _ _ _ _ (on_files_run _ _ _ _ _ E1)).
    rewrite (bind_Ret _ _ _ _ _ (on_files_run _ _ _ _ _ (serializeSessions_run _ _ _ _ _ _ E2))).
    rewrite (bind_Ret _ _ _ _ _ (on_files_run _ _ _ _ _ E3)), (bind_Ret _ _ _ _ _ (on_files_run _ _ _ _ _ E4)). unfold upd_snap. rewrite modify_run.
    replace (3 + Z.of_nat (length objs)) with (Z.of_nat (length (b1 :: b2 :: b3 :: objs))) by (cbn [length]; lia).
    rewrite Nat2Z.id. done.
  - clear -O4 N4. induction N4 as [|bs objs Hne N4 IH]; [constructor|]. cbn [mjoin list_join] in O4. apply Forall_app in O4 as [O4 O5].
    constructor; [|by apply IH]. split_and!; [..|exact Hne]; (eapply Forall_impl; [exact O4|]); by intros ? [[? _] ?].
Qed.
End write.
