(* ===== verification/SnapshotLoad.v ===== *)
(** * Loading what was written

    A thread of the loader on a file of [createObjects] performs a list of
    simple changes of the store, one per item or two; any interleaving of the
    threads is one order of all these changes. *)

From coqutil Require Import Word.LittleEndianList Byte.
From S2P Require Import Prelude Types ZkIO ZkCodec ACLMap SessionExpiryQueue KeeperPaths KeeperNode KeeperStore StoreTree StoreInv StoreRequest StoreReplica StoreRestore Crc32 LogSegmentInv Snapshot SnapshotWrite.
From stdpp Require Import base gmap sets strings option pretty sorting list.
From Stdlib Require Import ZArith Lia Ascii.
Open Scope Z_scope.

(** ** Changes of the store *)

Inductive change : Type :=
  | AddUsage (acl_id : Z)
  | AddNode (path : string) (n : KeeperNode)
  | AddEphemeral (owner : Z) (path : string)
  | AddAuth (session_id : Z) (ids : AuthIDs)
  | AddSession (now session_id timeout : Z)
  | AddMapping (acl_id : Z) (acls : ACLs)
  | SetZxid (z : Z)
  | SetCounter (z : Z).

Definition perform (e : change) (s : KeeperStore) : KeeperStore :=
  match e with
  | AddUsage id => upd_acl (addUsage id 1) s
  | AddNode p n => upd_container <[p := n]> s
  | AddEphemeral k p => upd_ephemerals (set_emplace k p) s
  | AddAuth k ids => upd_auth <[k := ids]> s
  | AddSession now k t => (addSessionID now k t s).1
  | AddMapping id acls => upd_acl (addMapping id acls) s
  | SetZxid z => upd_zxid z s
  | SetCounter z => upd_counter (λ _, z) s
  end.

Lemma addSessionID_run now k t s :
  own_wf s → addSessionID now k t s = (perform (AddSession now k t) s, Ret tt) ∧ own_wf (perform (AddSession now k t) s).
Proof.
  intros Hs. cbn [perform]. unfold addSessionID, modify, mbind, ST_bind, on_expiry. cbn.
  destruct (addNewSessionOrUpdate_ok now k t (session_expiry_queue s) Hs) as (q & b & E & Hq & _). rewrite E. by destruct b.
Qed.

Lemma perform_own e s : own_wf s → own_wf (perform e s).
Proof. destruct e; try done. apply addSessionID_run. Qed.

(** ** Threads that perform changes *)

(** [performs m es o]: whatever others do in between, [m] makes the changes [es]
    and ends with [o]. *)
Inductive performs {A} : load A → list change → outcome exn A → Prop :=
  | performs_done o : performs (LDone o) [] o
  | performs_step f k e es o :
      (∀ s, own_wf s → f s = perform e s) → (∀ s, own_wf s → performs (k s) es o) → performs (LStep f k) (e :: es) o.

Lemma performs_bind {A B} (m : load A) (g : A → load B) es es' a o :
  performs m es (Ret a) → performs (g a) es' o → performs (m ≫= g) (es ++ es') o.
Proof.
  intros Hm Hg. remember (Ret a) as r eqn:Er. induction Hm as [o'|f k e es o' Hf Hk IH]; subst; cbn [app]; [done|].
  apply performs_step; [done|]. intros s Hs. by apply IH.
Qed.

Lemma performs_swallow {A} (m : load A) es a : performs m es (Ret a) → performs (swallow m) es (Ret tt).
Proof.
  intros Hm. remember (Ret a) as r eqn:Er. induction Hm as [o'|f k e es o' Hf Hk IH]; subst; cbn [swallow].
  - apply performs_done.
  - apply performs_step; [done|]. intros s Hs. by apply IH.
Qed.

Lemma performs_access {A} (m : STS A) e a : (∀ s, own_wf s → m s = (perform e s, Ret a)) → performs (access m) [e] (Ret a).
Proof.
  intros Hm. apply performs_step; intros s Hs; rewrite Hm by done; [done|]. apply performs_done.
Qed.
Lemma performs_ret {A} (a : A) : performs (mret a) [] (Ret a).
Proof. apply performs_done. Qed.

(** An access, then the rest. *)
Lemma performs_then {A} (m : STS unit) e es (k : load A) o :
  (∀ s, own_wf s → m s = (perform e s, Ret tt)) → performs k es o → performs (access m;; k) (e :: es) o.
Proof. intros Hm Hk. by apply (performs_bind _ _ [e] es tt); [apply performs_access|]. Qed.

Section load.
Context `{BatchCodec} (put_str : bytes → bytes).
(** A buffer that holds the string, and whatever follows it. *)
Hypothesis put_str_keeps : ∀ b, ∃ tail, put_str b = b ++ tail.
(** What protobuf writes it reads back, as long as it can write it. *)
Hypothesis parse_serialized_batch : ∀ b, in_s 32 (batch_type b) → Z.of_nat (length (SerializeToString b)) < 2 ^ 31 → ParseFromString (SerializeToString b) = b.

Lemma reading_reads {A} (r : reader A) bs a rest k : reads r bs a → reading r (bs ++ rest) k = k a rest.
Proof. intros Hr. unfold reading. by rewrite (Hr rest). Qed.

(** ** Items *)

Definition storable_node (x : string * KeeperNode) : Prop :=
  string_ok x.1 ∧ string_ok (node_data x.2) ∧ 0 <= node_acl_id x.2 < 2 ^ 64 - 1 ∧ Stat_ok (node_stat x.2).

Definition node_changes (x : string * KeeperNode) : list change :=
  [AddUsage (node_acl_id x.2); AddNode x.1 (strip false x.2)] ++
  (if ephemeralOwner (node_stat x.2) =? 0 then [] else [AddEphemeral (ephemeralOwner (node_stat x.2)) x.1]).

Lemma strip_node n :
  mkNode (node_data n) (node_acl_id n) (node_is_ephemeral n) (node_is_sequental n) (node_stat n) ∅ = strip false n.
Proof. by destruct n as [d a ie sq [] ch]. Qed.

Lemma load_node_run x : storable_node x → performs (load_node put_str SNAPSHOT_V1 (node_item x.1 x.2)) (node_changes x) (Ret true).
Proof.
  intros (Hp & Hd & Ha & Hst). destruct x as [p n]. cbn [fst snd] in *.
  destruct (put_str_keeps (node_item p n)) as [tail Ht]. unfold load_node. rewrite Ht. unfold node_item. rewrite <-!(assoc_L (++)).
  rewrite (reading_reads _ _ _ _ _ (reads_string _ Hp)), (reading_reads _ _ _ _ _ (reads_string _ Hd)).
  unfold reading_acl. change (SNAPSHOT_V1 <=? SNAPSHOT_V1) with true. cbv iota.
  rewrite (reading_reads _ _ _ _ _ (reads_uint 8 _)), Z.mod_small by lia. cbv zeta.
  rewrite (proj2 (Z.eqb_neq _ _)) by lia. apply (performs_then _ (AddUsage (node_acl_id n))); [done|].
  rewrite (reading_reads _ _ _ _ _ (reads_bool _)), (reading_reads _ _ _ _ _ (reads_bool _)), (reading_reads _ _ _ _ _ (reads_Stat _ Hst)).
  rewrite strip_node. apply (performs_then _ (AddNode p (strip false n))); [done|]. cbn [snd fst].
  destruct (ephemeralOwner (node_stat n) =? 0); cbn [negb].
  - apply (performs_bind _ _ [] [] tt); apply performs_ret.
  - apply performs_then; [done|apply performs_ret].
Qed.

Definition storable_session (auth : gmap Z AuthIDs) (x : Z * Z) : Prop :=
  in_s 64 x.1 ∧ in_s 64 x.2 ∧ vec_ok AuthID_ok (default [] (auth !! x.1)).

Definition session_changes (clock : Z → Z) (auth : gmap Z AuthIDs) (x : Z * Z) : list change :=
  (if bool_decide (default [] (auth !! x.1) = []) then [] else [AddAuth x.1 (default [] (auth !! x.1))]) ++
  [AddSession (clock x.1) x.1 x.2].

Lemma reads_AuthIDs l : vec_ok AuthID_ok l → reads (read_vec read_AuthID) (write_vec write_AuthID l) l.
Proof. apply reads_vec. apply reads_AuthID. Qed.

Lemma load_session_run clock auth x :
  storable_session auth x →
  performs (load_session put_str clock SNAPSHOT_V1 (session_item auth x)) (session_changes clock auth x) (Ret true).
Proof.
  intros (H1 & H2 & Hv). destruct x as [sid t]. cbn [fst snd] in *. unfold session_changes. cbn [fst snd].
  destruct (put_str_keeps (session_item auth (sid, t))) as [tail Ht]. unfold load_session. rewrite Ht. unfold session_item. cbn [fst snd].
  rewrite <-!(assoc_L (++)).
  rewrite (reading_reads _ _ _ _ _ (reads_i64 _ H1)), (reading_reads _ _ _ _ _ (reads_i64 _ H2)).
  change (SNAPSHOT_V1 <=? SNAPSHOT_V1) with true. cbv iota. rewrite (reading_reads _ _ _ _ _ (reads_AuthIDs _ Hv)).
  apply (performs_bind _ _ _ [_] tt).
  - case_bool_decide; [apply performs_ret|]. by apply performs_access.
  - apply performs_then; [|apply performs_ret]. intros s Hs. by apply addSessionID_run.
Qed.

Definition storable_acl (x : Z * ACLs) : Prop := 0 <= x.1 < 2 ^ 64 ∧ vec_ok ACL_ok x.2.

Lemma load_acl_run x : storable_acl x → performs (load_acl put_str (acl_item x)) [AddMapping x.1 x.2] (Ret true).
Proof.
  intros [H1 H2]. destruct x as [id acls]. cbn [fst snd] in *.
  destruct (put_str_keeps (acl_item (id, acls))) as [tail Ht]. unfold load_acl. rewrite Ht. unfold acl_item. cbn [fst snd]. rewrite <-(assoc_L (++)).
  rewrite (bind_Ret _ _ _ _ _ (reads_uint 8 id _)), Z.mod_small, (bind_Ret _ _ _ _ _ (reads_ACLs _ H2 _)) by lia.
  unfold mret at 1, ST_ret. cbv beta iota.
  apply performs_then; [done|apply performs_ret].
Qed.

Lemma load_items_run {X} (f : bytes → load bool) (item : X → bytes) (changes : X → list change) (xs : list X) :
  Forall (λ x, performs (f (item x)) (changes x) (Ret true)) xs →
  performs (load_items f (item <$> xs)) (xs ≫= changes) (Ret tt).
Proof.
  induction 1 as [|x xs Hx Hxs IH]; cbn [fmap list_fmap load_items mbind list_bind]; [apply performs_ret|].
  by apply (performs_bind _ _ _ _ true).
Qed.

(** ** The counters *)

Definition counter_changes (m : gmap string Z) : list change :=
  (match m !! "ZXID" with Some z => [SetZxid z] | None => [] end) ++
  (match m !! "SESSIONID" with Some z => [SetCounter z] | None => [] end).

Definition storable_counter (x : string * Z) : Prop := string_ok x.1 ∧ in_s 64 x.2.

Lemma read_int_map_run xs m :
  Forall storable_counter xs → read_int_map put_str (map_item <$> xs) m = Ret (foldl (λ m x, <[x.1 := x.2]> m) m xs).
Proof.
  intros Hx. revert m. induction Hx as [|[k v] xs [H1 H2] Hx IH]; intros m; [done|]. cbn [fmap list_fmap read_int_map foldl fst snd] in *.
  destruct (put_str_keeps (map_item (k, v))) as [tail ->]. unfold map_item. cbn [fst snd]. rewrite <-(assoc_L (++)).
  rewrite (bind_Ret _ _ _ _ _ (reads_string _ H1 _)), (bind_Ret _ _ _ _ _ (reads_i64 _ H2 _)). apply IH.
Qed.

Lemma load_int_map_run xs :
  Forall storable_counter xs →
  performs (load_int_map put_str (map_item <$> xs)) (counter_changes (foldl (λ m x, <[x.1 := x.2]> m) ∅ xs)) (Ret tt).
Proof.
  intros Hx. unfold load_int_map. rewrite (read_int_map_run _ _ Hx). set (m := foldl _ _ _).
  apply (performs_bind _ _ [] _ m); [apply performs_done|]. unfold counter_changes. apply (performs_bind _ _ _ _ tt).
  - destruct (m !! "ZXID"); [by apply performs_access|apply performs_ret].
  - destruct (m !! "SESSIONID"); [by apply performs_access|apply performs_ret].
Qed.

(** ** Batches and objects *)

(** The changes of a batch that holds the items of a list. *)
Section batches.
Context {X : Type} (type : Z) (item : X → bytes) (ok : X → Prop) (clock : Z → Z) (changes : list X → list change).
Hypothesis type_range : in_s 32 type.
Hypothesis changes_nil : changes [] = [].
Hypothesis load_typed : ∀ b xs, batch_type b = type → batch_data b = item <$> xs → Forall ok xs →
  performs (load_batch put_str clock SNAPSHOT_V1 b) (changes xs) (Ret tt).

Lemma load_empty b : batch_data b = [] → performs (load_batch put_str clock SNAPSHOT_V1 b) [] (Ret tt).
Proof.
  intros Hb. unfold load_batch. rewrite Hb. change (SNAPSHOT_V1 <=? SNAPSHOT_V1) with true.
  repeat case_match; apply performs_ret.
Qed.

Lemma load_batch_run b xs :
  batch_type b = type ∨ b = new_batch → batch_data b = item <$> xs → Forall ok xs →
  performs (load_batch put_str clock SNAPSHOT_V1 b) (changes xs) (Ret tt).
Proof.
  intros [Ht | ->] Hd Hok; [by apply load_typed|]. symmetry in Hd. apply fmap_nil_inv in Hd as ->.
  rewrite changes_nil. by apply load_empty.
Qed.

(** The four bytes of a length and those of a checksum. *)
Lemma le_round z : 0 <= z < 2 ^ 32 → le_combine (le_split 4 z) = z.
Proof. intros Hz. rewrite le_combine_split. apply Z.mod_small. done. Qed.

Lemma combine_inj a b : length a = length b → le_combine a = le_combine b → a = b.
Proof. intros Hl E. rewrite <-(split_le_combine a), <-(split_le_combine b), E. by rewrite Hl. Qed.

Lemma short_range b : short b → 0 <= Z.of_nat (length (SerializeToString b)) < 1885433427.
Proof. unfold short. intros Hb. vm_compute (le_combine _) in Hb. lia. Qed.

Lemma read_over_app n junk a rest : length a = n → read_over n junk (a ++ rest) = le_combine a.
Proof.
  intros Hl. unfold read_over. rewrite take_app_length' by done. rewrite Hl, drop_ge, app_nil_r; [done|]. by rewrite length_le_split.
Qed.

(** The head of a batch is not taken for a magic word. *)
Lemma no_magic b rest junk : short b →
  isFileHeader (read_over 8 junk (batch_bytes b ++ rest)) = false ∧ isFileTail (read_over 8 junk (batch_bytes b ++ rest)) = false.
Proof.
  intros Hb. pose proof (short_range _ Hb) as Hr. unfold batch_bytes.
  rewrite (assoc_L (++)), <-(assoc_L (++) _ _ rest).
  rewrite read_over_app by (rewrite length_app, !length_le_split; done).
  assert (∀ m, length m = 8%nat → le_combine (take 4 m) = 1885433427 →
    (le_combine (le_split 4 (Z.of_nat (length (SerializeToString b))) ++ le_split 4 (getCRC32 (SerializeToString b))) =? le_combine m) = false) as Hm.
  { intros m Hl Hm. apply Z.eqb_neq. intros E%combine_inj; [|by rewrite length_app, !length_le_split].
    rewrite <-E, take_app_length' in Hm by (by rewrite length_le_split). rewrite le_round in Hm; lia. }
  split; apply Hm; reflexivity.
Qed.

Lemma with_batch_run b rest c es es' go_on o :
  batch_type b = type ∨ b = new_batch → short b → performs (load_batch put_str clock SNAPSHOT_V1 b) es (Ret tt) →
  performs (go_on rest (updateCheckSum c (getCRC32 (SerializeToString b)))) es' o →
  performs (with_batch put_str clock SNAPSHOT_V1 (batch_bytes b ++ rest) c go_on) (es ++ es') o.
Proof.
  intros Hty Hb Hl Hg. assert (in_s 32 (batch_type b)) as Ht by (by destruct Hty as [-> | ->]).
  pose proof (short_range _ Hb) as Hr. pose proof (getCRC32_range (SerializeToString b)) as Hc.
  unfold with_batch, load_batch_header, batch_bytes. rewrite <-!(assoc_L (++)).
  rewrite bool_decide_eq_false_2 by (rewrite !length_app, !length_le_split; lia).
  rewrite (take_app_length' (le_split 4 _)), le_round by (rewrite ?length_le_split; lia).
  rewrite (drop_app_length' (le_split 4 _) _ 4) by (by rewrite length_le_split).
  rewrite (take_app_length' (le_split 4 _)), le_round by (rewrite ?length_le_split; lia). cbv beta iota zeta.
  rewrite (assoc_L (++) (le_split 4 _)), drop_app_length' by (rewrite length_app, !length_le_split; done).
  rewrite Nat2Z.id, take_app_length, drop_app_length, length_app, (proj2 (Z.ltb_ge _ _)) by lia.
  unfold verifyCRC32. rewrite Z.eqb_refl. cbn [negb]. rewrite (parse_serialized_batch b Ht) by lia.
  by apply (performs_bind _ _ _ _ tt).
Qed.

Lemma magic_tail junk rest :
  isFileHeader (read_over 8 junk (MAGIC_SNAPSHOT_TAIL ++ rest)) = false ∧ isFileTail (read_over 8 junk (MAGIC_SNAPSHOT_TAIL ++ rest)) = true.
Proof. rewrite read_over_app by done. done. Qed.
Lemma magic_head junk rest : isFileHeader (read_over 8 junk (MAGIC_SNAPSHOT_HEAD ++ rest)) = true.
Proof. rewrite read_over_app by done. done. Qed.

Lemma updateCheckSum_range c b : 0 <= updateCheckSum c b < 2 ^ 32.
Proof. apply getCRC32_range. Qed.

(** Batches and what they hold. *)
Definition holds_items (b : SnapshotBatchPB) (xs : list X) : Prop :=
  (batch_type b = type ∨ b = new_batch) ∧ batch_data b = item <$> xs ∧ Forall ok xs ∧ short b.

Lemma parse_batches_run bs xss : Forall2 holds_items bs xss → ∀ fuel junk junk' c, (length bs < fuel)%nat → 0 <= c < 2 ^ 32 →
  performs (parse_batches put_str fuel clock junk junk'
    (mjoin (batch_bytes <$> bs) ++ MAGIC_SNAPSHOT_TAIL ++
     le_split 4 (foldl (λ c b, updateCheckSum c (getCRC32 (SerializeToString b))) c bs)) SNAPSHOT_V1 c)
    (xss ≫= changes) (Ret true).
Proof.
  induction 1 as [|b xs bs xss (Ht & Hd & Hok & Hb) Hall IH]; intros fuel junk junk' c Hf Hc; (destruct fuel as [|fuel]; [cbn in Hf; lia|]);
    cbn [parse_batches fmap list_fmap mjoin list_join foldl mbind list_bind].
  - cbn [app]. destruct (magic_tail junk (le_split 4 c)) as [-> ->].
    rewrite drop_app_length' by done. rewrite <-(app_nil_r (le_split 4 c)), read_over_app, le_round, Z.eqb_refl by (done || apply length_le_split).
    apply performs_ret.
  - rewrite <-(assoc_L (++)). rewrite (proj1 (no_magic b _ junk Hb)), (proj2 (no_magic b _ junk Hb)).
    change (SNAPSHOT_V1 =? SNAPSHOT_None) with false. cbv iota zeta. apply with_batch_run; [done|done|by apply load_batch_run|].
    apply IH; [cbn in Hf; lia|apply updateCheckSum_range].
Qed.

Lemma batch_bytes_nonempty b : (8 <= length (batch_bytes b))%nat.
Proof. unfold batch_bytes. rewrite !length_app, !length_le_split. lia. Qed.

Lemma length_batches bs : (length bs <= length (mjoin (batch_bytes <$> bs)))%nat.
Proof.
  induction bs as [|b bs IH]; [done|].
  change (mjoin (batch_bytes <$> b :: bs)) with (batch_bytes b ++ mjoin (batch_bytes <$> bs)). rewrite length_app.
  pose proof (batch_bytes_nonempty b). cbn [length]. lia.
Qed.

Lemma parse_object_run bs xss junk junk' path fs :
  Forall2 holds_items bs xss → bs ≠ [] → fs !! path = Some (object_bytes bs) →
  performs (parseOneObject put_str clock junk junk' path fs) (xss ≫= changes) (Ret true).
Proof.
  intros Hall Hne Hfs. unfold parseOneObject. rewrite Hfs.
  pose proof (length_batches bs) as Hlen. assert (length bs < length (object_bytes bs))%nat as Hfuel.
  { unfold object_bytes, open_bytes. rewrite !length_app. change (length MAGIC_SNAPSHOT_HEAD) with 8%nat. lia. }
  destruct Hall as [|b xs bs xss (Ht & Hd & Hok & Hb) Hall]; [done|]. cbn [parse_batches mbind list_bind].
  set (rest := mjoin (batch_bytes <$> bs) ++ MAGIC_SNAPSHOT_TAIL ++ le_split 4 (checksum_of (b :: bs))).
  assert (object_bytes (b :: bs) = MAGIC_SNAPSHOT_HEAD ++ le_split 1 SNAPSHOT_V1 ++ batch_bytes b ++ rest) as E.
  { unfold object_bytes, open_bytes, rest. cbn [fmap list_fmap mjoin list_join]. by rewrite <-!(assoc_L (++)). }
  rewrite E in Hfuel |- *. rewrite magic_head, (drop_app_length' MAGIC_SNAPSHOT_HEAD) by done.
  change (drop 9 (MAGIC_SNAPSHOT_HEAD ++ le_split 1 SNAPSHOT_V1 ++ batch_bytes b ++ rest)) with (batch_bytes b ++ rest).
  change (match le_split 1 SNAPSHOT_V1 ++ batch_bytes b ++ rest with v :: _ => byte.unsigned v | [] => SNAPSHOT_None end) with SNAPSHOT_V1.
  apply with_batch_run; [done|done|by apply load_batch_run|].
  apply (parse_batches_run bs xss Hall); [change (length (b :: bs)) with (S (length bs)) in Hfuel; lia|apply updateCheckSum_range].
Qed.
End batches.

(** *** Items spread over batches *)

Lemma split_items {B X} (parts : B → list bytes) (item : X → bytes) bs xs :
  mjoin (parts <$> bs) = item <$> xs → ∃ xss, Forall2 (λ b ys, parts b = item <$> ys) bs xss ∧ mjoin xss = xs.
Proof.
  revert xs. induction bs as [|b bs IH]; intros xs E.
  - exists []. split; [constructor|]. symmetry in E. apply fmap_nil_inv in E as ->. done.
  - change (mjoin (parts <$> b :: bs)) with (parts b ++ mjoin (parts <$> bs)) in E. symmetry in E.
    apply fmap_app_inv in E as (ys & zs & E1 & E2 & ->).
    destruct (IH zs E2) as (xss & H1 & <-). exists (ys :: xss). split; [|done]. by constructor.
Qed.

Lemma object_holds {X} (item : X → bytes) (ok : X → Prop) type bs xs :
  items_of bs = item <$> xs → Forall ok xs → Forall (λ b, batch_type b = type ∨ b = new_batch) bs → Forall short bs →
  ∃ xss, Forall2 (holds_items type item ok) bs xss ∧ mjoin xss = xs.
Proof.
  intros E Hok Ht Hb. destruct (split_items batch_data item bs xs E) as (xss & H2 & <-). exists xss. split; [|done]. clear E.
  induction H2 as [|b ys bs xss Hd H2 IH]; [constructor|]. cbn [mjoin list_join] in Hok. apply Forall_app in Hok as [Hys Hok].
  apply Forall_cons in Ht as [Ht Hts]. apply Forall_cons in Hb as [Hb Hbs]. constructor; [by split_and!|by apply IH].
Qed.

Lemma load_nodes_typed clock b xs :
  batch_type b = SNAPSHOT_TYPE_DATA → batch_data b = (λ x, node_item x.1 x.2) <$> xs → Forall storable_node xs →
  performs (load_batch put_str clock SNAPSHOT_V1 b) (xs ≫= node_changes) (Ret tt).
Proof.
  intros Ht Hd Hok. unfold load_batch. rewrite Ht, Hd. apply load_items_run. eapply Forall_impl; [exact Hok|]. apply load_node_run.
Qed.
Lemma load_sessions_typed clock auth b xs :
  batch_type b = SNAPSHOT_TYPE_SESSION → batch_data b = session_item auth <$> xs → Forall (storable_session auth) xs →
  performs (load_batch put_str clock SNAPSHOT_V1 b) (xs ≫= session_changes clock auth) (Ret tt).
Proof.
  intros Ht Hd Hok. unfold load_batch. rewrite Ht, Hd. apply load_items_run. eapply Forall_impl; [exact Hok|]. apply load_session_run.
Qed.
Lemma load_acls_typed clock b xs :
  batch_type b = SNAPSHOT_TYPE_ACLMAP → batch_data b = acl_item <$> xs → Forall storable_acl xs →
  performs (load_batch put_str clock SNAPSHOT_V1 b) (xs ≫= λ x, [AddMapping x.1 x.2]) (Ret tt).
Proof.
  intros Ht Hd Hok. unfold load_batch. rewrite Ht, Hd. apply load_items_run. eapply Forall_impl; [exact Hok|]. apply load_acl_run.
Qed.
Lemma load_counters_typed clock b xs :
  batch_type b = SNAPSHOT_TYPE_UINTMAP → batch_data b = map_item <$> xs → Forall storable_counter xs →
  performs (load_batch put_str clock SNAPSHOT_V1 b) (counter_changes (foldl (λ m x, <[x.1 := x.2]> m) ∅ xs)) (Ret tt).
Proof. intros Ht Hd Hok. unfold load_batch. rewrite Ht, Hd. by apply load_int_map_run. Qed.
End load.

(** ** Interleavings *)

Definition changed (es : list change) (s : KeeperStore) : KeeperStore := foldl (λ s e, perform e s) s es.

Lemma changed_own es s : own_wf s → own_wf (changed es s).
Proof. revert s. induction es as [|e es IH]; intros s Hs; [done|]. by apply IH, perform_own. Qed.

Lemma join_take {A} (ess : list (list A)) i e es :
  ess !! i = Some (e :: es) → e :: mjoin (<[i := es]> ess) ≡ₚ mjoin ess.
Proof.
  revert i. induction ess as [|x ess IH]; intros [|i]; [done|done| |].
  - intros [= ->]. done.
  - intros Hi. cbn in Hi. change (e :: x ++ mjoin (<[i := es]> ess) ≡ₚ x ++ mjoin ess). rewrite <-(IH i Hi). by rewrite Permutation_middle.
Qed.

(** Whatever the schedule, the changes made so far and those still to be made
    are the changes of the threads. *)
Lemma run_threads_changes schedule : ∀ ts ess s ts' s',
  own_wf s → Forall2 (λ t es, performs t es (Ret tt)) ts ess → run_threads schedule ts s = (ts', s') →
  ∃ made ess', s' = changed made s ∧ Forall2 (λ t es, performs t es (Ret tt)) ts' ess' ∧ made ++ mjoin ess' ≡ₚ mjoin ess.
Proof.
  induction schedule as [|i schedule IH]; intros ts ess s ts' s' Hs Hp; cbn [run_threads].
  { intros [= <- <-]. by exists [], ess. }
  destruct (ts !! i) as [[o|f k]|] eqn:Hi; [by apply IH| |by apply IH].
  destruct (Forall2_lookup_l _ _ _ _ _ Hp Hi) as (es & Hes & Hti). inversion Hti as [|? ? e es' ? Hf Hk]; subst.
  rewrite Hf by done. intros H1.
  destruct (IH _ (<[i := es']> ess) _ _ _ (perform_own e s Hs) (Forall2_insert _ _ _ _ _ _ Hp (Hk s Hs)) H1) as (made & ess' & -> & Hp' & Hperm).
  exists (e :: made), ess'. split_and!; [done|done|]. cbn [app]. rewrite Hperm. by apply join_take.
Qed.

Lemma performs_completed t es : performs t es (Ret tt) → completed t = bool_decide (es = []).
Proof. intros Ht. by inversion Ht. Qed.

Lemma all_completed ts ess :
  Forall2 (λ t es, performs t es (Ret tt)) ts ess → forallb completed ts = bool_decide (mjoin ess = []).
Proof.
  induction 1 as [|t es ts ess Ht Hts IH]; [done|]. cbn [forallb mjoin list_join]. rewrite IH, (performs_completed _ _ Ht).
  rewrite <-bool_decide_and. apply bool_decide_ext. unfold mjoin. split; [by intros [-> ->]|]. apply app_nil.
Qed.

(** Some schedule lets every thread end. *)
Lemma threads_end ts ess s :
  own_wf s → Forall2 (λ t es, performs t es (Ret tt)) ts ess → ∃ schedule, forallb completed (run_threads schedule ts s).1 = true.
Proof.
  remember (length (mjoin ess)) as n eqn:En. revert ts ess s En. induction n as [n IH] using lt_wf_ind. intros ts ess s -> Hs Hp.
  destruct (decide (mjoin ess = [])) as [E|E].
  { exists []. cbn. rewrite (all_completed _ _ Hp). by apply bool_decide_eq_true_2. }
  assert (∃ i e es, ess !! i = Some (e :: es)) as (i & e & es & Hi).
  { clear -E. induction ess as [|[|e es] ess IH]; [done| |by exists 0%nat, e, es]. destruct (IH E) as (i & e & es & Hi). by exists (S i), e, es. }
  destruct (Forall2_lookup_r _ _ _ _ _ Hp Hi) as (t & Ht & Hti). inversion Hti as [|f k ? ? ? Hf Hk]; subst.
  pose proof (join_take _ _ _ _ Hi) as Hperm. apply Permutation_length in Hperm. cbn [length] in Hperm.
  destruct (IH (length (mjoin (<[i := es]> ess))) ltac:(lia) (<[i := k s]> ts) (<[i := es]> ess) (f s) eq_refl) as [schedule Hsch].
  - rewrite Hf by done. by apply perform_own.
  - apply Forall2_insert; [done|by apply Hk].
  - exists (i :: schedule). cbn [run_threads]. by rewrite Ht.
Qed.
