(* ===== verification/SnapshotProps.v ===== *)
(** * Snapshots restore the store

    The changes a loader makes of the files of a snapshot, in any order, give
    back the store the snapshot was taken of. *)

From coqutil Require Import Word.LittleEndianList Byte.
From S2P Require Import Prelude Types ZkIO ZkCodec ACLMap SessionExpiryQueue KeeperPaths KeeperNode KeeperStore StoreTree StoreInv StoreRequest StoreReplica StoreAcl StoreRestore StoreProps StoreTyped Crc32 LogSegmentInv Snapshot SnapshotWrite SnapshotLoad.
From stdpp Require Import base gmap sets strings option pretty sorting list.
From Stdlib Require Import ZArith Lia Ascii.
Open Scope Z_scope.

(** ** What a list of changes adds up to *)

(** A part of the store follows the changes that concern it. *)
Lemma changed_part {T} (part : KeeperStore → T) (upd : change → T → T) es s :
  (∀ e s, own_wf s → part (perform e s) = upd e (part s)) → own_wf s →
  part (changed es s) = foldl (λ t e, upd e t) (part s) es.
Proof.
  intros Hu. revert s. induction es as [|e es IH]; intros s Hs; [done|].
  change (changed (e :: es) s) with (changed es (perform e s)). rewrite IH by (by apply perform_own). by rewrite Hu.
Qed.

Lemma addSession_parts now k t s : own_wf s →
  ∃ q, perform (AddSession now k t) s = upd_expiry q (upd_timeout (emplace_timeout k t) s).
Proof.
  intros Hs. cbn [perform]. unfold addSessionID, modify, mbind, ST_bind, on_expiry. cbn.
  destruct (addNewSessionOrUpdate_ok now k t (session_expiry_queue s) Hs) as (q & b & E & _). rewrite E. by exists q.
Qed.

(** One change at a time. *)
Ltac by_change :=
  let e := fresh "e" in let s := fresh "s" in let Hs := fresh "Hs" in
  intros e s Hs; destruct e; try done;
  match goal with
  | |- context [perform (AddSession ?n ?k ?t) s] => destruct (addSession_parts n k t s Hs) as [? ->]; done
  | |- context [AddUsage ?id] => cbn; unfold addUsage; by destruct (id =? 0)
  end.

(** Insertions under different keys. *)
Definition insert_opt {K V} `{Countable K} (o : option (K * V)) (m : gmap K V) : gmap K V :=
  match o with Some (k, v) => <[k := v]> m | None => m end.

Lemma foldl_inserts {E K V} `{Countable K} (f : E → option (K * V)) es m :
  NoDup (omap f es).*1 → foldl (λ m e, insert_opt (f e) m) m es = list_to_map (omap f es) ∪ m.
Proof.
  revert m. induction es as [|e es IH]; intros m Hnd; cbn [foldl omap list_omap] in *; [by rewrite left_id_L by apply _|].
  destruct (f e) as [[k v]|]; cbn [insert_opt]; [|by apply IH]. cbn [fmap list_fmap fst] in Hnd.
  apply NoDup_cons in Hnd as [Hk Hnd]. rewrite IH by done. cbn [list_to_map foldr].
  rewrite <-insert_union_r, <-insert_union_l; [done|]. by apply not_elem_of_list_to_map_1.
Qed.

Lemma omap_always {A B} (f : A → B) (l : list A) : omap (λ x, Some (f x)) l = f <$> l.
Proof. induction l as [|x l IH]; [done|]. cbn. by f_equal. Qed.

Lemma omap_bind {A B C} (f : B → option C) (g : A → list B) (l : list A) : omap f (l ≫= g) = l ≫= λ x, omap f (g x).
Proof. induction l as [|x l IH]; [done|]. cbn [mbind list_bind]. by rewrite omap_app, IH. Qed.

Lemma bind_none {A B} (f : A → list B) l : (∀ x, f x = []) → l ≫= f = [].
Proof. intros Hf. induction l as [|x l IH]; [done|]. cbn. by rewrite Hf. Qed.

Lemma bind_one {A B} (f : A → list B) (h : A → B) l : (∀ x, f x = [h x]) → l ≫= f = h <$> l.
Proof. intros Hf. induction l as [|x l IH]; [done|]. cbn. rewrite Hf. cbn. by f_equal. Qed.

Lemma bind_some {A B} (f : A → list B) (h : A → option B) l : (∀ x, f x = option_list (h x)) → l ≫= f = omap h l.
Proof. intros Hf. induction l as [|x l IH]; [done|]. cbn. rewrite Hf. destruct (h x); cbn; [by f_equal|done]. Qed.

Lemma join_cons {A} (x : list A) l : mjoin (x :: l) = x ++ mjoin l.
Proof. done. Qed.

Lemma Forall_entries {K V} `{Countable K} (P : K * V → Prop) (m : gmap K V) :
  (∀ k v, m !! k = Some v → P (k, v)) → Forall P (map_to_list m).
Proof. intros Hm. apply Forall_forall. intros [k v] Hk%elem_of_map_to_list. by apply Hm. Qed.

Lemma bind_join {A B} (g : A → list B) (l : list (list A)) : (l ≫= λ xs, xs ≫= g) = mjoin l ≫= g.
Proof. induction l as [|xs l IH]; [done|]. cbn [mbind list_bind mjoin list_join]. rewrite bind_app. by f_equal. Qed.

(** A variable that is only set to one value. *)
Lemma foldl_set {A} (f : change → option A) es (x z : A) :
  (∀ e y, e ∈ es → f e = Some y → y = z) → (∃ e, e ∈ es ∧ f e = Some z) → foldl (λ x e, default x (f e)) x es = z.
Proof.
  intros Hz Hin. assert ((∃ e, e ∈ es ∧ f e = Some z) ∨ x = z) as Hor by (by left). clear Hin. revert x Hor.
  induction es as [|e l IH]; intros x Hor; cbn [foldl].
  { destruct Hor as [(e & He & _)|?]; [by apply elem_of_nil in He|done]. }
  apply IH; [set_solver|]. destruct (f e) as [y|] eqn:Ef; cbn; [right; apply (Hz e); set_solver|].
  destruct Hor as [(e' & [->|He]%elem_of_cons & Ez)|?]; [congruence|left; eauto|by right].
Qed.

Definition node_of (e : change) : option (string * KeeperNode) := match e with AddNode p n => Some (p, n) | _ => None end.
Definition auth_of (e : change) : option (Z * AuthIDs) := match e with AddAuth k ids => Some (k, ids) | _ => None end.
Definition session_of (e : change) : option (Z * Z) := match e with AddSession _ k t => Some (k, t) | _ => None end.
Definition mapping_of (e : change) : option (Z * ACLs) := match e with AddMapping id acls => Some (id, acls) | _ => None end.
Definition number_of (e : change) : option (ACLs * Z) := match e with AddMapping id acls => Some (acls, id) | _ => None end.
Definition usage_of (e : change) : option Z := match e with AddUsage id => Some id | _ => None end.

Section totals.
Context (s : KeeperStore) (Hs : own_wf s) (es : list change).

Lemma changed_container : NoDup (omap node_of es).*1 → container (changed es s) = list_to_map (omap node_of es) ∪ container s.
Proof. intros Hnd. rewrite (changed_part container (λ e, insert_opt (node_of e))); [by apply foldl_inserts|by_change|done]. Qed.

Lemma changed_auth : NoDup (omap auth_of es).*1 → session_and_auth (changed es s) = list_to_map (omap auth_of es) ∪ session_and_auth s.
Proof. intros Hnd. rewrite (changed_part session_and_auth (λ e, insert_opt (auth_of e))); [by apply foldl_inserts|by_change|done]. Qed.

Lemma changed_mapping : NoDup (omap mapping_of es).*1 →
  num_to_acl (acl_map (changed es s)) = list_to_map (omap mapping_of es) ∪ num_to_acl (acl_map s).
Proof.
  intros Hnd. rewrite (changed_part (λ s, num_to_acl (acl_map s)) (λ e, insert_opt (mapping_of e))); [by apply foldl_inserts|by_change|done].
Qed.

Lemma changed_numbers : NoDup (omap number_of es).*1 →
  acl_to_num (acl_map (changed es s)) = list_to_map (omap number_of es) ∪ acl_to_num (acl_map s).
Proof.
  intros Hnd. rewrite (changed_part (λ s, acl_to_num (acl_map s)) (λ e, insert_opt (number_of e))); [by apply foldl_inserts|by_change|done].
Qed.

Lemma changed_sessions : session_and_timeout (changed es s) = session_and_timeout s ∪ list_to_map (omap session_of es).
Proof.
  rewrite (changed_part session_and_timeout (λ e m, match session_of e with Some (k, t) => emplace_timeout k t m | None => m end));
    [|by_change|done].
  generalize (session_and_timeout s). clear. induction es as [|e l IH]; intros m; cbn [foldl omap list_omap].
  { by rewrite right_id_L by apply _. }
  rewrite IH. destruct (session_of e) as [[k t]|]; [|done]. rewrite list_to_map_cons.
  unfold emplace_timeout. generalize (list_to_map (omap session_of l) : gmap Z Z). intros m'. apply map_eq. intros i.
  destruct (m !! k) as [x|] eqn:Hk; rewrite !lookup_union; destruct (decide (i = k)) as [->|Hne];
    rewrite ?lookup_insert_eq, ?lookup_insert_ne, ?Hk by done; try done; by destruct (m' !! k).
Qed.

Lemma changed_ephemerals k p :
  p ∈ eph_of (ephemerals (changed es s)) k ↔ AddEphemeral k p ∈ es ∨ p ∈ eph_of (ephemerals s) k.
Proof.
  rewrite (changed_part ephemerals (λ e m, match e with AddEphemeral k p => set_emplace k p m | _ => m end)); [|by_change|done].
  generalize (ephemerals s). clear. induction es as [|e l IH]; intros m; cbn [foldl]; [set_solver|].
  rewrite IH, elem_of_cons. destruct e; try naive_solver. rewrite eph_of_emplace. case_decide; set_solver.
Qed.

Lemma changed_zxid z : (∀ z', SetZxid z' ∈ es → z' = z) → SetZxid z ∈ es → zxid (changed es s) = z.
Proof.
  intros Hz Hin. rewrite (changed_part zxid (λ e x, default x (match e with SetZxid z => Some z | _ => None end))); [|by_change|done].
  apply foldl_set; [|by exists (SetZxid z)]. intros e y He. destruct e; try done. intros [= <-]. by apply Hz.
Qed.

Lemma changed_counter z : (∀ z', SetCounter z' ∈ es → z' = z) → SetCounter z ∈ es → session_id_counter (changed es s) = z.
Proof.
  intros Hz Hin. rewrite (changed_part session_id_counter (λ e x, default x (match e with SetCounter z => Some z | _ => None end))); [|by_change|done].
  apply foldl_set; [|by exists (SetCounter z)]. intros e y He. destruct e; try done. intros [= <-]. by apply Hz.
Qed.

(** The usages of a number are counted. *)
Lemma changed_usage id :
  id ≠ 0 → usage (acl_map s) id = 0 → Z.of_nat (length (filter (λ x, x = id) (omap usage_of es))) < 2 ^ 64 →
  usage (acl_map (changed es s)) id = Z.of_nat (length (filter (λ x, x = id) (omap usage_of es))).
Proof.
  intros Hid H0 Hlt.
  rewrite (changed_part (λ s, usage (acl_map s) id) (λ e x, match usage_of e with Some k => if k =? id then u64 (x + 1) else x | None => x end)).
  - rewrite H0. enough (∀ x, 0 <= x → x + Z.of_nat (length (filter (λ x, x = id) (omap usage_of es))) < 2 ^ 64 →
      foldl (λ x e, match usage_of e with Some k => if k =? id then u64 (x + 1) else x | None => x end) x es =
      x + Z.of_nat (length (filter (λ x, x = id) (omap usage_of es)))) as Hx by (apply Hx; lia).
    clear. induction es as [|e l IH]; intros x Hx Hlt; cbn [foldl omap list_omap] in *; [cbn; lia|].
    destruct (usage_of e) as [k|]; [|by apply IH]. rewrite filter_cons in Hlt |- *.
    destruct (Z.eqb_spec k id) as [->|Hne]; [rewrite decide_True in Hlt |- * by done|rewrite decide_False in Hlt |- * by done; by apply IH].
    cbn [length] in Hlt |- *. rewrite wrap_u_id by (unfold in_u; lia). rewrite IH by lia. lia.
  - intros e s' Hs'. destruct e; try done; [|destruct (addSession_parts now session_id timeout s' Hs') as [? ->]; done].
    cbn. unfold addUsage, usage. destruct (Z.eqb_spec acl_id 0) as [->|Hz].
    + by rewrite (proj2 (Z.eqb_neq 0 id)) by done.
    + cbn. rewrite lookup_insert. destruct (Z.eqb_spec acl_id id) as [->|]; [by rewrite decide_True|by rewrite decide_False].
  - done.
Qed.

Lemma changed_max id acls : AddMapping id acls ∈ es → 0 <= id < 2 ^ 64 - 1 → id < max_acl_id (acl_map (changed es s)).
Proof.
  rewrite (changed_part (λ s, max_acl_id (acl_map s)) (λ e x, match e with AddMapping id _ => Z.max (u64 (id + 1)) x | _ => x end));
    [|by_change|done].
  intros Hin Hid. generalize (max_acl_id (acl_map s)). revert Hin. clear -Hid.
  assert (∀ l x y, x <= y → x <= foldl (λ x e, match e with AddMapping id _ => Z.max (u64 (id + 1)) x | _ => x end) y l) as Hmon.
  { induction l as [|e l IH]; intros x y Hxy; cbn [foldl]; [done|]. destruct e; apply IH; lia. }
  induction es as [|e l IH]; intros Hin x; [by apply elem_of_nil in Hin|]. cbn [foldl].
  apply elem_of_cons in Hin as [<-|Hin]; [|by apply IH].
  enough (id + 1 <= foldl (λ x e, match e with AddMapping id _ => Z.max (u64 (id + 1)) x | _ => x end) (Z.max (u64 (id + 1)) x) l) by lia.
  apply Hmon. rewrite wrap_u_id by (unfold in_u; lia). lia.
Qed.
End totals.

(** ** The threads share the objects *)

Section threads.
Context `{BatchCodec} (put_str : bytes → bytes) (clock : Z → Z) (junk junk' : Z) (fs : Files).

(** What a thread does of the objects [l], numbered from [n] on. *)
Definition share (t n : nat) (l : list (list change)) : list change :=
  imap (λ i es, (n + i, es)%nat) l ≫= λ '(i, es), if bool_decide (i `mod` SNAPSHOT_THREAD_NUM = t)%nat then es else [].

Lemma share_cons t n es l :
  share t n (es :: l) = (if bool_decide (n `mod` SNAPSHOT_THREAD_NUM = t)%nat then es else []) ++ share t (S n) l.
Proof.
  unfold share. cbn [imap mbind list_bind]. rewrite Nat.add_0_r. f_equal. f_equal. apply imap_ext. intros i x _. cbn. f_equal. lia.
Qed.

Lemma thread_run t n paths ess :
  Forall2 (λ p es, performs (parseOneObject put_str clock junk junk' p fs) es (Ret true)) paths ess →
  performs (foldr (λ '(obj_idx, path) rest,
    (if bool_decide (obj_idx `mod` SNAPSHOT_THREAD_NUM = t)%nat
     then swallow (parseOneObject put_str clock junk junk' path fs) else mret tt);; rest)
    (mret tt) (imap (λ i p, (n + i, p)%nat) paths)) (share t n ess) (Ret tt).
Proof.
  intros Hp. revert n. induction Hp as [|p es paths ess Hp Hps IH]; intros n; [apply performs_ret|]. rewrite share_cons.
  cbn [imap foldr]. rewrite Nat.add_0_r. apply (performs_bind _ _ _ _ tt).
  - case_bool_decide; [by apply (performs_swallow _ _ true)|apply performs_ret].
  - rewrite (imap_ext _ (λ i p, (S n + i, p)%nat)); [apply IH|]. intros i x _. cbn. f_equal. lia.
Qed.

Lemma join_app_each {A} (f g : nat → list A) (l : list nat) :
  mjoin ((λ t, f t ++ g t) <$> l) ≡ₚ mjoin (f <$> l) ++ mjoin (g <$> l).
Proof.
  induction l as [|t l IH]; [done|].
  change ((f t ++ g t) ++ mjoin ((λ t, f t ++ g t) <$> l) ≡ₚ (f t ++ mjoin (f <$> l)) ++ g t ++ mjoin (g <$> l)).
  rewrite IH. solve_Permutation.
Qed.

(** Every object is some thread's. *)
Lemma shares_all n l : mjoin ((λ t, share t n l) <$> seq 0 SNAPSHOT_THREAD_NUM) ≡ₚ mjoin l.
Proof.
  revert n. induction l as [|es l IH]; intros n; [done|].
  rewrite (list_fmap_ext _ (λ t, (if bool_decide (n `mod` SNAPSHOT_THREAD_NUM = t)%nat then es else []) ++ share t (S n) l))
    by (intros ? ? _; apply share_cons).
  rewrite join_app_each, IH. change (mjoin (es :: l)) with (es ++ mjoin l). f_equiv.
  pose proof (Nat.mod_upper_bound n SNAPSHOT_THREAD_NUM ltac:(unfold SNAPSHOT_THREAD_NUM; lia)) as Hr.
  revert Hr. generalize (n `mod` SNAPSHOT_THREAD_NUM)%nat. unfold SNAPSHOT_THREAD_NUM. intros r Hr.
  do 8 (destruct r as [|r]; [cbn; by rewrite ?app_nil_r|]). lia.
Qed.
End threads.

Lemma Forall2_permute {A B} (P : A → B → Prop) l l' k :
  l ≡ₚ l' → Forall2 P l k → ∃ k', k ≡ₚ k' ∧ Forall2 P l' k'.
Proof.
  intros Hl. revert k. induction Hl as [|x l l' Hl IH|x y l|l1 l2 l3 _ IH1 _ IH2]; intros k Hk.
  - exists k. by inversion Hk.
  - inversion Hk as [|? z ? k0 Hz Hk0]; subst. destruct (IH k0 Hk0) as (k' & ? & ?). exists (z :: k'). split; [by constructor|by constructor].
  - inversion Hk as [|? z1 ? k0 Hz1 Hk0]; subst. inversion Hk0 as [|? z2 ? k1 Hz2 Hk1]; subst. exists (z2 :: z1 :: k1).
    split; [apply perm_swap|by repeat constructor].
  - destruct (IH1 k Hk) as (k' & E1 & Hk'). destruct (IH2 k' Hk') as (k'' & E2 & Hk''). exists k''. split; [by rewrite E1|done].
Qed.

(** ** Loading a snapshot makes the changes of its objects *)

Section restore.
Context `{BatchCodec} (put_str : bytes → bytes) (clock : Z → Z) (junk junk' : Z) (fs : Files).

Lemma threads_share paths ess :
  Forall2 (λ p es, performs (parseOneObject put_str clock junk junk' p fs) es (Ret true)) paths ess →
  Forall2 (λ t es, performs t es (Ret tt)) (thread_load put_str clock junk junk' paths fs <$> seq 0 SNAPSHOT_THREAD_NUM)
    ((λ t, share t 0 ess) <$> seq 0 SNAPSHOT_THREAD_NUM).
Proof. intros Hp. apply Forall2_fmap, Forall_Forall2_diag, Forall_forall. intros t _. exact (thread_run put_str clock junk junk' fs t 0 paths ess Hp). Qed.

Lemma parseObject_changes st schedule s o paths ess :
  own_wf s → objects_of st ≡ₚ paths →
  Forall2 (λ p es, performs (parseOneObject put_str clock junk junk' p fs) es (Ret true)) paths ess →
  parseObject put_str clock junk junk' schedule st fs s = Some o →
  ∃ made, made ≡ₚ mjoin ess ∧ o = buildPathChildren false (changed made s).
Proof.
  intros Hs Hperm Hp. destruct (Forall2_permute _ _ _ _ (symmetry Hperm) Hp) as (ess' & Hess & Hp').
  unfold parseObject. destruct (run_threads _ _ _) as [ts s'] eqn:Er. intros Ho.
  destruct (run_threads_changes _ _ _ _ _ _ Hs (threads_share _ _ Hp') Er) as (made & rest & -> & Hrest & Hall).
  rewrite (all_completed _ _ Hrest) in Ho. case_bool_decide as Hnil; [|done]. injection Ho as <-. exists made. split; [|done].
  rewrite Hnil, app_nil_r in Hall. rewrite Hall, shares_all. by rewrite Hess.
Qed.

Lemma parseObject_ends st s paths ess :
  own_wf s → objects_of st ≡ₚ paths →
  Forall2 (λ p es, performs (parseOneObject put_str clock junk junk' p fs) es (Ret true)) paths ess →
  ∃ schedule, is_Some (parseObject put_str clock junk junk' schedule st fs s).
Proof.
  intros Hs Hperm Hp. destruct (Forall2_permute _ _ _ _ (symmetry Hperm) Hp) as (ess' & Hess & Hp').
  destruct (threads_end _ _ s Hs (threads_share _ _ Hp')) as [schedule Hend].
  exists schedule. unfold parseObject. destruct (run_threads _ _ _) as [ts s']. cbn in Hend. rewrite Hend. by eexists.
Qed.
End restore.

(** ** The objects of a snapshot *)

Section paths.
Context `{BatchCodec} (st : KeeperSnapshotStore).

Lemma add_paths_objects n : objects_path st = ∅ →
  map_to_list (objects_path (add_paths n st)) ≡ₚ (λ i, (Z.of_nat i, getObjectPath st (Z.of_nat i))) <$> seq 1 n.
Proof.
  intros H0. set (f := λ i : nat, (Z.of_nat i, getObjectPath st (Z.of_nat i))).
  assert (NoDup (omap (λ i, Some (f i)) (seq 1 n)).*1) as Hnd.
  { rewrite omap_always, <-list_fmap_compose. apply NoDup_fmap_2; [|apply NoDup_seq]. intros i j Hij. cbn in Hij. lia. }
  assert (∀ l s, objects_path (foldl (λ s i, addObjectPath (Z.of_nat i) (getObjectPath st (Z.of_nat i)) s) s l) =
    foldl (λ m i, insert_opt (Some (f i)) m) (objects_path s) l) as Hfold by (induction l as [|i l IH]; intros s; [done|]; cbn [foldl]; by rewrite IH).
  unfold add_paths. rewrite Hfold, foldl_inserts, H0 by exact Hnd. rewrite (right_id_L ∅ (∪)). rewrite omap_always in Hnd |- *.
  by apply map_to_list_to_map.
Qed.

Lemma close_objects_other objs id fs p :
  (∀ k, id <= k → p ≠ getObjectPath st k) → close_objects st id objs fs !! p = fs !! p.
Proof.
  revert id fs. induction objs as [|bs objs IH]; intros id fs Hp; [done|]. cbn [close_objects]. rewrite IH by (intros k Hk; apply Hp; lia).
  apply lookup_insert_ne. intros E. by apply (Hp id).
Qed.

Lemma lookup_close_objects objs id fs i bs :
  objs !! i = Some bs → close_objects st id objs fs !! getObjectPath st (id + Z.of_nat i) = Some (object_bytes bs).
Proof.
  revert id fs i. induction objs as [|x objs IH]; intros id fs [|i] Hi; try done; cbn [close_objects].
  - injection Hi as ->. rewrite Z.add_0_r, close_objects_other; [by rewrite lookup_insert_eq|]. intros k Hk E%getObjectPath_inj. lia.
  - replace (id + Z.of_nat (S i)) with (id + 1 + Z.of_nat i) by lia. by apply IH.
Qed.

Lemma objects_stored objs fs :
  Forall2 (λ p bs, close_objects st 1 objs fs !! p = Some (object_bytes bs))
    ((λ i, getObjectPath st (Z.of_nat i)) <$> seq 1 (length objs)) objs.
Proof.
  apply Forall2_same_length_lookup_2; [by rewrite length_fmap, length_seq|]. intros i p bs Hp Hbs.
  apply list_lookup_fmap_Some in Hp as (k & -> & Hk). apply lookup_seq in Hk as [-> _].
  replace (Z.of_nat (1 + i)) with (1 + Z.of_nat i) by lia. by apply lookup_close_objects.
Qed.

Lemma objects_listed n : objects_path st = ∅ → objects_of (add_paths n st) ≡ₚ (λ i, getObjectPath st (Z.of_nat i)) <$> seq 1 n.
Proof. intros H0. unfold objects_of. rewrite merge_sort_Permutation, (add_paths_objects n H0). by rewrite <-list_fmap_compose. Qed.
End paths.

(** ** The store a snapshot restores *)

(** What fits the items: strings and lists within the limit of the wire format,
    numbers within their widths. Ephemeral nodes are those with an owner. *)
Record storable (s : KeeperStore) : Prop := {
  st_nodes p n : container s !! p = Some n → storable_node (p, n) ∧ (node_is_ephemeral n = true ↔ ephemeralOwner (node_stat n) ≠ 0);
  st_sessions sid t : session_and_timeout s !! sid = Some t → storable_session (session_and_auth s) (sid, t);
  st_acls id acls : num_to_acl (acl_map s) !! id = Some acls → storable_acl (id, acls) ∧ id < 2 ^ 64 - 1;
  st_size : Z.of_nat (size (container s)) < 2 ^ 31 - 4
}.

(** The strings and lists of the store keep to the limit of the wire format. *)
Record within_limits (s : KeeperStore) : Prop := {
  wl_nodes p n : container s !! p = Some n → string_ok p ∧ string_ok (node_data n) ∧ node_acl_id n < 2 ^ 64 - 1;
  wl_sessions sid t : session_and_timeout s !! sid = Some t → vec_ok AuthID_ok (default [] (session_and_auth s !! sid));
  wl_acls id acls : num_to_acl (acl_map s) !! id = Some acls → vec_ok ACL_ok acls;
  wl_size : Z.of_nat (size (container s)) < 2 ^ 31 - 4
}.

Lemma typed_storable s : store_typed s → ACLMap_wf (acl_map s) → within_limits s → storable s.
Proof.
  intros Ht Hacl Hl. split.
  - intros p n Hn. destruct (ty_nodes s Ht p n Hn) as [H1 H2 H3], (wl_nodes s Hl p n Hn) as (H4 & H5 & H6). unfold in_u in H3.
    split; [|done]. split_and!; [done|done|cbn; lia|cbn; lia|done].
  - intros sid t Hs. destruct (ty_sessions s Ht sid t Hs). split_and!; [done|done|]. by apply (wl_sessions s Hl sid t).
  - intros id acls Hid. pose proof (wf_range _ Hacl _ _ Hid) as Hr. destruct (ty_acl s Ht) as [Hmax _]. unfold in_u in Hmax.
    split; [|lia]. split; [cbn; lia|]. by apply (wl_acls s Hl id).
  - apply Hl.
Qed.

(** The restored store has the same tree, sessions, credentials of live sessions
    and ACL numbers, the counters of the snapshot, and as many usages of an ACL
    number as there are nodes with it. *)
Record restored (s : KeeperStore) (next_zxid next_session_id : Z) (s' : KeeperStore) : Prop := {
  re_container : container s' = container s;
  re_ephemerals : eph_equiv (ephemerals s') (ephemerals s);
  re_sessions : session_and_timeout s' = session_and_timeout s;
  re_auth sid : is_Some (session_and_timeout s !! sid) →
    default [] (session_and_auth s' !! sid) = default [] (session_and_auth s !! sid);
  re_num : num_to_acl (acl_map s') = num_to_acl (acl_map s);
  re_acl : acl_to_num (acl_map s') = acl_to_num (acl_map s);
  re_usage id : id ≠ 0 → usage (acl_map s') id = acl_count (container s) id;
  re_fresh id acls : num_to_acl (acl_map s) !! id = Some acls → id < max_acl_id (acl_map s');
  re_zxid : zxid s' = next_zxid;
  re_counter : session_id_counter s' = next_session_id
}.

(** All the changes of a snapshot, object by object. *)
Definition all_changes (clock : Z → Z) (s : KeeperStore) (counters : list change) : list change :=
  counters ++ (map_to_list (session_and_timeout s) ≫= session_changes clock (session_and_auth s)) ++
  (map_to_list (num_to_acl (acl_map s)) ≫= λ x, [AddMapping x.1 x.2]) ++ (map_to_list (container s) ≫= node_changes).

(** The changes the counters make. *)
Definition counters_only (next_zxid next_session_id : Z) (l : list change) : Prop :=
  SetZxid next_zxid ∈ l ∧ SetCounter next_session_id ∈ l ∧ ∀ e, e ∈ l → e = SetZxid next_zxid ∨ e = SetCounter next_session_id.

Lemma omap_counters {A} (f : change → option A) z n l :
  counters_only z n l → f (SetZxid z) = None → f (SetCounter n) = None → omap f l = [].
Proof.
  intros (_ & _ & Hl) H1 H2. induction l as [|e l IH]; [done|]. cbn. destruct (Hl e ltac:(set_solver)) as [-> | ->];
    [rewrite H1|rewrite H2]; apply IH; set_solver.
Qed.

Section changes.
Context (clock : Z → Z) (s : KeeperStore) (counters : list change) (z n : Z) (Hc : counters_only z n counters).

Ltac omap_all f :=
  unfold all_changes; rewrite !omap_app, (omap_counters f z n counters Hc), !omap_bind by done; cbn [app].

(** The three kinds of items: nothing of a kind, or one each. *)
Ltac no_items := rewrite bind_none; [cbn [app]|
  let x := fresh "x" in intros x; unfold session_changes, node_changes; repeat case_match; reflexivity].
Ltac one_item := apply bind_one; let x := fresh "x" in intros x; unfold session_changes, node_changes; repeat case_match; reflexivity.

Lemma all_nodes : omap node_of (all_changes clock s counters) = (λ x, (x.1, strip false x.2)) <$> map_to_list (container s).
Proof. omap_all node_of. do 2 no_items. one_item. Qed.

Lemma all_usages : omap usage_of (all_changes clock s counters) = (λ x, node_acl_id x.2) <$> map_to_list (container s).
Proof. omap_all usage_of. do 2 no_items. one_item. Qed.

Lemma all_sessions : omap session_of (all_changes clock s counters) = map_to_list (session_and_timeout s).
Proof.
  omap_all session_of. rewrite (bind_one _ (λ x, (x.1, x.2))).
  - do 2 no_items. rewrite app_nil_r. rewrite <-(list_fmap_id (map_to_list (session_and_timeout s))) at 2.
    apply list_fmap_ext. by intros ? [? ?] _.
  - intros x. unfold session_changes. by case_match.
Qed.

Lemma all_mappings : omap mapping_of (all_changes clock s counters) = map_to_list (num_to_acl (acl_map s)).
Proof.
  omap_all mapping_of. no_items. rewrite (bind_one _ (λ x, (x.1, x.2))) by done. no_items. rewrite app_nil_r.
  rewrite <-(list_fmap_id (map_to_list (num_to_acl (acl_map s)))) at 2. apply list_fmap_ext. by intros ? [? ?] _.
Qed.

Lemma all_numbers : omap number_of (all_changes clock s counters) = (λ x, (x.2, x.1)) <$> map_to_list (num_to_acl (acl_map s)).
Proof. omap_all number_of. no_items. rewrite (bind_one _ (λ x, (x.2, x.1))) by done. no_items. by rewrite app_nil_r. Qed.

Lemma all_auths : omap auth_of (all_changes clock s counters) =
  omap (λ x, match default [] (session_and_auth s !! x.1) with [] => None | ids => Some (x.1, ids) end) (map_to_list (session_and_timeout s)).
Proof.
  omap_all auth_of. rewrite (bind_some _ (λ x, match default [] (session_and_auth s !! x.1) with [] => None | ids => Some (x.1, ids) end)).
  - do 2 no_items. by rewrite app_nil_r.
  - intros x. unfold session_changes. by destruct (default [] _).
Qed.

Lemma all_ephemerals k p : AddEphemeral k p ∈ all_changes clock s counters ↔
  ∃ m, container s !! p = Some m ∧ ephemeralOwner (node_stat m) = k ∧ k ≠ 0.
Proof.
  unfold all_changes. rewrite !elem_of_app, !list_elem_of_bind. split.
  - intros [Hin|[(x & Hin & _)|[(x & Hin & _)|([q m] & Hin & Hm)]]].
    + destruct Hc as (_ & _ & Ho). destruct (Ho _ Hin); done.
    + unfold session_changes in Hin. case_match; set_solver.
    + set_solver.
    + apply elem_of_map_to_list in Hm. unfold node_changes in Hin. cbn [fst snd] in Hin.
      destruct (Z.eqb_spec (ephemeralOwner (node_stat m)) 0) as [E|E]; [set_solver|].
      assert (AddEphemeral k p = AddEphemeral (ephemeralOwner (node_stat m)) q) as [= -> ->] by set_solver. by exists m.
  - intros (m & Hm & Ho & Hk). do 3 right. exists (p, m). split; [|by apply elem_of_map_to_list].
    unfold node_changes. cbn [fst snd]. rewrite Ho, (proj2 (Z.eqb_neq _ _) Hk). set_solver.
Qed.
End changes.

(** Changes of one kind, in whatever order. *)
Lemma gathered {K V} `{Countable K} (f : change → option (K * V)) es es' l :
  es ≡ₚ es' → omap f es' = l → NoDup l.*1 →
  NoDup (omap f es).*1 ∧ (list_to_map (omap f es) : gmap K V) = list_to_map l.
Proof.
  intros He <- Hnd. assert (omap f es ≡ₚ omap f es') as Ho by (by rewrite He).
  assert (NoDup (omap f es).*1) as Hnd' by (by rewrite Ho). split; [done|]. by apply list_to_map_proper.
Qed.

Section made.
Context (clock : Z → Z) (s : KeeperStore) (z n : Z) (counters made : list change) (tick : Z) (digest : string).
Context (Hc : counters_only z n counters) (Hmade : made ≡ₚ all_changes clock s counters).
Context (Hwf : tree_wf (container s) (ephemerals s)) (Hacl : ACLMap_wf (acl_map s)) (Hst : storable s).
Abbreviation s0 := (KeeperStore_new tick digest).

Lemma new_own : own_wf s0.
Proof. apply Queue_new_wf. Qed.

Lemma made_container : container (changed made s0) = strip false <$> container s.
Proof.
  destruct (gathered node_of _ _ _ Hmade (all_nodes clock s counters z n Hc)) as [Hnd Hm].
  { rewrite <-list_fmap_compose. apply NoDup_fst_map_to_list. }
  rewrite (changed_container s0 new_own made Hnd), Hm.
  rewrite (list_fmap_ext _ (prod_map id (strip false))) by (by intros ? [] _).
  rewrite list_to_map_fmap, list_to_map_to_list. apply map_eq. intros p. destruct (wf_root _ _ Hwf) as (r & Hr & _).
  rewrite lookup_union. cbn [container KeeperStore_new]. destruct (decide (p = "/")) as [->|Hp].
  - by rewrite lookup_fmap, Hr, lookup_singleton_eq.
  - rewrite lookup_singleton_ne by done. by destruct ((strip false <$> container s) !! p).
Qed.

Lemma made_sessions : session_and_timeout (changed made s0) = session_and_timeout s.
Proof.
  destruct (gathered session_of _ _ _ Hmade (all_sessions clock s counters z n Hc)) as [_ Hm]; [apply NoDup_fst_map_to_list|].
  rewrite (changed_sessions s0 new_own made), Hm. cbn [session_and_timeout KeeperStore_new]. by rewrite (left_id_L ∅ (∪)), list_to_map_to_list.
Qed.

Lemma made_num : num_to_acl (acl_map (changed made s0)) = num_to_acl (acl_map s).
Proof.
  destruct (gathered mapping_of _ _ _ Hmade (all_mappings clock s counters z n Hc)) as [Hnd Hm]; [apply NoDup_fst_map_to_list|].
  rewrite (changed_mapping s0 new_own made Hnd), Hm. cbn. by rewrite (right_id_L ∅ (∪)), list_to_map_to_list.
Qed.

(** The numbers of the lists are as unique as the lists. *)
Lemma numbers_unique : NoDup ((λ x, (x.2, x.1)) <$> map_to_list (num_to_acl (acl_map s))).*1.
Proof.
  rewrite <-list_fmap_compose. apply NoDup_fmap_2_strong; [|apply NoDup_map_to_list].
  intros [i a] [j b] Hi%elem_of_map_to_list Hj%elem_of_map_to_list E. cbn in E. subst b.
  apply (wf_to_acl _ Hacl) in Hi, Hj. congruence.
Qed.

Lemma made_acl : acl_to_num (acl_map (changed made s0)) = acl_to_num (acl_map s).
Proof.
  destruct (gathered number_of _ _ _ Hmade (all_numbers clock s counters z n Hc)) as [Hnd Hm]; [apply numbers_unique|].
  rewrite (changed_numbers s0 new_own made Hnd), Hm. cbn [acl_to_num acl_map KeeperStore_new ACLMap_empty]. rewrite (right_id_L ∅ (∪)).
  apply map_eq. intros acls. apply option_eq. intros id. rewrite <-elem_of_list_to_map by apply numbers_unique.
  rewrite list_elem_of_fmap. split.
  - intros ([i a] & [= -> ->] & Hi%elem_of_map_to_list). by apply (wf_to_acl _ Hacl).
  - intros Ha%(wf_to_num _ Hacl). exists (id, acls). split; [done|by apply elem_of_map_to_list].
Qed.

Lemma made_auth sid : is_Some (session_and_timeout s !! sid) →
  default [] (session_and_auth (changed made s0) !! sid) = default [] (session_and_auth s !! sid).
Proof.
  set (f := λ x : Z * Z, match default [] (session_and_auth s !! x.1) with [] => None | ids => Some (x.1, ids) end).
  assert (∀ x y, f x = Some y → y = (x.1, default [] (session_and_auth s !! x.1))) as Hf.
  { intros x y. unfold f. by destruct (default [] _); [|intros [= <-]]. }
  assert (NoDup (omap f (map_to_list (session_and_timeout s))).*1) as Hnd.
  { apply (sublist_NoDup _ (map_to_list (session_and_timeout s)).*1); [apply NoDup_fst_map_to_list|].
    generalize (map_to_list (session_and_timeout s)). clear -Hf. induction l as [|x l IH]; cbn; [done|].
    destruct (f x) as [y|] eqn:Ex; cbn; [rewrite (Hf _ _ Ex); by apply sublist_skip|by apply sublist_cons]. }
  destruct (gathered auth_of _ _ _ Hmade (all_auths clock s counters z n Hc) Hnd) as [Hnd' Hm].
  intros [t Ht]. rewrite (changed_auth s0 new_own made Hnd'), Hm. cbn [session_and_auth KeeperStore_new]. rewrite (right_id_L ∅ (∪)).
  fold f. destruct (list_to_map _ !! sid) as [ids|] eqn:El.
  - apply elem_of_list_to_map in El; [|exact Hnd]. apply list_elem_of_omap in El as (x & _ & Ex). apply Hf in Ex. by injection Ex as -> ->.
  - apply not_elem_of_list_to_map in El. destruct (default [] (session_and_auth s !! sid)) as [|a ids] eqn:Ed; [done|]. destruct El.
    apply list_elem_of_fmap. exists (sid, a :: ids). split; [done|]. apply list_elem_of_omap. exists (sid, t).
    split; [by apply elem_of_map_to_list|]. unfold f. cbn. by rewrite Ed.
Qed.

Lemma made_ephemerals : eph_equiv (ephemerals (changed made s0)) (ephemerals s).
Proof.
  intros k. apply set_eq. intros p. rewrite (changed_ephemerals s0 new_own made), Hmade, (all_ephemerals clock s counters z n Hc), (wf_eph _ _ Hwf).
  split.
  - intros [(m & Hm & <- & Hk)|Hp]; [|by apply elem_of_empty in Hp]. exists m. split_and!; [done| |done].
    by apply (st_nodes s Hst p m Hm).
  - intros (m & Hm & He & <-). left. exists m. split_and!; [done|done|]. by apply (st_nodes s Hst p m Hm).
Qed.

Lemma count_nodes (c : Tree) id : length (filter (λ x, x = id) ((λ x, node_acl_id x.2) <$> map_to_list c)) = Z.to_nat (acl_count c id).
Proof.
  unfold acl_count. rewrite Nat2Z.id. induction c as [|p m c Hp IH] using map_ind; [done|].
  pose proof (acl_count_insert c p m id Hp) as Hi. unfold acl_count, one_if in Hi. rewrite map_to_list_insert by done. cbn [fmap list_fmap snd].
  rewrite filter_cons. destruct (Z.eqb_spec (node_acl_id m) id); [rewrite decide_True by done|rewrite decide_False by done]; cbn [length]; lia.
Qed.

Lemma made_usage id : id ≠ 0 → usage (acl_map (changed made s0)) id = acl_count (container s) id.
Proof.
  intros Hid. assert (Z.of_nat (length (filter (λ x, x = id) (omap usage_of made))) = acl_count (container s) id) as Hn.
  { rewrite Hmade, (all_usages clock s counters z n Hc), count_nodes. unfold acl_count. lia. }
  rewrite (changed_usage s0 new_own made id Hid); [done|done|]. rewrite Hn. unfold acl_count.
  pose proof (st_size s Hst). enough (size (filter (λ x, node_acl_id x.2 = id) (container s)) <= size (container s))%nat by lia.
  apply map_subseteq_size, map_filter_subseteq.
Qed.

Lemma set_in e : e = SetZxid z ∨ e = SetCounter n → e ∈ counters → e ∈ made.
Proof. intros _ He. rewrite Hmade. unfold all_changes. set_solver. Qed.

Lemma set_only e : e ∈ made → (∃ x, e = SetZxid x ∨ e = SetCounter x) → e = SetZxid z ∨ e = SetCounter n.
Proof.
  rewrite Hmade. unfold all_changes. rewrite !elem_of_app, !list_elem_of_bind.
  intros [He|[(x & He & _)|[(x & He & _)|(x & He & _)]]] [y Hy].
  - destruct Hc as (_ & _ & Ho). by apply Ho.
  - unfold session_changes in He. case_bool_decide; set_solver.
  - set_solver.
  - unfold node_changes in He. destruct (_ =? 0); set_solver.
Qed.

Lemma made_restores : restored s z n (upd_container (λ _, container s) (changed made s0)).
Proof.
  split; cbn [container ephemerals session_and_timeout session_and_auth acl_map zxid session_id_counter upd_container].
  - done.
  - apply made_ephemerals.
  - apply made_sessions.
  - apply made_auth.
  - apply made_num.
  - apply made_acl.
  - apply made_usage.
  - intros id acls Hid. destruct (st_acls s Hst id acls Hid) as [[Hr _] Hlt]. cbn in Hr.
    apply (changed_max s0 new_own made id acls); [|lia]. rewrite Hmade. unfold all_changes. apply elem_of_app. right.
    apply elem_of_app. right. apply elem_of_app. left. apply list_elem_of_bind. exists (id, acls). split; [set_solver|by apply elem_of_map_to_list].
  - apply (changed_zxid s0 new_own made); [|apply set_in; [by left|apply Hc]].
    intros z' Hz. destruct (set_only _ Hz); [naive_solver|by simplify_eq|done].
  - apply (changed_counter s0 new_own made); [|apply set_in; [by right|apply Hc]].
    intros z' Hz. destruct (set_only _ Hz); [naive_solver|done|by simplify_eq].
Qed.

(** The children are attached at last. *)
Lemma made_built : buildPathChildren false (changed made s0) = (upd_container (λ _, container s) (changed made s0), Ret tt).
Proof. apply (buildPathChildren_exact _ _ _ _ Hwf), made_container. Qed.
End made.

(** ** What the files of a snapshot hold *)

Section objects.
Context `{BatchCodec} (put_str : bytes → bytes) (clock : Z → Z) (junk junk' : Z).
Hypothesis put_str_keeps : ∀ b, ∃ tail, put_str b = b ++ tail.
Hypothesis parse_serialized_batch : ∀ b, in_s 32 (batch_type b) → Z.of_nat (length (SerializeToString b)) < 2 ^ 31 → ParseFromString (SerializeToString b) = b.

(** The changes a file of these batches makes, under any name. *)
Definition object_changes (bs : list SnapshotBatchPB) (es : list change) : Prop :=
  ∀ path fs, fs !! path = Some (object_bytes bs) → performs (parseOneObject put_str clock junk junk' path fs) es (Ret true).

Lemma object_run {X} type (item : X → bytes) (ok : X → Prop) (changes : list X → list change) bs xs :
  in_s 32 type → changes [] = [] →
  (∀ b xs, batch_type b = type → batch_data b = item <$> xs → Forall ok xs →
    performs (load_batch put_str clock SNAPSHOT_V1 b) (changes xs) (Ret tt)) →
  object_ok type bs → items_of bs = item <$> xs → Forall ok xs → ∃ xss, mjoin xss = xs ∧ object_changes bs (xss ≫= changes).
Proof.
  intros Hr Hnil Ht (Hty & Hsh & Hne) Hi Hok. destruct (object_holds item ok type bs xs Hi Hok Hty Hsh) as (xss & H2 & Hx). exists xss. split; [done|].
  intros path fs Hfs. exact (parse_object_run put_str parse_serialized_batch type item ok clock changes Hr Hnil Ht bs xss junk junk' path fs H2 Hne Hfs).
Qed.

(** Objects whose items are loaded one by one. *)
Lemma each_run {X} type (item : X → bytes) (ok : X → Prop) (g : X → list change) bs xs :
  in_s 32 type → (∀ b xs, batch_type b = type → batch_data b = item <$> xs → Forall ok xs →
    performs (load_batch put_str clock SNAPSHOT_V1 b) (xs ≫= g) (Ret tt)) →
  object_ok type bs → items_of bs = item <$> xs → Forall ok xs → object_changes bs (xs ≫= g).
Proof.
  intros Hr Ht Hb Hi Hok. destruct (object_run type item ok (λ xs, xs ≫= g) bs xs Hr eq_refl Ht Hb Hi Hok) as (xss & <- & Hp).
  by rewrite bind_join in Hp.
Qed.

Lemma type_range t : (0 <=? t) && (t <? 8) = true → in_s 32 t.
Proof. unfold in_s. lia. Qed.

Lemma nodes_run nodes xs :
  Forall (object_ok SNAPSHOT_TYPE_DATA) nodes → items_of (mjoin nodes) = (λ x, node_item x.1 x.2) <$> xs → Forall storable_node xs →
  ∃ ess, Forall2 object_changes nodes ess ∧ mjoin ess = xs ≫= node_changes.
Proof.
  intros Hn Hi Hok. assert (mjoin (items_of <$> nodes) = items_of (mjoin nodes)) as Hj.
  { clear. induction nodes as [|bs l IH]; [done|]. cbn [fmap list_fmap]. by rewrite !join_cons, items_of_app, <-IH. }
  rewrite <-Hj in Hi. destruct (split_items items_of _ nodes xs Hi) as (xss & H2 & <-). exists ((λ ys, ys ≫= node_changes) <$> xss).
  split; [|rewrite <-bind_join; clear; induction xss as [|x l IH]; [done|]; cbn [fmap list_fmap mbind list_bind]; by rewrite join_cons, IH].
  clear Hi Hj. induction H2 as [|bs ys nodes xss Hb H2 IH]; [constructor|]. rewrite join_cons in Hok. apply Forall_app in Hok as [Hy Hok].
  apply Forall_cons in Hn as [Hn Hns]. constructor; [|by apply IH]. eapply (each_run SNAPSHOT_TYPE_DATA); [by apply type_range| |exact Hn|exact Hb|exact Hy].
  intros b l. by apply load_nodes_typed.
Qed.

(** The map of the counters, whatever its batches. *)
Lemma foldl_pairs (xs : list (string * Z)) k v :
  NoDup xs.*1 → foldl (λ m x, <[x.1 := x.2]> m) (∅ : gmap string Z) xs !! k = Some v ↔ (k, v) ∈ xs.
Proof.
  intros Hnd. assert (omap (λ x, Some (x.1, x.2)) xs = xs) as E by (clear; induction xs as [|[]]; cbn; congruence).
  change (foldl (λ m x, <[x.1 := x.2]> m) ∅ xs) with (foldl (λ m x, insert_opt (Some (x.1, x.2)) m) (∅ : gmap string Z) xs).
  rewrite (foldl_inserts (λ x, Some (x.1, x.2))), E, (right_id_L ∅ (∪)) by (by rewrite E). symmetry. by apply elem_of_list_to_map.
Qed.

Lemma counters_changes z n xss :
  mjoin xss ≡ₚ map_to_list (<["SESSIONID" := n]> {["ZXID" := z]} : gmap string Z) →
  counters_only z n (xss ≫= λ xs, counter_changes (foldl (λ m x, <[x.1 := x.2]> m) ∅ xs)).
Proof.
  intros Hp. assert (∀ k v, (k, v) ∈ mjoin xss ↔ (k = "SESSIONID" ∧ v = n) ∨ (k = "ZXID" ∧ v = z)) as Hin.
  { intros k v. rewrite Hp, elem_of_map_to_list, lookup_insert_Some, lookup_singleton_Some. naive_solver. }
  assert (∀ xs, xs ∈ xss → NoDup xs.*1) as Hnd.
  { assert (NoDup (mjoin xss).*1) as H1 by (rewrite Hp; apply NoDup_fst_map_to_list). revert H1. clear.
    induction xss as [|x l IH]; [set_solver|]. rewrite join_cons, fmap_app, NoDup_app. set_solver. }
  assert (∀ e, e ∈ (xss ≫= λ xs, counter_changes (foldl (λ m x, <[x.1 := x.2]> m) ∅ xs)) ↔
    (∃ v, ("ZXID", v) ∈ mjoin xss ∧ e = SetZxid v) ∨ (∃ v, ("SESSIONID", v) ∈ mjoin xss ∧ e = SetCounter v)) as He.
  { intros e. rewrite list_elem_of_bind. setoid_rewrite list_elem_of_join. unfold counter_changes. split.
    - intros (xs & Hx & Hxs). apply elem_of_app in Hx as [Hx|Hx]; [left|right]; case_match eqn:E; try (by apply elem_of_nil in Hx);
        apply list_elem_of_singleton in Hx as ->; (apply foldl_pairs in E; [|by apply Hnd]); eauto.
    - intros [(v & (xs & Hv & Hxs) & ->)|(v & (xs & Hv & Hxs) & ->)]; exists xs; (split; [|done]);
        apply foldl_pairs in Hv; try (by apply Hnd); rewrite Hv; set_solver. }
  unfold counters_only. rewrite !He. setoid_rewrite He. setoid_rewrite Hin. naive_solver.
Qed.

Lemma no_counters : counter_changes (foldl (λ m x, <[x.1 := x.2]> m) ∅ ([] : list (string * Z))) = [].
Proof. unfold counter_changes. cbn [foldl]. by rewrite !lookup_empty. Qed.

Lemma counters_storable z n :
  in_s 64 z → in_s 64 n → Forall storable_counter (map_to_list (<["SESSIONID" := n]> {["ZXID" := z]} : gmap string Z)).
Proof.
  intros Hz Hn. apply Forall_entries. intros k v. rewrite lookup_insert_Some, lookup_singleton_Some.
  intros [[<- <-]|(_ & <- & <-)]; by split.
Qed.

(** Every file of [createObjects], and all their changes together. *)
Lemma files_changes st s fs z n :
  tree_wf (container s) (ephemerals s) → storable s → in_s 64 z → in_s 64 n →
  snp_size (snap_meta st) ≠ 0 → 0 < max_object_node_size st → 0 < save_batch_size st → batches_short st s z n →
  ∃ objs counters ess, createObjects s z n (st, fs) =
      ((add_paths (length objs) st, close_objects st 1 objs fs), Ret (Z.of_nat (length objs))) ∧
    Forall2 object_changes objs ess ∧ counters_only z n counters ∧ mjoin ess ≡ₚ all_changes clock s counters ∧
    0 < Z.of_nat (length objs) < 2 ^ 31.
Proof.
  intros Hwf Hst Hz Hn Hsz Hmax Hsbs Hshort.
  destruct (createObjects_run st s fs z n Hwf Hsz Hmax Hsbs Hshort (st_size s Hst))
    as (b1 & b2 & b3 & nodes & E & I1 & I2 & I3 & I4 & O1 & O2 & O3 & O4 & Hlen). exists (b1 :: b2 :: b3 :: nodes).
  pose proof (counters_storable z n Hz Hn) as Hk.
  destruct (object_run SNAPSHOT_TYPE_UINTMAP map_item storable_counter (λ xs, counter_changes (foldl (λ m x, <[x.1 := x.2]> m) ∅ xs)) b1 _
    (type_range SNAPSHOT_TYPE_UINTMAP eq_refl) no_counters (load_counters_typed put_str put_str_keeps clock) O1 I1 Hk) as (xss & Hx & P1).
  pose proof (each_run SNAPSHOT_TYPE_SESSION _ _ _ b2 _ (type_range SNAPSHOT_TYPE_SESSION eq_refl) (load_sessions_typed put_str put_str_keeps clock (session_and_auth s)) O2 I2) as P2.
  pose proof (each_run SNAPSHOT_TYPE_ACLMAP _ _ _ b3 _ (type_range SNAPSHOT_TYPE_ACLMAP eq_refl) (load_acls_typed put_str put_str_keeps clock) O3 I3) as P3.
  pose proof (dfs_all _ _ Hwf) as Hdfs.
  destruct (nodes_run nodes _ O4 I4) as (ess & P4 & Hess).
  { rewrite Hdfs. apply Forall_entries. intros p m Hp. apply (st_nodes s Hst p m Hp). }
  eexists _, (_ :: _ :: _ :: ess). split; [exact E|]. split; [|split; [|split]].
  - constructor; [exact P1|]. constructor; [|constructor; [|exact P4]].
    + apply P2. apply Forall_entries. intros k t. apply (st_sessions s Hst).
    + apply P3. apply Forall_entries. intros id acls Hid. apply (st_acls s Hst id acls Hid).
  - apply counters_changes. by rewrite Hx.
  - rewrite !join_cons, Hess, Hdfs. done.
  - cbn [length] in Hlen |- *. lia.
Qed.

(** C11: a snapshot restores the store it was taken of. Taking a snapshot of a
    well-formed store whose data fits the file format completes; the eight loader
    threads that read the files back into a new store can end, and whichever way
    their accesses of the store interleave, when they have ended the store has the
    same tree, sessions, credentials, ephemeral nodes and ACL numbers, with the
    usages the tree has, and the counters the snapshot was taken with. *)
Theorem snapshot_roundtrip st s fs next_zxid next_session_id tick digest :
  tree_wf (container s) (ephemerals s) → ACLMap_wf (acl_map s) → store_typed s → within_limits s →
  in_s 64 next_zxid → in_s 64 next_session_id →
  snp_size (snap_meta st) ≠ 0 → 0 < max_object_node_size st → 0 < save_batch_size st → objects_path st = ∅ →
  batches_short st s next_zxid next_session_id →
  ∃ st' fs' n, createObjects s next_zxid next_session_id (st, fs) = ((st', fs'), Ret n) ∧
    (∃ schedule, is_Some (parseObject put_str clock junk junk' schedule st' fs' (KeeperStore_new tick digest))) ∧
    ∀ schedule o, parseObject put_str clock junk junk' schedule st' fs' (KeeperStore_new tick digest) = Some o →
      ∃ s', o = (s', Ret tt) ∧ restored s next_zxid next_session_id s'.
Proof.
  intros Hwf Hacl Hty Hlim Hz Hn Hsz Hmax Hsbs Hpaths Hshort. pose proof (typed_storable s Hty Hacl Hlim) as Hst.
  destruct (files_changes st s fs _ _ Hwf Hst Hz Hn Hsz Hmax Hsbs Hshort) as (objs & counters & ess & E & H2 & Hc & Hall & _).
  eexists _, _, _. split; [exact E|]. pose proof (objects_listed st (length objs) Hpaths) as Hl.
  assert (Forall2 (λ p es, performs (parseOneObject put_str clock junk junk' p (close_objects st 1 objs fs)) es (Ret true))
    ((λ i, getObjectPath st (Z.of_nat i)) <$> seq 1 (length objs)) ess) as Hp.
  { eapply Forall2_trans; [|apply objects_stored|exact H2]. intros p bs es Hf Hb. exact (Hb p _ Hf). }
  split; [exact (parseObject_ends _ _ _ _ _ _ _ _ _ (new_own tick digest) Hl Hp)|].
  intros schedule o Ho. destruct (parseObject_changes _ _ _ _ _ _ _ _ _ _ _ (new_own tick digest) Hl Hp Ho) as (made & Hm & ->).
  rewrite Hall in Hm. rewrite (made_built clock s _ _ counters made tick digest Hc Hm Hwf). eexists. split; [done|].
  exact (made_restores clock s _ _ counters made tick digest Hc Hm Hwf Hacl Hst).
Qed.
End objects.

(** ** A concrete message format *)

Module SnapshotDemo.
Fixpoint put_pos (p : positive) : bytes :=
  match p with
  | xH => [Byte.x00]
  | xO p => Byte.x01 :: put_pos p
  | xI p => Byte.x02 :: put_pos p
  end.
Fixpoint get_pos (l : bytes) : positive * bytes :=
  match l with
  | Byte.x01 :: l => let '(p, r) := get_pos l in (xO p, r)
  | Byte.x02 :: l => let '(p, r) := get_pos l in (xI p, r)
  | _ :: l => (xH, l)
  | [] => (xH, [])
  end.

(** An item is its bytes, each marked, and an end mark. *)
Definition put_item (item : bytes) : bytes := (item ≫= λ b, [Byte.x01; b]) ++ [Byte.x00].
Fixpoint get_items (fuel : nat) (cur : bytes) (l : bytes) : list bytes :=
  match fuel, l with
  | S fuel, Byte.x01 :: b :: l => get_items fuel (cur ++ [b]) l
  | S fuel, _ :: l => cur :: get_items fuel [] l
  | _, _ => []
  end.

#[global] Instance demo_codec : BatchCodec := {|
  SerializeToString b := put_pos (Z.to_pos (batch_type b + 2 ^ 31 + 1)) ++ (batch_data b ≫= put_item);
  ParseFromString l := let '(p, r) := get_pos l in mkBatch (Zpos p - 2 ^ 31 - 1) (get_items (length r) [] r)
|}.

Definition put_str (b : bytes) : bytes := b ++ [Byte.x00].

Lemma get_put_pos p r : get_pos (put_pos p ++ r) = (p, r).
Proof. induction p as [p IH|p IH|]; cbn [put_pos app get_pos]; [by rewrite IH|by rewrite IH|done]. Qed.

Lemma get_put_item item : ∀ fuel cur r,
  (length (put_item item) <= fuel)%nat →
  get_items fuel cur (put_item item ++ r) = (cur ++ item) :: get_items (fuel - S (length item)) [] r.
Proof.
  induction item as [|b item IH]; intros [|fuel] cur r Hf; cbn in Hf; try lia.
  - cbn. by rewrite app_nil_r, Nat.sub_0_r.
  - change (put_item (b :: item) ++ r) with (Byte.x01 :: b :: put_item item ++ r). cbn [get_items].
    rewrite IH by (unfold put_item in *; lia). rewrite <-(assoc_L (++)). done.
Qed.

Lemma length_put_item item : length (put_item item) = S (2 * length item).
Proof. unfold put_item. rewrite length_app. cbn [length]. enough (length (item ≫= λ b, [Byte.x01; b]) = 2 * length item)%nat by lia. induction item; cbn in *; lia. Qed.

Lemma get_put_items items : ∀ fuel, (length (items ≫= put_item) <= fuel)%nat → get_items fuel [] (items ≫= put_item) = items.
Proof.
  induction items as [|item items IH]; intros fuel Hf; [by destruct fuel|]. cbn [mbind list_bind] in Hf |- *. rewrite length_app, length_put_item in Hf.
  rewrite get_put_item by (rewrite length_put_item; lia). cbn [app]. f_equal. apply IH. lia.
Qed.

Lemma demo_parses b : in_s 32 (batch_type b) → Z.of_nat (length (SerializeToString b)) < 2 ^ 31 → ParseFromString (SerializeToString b) = b.
Proof.
  intros Ht _. unfold in_s in Ht. destruct b as [t d]. cbn [ParseFromString SerializeToString demo_codec batch_type batch_data] in *.
  rewrite get_put_pos, get_put_items by done. f_equal. rewrite Z2Pos.id by lia. lia.
Qed.

Lemma length_put_pos p m : (Pos.size_nat p <= m)%nat → (length (put_pos p) <= m)%nat.
Proof. revert m. induction p as [p IH|p IH|]; intros [|m] Hm; cbn in *; try lia; specialize (IH m); lia. Qed.

Lemma short_of b : Z.of_nat (length (SerializeToString b)) < 1885433427 → short b.
Proof. unfold short. by replace (le_combine (take 4 MAGIC_SNAPSHOT_HEAD)) with 1885433427 by (vm_compute; reflexivity). Qed.

(** Items of at most a thousand bytes, ten thousand of them. *)
Lemma batches_fit type items :
  0 <= type < 8 → Forall (λ i, length i <= 1000)%nat items → all_short type SAVE_BATCH_SIZE items.
Proof.
  intros Ht Hi b [Hty Hlen] Hsub. apply short_of. cbn [SerializeToString demo_codec]. rewrite length_app.
  assert (0 <= batch_type b < 8) as Ht' by (destruct Hty as [-> | ->]; [lia|done]).
  assert (length (put_pos (Z.to_pos (batch_type b + 2 ^ 31 + 1))) <= 100)%nat as Hp.
  { apply length_put_pos. revert Ht'. generalize (batch_type b). clear. intros t Ht.
    assert (t = 0 ∨ t = 1 ∨ t = 2 ∨ t = 3 ∨ t = 4 ∨ t = 5 ∨ t = 6 ∨ t = 7) as Hin by lia. destruct_or! Hin; subst; vm_compute; lia. }
  assert (∀ l : list bytes, Forall (λ i, length i <= 1000)%nat l → length (l ≫= put_item) <= 2001 * length l)%nat as Hl.
  { induction 1 as [|i l Hi1 Hl IH]; [cbn; lia|]. cbn [mbind list_bind length]. rewrite length_app, length_put_item. lia. }
  specialize (Hl (batch_data b)). rewrite Forall_forall in Hi, Hl. unfold SAVE_BATCH_SIZE in Hlen.
  assert (length (batch_data b ≫= put_item) <= 2001 * length (batch_data b))%nat by (apply Hl; intros x Hx; by apply Hi, Hsub). lia.
Qed.

(** A store with an ephemeral node, a node with an ACL list of its own and a
    session with credentials. *)
Definition readers : ACLs := [mkACL 1 "world" "anyone"].
Definition create_s : ZooKeeperRequest := Demo.req (CreateRequest "/s" "v" false false readers).
Definition add_auth : ZooKeeperRequest := Demo.req (AuthRequest 0 "digest" "u:p").
Definition store : KeeperStore := Demo.run add_auth (Demo.run create_s Demo.store3).

Lemma store_reachable : reachable Demo.sha Demo.b64 store.
Proof.
  destruct Demo.store3_reachable as (tick & digest & H). exists tick, digest.
  apply (rtc_r _ (Demo.run create_s Demo.store3)); [|by apply Demo.run_step]. apply (rtc_r _ Demo.store3); [done|]. by apply Demo.run_step.
Qed.

Definition nodes : list (string * KeeperNode) := Eval vm_compute in map_to_list (container store).
Definition sessions : list (Z * Z) := Eval vm_compute in map_to_list (session_and_timeout store).
Definition auth : AuthIDs := Eval vm_compute in default [] (session_and_auth store !! 1).

Lemma store_nodes : map_to_list (container store) = nodes.
Proof. vm_compute. reflexivity. Qed.
Lemma store_sessions : map_to_list (session_and_timeout store) = sessions.
Proof. vm_compute. reflexivity. Qed.
Lemma store_acls : map_to_list (num_to_acl (acl_map store)) = [(1, readers)].
Proof. vm_compute. reflexivity. Qed.
Lemma store_auth : default [] (session_and_auth store !! 1) = auth.
Proof. vm_compute. reflexivity. Qed.

Lemma in_entries {K V} `{Countable K} (P : K * V → Prop) (m : gmap K V) l k v :
  map_to_list m = l → Forall P l → m !! k = Some v → P (k, v).
Proof. intros <- Hl Hk%elem_of_map_to_list. rewrite Forall_forall in Hl. by apply Hl. Qed.

Lemma nodes_limited : Forall (λ x, string_ok x.1 ∧ string_ok (node_data x.2) ∧ node_acl_id x.2 < 2 ^ 64 - 1) nodes.
Proof. repeat constructor; done. Qed.

Lemma store_limits : within_limits store.
Proof.
  split.
  - intros p n. exact (in_entries _ _ nodes p n store_nodes nodes_limited).
  - intros sid t. apply (in_entries (λ x, vec_ok AuthID_ok (default [] (session_and_auth store !! x.1))) _ sessions); [apply store_sessions|].
    constructor; [|done]. cbn [fst]. rewrite store_auth. split; [done|]. by repeat constructor.
  - intros id acls. apply (in_entries (λ x, vec_ok ACL_ok x.2) _ [(1, readers)]); [apply store_acls|].
    constructor; [|done]. split; [done|]. by repeat constructor.
  - vm_compute. reflexivity.
Qed.

Lemma store_has_types : store_typed store.
Proof.
  assert (∀ r s, request_typed r → store_typed s → store_typed (Demo.run r s)) as Hrun.
  { intros r s Hr Hs. by eapply typed_step_typed, typed_run_step. }
  do 4 (apply Hrun; [done|]). eapply (typed_step_typed Demo.sha Demo.b64 (KeeperStore_new 500 "")); [apply KeeperStore_new_typed|].
  exact (tstep_session _ _ _ 1000 30000 _ _ ltac:(unfold in_s; lia) (surjective_pairing _)).
Qed.

Lemma store_acl_map : ACLMap_wf (acl_map store).
Proof.
  replace (acl_map store) with (addUsage 1 1 (convertACLs readers ACLMap_empty).1) by (vm_compute; reflexivity).
  apply addUsage_wf; [|by right; eexists|done|done].
  by eapply (convertACLs_wf readers ACLMap_empty); [apply ACLMap_empty_wf| |apply surjective_pairing].
Qed.

Definition small (items : list bytes) : bool := forallb (λ i, length i <=? 1000)%nat items.
Lemma small_fits type items : (0 <=? type) && (type <? 8) = true → small items = true → all_short type SAVE_BATCH_SIZE items.
Proof.
  intros Ht Hi. apply batches_fit; [lia|]. apply Forall_forall. intros x Hx. unfold small in Hi. rewrite forallb_forall in Hi.
  apply Nat.leb_le, Hi. by apply list_elem_of_In.
Qed.

Definition snap : KeeperSnapshotStore := KeeperSnapshotStore_new (mkSnapshot 10 2 1) 2.
Lemma store_fits : batches_short snap store 3 2.
Proof. split_and!; (apply small_fits; [reflexivity|vm_compute; reflexivity]). Qed.
End SnapshotDemo.

Lemma snapshot_roundtrip_witness : ∃ st' fs' n,
  createObjects SnapshotDemo.store 3 2 (SnapshotDemo.snap, ∅) = ((st', fs'), Ret n) ∧
  (∃ schedule, is_Some (parseObject SnapshotDemo.put_str (λ _, 5) 0 0 schedule st' fs' (KeeperStore_new 500 ""))) ∧
  ∀ schedule o, parseObject SnapshotDemo.put_str (λ _, 5) 0 0 schedule st' fs' (KeeperStore_new 500 "") = Some o →
    ∃ s', o = (s', Ret tt) ∧ restored SnapshotDemo.store 3 2 s'.
Proof.
  refine (snapshot_roundtrip SnapshotDemo.put_str (λ _, 5) 0 0 (λ b, ex_intro _ _ eq_refl) SnapshotDemo.demo_parses
    SnapshotDemo.snap SnapshotDemo.store ∅ 3 2 500 "" _ SnapshotDemo.store_acl_map SnapshotDemo.store_has_types SnapshotDemo.store_limits
    _ _ _ _ _ eq_refl SnapshotDemo.store_fits); [|unfold in_s; lia|unfold in_s; lia|discriminate|reflexivity|reflexivity].
  exact (wf_tree _ (reachable_wf Demo.sha Demo.b64 _ SnapshotDemo.store_reachable)).
Defined.
