(* ===== verification/SnapshotMachine.v ===== *)
(** * Snapshots and start of the state machine: src/Service/NuRaftStateMachine.cpp

    What the state machine does with its snapshots: taking one, at once or in the
    snapshot thread, handing its objects to another server and receiving them,
    loading one into the store; and the constructor, which loads the last
    snapshot of the directory and replays the log behind it. *)

From coqutil Require Import Word.LittleEndianList Byte.
From S2P Require Import Prelude Types ZkIO KeeperNode KeeperStore RequestsQueue LogStoreProps StateMachine Snapshot SnapshotManager.
From stdpp Require Import base gmap sets strings option sorting list.
From Stdlib Require Import ZArith Lia Ascii.
Open Scope Z_scope.

(** ** The machine with its snapshots *)

(** [when_done] is called with the snapshot that was taken. *)
Record SnapTask : Type := mkTask { task_s : snapshot; task_next_zxid : Z; task_next_session_id : Z }.

Record SnapMachine : Type := mkSM {
  sn_machine : Machine;
  snap_mgr : KeeperSnapshotManager;
  snap_dir : Files;
  snap_task : option SnapTask;
  in_snapshot : bool;
  snap_count : Z;
  when_done : list snapshot
}.
Definition upd_task (t : option SnapTask) (m : SnapMachine) : SnapMachine :=
  mkSM (sn_machine m) (snap_mgr m) (snap_dir m) t (in_snapshot m) (snap_count m) (when_done m).
Definition upd_in_snapshot (b : bool) (m : SnapMachine) : SnapMachine :=
  mkSM (sn_machine m) (snap_mgr m) (snap_dir m) (snap_task m) b (snap_count m) (when_done m).
Definition upd_snap_count (m : SnapMachine) : SnapMachine :=
  mkSM (sn_machine m) (snap_mgr m) (snap_dir m) (snap_task m) (in_snapshot m) (s64 (snap_count m + 1)) (when_done m).
Definition upd_done (s : snapshot) (m : SnapMachine) : SnapMachine :=
  mkSM (sn_machine m) (snap_mgr m) (snap_dir m) (snap_task m) (in_snapshot m) (snap_count m) (when_done m ++ [s]).
Definition upd_keeper (s : KeeperStore) (m : Machine) : Machine :=
  mkMachine s (sm_responses m) (last_committed_idx m) (task_manager m) (new_session_id_callback m) (notified m) (request_processor m).

Abbreviation SnM := (ST SnapMachine exn).

(** A call on the snapshot manager. *)
Definition on_mgr {A} (k : MgrM A) : SnM A := λ m,
  let '((mgr, fs), o) := k (snap_mgr m, snap_dir m) in
  (mkSM (sn_machine m) mgr fs (snap_task m) (in_snapshot m) (snap_count m) (when_done m), o).

Section machine.
Context `{BatchCodec}.
Context (put_str : bytes → bytes) (parseTime : string → Z) (list_dir : Files → list string).
Context (getSHA1 base64Encode : string → string).
Context (get_i64 : bytes → outcome exn (Z * bytes)) (get_ulong : bytes → outcome exn Z) (put_i32 : Z → bytes).

(** ** Taking snapshots *)

Definition create_snapshot_now (now : string) (junk : string * Z * Z) (s : snapshot) (next_zxid next_session_id : Z) : SnM snapshot :=
  m ← get;
  '(s, _) ← on_mgr (createSnapshot parseTime now s (sm_store (sn_machine m)) next_zxid next_session_id);
  _ ← on_mgr (removeSnapshots list_dir junk);
  mret s.

(** A snapshot is taken, its caller told, and counted. *)
Definition take_snapshot (now : string) (junk : string * Z * Z) (s : snapshot) (next_zxid next_session_id : Z) : SnM unit :=
  modify (upd_in_snapshot true);;
  s ← create_snapshot_now now junk s next_zxid next_session_id;
  modify (upd_done s);;
  modify (upd_in_snapshot false);;
  modify upd_snap_count.

(** [false]: the caller waits for the commit queue of the request processor to
    become empty. *)
Definition create_snapshot (async_snapshot : bool) (now : string) (junk : string * Z * Z) (s : snapshot) : SnM bool :=
  m ← get;
  let store := sm_store (sn_machine m) in
  if async_snapshot then
    modify (upd_task (Some (mkTask s (zxid store) (session_id_counter store))));; mret true
  else if bool_decide (default [] (request_processor (sn_machine m)) = []) then
    take_snapshot now junk s (zxid store) (session_id_counter store);; mret true
  else mret false.

(** One turn of the snapshot thread. *)
Definition snapThread (now : string) (junk : string * Z * Z) : SnM unit :=
  m ← get;
  match snap_task m with
  | None => mret tt
  | Some t =>
      modify (upd_in_snapshot true);;
      s ← create_snapshot_now now junk (task_s t) (task_next_zxid t) (task_next_session_id t);
      modify (upd_done s);;
      modify (upd_task None);;
      modify (upd_in_snapshot false);;
      modify upd_snap_count
  end.

(** [isActionTime]: [random] is what [rand] answers. *)
Definition isActionTime (interval random now prev_time curr_time : Z) : bool :=
  let curr_time := if curr_time =? 0 then now else curr_time in
  u32 (interval + random mod 1200) <=? curr_time - prev_time.

Definition chk_create_snapshot (interval random now curr_time : Z) (m : SnapMachine) : bool :=
  negb (in_snapshot m) && isActionTime interval random now (getLastCreateTime (snap_mgr m)) curr_time.

(** ** Sending and receiving *)

(** The data, null when there is none, and whether it is the last object. *)
Definition read_logical_snp_obj (s : snapshot) (obj_id : Z) (m : SnapMachine) : option bytes * bool :=
  if negb (existSnapshot s (snap_mgr m)) then (None, true)
  else if obj_id =? 0 then (Some (put_i32 0), false)
  else
    ((loadSnapshotObject s obj_id (snap_mgr m) (snap_dir m)).2,
     negb (existSnapshotObject s (u64 (obj_id + 1)) (snap_mgr m))).

(** The next object to ask for. *)
Definition save_logical_snp_obj (now : string) (s : snapshot) (obj_id : Z) (data : bytes) : SnM Z :=
  (if obj_id =? 0 then on_mgr (receiveSnapshot parseTime now s)
   else on_mgr (saveSnapshotObject parseTime now s obj_id data));;
  mret (u64 (obj_id + 1)).

Definition exist_snapshot_object (s : snapshot) (obj_id : Z) (m : SnapMachine) : bool :=
  existSnapshotObject s obj_id (snap_mgr m).

(** [None]: the threads of the loader have not ended. *)
Definition apply_snapshot (clock : Z → Z) (junk junk_checksum : Z) (schedule : list nat) (s : snapshot) (m : SnapMachine)
    : option (SnapMachine * outcome exn bool) :=
  match parseSnapshot put_str clock junk junk_checksum schedule s (snap_mgr m) (snap_dir m) (sm_store (sn_machine m)) with
  | None => None
  | Some (store, r) =>
      Some (mkSM (upd_keeper store (sn_machine m)) (snap_mgr m) (snap_dir m) (snap_task m) (in_snapshot m) (snap_count m) (when_done m), r)
  end.

Definition last_snapshot (m : SnapMachine) : option snapshot := lastSnapshot (snap_mgr m).

(** ** Reads of the store *)

Definition processReadRequest (now : Z) (r : RequestForSession) : SmM unit :=
  on_keeper (processRequest getSHA1 base64Encode now (rs_request r) (rs_session_id r) (rs_create_time r) None true false).

Definition exists_node (path : string) (m : Machine) : bool := bool_decide (is_Some (container (sm_store m) !! path)).
Definition getNode (path : string) (m : Machine) : KeeperNode := default KeeperNode_new (container (sm_store m) !! path).

(** ** The constructor *)

(** A store as new as the settings make it; the file of the task manager gives
    the last index committed before. *)
Definition new_machine (dead_session_check_period_ms : Z) (super_digest : string) (tasks : TaskManager)
    (processor : option (list RequestForSession)) (keep_max object_node_size : Z) (fs : Files) : SnapMachine :=
  mkSM (mkMachine (KeeperStore_new dead_session_check_period_ms super_digest) [] 0 tasks ∅ [] processor)
    (mkManager keep_max object_node_size ∅) fs None false 0 [].

Definition set_last_committed (log_idx : Z) (m : SnapMachine) : SnapMachine :=
  mkSM (sm_last log_idx (sn_machine m)) (snap_mgr m) (snap_dir m) (snap_task m) (in_snapshot m) (snap_count m) (when_done m).

(** The last snapshot of the directory, when there is one. *)
Definition load_last (clock : Z → Z) (vars : string * Z * Z) (junk junk_checksum : Z) (schedule : list nat) (m : SnapMachine)
    : option (SnapMachine * outcome exn unit) :=
  match on_mgr (loadSnapshotMetas parseTime list_dir vars) m with
  | (m, Ret _) =>
      match last_snapshot m with
      | None => Some (m, Ret tt)
      | Some s =>
          match apply_snapshot clock junk junk_checksum schedule s (set_last_committed (last_log_idx s) m) with
          | None => None
          | Some (m, Ret _) => Some (m, Ret tt)
          | Some (m, Throw e) => Some (m, Throw e)
          | Some (m, Crash) => Some (m, Crash)
          end
      end
  | (m, Throw e) => Some (m, Throw e)
  | (m, Crash) => Some (m, Crash)
  end.

(** The result says up to which index the log is to be compacted, when it is
    behind the snapshot. *)
Definition start (clock : Z → Z) (vars : string * Z * Z) (junk junk_checksum : Z) (schedule : list nat) (log : option Log)
    (m : SnapMachine) : option (SnapMachine * outcome exn (option Z)) :=
  match getLastCommitted get_ulong (task_manager (sn_machine m)) 0 with
  | Ret prev =>
      match load_last clock vars junk junk_checksum schedule m with
      | None => None
      | Some (m, Ret _) =>
          match log with
          | None => Some (m, Ret None)
          | Some log =>
              let '(machine, r) := replay getSHA1 base64Encode get_i64 get_ulong clock log prev (sn_machine m) in
              Some (mkSM machine (snap_mgr m) (snap_dir m) (snap_task m) (in_snapshot m) (snap_count m) (when_done m), r)
          end
      | Some (m, Throw e) => Some (m, Throw e)
      | Some (m, Crash) => Some (m, Crash)
      end
  | Throw e => Some (m, Throw e)
  | Crash => Some (m, Crash)
  end.
End machine.
