(* ===== verification/SnapshotMachineProps.v ===== *)
(** * Snapshots that are sent and snapshots found at start

    A snapshot another server received, and one found in the directory after a
    restart, restores the store it was taken of. *)

From coqutil Require Import Word.LittleEndianList Byte.
From S2P Require Import Prelude Types ZkIO ACLMap KeeperPaths KeeperNode KeeperStore StoreTree StoreInv StoreRequest StoreReplica StoreRestore StoreProps StoreTyped LogSegmentInv LogStore LogStoreReload LogStoreProps FileLogStore FileLogStoreProps RequestsQueue StateMachine Snapshot SnapshotManager SnapshotWrite SnapshotLoad SnapshotProps SnapshotMachine.
From stdpp Require Import base gmap sets strings option pretty sorting list.
From Stdlib Require Import ZArith Lia Ascii.
Open Scope Z_scope.

(** ** Names of objects *)

Definition snap_name (t : string) (i o : Z) : string :=
  ("snapshot_" +:+ t +:+ "_" +:+ pretty i +:+ "_" +:+ pretty o)%string.

Lemma getObjectPath_name st o : getObjectPath st o = snap_name (curr_time st) (last_log_idx (snap_meta st)) o.
Proof. done. Qed.

(** A time that [sscanf] reads back. *)
Definition time_ok (t : string) : Prop := t ≠ "" ∧ has_char "_"%char t = false.
Definition u64_ok (z : Z) : Prop := 0 <= z < 2 ^ 64.

Lemma span_until_app t r : has_char "_"%char t = false → span_until "_"%char (t +:+ String "_"%char r)%string = (t, String "_"%char r).
Proof.
  induction t as [|c t IH]; [done|]. cbn [has_char]. intros [Hc Ht]%orb_false_iff.
  change (String c t +:+ String "_"%char r)%string with (String c (t +:+ String "_"%char r)%string). cbn [span_until].
  rewrite Hc, IH by done. done.
Qed.

Lemma scan_number_last n : u64_ok n → scan_number (pretty n) = Some (n, "").
Proof.
  intros Hn. unfold u64_ok in Hn. destruct (pretty_digits n ltac:(lia)) as (E & D & Hne). pose proof (span_digits_all _ D) as Es.
  destruct (pretty n) as [|c s] eqn:Ep; [done|]. pose proof D as D'. cbn [all_digits] in D'. apply andb_true_iff in D' as [Dc _].
  destruct (digit_char _ Dc) as (H1 & H2 & H3). unfold scan_number. cbn [skip_space]. rewrite H1, !bool_decide_eq_false_2 by done.
  rewrite Es, E, bool_decide_eq_false_2 by done. by rewrite (proj2 (Z.ltb_ge _ _)) by lia.
Qed.

Lemma scan_snap_name t i o vars : time_ok t → u64_ok i → u64_ok o → scan_snapshot (snap_name t i o) vars = (t, i, o).
Proof.
  intros [Hne Ht] Hi Ho. destruct vars as [[t0 i0] o0]. unfold scan_snapshot.
  change (scan_literal "snapshot_" (snap_name t i o)) with (Some (t +:+ String "_"%char (pretty i +:+ String "_"%char (pretty o)))%string).
  cbv iota. rewrite span_until_app, bool_decide_eq_false_2 by done.
  change (scan_literal "_" (String "_"%char ?r)) with (Some r). cbn [mbind option_bind].
  rewrite scan_number_pretty by exact Hi. cbv iota.
  change (scan_literal "_" (String "_"%char (pretty o))) with (Some (pretty o)). cbn [mbind option_bind]. by rewrite scan_number_last.
Qed.

Lemma prefix_app p r : String.prefix p (p +:+ r)%string = true.
Proof.
  induction p as [|c p IH]; [by destruct r|]. change (String c p +:+ r)%string with (String c (p +:+ r)%string). cbn [String.prefix].
  by destruct (ascii_dec c c).
Qed.

Lemma snap_name_found t i o : String.index 0 "snapshot_" (snap_name t i o) = Some 0%nat.
Proof.
  unfold snap_name. set (r := (t +:+ _)%string). change ("snapshot_" +:+ r)%string with (String "s"%char ("napshot_" +:+ r)%string).
  cbn [String.index]. change (String "s"%char ("napshot_" +:+ r)%string) with ("snapshot_" +:+ r)%string. by rewrite prefix_app.
Qed.

Lemma snap_name_inj t i o t' i' o' :
  time_ok t → u64_ok i → u64_ok o → time_ok t' → u64_ok i' → u64_ok o' → snap_name t i o = snap_name t' i' o' → t = t' ∧ i = i' ∧ o = o'.
Proof.
  intros Ht Hi Ho Ht' Hi' Ho' E. pose proof (scan_snap_name t i o ("", 0, 0) Ht Hi Ho) as H1.
  rewrite E, (scan_snap_name t' i' o') in H1 by done. by simplify_eq.
Qed.

(** ** Removing old snapshots *)

(** A file that is no snapshot object, or one of which [P] holds. *)
Definition name_ok (P : string → Z → Z → Prop) (f : string) : Prop :=
  String.index 0 "snapshot_" f = None ∨ ∃ t i o, time_ok t ∧ u64_ok i ∧ u64_ok o ∧ P t i o ∧ f = snap_name t i o.
Definition names_ok (P : string → Z → Z → Prop) (fs : Files) : Prop := ∀ f, is_Some (fs !! f) → name_ok P f.

Lemma names_ok_sub P fs fs' : fs' ⊆ fs → names_ok P fs → names_ok P fs'.
Proof. intros Hsub Hfs f [b Hf]. apply Hfs. exists b. by eapply lookup_weaken. Qed.

(** The objects of other snapshots stay. *)
Definition kept (idx : Z) (fs fs' : Files) : Prop :=
  fs' ⊆ fs ∧ ∀ t i o, time_ok t → u64_ok i → u64_ok o → i ≠ idx → fs' !! snap_name t i o = fs !! snap_name t i o.

Lemma kept_refl idx fs : kept idx fs fs.
Proof. done. Qed.
Lemma kept_trans idx fs1 fs2 fs3 : kept idx fs1 fs2 → kept idx fs2 fs3 → kept idx fs1 fs3.
Proof. intros [S1 H1] [S2 H2]. split; [by etrans|]. intros t i o ????. by rewrite H2, H1. Qed.

Lemma remove_files_run idx P files : Forall (name_ok P) files → ∀ vars m fs,
  ∃ m' fs' v', remove_files idx files vars (m, fs) = ((m', fs'), Ret v') ∧
    (m' = m ∨ m' = upd_snapshots (delete idx) m) ∧ kept idx fs fs'.
Proof.
  induction 1 as [|f files [Hf|(t & i & o & Ht & Hi & Ho & _ & ->)] Hfs IH]; intros vars m fs; cbn [remove_files].
  - exists m, fs, vars. split_and!; [done|by left|apply kept_refl].
  - rewrite Hf. apply IH.
  - rewrite snap_name_found, scan_snap_name by done. cbn [fst snd]. destruct (Z.eqb_spec i idx) as [->|Hne]; [|apply IH].
    destruct (IH (t, idx, o) (upd_snapshots (delete idx) m) (delete (snap_name t idx o) fs)) as (m' & fs' & v' & E & Hm & Hk).
    exists m', fs', v'. rewrite modify_run. split_and!; [exact E| |].
    + right. destruct Hm as [->| ->]; [done|]. unfold upd_snapshots. cbn. f_equal. by rewrite delete_delete_eq.
    + eapply kept_trans; [|exact Hk]. split; [apply delete_subseteq|]. intros t' i' o' ????. apply lookup_delete_ne.
      intros E'. apply snap_name_inj in E'; [|done..]. naive_solver.
Qed.

Section manager.
Context (parseTime : string → Z) (list_dir : Files → list string).
Hypothesis list_dir_names : ∀ fs, list_dir fs ≡ₚ (map_to_list fs).*1.

Lemma listed P fs : names_ok P fs → Forall (name_ok P) (list_dir fs).
Proof.
  intros Hfs. rewrite list_dir_names. apply Forall_forall. intros f Hf. apply list_elem_of_fmap in Hf as ([f' b] & -> & Hf).
  apply elem_of_map_to_list in Hf. apply Hfs. by exists b.
Qed.

(** The oldest index is not the newest one, when there are two. *)
Lemma oldest_not_newest m idx : (2 <= size (snapshots m))%nat → (∀ k, is_Some (snapshots m !! k) → k <= idx) →
  ∃ k l, snapshot_indices m = k :: l ∧ k ≠ idx ∧ is_Some (snapshots m !! k).
Proof.
  intros Hsz Hmax. unfold snapshot_indices. pose proof (Sorted_merge_sort Z.le (map_to_list (snapshots m)).*1) as Hs.
  assert (merge_sort Z.le (map_to_list (snapshots m)).*1 ≡ₚ (map_to_list (snapshots m)).*1) as Hp by apply merge_sort_Permutation.
  pose proof (NoDup_fst_map_to_list (snapshots m)) as Hnd. rewrite <-Hp in Hnd. apply Sorted_StronglySorted in Hs; [|apply _].
  assert (∀ k, k ∈ merge_sort Z.le (map_to_list (snapshots m)).*1 → is_Some (snapshots m !! k)) as Hin.
  { intros k. rewrite Hp, list_elem_of_fmap. intros ([k' st] & -> & Hk%elem_of_map_to_list). by exists st. }
  assert (length (merge_sort Z.le (map_to_list (snapshots m)).*1) = size (snapshots m)) as Hl
    by (by rewrite Hp, length_fmap, length_map_to_list).
  destruct (merge_sort _ _) as [|k [|k' l]]; cbn in Hl; [lia|lia|]. exists k, (k' :: l). split_and!; [done| |apply Hin; set_solver].
  intros ->. inversion Hs as [|?? _ Hle]; subst. inversion Hle as [|?? Hk' _]; subst.
  pose proof (Hmax k' (Hin k' ltac:(set_solver))). assert (k' = idx) as -> by lia. apply NoDup_cons in Hnd as [Hn _]. set_solver.
Qed.

Lemma remove_oldest_run idx P count : ∀ vars m fs,
  names_ok P fs → (count < size (snapshots m))%nat → (∀ k, is_Some (snapshots m !! k) → k <= idx) →
  ∃ m' fs', remove_oldest list_dir count vars (m, fs) = ((m', fs'), Ret tt) ∧ snapshots m' !! idx = snapshots m !! idx ∧
    fs' ⊆ fs ∧ ∀ t o, time_ok t → u64_ok idx → u64_ok o → fs' !! snap_name t idx o = fs !! snap_name t idx o.
Proof.
  induction count as [|count IH]; intros vars m fs Hfs Hsz Hmax; cbn [remove_oldest].
  { exists m, fs. done. }
  destruct (oldest_not_newest m idx ltac:(lia) Hmax) as (k & l & Hk & Hne & [st Hst]). rewrite get_run, Hk.
  destruct (remove_files_run k P (list_dir fs) (listed P fs Hfs) vars m fs) as (m1 & fs1 & v1 & E1 & Hm1 & [Hsub Hkeep]).
  rewrite (bind_Ret _ _ _ _ _ E1).
  assert (snapshots m1 !! idx = snapshots m !! idx ∧ (count < size (snapshots m1))%nat ∧
    ∀ k, is_Some (snapshots m1 !! k) → is_Some (snapshots m !! k)) as (H1 & H2 & H3).
  { destruct Hm1 as [->| ->]; [by split_and!; [|lia|]|]. cbn [upd_snapshots snapshots]. split_and!.
    - by rewrite lookup_delete_ne.
    - rewrite map_size_delete, Hst. lia.
    - intros j. rewrite lookup_delete. by case_decide; [intros []|]. }
  destruct (IH v1 m1 fs1 (names_ok_sub _ _ _ Hsub Hfs) H2 ltac:(intros j Hj; by apply Hmax, H3)) as (m2 & fs2 & E2 & Hi & Hsub2 & Hf).
  exists m2, fs2. split_and!; [exact E2|by rewrite Hi|by etrans|]. intros t o Ht Hidx Ho. rewrite Hf by done. by apply Hkeep.
Qed.

Lemma removeSnapshots_run idx P vars m fs :
  names_ok P fs → 0 < keep_max_snapshot_count m → is_Some (snapshots m !! idx) → (∀ k, is_Some (snapshots m !! k) → k <= idx) →
  ∃ m' fs' n, removeSnapshots list_dir vars (m, fs) = ((m', fs'), Ret n) ∧ snapshots m' !! idx = snapshots m !! idx ∧
    fs' ⊆ fs ∧ ∀ t o, time_ok t → u64_ok idx → u64_ok o → fs' !! snap_name t idx o = fs !! snap_name t idx o.
Proof.
  intros Hfs Hkeep [st Hst] Hmax. assert (size (snapshots m) ≠ 0)%nat as Hne by (intros E%map_size_empty_inv; by rewrite E in Hst).
  destruct (remove_oldest_run idx P (Z.to_nat (Z.of_nat (size (snapshots m)) - keep_max_snapshot_count m)) vars m fs Hfs ltac:(lia) Hmax)
    as (m' & fs' & E & H1 & H2 & H3).
  exists m', fs', (Z.of_nat (size (snapshots m'))). unfold removeSnapshots. rewrite get_run, (bind_Ret _ _ _ _ _ E), get_run. by split_and!.
Qed.
End manager.

(** ** Taking a snapshot *)

(** The machine can take a snapshot that is newer than those it has, and its
    store fits the file format. *)
Record ready `{BatchCodec} (m : SnapMachine) (now : string) (idx z n : Z) : Prop := {
  rd_tree : tree_wf (container (sm_store (sn_machine m))) (ephemerals (sm_store (sn_machine m)));
  rd_acl : ACLMap_wf (acl_map (sm_store (sn_machine m)));
  rd_typed : store_typed (sm_store (sn_machine m));
  rd_limits : within_limits (sm_store (sn_machine m));
  rd_zxid : in_s 64 z;
  rd_session : in_s 64 n;
  rd_fits : batches_short (KeeperSnapshotStore_new (mkSnapshot 0 0 0) 0) (sm_store (sn_machine m)) z n;
  rd_nodes : 0 <= object_node_size (snap_mgr m);
  rd_keep : 0 < keep_max_snapshot_count (snap_mgr m);
  rd_time : time_ok now;
  rd_idx : u64_ok idx;
  rd_files : names_ok (λ _ i _, i < idx) (snap_dir m);
  rd_newer k : is_Some (snapshots (snap_mgr m) !! k) → k < idx
}.

Lemma rd_storable `{BatchCodec} m now idx z n : ready m now idx z n → storable (sm_store (sn_machine m)).
Proof. intros R. apply typed_storable; apply R. Qed.

Lemma close_objects_names `{BatchCodec} st objs id fs f :
  is_Some (close_objects st id objs fs !! f) →
  is_Some (fs !! f) ∨ ∃ k, id <= k < id + Z.of_nat (length objs) ∧ f = getObjectPath st k.
Proof.
  revert id fs. induction objs as [|bs objs IH]; intros id fs; cbn [close_objects]; [by left|].
  intros [Hf|(k & Hk & ->)]%IH.
  - destruct (decide (getObjectPath st id = f)) as [<-|Hne]; [right; exists id; cbn [length]; split; [lia|done]|].
    rewrite lookup_insert_ne in Hf by done. by left.
  - right. exists k. cbn [length]. split; [lia|done].
Qed.

(** ** The directory at start *)

Section directory.
Context (parseTime : string → Z).

Definition objects_at (idx : Z) (m : KeeperSnapshotManager) : gmap Z string := default ∅ (objects_path <$> snapshots m !! idx).
Definition labelled (m : KeeperSnapshotManager) : Prop := ∀ k st, snapshots m !! k = Some st → last_log_idx (snap_meta st) = k.

(** One object file. *)
Lemma load_meta_step t i o m idx :
  let fresh := snap_init parseTime "" t (KeeperSnapshotStore_new (mkSnapshot i 1 0) (object_node_size m)) in
  let m' := upd_snapshots <[i := addObjectPath o (snap_name t i o) (default fresh (snapshots m !! i))]> m in
  (labelled m → labelled m') ∧ (∀ k, is_Some (snapshots m' !! k) ↔ k = i ∨ is_Some (snapshots m !! k)) ∧
  objects_at idx m' = if decide (i = idx) then <[o := snap_name t i o]> (objects_at idx m) else objects_at idx m.
Proof.
  intros fresh m'. split_and!.
  - intros Hm k st. cbn. rewrite lookup_insert. case_decide as E; [|apply Hm]. subst k. intros [= <-]. cbn.
    destruct (snapshots m !! i) as [st0|] eqn:Ei; [by apply Hm|done].
  - intros k. cbn. rewrite lookup_insert. case_decide as E; [|naive_solver]. subst k. split; [by left|by eexists].
  - unfold objects_at. cbn. rewrite lookup_insert. case_decide as E; [|done]. subst i. cbn. by destruct (snapshots m !! idx).
Qed.

Section listing.
Context (now : string) (idx n : Z) (Htime : time_ok now) (Hidx : u64_ok idx) (Hn : n < 2 ^ 64).
Abbreviation P := (λ t i o, i < idx ∨ t = now ∧ i = idx ∧ 1 <= o <= n).

Lemma load_metas_run files : Forall (name_ok P) files → ∀ vars m m', load_metas parseTime files vars m = m' →
  (labelled m → labelled m') ∧ (∀ k, is_Some (snapshots m' !! k) → is_Some (snapshots m !! k) ∨ k <= idx) ∧
  (∀ k, is_Some (snapshots m !! k) → is_Some (snapshots m' !! k)) ∧
  ∀ o p, objects_at idx m' !! o = Some p →
    (u64_ok o ∧ p = snap_name now idx o ∧ p ∈ files) ∨ objects_at idx m !! o = Some p.
Proof.
  induction 1 as [|f files [Hf|(t & i & o & Ht & Hi & Ho & HP & ->)] Hfs IH]; intros vars m m'; cbn [load_metas].
  - intros <-. split_and!; auto.
  - rewrite Hf. intros E. destruct (IH _ _ _ E) as (H1 & H2 & H3 & H4). split_and!; [done|done|done|]. intros k p Hk. destruct (H4 _ _ Hk) as [(? & ? & ?)|?]; [left; split_and!; [done|done|set_solver]|by right].
  - rewrite snap_name_found, scan_snap_name by done. intros E. destruct (IH _ _ _ E) as (H1 & H2 & H3 & H4). clear IH E.
    destruct (load_meta_step t i o m idx) as (L1 & L2 & L3). split_and!.
    + intros Hm. by apply H1, L1.
    + intros k [[->|Hk]%L2|Hk]%H2; [right; naive_solver lia|by left|by right].
    + intros k Hk. apply H3, L2. by right.
    + intros k p [(? & ? & ?)|Hk]%H4; [left; split_and!; [done|done|set_solver]|]. rewrite L3 in Hk. case_decide as Ei; [|by right]. subst i.
      destruct HP as [?|(-> & _ & _)]; [lia|]. apply lookup_insert_Some in Hk as [[<- <-]|[_ ?]]; [|by right]. left. split_and!; [done|done|set_solver].
Qed.

(** An object that is listed is found. *)
Lemma load_metas_finds files o : Forall (name_ok P) files → snap_name now idx o ∈ files → u64_ok o → ∀ vars m,
  objects_at idx (load_metas parseTime files vars m) !! o = Some (snap_name now idx o).
Proof.
  intros Hfs Hin Ho vars m.
  assert (∀ files vars m, Forall (name_ok P) files → objects_at idx m !! o = Some (snap_name now idx o) ∨ snap_name now idx o ∈ files →
    objects_at idx (load_metas parseTime files vars m) !! o = Some (snap_name now idx o)) as Hgo; [|apply Hgo; auto].
  clear -Htime Hidx Ho. intros files. induction files as [|f files IH]; intros vars m Hfs Hor; cbn [load_metas].
  { destruct Hor as [?|Hin]; [done|by apply elem_of_nil in Hin]. }
  apply Forall_cons in Hfs as [[Hf|(t & i & o' & Ht & Hi & Ho' & HP & ->)] Hfs].
  - rewrite Hf. apply IH; [done|]. destruct Hor as [?|[E|?]%elem_of_cons]; [by left| |by right]. by rewrite <-E, snap_name_found in Hf.
  - rewrite snap_name_found, scan_snap_name by done. apply IH; [done|].
    destruct (load_meta_step t i o' m idx) as (_ & _ & L3). rewrite L3. clear L3 IH.
    destruct (decide (i = idx)) as [->|Hne].
    + destruct HP as [?|(-> & _ & _)]; [lia|]. rewrite lookup_insert. case_decide as E; [subst o'; by left|].
      destruct Hor as [?|[E'|?]%elem_of_cons]; [by left| |by right]. apply snap_name_inj in E' as (_ & _ & ->); done.
    + destruct Hor as [?|[E'|?]%elem_of_cons]; [by left| |by right]. apply snap_name_inj in E' as (_ & -> & _); done.
Qed.
End listing.
End directory.

Section machine.
Context `{BatchCodec}.
Context (put_str : bytes → bytes) (parseTime : string → Z) (list_dir : Files → list string) (put_i32 : Z → bytes).
Context (clock : Z → Z) (junk junk' : Z).
Hypothesis put_str_keeps : ∀ b, ∃ tail, put_str b = b ++ tail.
Hypothesis parse_serialized_batch : ∀ b, in_s 32 (batch_type b) → Z.of_nat (length (SerializeToString b)) < 2 ^ 31 → ParseFromString (SerializeToString b) = b.
Hypothesis list_dir_names : ∀ fs, list_dir fs ≡ₚ (map_to_list fs).*1.

(** What the objects of a snapshot of the store do. *)
Definition objects_of_store (s : KeeperStore) (z n : Z) (objs : list (list SnapshotBatchPB)) : Prop :=
  0 < Z.of_nat (length objs) < 2 ^ 31 ∧
  ∃ counters ess, Forall2 (object_changes put_str clock junk junk') objs ess ∧ counters_only z n counters ∧
    mjoin ess ≡ₚ all_changes clock s counters.

(** A snapshot with its files, among others that are older. *)
Record has_snapshot (m : SnapMachine) (now : string) (meta : snapshot) (objs : list (list SnapshotBatchPB)) : Prop := {
  hs_objects : objects_path <$> snapshots (snap_mgr m) !! last_log_idx meta =
    Some (objects_path (add_paths (length objs) (snap_init parseTime now "" (KeeperSnapshotStore_new meta 0))));
  hs_files i bs : objs !! i = Some bs → snap_dir m !! snap_name now (last_log_idx meta) (1 + Z.of_nat i) = Some (object_bytes bs);
  hs_names : names_ok (λ t i o, i < last_log_idx meta ∨ t = now ∧ i = last_log_idx meta ∧ 1 <= o <= Z.of_nat (length objs)) (snap_dir m)
}.

Lemma add_paths_meta k st : snap_meta (add_paths k st) = snap_meta st ∧ curr_time (add_paths k st) = curr_time st.
Proof.
  unfold add_paths. generalize (seq 1 k). intros l. assert (∀ s', snap_meta s' = snap_meta st → curr_time s' = curr_time st →
    snap_meta (foldl (λ s i, addObjectPath (Z.of_nat i) (getObjectPath st (Z.of_nat i)) s) s' l) = snap_meta st ∧
    curr_time (foldl (λ s i, addObjectPath (Z.of_nat i) (getObjectPath st (Z.of_nat i)) s) s' l) = curr_time st) as Hl; [|by apply Hl].
  induction l as [|i l IH]; intros s' H1 H2; [done|]. cbn [foldl]. by apply IH.
Qed.

(** The paths depend on the time and the index alone. *)
Lemma add_paths_same st st' k :
  objects_path st = objects_path st' → snap_meta st = snap_meta st' → curr_time st = curr_time st' →
  objects_path (add_paths k st) = objects_path (add_paths k st').
Proof.
  intros H1 H2 H3. unfold add_paths. generalize (seq 1 k). intros l.
  assert (∀ id, getObjectPath st id = getObjectPath st' id) as Hp by (intros id; unfold getObjectPath; by rewrite H2, H3).
  assert (∀ a b, objects_path a = objects_path b →
    objects_path (foldl (λ s i, addObjectPath (Z.of_nat i) (getObjectPath st (Z.of_nat i)) s) a l) =
    objects_path (foldl (λ s i, addObjectPath (Z.of_nat i) (getObjectPath st' (Z.of_nat i)) s) b l)) as Hl; [|by apply Hl].
  induction l as [|i l IH]; intros a b Hab; [done|]. cbn [foldl]. apply IH. cbn. by rewrite Hab, Hp.
Qed.

Lemma createSnapshot_run now meta s z n mgr fs st' fs' k :
  let meta' := SnapshotManager.set_size (Z.of_nat (size (container s) + size (ephemerals s))) meta in
  createObjects s z n (snap_init parseTime now "" (KeeperSnapshotStore_new meta' (object_node_size mgr)), fs) = ((st', fs'), Ret k) →
  createSnapshot parseTime now meta s z n (mgr, fs) = ((upd_snapshots <[last_log_idx meta := st']> mgr, fs'), Ret (meta', k)).
Proof.
  intros meta' E. unfold createSnapshot. fold meta'. rewrite get_run.
  assert (on_snapshot (snap_init parseTime now "" (KeeperSnapshotStore_new meta' (object_node_size mgr))) (createObjects s z n) (mgr, fs) =
    ((mgr, fs'), Ret (st', k))) as E1 by (unfold on_snapshot; by rewrite E).
  rewrite (bind_Ret _ _ _ _ _ E1). done.
Qed.

Lemma on_mgr_run {A} (k : MgrM A) m mgr fs o :
  k (snap_mgr m, snap_dir m) = ((mgr, fs), o) →
  on_mgr k m = (mkSM (sn_machine m) mgr fs (snap_task m) (in_snapshot m) (snap_count m) (when_done m), o).
Proof. intros E. unfold on_mgr. by rewrite E. Qed.

Lemma create_run m now vars meta z n :
  ready m now (last_log_idx meta) z n →
  ∃ m' meta' objs, create_snapshot_now parseTime list_dir now vars meta z n m = (m', Ret meta') ∧
    last_log_idx meta' = last_log_idx meta ∧ sn_machine m' = sn_machine m ∧ has_snapshot m' now meta' objs ∧
    objects_of_store (sm_store (sn_machine m)) z n objs.
Proof.
  intros R. set (s := sm_store (sn_machine m)).
  set (meta' := SnapshotManager.set_size (Z.of_nat (size (container s) + size (ephemerals s))) meta).
  set (st := snap_init parseTime now "" (KeeperSnapshotStore_new meta' (object_node_size (snap_mgr m)))).
  destruct (files_changes put_str clock junk junk' put_str_keeps parse_serialized_batch st s (snap_dir m) z n)
    as (objs & counters & ess & E & H2 & Hc & Hall & Hlen).
  { apply R. } { by eapply rd_storable. } { apply R. } { apply R. }
  { cbn. intros E. destruct (wf_root _ _ (rd_tree _ _ _ _ _ R)) as (r & Hr & _).
    assert (size (container s) ≠ 0)%nat as Hne by (intros E'%map_size_empty_inv; unfold s in E'; by rewrite E' in Hr). lia. }
  { cbn. pose proof (rd_nodes _ _ _ _ _ R). destruct (Z.eqb_spec (object_node_size (snap_mgr m)) 0); unfold MAX_OBJECT_NODE_SIZE; lia. }
  { done. } { exact (rd_fits _ _ _ _ _ R). }
  pose proof (createSnapshot_run now meta s z n (snap_mgr m) (snap_dir m) _ _ _ E) as E1. fold meta' in E1.
  set (mgr := upd_snapshots <[last_log_idx meta := add_paths (length objs) st]> (snap_mgr m)) in E1.
  set (fs := close_objects st 1 objs (snap_dir m)) in E1.
  assert (names_ok (λ t i o, i < last_log_idx meta ∨ t = now ∧ i = last_log_idx meta ∧ 1 <= o <= Z.of_nat (length objs)) fs) as Hnames.
  { intros f [Hf|(k & Hk & ->)]%close_objects_names.
    - destruct (rd_files _ _ _ _ _ R f Hf) as [Hn|(t & i & o & ? & ? & ? & ? & ->)]; [by left|]. right. exists t, i, o. split_and!; auto.
    - right. exists now, (last_log_idx meta), k. split_and!; [apply R|apply R|unfold u64_ok; lia|right; split_and!; [done|done|lia|lia]|done]. }
  destruct (removeSnapshots_run list_dir list_dir_names (last_log_idx meta) _ vars mgr fs Hnames (rd_keep _ _ _ _ _ R))
    as (mgr' & fs' & k & E2 & Hst & Hsub & Hfs).
  { exists (add_paths (length objs) st). apply lookup_insert_eq. }
  { intros k. cbn [mgr upd_snapshots snapshots]. rewrite lookup_insert. case_decide; [lia|]. intros Hk%(rd_newer _ _ _ _ _ R). lia. }
  exists (mkSM (sn_machine m) mgr' fs' (snap_task m) (in_snapshot m) (snap_count m) (when_done m)), meta', objs.
  split_and!; [|done|done| |split; [done|by exists counters, ess]].
  - unfold create_snapshot_now. rewrite get_run. fold s. rewrite (bind_Ret _ _ _ _ _ (on_mgr_run _ m _ _ _ E1)). cbv beta iota.
    rewrite (bind_Ret _ _ _ _ _ (on_mgr_run (removeSnapshots list_dir vars) (mkSM _ mgr fs _ _ _ _) _ _ _ E2)). done.
  - split; cbn [snap_mgr snap_dir].
    + change (last_log_idx meta') with (last_log_idx meta). rewrite Hst. cbn [mgr upd_snapshots snapshots]. rewrite lookup_insert_eq. cbn [fmap option_fmap option_map].
      f_equal. by apply add_paths_same.
    + intros i bs Hi. pose proof (lookup_lt_Some _ _ _ Hi). change (last_log_idx meta') with (last_log_idx meta).
      rewrite Hfs; [|apply R|apply R|unfold u64_ok; lia]. exact (lookup_close_objects st objs 1 (snap_dir m) i bs Hi).
    + by eapply names_ok_sub.
Qed.

(** ** Loading a snapshot *)

(** The objects of a snapshot as the manager knows them, and their files. *)
Definition offers (m : SnapMachine) (now : string) (idx : Z) (objs : list (list SnapshotBatchPB)) : Prop :=
  (∃ st, snapshots (snap_mgr m) !! idx = Some st ∧
    objects_of st ≡ₚ (λ i, snap_name now idx (Z.of_nat i)) <$> seq 1 (length objs)) ∧
  ∀ i bs, objs !! i = Some bs → snap_dir m !! snap_name now idx (1 + Z.of_nat i) = Some (object_bytes bs).

Lemma has_snapshot_offers m now meta objs : has_snapshot m now meta objs → offers m now (last_log_idx meta) objs.
Proof.
  intros [Ho Hf _]. split; [|done]. destruct (snapshots (snap_mgr m) !! last_log_idx meta) as [st|]; [|done]. exists st. split; [done|].
  injection Ho as Ho. unfold objects_of. rewrite Ho. exact (objects_listed (snap_init parseTime now "" (KeeperSnapshotStore_new meta 0)) _ eq_refl).
Qed.

Lemma apply_restores m now meta objs s z n tick digest :
  offers m now (last_log_idx meta) objs → objects_of_store s z n objs → sm_store (sn_machine m) = KeeperStore_new tick digest →
  tree_wf (container s) (ephemerals s) → ACLMap_wf (acl_map s) → storable s →
  (∃ schedule, is_Some (apply_snapshot put_str clock junk junk' schedule meta m)) ∧
  ∀ schedule m' r, apply_snapshot put_str clock junk junk' schedule meta m = Some (m', r) →
    r = Ret true ∧ restored s z n (sm_store (sn_machine m')) ∧
    last_committed_idx (sn_machine m') = last_committed_idx (sn_machine m).
Proof.
  intros [(st & Hst & Hobj) Hfiles] (_ & counters & ess & H2 & Hc & Hall) Hnew Hwf Hacl Hs.
  assert (Forall2 (λ p es, performs (parseOneObject put_str clock junk junk' p (snap_dir m)) es (Ret true))
    ((λ i, snap_name now (last_log_idx meta) (Z.of_nat i)) <$> seq 1 (length objs)) ess) as Hp.
  { eapply (Forall2_trans (λ p bs, snap_dir m !! p = Some (object_bytes bs))); [| |exact H2].
    - intros p bs es Hf Hb. exact (Hb p _ Hf).
    - apply Forall2_same_length_lookup_2; [by rewrite length_fmap, length_seq|]. intros i p bs Hi Hbs.
      apply list_lookup_fmap_Some in Hi as (k & -> & Hk). apply lookup_seq in Hk as [-> _].
      replace (Z.of_nat (1 + i)) with (1 + Z.of_nat i) by lia. by apply Hfiles. }
  unfold apply_snapshot, parseSnapshot. rewrite Hst, Hnew. split.
  - destruct (parseObject_ends put_str clock junk junk' (snap_dir m) st _ _ _ (new_own tick digest) Hobj Hp) as [schedule [o Ho]].
    exists schedule. rewrite Ho. destruct o as [s' [|e|]]; by eexists.
  - intros schedule m' r. destruct (parseObject _ _ _ _ _ _ _ _) as [o|] eqn:Eo; [|done].
    destruct (parseObject_changes put_str clock junk junk' _ _ _ _ _ _ _ (new_own tick digest) Hobj Hp Eo) as (made & Hm & ->).
    rewrite Hall in Hm. rewrite (made_built clock s _ _ counters made tick digest Hc Hm Hwf). intros [= <- <-]. split_and!; [done| |done].
    exact (made_restores clock s _ _ counters made tick digest Hc Hm Hwf Hacl Hs).
Qed.

(** ** Sending a snapshot *)

(** The exchange NuRaft drives: the receiver asks for the objects one after the
    other, beginning with 0, until the sender says that it was the last one. *)
Fixpoint exchange (fuel : nat) (sender : SnapMachine) (now : string) (meta : snapshot) (obj_id : Z) : SnM unit :=
  match fuel with
  | O => crash
  | S fuel =>
      match read_logical_snp_obj put_i32 meta obj_id sender with
      | (Some data, is_last_obj) =>
          next ← save_logical_snp_obj parseTime now meta obj_id data;
          if (is_last_obj : bool) then mret tt else exchange fuel sender now meta next
      | (None, _) => crash
      end
  end.

Lemma concat_pieces fuel b : (length b <= fuel)%nat → concat (pieces fuel b) = b.
Proof.
  revert b. induction fuel as [|fuel IH]; intros b Hb; [by destruct b; [|cbn in Hb; lia]|]. cbn [pieces].
  case_bool_decide as E; [done|]. cbn [concat]. rewrite IH; [apply take_drop|].
  rewrite length_drop. destruct b; [done|]. cbn in Hb. unfold IO_BUFFER_SIZE. cbn [length]. lia.
Qed.

(** The sender's side. *)
Lemma read_object m now meta objs i bs :
  has_snapshot m now meta objs → objs !! i = Some bs → Z.of_nat (length objs) < 2 ^ 31 →
  read_logical_snp_obj put_i32 meta (1 + Z.of_nat i) m = (Some (object_bytes bs), bool_decide (S i = length objs)).
Proof.
  intros [Ho Hf _] Hi Hlen. pose proof (lookup_lt_Some _ _ _ Hi) as Hlt. specialize (Hf _ _ Hi). unfold read_logical_snp_obj, existSnapshot, existSnapshotObject, loadSnapshotObject.
  destruct (snapshots (snap_mgr m) !! last_log_idx meta) as [st|]; [|done]. injection Ho as Ho.
  rewrite bool_decide_eq_true_2 by (by eexists). cbn [negb]. rewrite (proj2 (Z.eqb_neq _ _)) by lia. cbn [snd].
  set (st0 := snap_init parseTime now "" (KeeperSnapshotStore_new meta 0)) in Ho.
  assert (∀ o p, objects_path st !! o = Some p ↔ 1 <= o <= Z.of_nat (length objs) ∧ p = getObjectPath st0 o) as Hl.
  { intros o p. rewrite Ho, <-elem_of_map_to_list, (add_paths_objects st0 (length objs) eq_refl), list_elem_of_fmap. split.
    - intros (k & [= -> ->] & [? ?]%elem_of_seq). split; [lia|done].
    - intros [Hr ->]. exists (Z.to_nat o). rewrite Z2Nat.id by lia. split; [done|]. apply elem_of_seq. lia. }
  f_equal.
  - unfold loadObject. rewrite (proj2 (Hl (1 + Z.of_nat i) _)) by (split; [lia|done]). cbn [mbind option_bind].
    change (getObjectPath st0 (1 + Z.of_nat i)) with (snap_name now (last_log_idx meta) (1 + Z.of_nat i)). rewrite Hf. cbn [mbind option_bind].
    by rewrite concat_pieces.
  - unfold existObject. rewrite wrap_u_id by (unfold in_u; lia). rewrite <-bool_decide_not. apply bool_decide_ext. split.
    + intros Hn. apply dec_stable. intros Hne. apply Hn. exists (getObjectPath st0 (1 + Z.of_nat i + 1)). apply Hl. split; [lia|done].
    + intros Hne [p [Hp _]%Hl]. lia.
Qed.

(** The receiver's side: the first objects have arrived. *)
Record received (m0 m : SnapMachine) (now : string) (meta : snapshot) (objs : list (list SnapshotBatchPB)) (k : nat) : Prop := {
  rc_snapshot : snapshots (snap_mgr m) !! last_log_idx meta =
    Some (add_paths k (snap_init parseTime now "" (KeeperSnapshotStore_new meta (object_node_size (snap_mgr m0)))));
  rc_files : snap_dir m =
    close_objects (snap_init parseTime now "" (KeeperSnapshotStore_new meta (object_node_size (snap_mgr m0)))) 1 (take k objs) (snap_dir m0);
  rc_machine : sn_machine m = sn_machine m0
}.

Lemma receive_start m now meta objs data :
  ∃ m', save_logical_snp_obj parseTime now meta 0 data m = (m', Ret 1) ∧ received m m' now meta objs 0.
Proof.
  eexists. split; [unfold save_logical_snp_obj; cbn [Z.eqb]; rewrite (bind_Ret _ _ _ _ _ (on_mgr_run _ m _ _ _ eq_refl)); reflexivity|].
  split; cbn; [apply lookup_insert_eq|done|done].
Qed.

Lemma receive_object m0 m now meta objs k bs :
  received m0 m now meta objs k → objs !! k = Some bs → Z.of_nat (length objs) < 2 ^ 31 →
  (∀ o, snap_dir m0 !! snap_name now (last_log_idx meta) o = None) →
  ∃ m', save_logical_snp_obj parseTime now meta (1 + Z.of_nat k) (object_bytes bs) m = (m', Ret (1 + Z.of_nat (S k))) ∧
    received m0 m' now meta objs (S k).
Proof.
  intros [Hst Hfs Hm] Hbs Hlen Hfresh. pose proof (lookup_lt_Some _ _ _ Hbs) as Hlt.
  set (st0 := snap_init parseTime now "" (KeeperSnapshotStore_new meta (object_node_size (snap_mgr m0)))) in *.
  destruct (add_paths_meta k st0) as [Hmeta Htime].
  assert (getObjectPath (add_paths k st0) (1 + Z.of_nat k) = getObjectPath st0 (1 + Z.of_nat k)) as Hp
    by (unfold getObjectPath; by rewrite Hmeta, Htime).
  assert (snap_dir m !! getObjectPath st0 (1 + Z.of_nat k) = None) as Hnone.
  { rewrite Hfs. apply eq_None_not_Some. intros [Hs|(j & Hj & E%getObjectPath_inj)]%close_objects_names.
    - rewrite getObjectPath_name in Hs. cbn in Hs. rewrite Hfresh in Hs. by destruct Hs.
    - rewrite length_take in Hj. lia. }
  assert (saveSnapshotObject parseTime now meta (1 + Z.of_nat k) (object_bytes bs) (snap_mgr m, snap_dir m) =
    ((upd_snapshots <[last_log_idx meta := add_paths (S k) st0]> (snap_mgr m),
      <[getObjectPath st0 (1 + Z.of_nat k) := object_bytes bs]> (snap_dir m)), Ret true)) as E.
  { unfold saveSnapshotObject. rewrite get_run, Hst.
    assert (on_snapshot (add_paths k st0) (saveObject (1 + Z.of_nat k) (object_bytes bs)) (snap_mgr m, snap_dir m) =
      ((snap_mgr m, <[getObjectPath st0 (1 + Z.of_nat k) := object_bytes bs]> (snap_dir m)), Ret (add_paths (S k) st0, tt))) as E1.
    { unfold on_snapshot, saveObject, on_files, upd_snap, modify, get, mbind, ST_bind. cbn -[pieces add_paths object_bytes getObjectPath].
      rewrite Hp, concat_pieces, Hnone by done. cbn [default]. rewrite drop_nil, app_nil_r.
      do 3 f_equal. unfold add_paths. rewrite (seq_S k 1), foldl_app. cbn [foldl]. by replace (Z.of_nat (1 + k)) with (1 + Z.of_nat k) by lia. }
    rewrite (bind_Ret _ _ _ _ _ E1). done. }
  eexists. split.
  - unfold save_logical_snp_obj. rewrite (proj2 (Z.eqb_neq _ _)) by lia. rewrite (bind_Ret _ _ _ _ _ (on_mgr_run _ m _ _ _ E)).
    unfold mret, ST_ret. rewrite wrap_u_id by (unfold in_u; lia). do 2 f_equal. lia.
  - split; cbn [snap_mgr snap_dir sn_machine upd_snapshots snapshots].
    + apply lookup_insert_eq.
    + fold st0. rewrite (take_S_r _ _ _ Hbs), close_objects_snoc, <-Hfs, length_take, Nat.min_l by lia. done.
    + done.
Qed.

Lemma exchange_rest sender now0 m0 now meta objs fuel : ∀ m k,
  has_snapshot sender now0 meta objs → Z.of_nat (length objs) < 2 ^ 31 →
  (∀ o, snap_dir m0 !! snap_name now (last_log_idx meta) o = None) →
  received m0 m now meta objs k → (k < length objs)%nat → (length objs <= fuel + k)%nat →
  ∃ m', exchange fuel sender now meta (1 + Z.of_nat k) m = (m', Ret tt) ∧ received m0 m' now meta objs (length objs).
Proof.
  induction fuel as [|fuel IH]; intros m k Hs Hlen Hfresh Hr Hk Hf; [lia|].
  destruct (lookup_lt_is_Some_2 objs k Hk) as [bs Hbs]. cbn [exchange]. rewrite (read_object _ _ _ _ _ _ Hs Hbs Hlen).
  destruct (receive_object _ _ _ _ _ _ _ Hr Hbs Hlen Hfresh) as (m1 & E1 & Hr1). rewrite (bind_Ret _ _ _ _ _ E1).
  case_bool_decide as Hl; [exists m1; rewrite <-Hl; by split|]. apply IH; try done; lia.
Qed.

Lemma exchange_run sender now0 now meta objs m :
  has_snapshot sender now0 meta objs → 0 < Z.of_nat (length objs) < 2 ^ 31 →
  (∀ o, snap_dir m !! snap_name now (last_log_idx meta) o = None) →
  ∃ m', exchange (S (length objs)) sender now meta 0 m = (m', Ret tt) ∧ received m m' now meta objs (length objs).
Proof.
  intros Hs Hlen Hfresh. destruct (receive_start m now meta objs (put_i32 0)) as (m1 & E1 & Hr1).
  destruct (exchange_rest sender now0 m now meta objs (length objs) m1 0 Hs ltac:(lia) Hfresh Hr1 ltac:(lia) ltac:(lia)) as (m2 & E2 & Hr2).
  exists m2. split; [|done]. cbn [exchange].
  assert (read_logical_snp_obj put_i32 meta 0 sender = (Some (put_i32 0), false)) as ->.
  { unfold read_logical_snp_obj, existSnapshot. destruct Hs as [Ho _ _]. by destruct (snapshots (snap_mgr sender) !! last_log_idx meta). }
  by rewrite (bind_Ret _ _ _ _ _ E1).
Qed.

Lemma received_offers m0 m now meta objs :
  received m0 m now meta objs (length objs) → offers m now (last_log_idx meta) objs.
Proof.
  intros [Hst Hfs _]. set (st0 := snap_init parseTime now "" (KeeperSnapshotStore_new meta (object_node_size (snap_mgr m0)))) in *. split.
  - exists (add_paths (length objs) st0). split; [done|]. exact (objects_listed st0 _ eq_refl).
  - intros i bs Hi. rewrite Hfs, firstn_all. exact (lookup_close_objects st0 objs 1 (snap_dir m0) i bs Hi).
Qed.



(** ** Starting on a directory with snapshots *)

Lemma last_index m idx : is_Some (snapshots m !! idx) → (∀ k, is_Some (snapshots m !! k) → k <= idx) → last (snapshot_indices m) = Some idx.
Proof.
  intros [st Hst] Hmax. unfold snapshot_indices. pose proof (Sorted_merge_sort Z.le (map_to_list (snapshots m)).*1) as Hs.
  apply Sorted_StronglySorted in Hs; [|apply _].
  assert (∀ k, k ∈ merge_sort Z.le (map_to_list (snapshots m)).*1 ↔ is_Some (snapshots m !! k)) as Hin.
  { intros k. rewrite merge_sort_Permutation, list_elem_of_fmap. split.
    - intros ([k' st'] & -> & Hk%elem_of_map_to_list). by exists st'.
    - intros [st' Hk]. exists (k, st'). split; [done|by apply elem_of_map_to_list]. }
  destruct (merge_sort _ _) as [|x l] using rev_ind; [by destruct (not_elem_of_nil idx); apply Hin; exists st|]. rewrite last_snoc. f_equal.
  apply StronglySorted_app in Hs as (Hle & _). pose proof (Hmax x (proj1 (Hin x) ltac:(set_solver))).
  assert (idx ∈ l ++ [x]) as [Hi|Hi%list_elem_of_singleton]%elem_of_app by (by apply Hin; exists st); [|done].
  pose proof (Hle idx x Hi ltac:(set_solver)). lia.
Qed.

Lemma metas_offer m now meta objs keep osize fs0 machine vars :
  has_snapshot m now meta objs → 0 < Z.of_nat (length objs) < 2 ^ 31 → time_ok now → u64_ok (last_log_idx meta) → fs0 = snap_dir m →
  ∃ mgr s k, loadSnapshotMetas parseTime list_dir vars (mkManager keep osize ∅, fs0) = ((mgr, fs0), Ret k) ∧
    lastSnapshot mgr = Some s ∧ last_log_idx s = last_log_idx meta ∧
    offers (mkSM machine mgr fs0 None false 0 []) now (last_log_idx meta) objs.
Proof.
  intros [_ Hfiles Hnames] Hlen Ht Hidx ->. assert (Z.of_nat (length objs) < 2 ^ 64) as Hcnt by lia. set (idx := last_log_idx meta) in *.
  set (mgr := load_metas parseTime (list_dir (snap_dir m)) vars (mkManager keep osize ∅)).
  pose proof (listed list_dir list_dir_names _ _ Hnames) as Hl.
  destruct (load_metas_run parseTime now idx _ Ht Hidx Hcnt _ Hl vars (mkManager keep osize ∅) mgr eq_refl) as (H1 & H2 & _ & H4).
  assert (∀ o p, objects_at idx mgr !! o = Some p ↔ 1 <= o <= Z.of_nat (length objs) ∧ p = snap_name now idx o) as Hobj.
  { intros o p. split.
    - intros [(Ho & -> & Hin)|Hn]%H4; [|by cbn in Hn]. split; [|done]. rewrite Forall_forall in Hl.
      destruct (Hl _ Hin) as [Hn|(t & i & o' & ? & ? & ? & HP & E)]; [by rewrite snap_name_found in Hn|].
      apply snap_name_inj in E as (-> & -> & ->); try done. destruct HP as [?|(_ & _ & ?)]; [lia|done].
    - intros [Ho ->]. apply (load_metas_finds parseTime now idx (Z.of_nat (length objs)) Ht Hidx); [done| |unfold u64_ok; lia].
      destruct (lookup_lt_is_Some_2 objs (Z.to_nat (o - 1)) ltac:(lia)) as [bs Hbs]. specialize (Hfiles _ _ Hbs).
      replace (1 + Z.of_nat (Z.to_nat (o - 1))) with o in Hfiles by lia. rewrite list_dir_names. apply list_elem_of_fmap.
      exists (snap_name now idx o, object_bytes bs). split; [done|by apply elem_of_map_to_list]. }
  assert (∃ st, snapshots mgr !! idx = Some st) as [st Hst].
  { destruct (snapshots mgr !! idx) as [st|] eqn:E; [by exists st|]. specialize (Hobj 1 (snap_name now idx 1)). unfold objects_at in Hobj.
    rewrite E in Hobj. cbn in Hobj. rewrite lookup_empty in Hobj. assert (None = Some (snap_name now idx 1)) as Hbad; [|done]. apply Hobj. split; [lia|done]. }
  exists mgr, (snap_meta st), (Z.of_nat (size (snapshots mgr))). split_and!.
  - unfold loadSnapshotMetas. by rewrite get_run.
  - unfold lastSnapshot. rewrite (last_index mgr idx); [|by exists st|].
    + cbn [mbind option_bind]. by rewrite Hst.
    + intros k [Hk|?]%H2; [by destruct Hk|done].
  - by apply (H1 ltac:(done)).
  - split; [|exact Hfiles]. exists st. split; [done|].
    set (st0 := snap_init parseTime now "" (KeeperSnapshotStore_new meta 0)).
    assert (objects_path st = objects_path (add_paths (length objs) st0)) as Ho; [|unfold objects_of; rewrite Ho; exact (objects_listed st0 _ eq_refl)].
    apply map_eq. intros o. apply option_eq. intros p. unfold objects_at in Hobj. rewrite Hst in Hobj. cbn in Hobj. rewrite Hobj.
    rewrite <-elem_of_map_to_list, (add_paths_objects st0 (length objs) eq_refl), list_elem_of_fmap. split.
    + intros [Hr ->]. exists (Z.to_nat o). rewrite Z2Nat.id by lia. split; [done|]. apply elem_of_seq. lia.
    + intros (k & [= -> ->] & [? ?]%elem_of_seq). split; [lia|done].
Qed.

Context (getSHA1 base64Encode : string → string) (get_i64 : bytes → outcome exn (Z * bytes)) (get_ulong : bytes → outcome exn Z).

(** A log that ends where the snapshot does, or before, is not replayed. *)
Lemma replay_nothing log prev m : lg_last log <= last_committed_idx m →
  replay getSHA1 base64Encode get_i64 get_ulong clock log prev m =
    (m, Ret (if lg_last log + 1 <=? last_committed_idx m then Some (last_committed_idx m) else None)).
Proof.
  intros Hl. unfold replay. rewrite get_run. assert (replay_last log prev <= lg_last log) as Hr.
  { unfold replay_last. destruct (negb _ && _) eqn:E; [|lia]. apply andb_true_iff in E as [_ E%Z.ltb_lt]. lia. }
  replace (Z.to_nat _) with 0%nat by lia. done.
Qed.

Definition compacted (log : option Log) (idx : Z) : option Z :=
  l ← log; if lg_last l + 1 <=? idx then Some idx else None.

(** C9: a server that starts again has the store of its last snapshot. On the
    directory a server leaves when it has taken a snapshot, with older snapshots
    and other files beside it and in whatever order the files are listed, a start
    finds the objects of the newest snapshot, loads them in its threads and ends
    with the same tree, sessions, credentials, ACL numbers and counters, at the
    index of the snapshot; a log that is behind it is to be compacted. *)
Theorem restart_restores m now vars vars' meta z n tick digest tasks prev processor keep osize log :
  ready m now (last_log_idx meta) z n → getLastCommitted get_ulong tasks 0 = Ret prev →
  (∀ l, log = Some l → lg_last l <= last_log_idx meta) →
  ∃ m' meta', create_snapshot_now parseTime list_dir now vars meta z n m = (m', Ret meta') ∧
    let m0 := new_machine tick digest tasks processor keep osize (snap_dir m') in
    let run schedule := start put_str parseTime list_dir getSHA1 base64Encode get_i64 get_ulong clock vars' junk junk' schedule log m0 in
    (∃ schedule, is_Some (run schedule)) ∧
    ∀ schedule m1 r, run schedule = Some (m1, r) →
      r = Ret (compacted log (last_log_idx meta)) ∧ last_committed_idx (sn_machine m1) = last_log_idx meta ∧
      restored (sm_store (sn_machine m)) z n (sm_store (sn_machine m1)).
Proof.
  intros R Hprev Hlog. destruct (create_run m now vars meta z n R) as (m' & meta' & objs & E & Hidx & _ & Hs & Ho).
  exists m', meta'. split; [exact E|]. intros m0 run.
  destruct (metas_offer m' now meta' objs keep osize (snap_dir m') (sm_last (last_log_idx meta) (sn_machine m0)) vars' Hs (proj1 Ho))
    as (mgr & s & k & E1 & Hlast & Hsi & Hoff); [apply R|rewrite Hidx; apply R|done|]. rewrite <-Hsi in Hoff. rewrite Hidx in Hsi.
  destruct (apply_restores _ now s objs (sm_store (sn_machine m)) z n tick digest Hoff Ho eq_refl) as [H1 H2]; [apply R|apply R|by eapply rd_storable|].
  set (m2 := mkSM (sm_last (last_log_idx meta) (sn_machine m0)) mgr (snap_dir m') None false 0 []) in *.
  assert (∀ schedule, load_last put_str parseTime list_dir clock vars' junk junk' schedule m0 =
    match apply_snapshot put_str clock junk junk' schedule s m2 with
    | None => None | Some (m, Ret _) => Some (m, Ret tt) | Some (m, Throw e) => Some (m, Throw e) | Some (m, Crash) => Some (m, Crash) end) as Hload.
  { intros schedule. unfold load_last. rewrite (on_mgr_run (loadSnapshotMetas parseTime list_dir vars') m0 _ _ _ E1). unfold last_snapshot.
    cbn [snap_mgr]. by rewrite Hlast, Hsi. }
  split.
  - destruct H1 as [schedule [[m3 r] Hr]]. exists schedule. unfold run, start. cbn [sn_machine m0 new_machine task_manager]. rewrite Hprev, Hload, Hr.
    destruct r as [b|e|]; [|by eexists..]. destruct log as [l|]; [|by eexists]. destruct (replay _ _ _ _ _ _ _ _). by eexists.
  - intros schedule m1 r. unfold run, start. cbn [sn_machine m0 new_machine task_manager]. rewrite Hprev, Hload.
    destruct (apply_snapshot put_str clock junk junk' schedule s m2) as [[m3 r3]|] eqn:Ha; [|done].
    destruct (H2 schedule m3 r3 Ha) as (-> & Hres & Hci). cbn in Hci. destruct log as [l|]; [|intros [= <- <-]; by split_and!].
    specialize (Hlog l eq_refl). rewrite replay_nothing by (rewrite Hci; lia). intros [= <- <-]. cbn [sn_machine compacted mbind option_bind].
    rewrite Hci. by split_and!.
Qed.
End machine.

(** ** A server with an older snapshot *)

Module TransferDemo.
Definition list_dir (fs : Files) : list string := (map_to_list fs).*1.
Definition tasks : TaskManager := mkTasks [] [].
Definition machine (s : KeeperStore) : Machine := mkMachine s [] 10 tasks ∅ [] None.
Definition old : KeeperSnapshotStore :=
  addObjectPath 1 (snap_name "20210101" 5 1) (snap_init (λ _, 0) "" "20210101" (KeeperSnapshotStore_new (mkSnapshot 5 1 0) 2)).
Definition dir : Files := {["committed.task" := []; snap_name "20210101" 5 1 := []]}.
Definition sender : SnapMachine := mkSM (machine SnapshotDemo.store) (mkManager 1 2 {[5 := old]}) dir None false 0 [].
Definition receiver : SnapMachine := mkSM (machine (KeeperStore_new 500 "")) (mkManager 3 2 ∅) ∅ None false 0 [].
Definition meta : snapshot := mkSnapshot 10 2 0.

Lemma sender_ready : ready sender "20220101" 10 3 2.
Proof.
  split; cbn [sender machine sn_machine sm_store snap_mgr snap_dir object_node_size keep_max_snapshot_count snapshots].
  - exact (wf_tree _ (reachable_wf Demo.sha Demo.b64 _ SnapshotDemo.store_reachable)).
  - exact SnapshotDemo.store_acl_map.
  - exact SnapshotDemo.store_has_types.
  - exact SnapshotDemo.store_limits.
  - unfold in_s; lia.
  - unfold in_s; lia.
  - exact SnapshotDemo.store_fits.
  - lia.
  - lia.
  - done.
  - done.
  - intros f [b Hf]. unfold dir in Hf. apply lookup_insert_Some in Hf as [[<- _]|[_ Hf]]; [by left|].
    apply lookup_singleton_Some in Hf as [<- _]. right. exists "20210101", 5, 1. by split_and!.
  - intros k [st Hk]. apply lookup_singleton_Some in Hk as [<- _]. lia.
Qed.
End TransferDemo.


Lemma restart_restores_witness : ∃ m' meta',
  create_snapshot_now (λ _, 0) TransferDemo.list_dir "20220101" ("", 0, 0) TransferDemo.meta 3 2 TransferDemo.sender = (m', Ret meta') ∧
  let m0 := new_machine 500 "" TransferDemo.tasks None 3 2 (snap_dir m') in
  let run schedule := start SnapshotDemo.put_str (λ _, 0) TransferDemo.list_dir Demo.sha Demo.b64 (λ _, Crash) (λ _, Crash)
    (λ _, 5) ("", 0, 0) 0 0 schedule (Some (mkLog 1 [])) m0 in
  (∃ schedule, is_Some (run schedule)) ∧
  ∀ schedule m1 r, run schedule = Some (m1, r) →
    r = Ret (compacted (Some (mkLog 1 [])) 10) ∧ last_committed_idx (sn_machine m1) = 10 ∧
    restored SnapshotDemo.store 3 2 (sm_store (sn_machine m1)).
Proof.
  refine (restart_restores SnapshotDemo.put_str (λ _, 0) TransferDemo.list_dir (le_split 4) (λ _, 5) 0 0
    (λ b, ex_intro _ _ eq_refl) SnapshotDemo.demo_parses (λ fs, reflexivity _) Demo.sha Demo.b64 (λ _, Crash) (λ _, Crash)
    TransferDemo.sender "20220101" ("", 0, 0) ("", 0, 0) TransferDemo.meta 3 2 500 "" TransferDemo.tasks 0 None 3 2 (Some (mkLog 1 []))
    TransferDemo.sender_ready eq_refl _).
  intros l [= <-]. by vm_compute.
Defined.
