(* ===== verification/Forwarding.v ===== *)
(** * Forwarding of requests to the leader: src/Service/ForwardingConnection.{h,cpp}

    A follower keeps a connection per runner to the leader. It opens with a
    handshake and carries three kinds of packages; the leader answers with
    [ForwardResponse]s. The socket is third-party code: the class [SocketOps]
    has what the source calls of it. *)

From coqutil Require Import Word.LittleEndianList Byte.
From S2P Require Import Prelude Types ZkIO ZkCodec RequestsQueue RequestProcessor.
From stdpp Require Import base gmap sets strings option list.
From Stdlib Require Import ZArith Lia.
Open Scope Z_scope.

(** ** Packages *)

Inductive PkgType : Set := Pkg_Unknown | Pkg_Handshake | Pkg_Session | Pkg_Data | Pkg_Result.

(** The enumeration has eight signed bits; a value read from the wire may be none
    of the enumerators. *)
Definition pkg_code (t : PkgType) : Z :=
  match t with
  | Pkg_Unknown => -1 | Pkg_Handshake => 1 | Pkg_Session => 2 | Pkg_Data => 3 | Pkg_Result => 4
  end.

Record ForwardResponse : Type := mkForwardResponse {
  fr_protocol : Z;
  fr_accepted : bool;
  fr_error_code : Z;
  fr_session_id : Z;
  fr_xid : Z;
  fr_opnum : OpNum
}.

Definition non_session_id : Z := -1.
Definition non_xid : Z := -1.

Definition forward_response_write (r : ForwardResponse) : bytes :=
  write_i8 (fr_protocol r) ++ write_bool (fr_accepted r) ++ write_i32 (fr_error_code r) ++
  write_i64 (fr_session_id r) ++ write_i64 (fr_xid r) ++ write_OpNum (fr_opnum r).

(** A response before anything was read into it. *)
Definition forward_response_new (OK : Z) : ForwardResponse :=
  mkForwardResponse (pkg_code Pkg_Unknown) true OK non_session_id non_xid Op_Error.

(** The bytes [send] writes: the type, then a string with the request. *)
Definition forward_body (x : RequestForSession) : bytes :=
  write_i64 (rs_session_id x) ++ write_i32 (rs_xid x) ++ write_OpNum (rs_opnum x) ++
  request_writeImpl (rs_request x).
Definition data_package (x : RequestForSession) : bytes :=
  write_i8 (pkg_code Pkg_Data) ++ write_string (String.string_of_list_byte (forward_body x)).

Definition session_package (sessions : list (Z * Z)) : bytes :=
  write_i8 (pkg_code Pkg_Session) ++ write_i32 (s32 (Z.of_nat (length sessions))) ++
  concat (map (λ '(session_id, time), write_i64 session_id ++ write_i64 time) sessions).

Definition handshake_package (my_server_id thread_id : Z) : bytes :=
  write_i8 (pkg_code Pkg_Handshake) ++ write_i32 my_server_id ++ write_i32 thread_id.

(** ** The connection *)

(** The socket a connection works on: connecting, writing and reading a number of
    bytes can fail; [close] does not. *)
Class SocketOps (S : Type) : Type := {
  sock_connect : S → S * bool;
  sock_write : bytes → S → S * bool;
  sock_read : nat → S → S * option bytes;
  sock_close : S → S
}.

Record ForwardingConnection (S : Type) : Type := mkFC {
  my_server_id : Z;
  thread_id : Z;
  connected : bool;
  fc_socket : S
}.
Arguments mkFC {S}. Arguments my_server_id {S}. Arguments thread_id {S}. Arguments connected {S}.
Arguments fc_socket {S}.

Section Connection.
Context {S : Type} `{SocketOps S}.
Implicit Types c : ForwardingConnection S.
Abbreviation FCM := (ST (ForwardingConnection S) exn).

Definition set_socket (b : bool) (s : S) c : ForwardingConnection S := mkFC (my_server_id c) (thread_id c) b s.

(** [connect]: at most three attempts, each ends with the handshake package; an
    attempt that fails is logged. *)
Fixpoint connect_tries (num_tries : nat) c : ForwardingConnection S :=
  match num_tries with
  | O => c
  | Datatypes.S n =>
      let '(s, ok) := sock_connect (fc_socket c) in
      if ok then
        let '(s, ok) := sock_write (handshake_package (my_server_id c) (thread_id c)) s in
        if ok then set_socket true s c else connect_tries n (set_socket (connected c) s c)
      else connect_tries n (set_socket (connected c) s c)
  end.
Definition fc_connect c : ForwardingConnection S := connect_tries 3 c.

Definition fc_disconnect c : ForwardingConnection S :=
  if connected c then set_socket false (sock_close (fc_socket c)) c else c.

(** [send] and [sendSession] after the package is put together: connect when
    needed, write, disconnect when the write fails. *)
Definition send_package (package : bytes) : FCM unit := λ c,
  let c := if connected c then c else fc_connect c in
  if negb (connected c) then (c, Throw ALL_CONNECTION_TRIES_FAILED)
  else
    let '(s, ok) := sock_write package (fc_socket c) in
    let c := set_socket true s c in
    if ok then (c, Ret tt) else (fc_disconnect c, Throw NETWORK_ERROR).

Definition fc_send (x : RequestForSession) : FCM unit := send_package (data_package x).
Definition fc_sendSession (sessions : list (Z * Z)) : FCM unit := send_package (session_package sessions).

(** One field of a response: a failure leaves the field as it was. *)
Definition receive_field {A} (n : nat) (rd : reader A) (set : A → ForwardResponse → ForwardResponse)
    : ST (S * ForwardResponse) exn unit := λ '(s, r),
  match sock_read n s with
  | (s, None) => ((s, r), Throw NETWORK_ERROR)
  | (s, Some bs) =>
      match (rd bs).2 with
      | Ret a => ((s, set a r), Ret tt)
      | Throw e => ((s, r), Throw e)
      | Crash => ((s, r), Crash)
      end
  end.

Definition receive_fields : ST (S * ForwardResponse) exn unit :=
  receive_field 1 read_i8 (λ v '(mkForwardResponse _ a c s x o), mkForwardResponse v a c s x o);;
  receive_field 1 read_bool (λ v '(mkForwardResponse t _ c s x o), mkForwardResponse t v c s x o);;
  receive_field 4 read_i32 (λ v '(mkForwardResponse t a _ s x o), mkForwardResponse t a v s x o);;
  receive_field 8 read_i64 (λ v '(mkForwardResponse t a c _ x o), mkForwardResponse t a c v x o);;
  receive_field 8 read_i64 (λ v '(mkForwardResponse t a c s _ o), mkForwardResponse t a c s v o);;
  receive_field 4 read_OpNum (λ v '(mkForwardResponse t a c s x _), mkForwardResponse t a c s x v).

(** [receive] fills the caller's response; an exception is logged, closes the
    connection and leaves what was read until then. *)
Definition fc_receive (response : ForwardResponse) : FCM (bool * ForwardResponse) := λ c,
  if negb (connected c) then (c, Ret (false, response))
  else
    match receive_fields (fc_socket c, response) with
    | ((s, r), Ret _) => (set_socket true s c, Ret (true, r))
    | ((s, r), _) => (fc_disconnect (set_socket true s c), Ret (false, r))
    end.
End Connection.

(** ** What the leader answers arrives *)

Definition forward_response_ok (r : ForwardResponse) : Prop :=
  in_s 8 (fr_protocol r) ∧ in_s 32 (fr_error_code r) ∧ in_s 64 (fr_session_id r) ∧ in_s 64 (fr_xid r).

#[export] Hint Resolve reads_i8 : wire.

(** A socket in which bytes wait: reading takes them from the front. *)
Class SocketDelivers (S : Type) `{SocketOps S} : Type := {
  incoming : S → bytes;
  read_incoming n s bs rest :
    incoming s = bs ++ rest → length bs = n →
    ∃ s', sock_read n s = (s', Some bs) ∧ incoming s' = rest
}.

Section Receive.
Context {S : Type} `{SocketDelivers S}.

Lemma receive_field_reads {A} n (rd : reader A) set s r bs a rest :
  incoming s = bs ++ rest → length bs = n → reads rd bs a →
  ∃ s', receive_field n rd set (s, r) = ((s', set a r), Ret tt) ∧ incoming s' = rest.
Proof.
  intros Hin Hn Hr. destruct (read_incoming n s bs rest Hin Hn) as (s' & E & Hs'). exists s'. split; [|done].
  unfold receive_field. rewrite E. specialize (Hr []). rewrite app_nil_r in Hr. by rewrite Hr.
Qed.

Lemma receive_field_then {A} n (rd : reader A) set s r bs a rest rest' r' (k : ST (S * ForwardResponse) exn unit) :
  incoming s = bs ++ rest → length bs = n → reads rd bs a →
  (∀ s', incoming s' = rest → ∃ s'', k (s', set a r) = ((s'', r'), Ret tt) ∧ incoming s'' = rest') →
  ∃ s'', (receive_field n rd set;; k) (s, r) = ((s'', r'), Ret tt) ∧ incoming s'' = rest'.
Proof.
  intros Hin Hn Hr Hk. destruct (receive_field_reads n rd set s r bs a rest Hin Hn Hr) as (s' & E & Hs').
  destruct (Hk s' Hs') as (s'' & E' & Hs''). exists s''. by rewrite (bind_Ret _ _ _ _ _ E).
Qed.

Lemma receive_fields_reads s r r0 rest :
  forward_response_ok r → incoming s = forward_response_write r ++ rest →
  ∃ s', receive_fields (s, r0) = ((s', r), Ret tt) ∧ incoming s' = rest.
Proof.
  intros (H1 & H2 & H3 & H4) Hin. unfold forward_response_write in Hin. rewrite <-!(assoc_L (++)) in Hin.
  destruct r as [t a c sid x o], r0 as [t0 a0 c0 sid0 x0 o0]; cbn in H1, H2, H3, H4.
  eapply receive_field_then; [exact Hin|apply length_le_split|by apply reads_i8|intros s1 Hin1].
  eapply receive_field_then; [exact Hin1|apply length_le_split|by apply reads_bool|intros s2 Hin2].
  eapply receive_field_then; [exact Hin2|apply length_write_int|by apply reads_i32|intros s3 Hin3].
  eapply receive_field_then; [exact Hin3|apply length_write_int|by apply reads_i64|intros s4 Hin4].
  eapply receive_field_then; [exact Hin4|apply length_write_int|by apply reads_i64|intros s5 Hin5].
  edestruct (receive_field_reads (A := OpNum)) as (s6 & E & Hin6); [exact Hin5|apply length_write_int|by apply reads_OpNum|].
  exists s6. split; [exact E|exact Hin6].
Qed.
End Receive.
