(* ===== verification/RequestAccumulator.v ===== *)
(** * The request accumulator: src/Service/RequestAccumulator.{h,cpp}

    Writes are collected into batches that Raft replicates at once; what Raft
    says of a batch is passed on for each of its requests. The queue, the batch
    of every runner and each turn of the loop are as in the source. What the
    accumulator calls (the server, the dispatcher, the request processor) is the
    class [AccumulatorEnv]: the theorems hold for every implementation, Leader.v
    gives the one of a server. *)

From S2P Require Import Prelude Types RequestsQueue RequestProcessor ProcessorOrder Forwarding.
From stdpp Require Import base gmap sets strings option list.
From Stdlib Require Import ZArith Lia.
Open Scope Z_scope.

(** ** The accumulator *)

(** [acc_batches] are the local batches of the runners; a result code of NuRaft
    is the number of its enumerator. *)
Record Accumulator : Type := mkAccumulator {
  acc_queue : RequestsQueue;
  acc_batches : list (list RequestForSession);
  acc_max_batch_size : Z;
  acc_shutdown_called : bool
}.

(** What the accumulator calls: [putRequestBatch] of the server, whose result is
    waited for and says whether Raft accepted the batch and with which code;
    [sendAppendEntryResponse] of the dispatcher; [onError] of the processor. *)
Class AccumulatorEnv (E : Type) : Type := {
  env_putRequestBatch : list RequestForSession → E → E * (bool * Z);
  env_sendAppendEntryResponse : Z → Z → ForwardResponse → E → E;
  env_onError : bool → Z → Z → Z → OpNum → E → E
}.

Definition acc_initialize (runner_count : nat) (max_batch_size : Z) : Accumulator :=
  mkAccumulator (RequestsQueue_new runner_count 20000) (replicate runner_count []) max_batch_size false.

(** [None] while it waits for room. *)
Definition acc_push (r : RequestForSession) (a : Accumulator) : option Accumulator :=
  '(qs, _) ← rq_push r (acc_queue a);
  Some (mkAccumulator qs (acc_batches a) (acc_max_batch_size a) (acc_shutdown_called a)).

Definition set_batch (r : nat) (b : list RequestForSession) (a : Accumulator) : Accumulator :=
  mkAccumulator (acc_queue a) (<[r := b]> (acc_batches a)) (acc_max_batch_size a) (acc_shutdown_called a).
Definition set_acc_queue (qs : RequestsQueue) (a : Accumulator) : Accumulator :=
  mkAccumulator qs (acc_batches a) (acc_max_batch_size a) (acc_shutdown_called a).

Section Accumulator.
Context (OK CANCELLED : Z) {E : Type} `{AccumulatorEnv E}.

Abbreviation AccM := (ST (Accumulator * E) exn).

(** One request of a batch that Raft has answered. *)
Definition report_one (result : bool * Z) (x : RequestForSession) (e : E) : E :=
  let '(accepted, code) := result in
  if isForwardRequest x then
    env_sendAppendEntryResponse (rs_server_id x) (rs_client_id x)
      (mkForwardResponse (pkg_code Pkg_Result) accepted code (rs_session_id x) (rs_xid x) (rs_opnum x)) e
  else if negb accepted || negb (code =? OK) then
    env_onError accepted code (rs_session_id x) (rs_xid x) (rs_opnum x) e
  else e.

Definition waitResultAndHandleError (result : bool * Z) (batch : list RequestForSession) (e : E) : E * bool :=
  (foldl (λ e x, report_one result x e) e batch, result.1 && (result.2 =? OK)).

(** A batch goes to Raft and its result is handled. *)
Definition submit (e : E) (batch : list RequestForSession) : E :=
  let '(e, result) := env_putRequestBatch batch e in (waitResultAndHandleError result batch e).1.

(** One turn of the loop of [run]; a wait for a request ends in the given state. *)
Definition run_turn (runner_id : nat) : AccM unit := λ '(a, e),
  if acc_shutdown_called a then ((a, e), Ret tt)
  else
    match acc_batches a !! runner_id, rq_tryPop runner_id (acc_queue a) with
    | Some batch, Some (qs, Some x) =>
        let a := set_acc_queue qs a in
        if acc_max_batch_size a <=? Z.of_nat (length (batch ++ [x]))
        then ((set_batch runner_id [] a, submit e (batch ++ [x])), Ret tt)
        else ((set_batch runner_id (batch ++ [x]) a, e), Ret tt)
    | Some batch, Some (_, None) =>
        if bool_decide (batch = []) then ((a, e), Ret tt)
        else ((set_batch runner_id [] a, submit e batch), Ret tt)
    | _, _ => ((a, e), Crash)
    end.

Fixpoint acc_drain (fuel : nat) (qs : RequestsQueue) (e : E) : RequestsQueue * E :=
  match fuel with
  | O => (qs, e)
  | S fuel =>
      match rq_tryPopAny qs with
      | (qs', Some x) =>
          acc_drain fuel qs' (env_onError false CANCELLED (rs_session_id x) (rs_xid x) (rs_opnum x) e)
      | (_, None) => (qs, e)
      end
  end.

(** Every request popped shortens the queues: their total length is enough fuel. *)
Definition acc_shutdown : AccM unit := λ '(a, e),
  if acc_shutdown_called a then ((a, e), Ret tt)
  else
    let '(qs, e) := acc_drain (Z.to_nat (rq_size (acc_queue a))) (acc_queue a) e in
    ((mkAccumulator qs (acc_batches a) (acc_max_batch_size a) true, e), Ret tt).
End Accumulator.

(** ** Batches keep the order of the requests *)

Section Order.
Context (OK : Z) {E : Type} `{AccumulatorEnv E}.
Implicit Types (a : Accumulator) (e : E).

Definition batch_of a (r : nat) : list RequestForSession := default [] (acc_batches a !! r).

(** What runner [r] has not submitted yet. *)
Definition unsubmitted a (r : nat) : list RequestForSession := batch_of a r ++ rq_items (acc_queue a) r.

Definition batch_limit (max_batch_size : Z) : Z := Z.max 1 max_batch_size.

(** A batch that Raft is given. *)
Definition batch_fits (max_batch_size : Z) (b : list RequestForSession) : Prop :=
  b ≠ [] ∧ Z.of_nat (length b) <= batch_limit max_batch_size.

Record acc_ok (n : nat) a : Prop := {
  ao_queues : length (acc_queue a) = n;
  ao_batches : length (acc_batches a) = n;
  ao_open : rq_open (acc_queue a);
  ao_running : acc_shutdown_called a = false;
  ao_size r : Z.of_nat (length (batch_of a r)) < batch_limit (acc_max_batch_size a)
}.

Lemma acc_initialize_ok n mb : acc_ok n (acc_initialize n mb).
Proof.
  split; simpl; try done.
  - apply length_replicate.
  - apply length_replicate.
  - apply rq_new_open.
  - intros r. unfold batch_of. simpl. unfold batch_limit.
    destruct (replicate n [] !! r) as [b|] eqn:Eb; simpl; [|lia].
    apply lookup_replicate in Eb as [-> _]. simpl. lia.
Qed.

Lemma acc_initialize_unsubmitted n mb r : unsubmitted (acc_initialize n mb) r = [].
Proof.
  unfold unsubmitted, batch_of. simpl. rewrite rq_new_items, app_nil_r.
  destruct (replicate n [] !! r) as [b|] eqn:Eb; [|done]. by apply lookup_replicate in Eb as [-> _].
Qed.

Lemma acc_push_spec n x a a' :
  acc_ok n a → acc_push x a = Some a' →
  acc_ok n a' ∧ acc_max_batch_size a' = acc_max_batch_size a ∧
  ∀ k, unsubmitted a' k =
    if decide (k = queue_of n (rs_session_id x)) then unsubmitted a k ++ [x] else unsubmitted a k.
Proof.
  intros [Hq Hb Ho Hs Hl] Ep. unfold acc_push in Ep.
  destruct (rq_push x (acc_queue a)) as [[qs b]|] eqn:Eq; simplify_eq/=.
  apply rq_push_spec in Eq as (_ & Hlen & Ho' & Hk); [|done]. split_and!; [split; simpl; rewrite ?Hlen; done|done|].
  intros k. unfold unsubmitted, batch_of. simpl. rewrite Hk. by destruct (decide _); rewrite ?(assoc_L (++)).
Qed.

Lemma set_batch_of a r b k :
  (r < length (acc_batches a))%nat →
  batch_of (set_batch r b a) k = if decide (k = r) then b else batch_of a k.
Proof.
  intros Hr. unfold batch_of. simpl. destruct (decide (k = r)) as [->|].
  - by rewrite list_lookup_insert_eq.
  - by rewrite list_lookup_insert_ne.
Qed.

Lemma set_batch_ok n a r b :
  acc_ok n a → (r < n)%nat → Z.of_nat (length b) < batch_limit (acc_max_batch_size a) →
  acc_ok n (set_batch r b a).
Proof.
  intros [Hq Hb Ho Hs Hl] Hr Hlen. split; simpl; try done; [by rewrite length_insert|].
  intros k. rewrite set_batch_of by lia. by destruct (decide _).
Qed.

Lemma set_acc_queue_ok n a qs :
  acc_ok n a → length qs = length (acc_queue a) → rq_open qs → acc_ok n (set_acc_queue qs a).
Proof. intros [Hq Hb Ho Hs Hl] Hlen Ho'. split; simpl; try done. by rewrite Hlen. Qed.

Lemma set_batch_unsubmitted n a qs r b k :
  acc_ok n a → (r < n)%nat →
  unsubmitted (set_batch r b (set_acc_queue qs a)) k =
    (if decide (k = r) then b else batch_of a k) ++ rq_items qs k.
Proof.
  intros [_ Hb _ _ _] Hr. unfold unsubmitted. rewrite set_batch_of by (simpl; lia). done.
Qed.

(** What a turn of runner [r] that submits the batches [sent] does. *)
Record turned (n r : nat) a (sent : list (list RequestForSession)) a' : Prop := {
  tu_ok : acc_ok n a';
  tu_max : acc_max_batch_size a' = acc_max_batch_size a;
  tu_fits : Forall (batch_fits (acc_max_batch_size a)) sent;
  tu_order : unsubmitted a r = concat sent ++ unsubmitted a' r;
  tu_others k : k ≠ r → unsubmitted a' k = unsubmitted a k;
  tu_length : length (rq_items (acc_queue a') r) = pred (length (rq_items (acc_queue a) r));
  tu_last : rq_items (acc_queue a) r = [] → unsubmitted a' r = []
}.

Lemma turned_by n r a qs b sent :
  acc_ok n a → (r < n)%nat → length qs = length (acc_queue a) → rq_open qs →
  Z.of_nat (length b) < batch_limit (acc_max_batch_size a) →
  Forall (batch_fits (acc_max_batch_size a)) sent →
  unsubmitted a r = concat sent ++ b ++ rq_items qs r →
  (∀ k, k ≠ r → rq_items qs k = rq_items (acc_queue a) k) →
  length (rq_items qs r) = pred (length (rq_items (acc_queue a) r)) →
  (rq_items (acc_queue a) r = [] → b = []) →
  turned n r a sent (set_batch r b (set_acc_queue qs a)).
Proof.
  intros Hok Hr Hlen Ho Hb Hfit Hord Hoth Hpred Hlast. split; try done.
  - apply set_batch_ok; [by apply set_acc_queue_ok|done|done].
  - by rewrite (set_batch_unsubmitted n), decide_True.
  - intros k Hk. by rewrite (set_batch_unsubmitted n), decide_False, Hoth.
  - intros He. rewrite (set_batch_unsubmitted n), decide_True, Hlast by done. rewrite He in Hpred.
    by destruct (rq_items qs r).
Qed.

(** A turn submits at most one batch, of the requests that came first. *)
Lemma run_turn_spec n r a e :
  acc_ok n a → (r < n)%nat →
  ∃ a' sent, run_turn OK r (a, e) = ((a', foldl (submit OK) e sent), Ret tt) ∧ turned n r a sent a'.
Proof.
  intros Hok Hr. pose proof Hok as [Hq Hb Ho Hs Hl]. specialize (Hl r).
  destruct (lookup_lt_is_Some_2 (acc_batches a) r) as [b Eb]; [lia|].
  destruct (lookup_lt_is_Some_2 (acc_queue a) r) as [q Eq]; [lia|].
  assert (unsubmitted a r = b ++ rq_items (acc_queue a) r) as Hu by (unfold unsubmitted, batch_of; by rewrite Eb).
  unfold batch_of in Hl. rewrite Eb in Hl. simpl in Hl.
  unfold run_turn. rewrite Hs, Eb.
  destruct (rq_tryPop r (acc_queue a)) as [[qs o]|] eqn:Ep.
  2:{ unfold rq_tryPop in Ep. rewrite Eq in Ep. simpl in Ep. by destruct (bq_tryPop q). }
  apply rq_tryPop_spec in Ep as (Hlen & Ho' & Hx); [|done].
  assert (0 < batch_limit (acc_max_batch_size a)) as Hpos by (unfold batch_limit; lia).
  destruct o as [x|].
  - destruct Hx as [Hx Hk]. simpl acc_max_batch_size. rewrite Hx in Hu.
    destruct (Z.leb_spec (acc_max_batch_size a) (Z.of_nat (length (b ++ [x])))) as [Hm|Hm].
    + eexists _, [b ++ [x]]. split; [done|]. apply turned_by; try done; rewrite ?Hx; try done.
      * apply Forall_singleton. split; [by destruct b|]. unfold batch_limit in *. rewrite length_app. simpl. lia.
      * simpl. by rewrite Hu, app_nil_r, <-(assoc_L (++)).
    + eexists _, []. split; [done|]. apply turned_by; try done; rewrite ?Hx; try done.
      * unfold batch_limit. lia.
      * simpl. by rewrite Hu, <-(assoc_L (++)).
  - destruct Hx as [-> Hx]. assert (set_acc_queue (acc_queue a) a = a) as Ea by (by destruct a).
    destruct b as [|y b].
    + exists a, []. split; [done|]. split; rewrite ?Hu, ?Hx; done.
    + eexists _, [y :: b]. split; [done|]. rewrite <-Ea at 2. apply turned_by; try done; rewrite ?Hx; try done.
      * apply Forall_singleton. split; [done|lia].
      * simpl. by rewrite Hu, Hx, !app_nil_r.
Qed.

(** ** Runs *)

(** The accumulator after any interleaving of pushes and turns of its runners. *)
Inductive acc_reach (n : nat) (mb : Z) (e0 : E) : Accumulator → E → list RequestForSession → Prop :=
| acc_start : acc_reach n mb e0 (acc_initialize n mb) e0 []
| acc_pushed x a a' e pushed :
    acc_reach n mb e0 a e pushed → acc_push x a = Some a' → acc_reach n mb e0 a' e (pushed ++ [x])
| acc_turned r a a' e e' pushed :
    acc_reach n mb e0 a e pushed → (r < n)%nat → run_turn OK r (a, e) = ((a', e'), Ret tt) →
    acc_reach n mb e0 a' e' pushed.

(** The requests of a list that runner [r] gets, and the batches it submitted. *)
Definition of_runner (n r : nat) (l : list RequestForSession) : list RequestForSession :=
  filter (λ x, queue_of n (rs_session_id x) = r) l.
Definition batches_of (r : nat) (bs : list (nat * list RequestForSession)) : list RequestForSession :=
  concat (filter (λ b, b.1 = r) bs).*2.

Lemma batches_of_app r bs bs' : batches_of r (bs ++ bs') = batches_of r bs ++ batches_of r bs'.
Proof. unfold batches_of. by rewrite filter_app, fmap_app, concat_app. Qed.

Lemma batches_of_same r k sent : batches_of r (pair k <$> sent) = if decide (k = r) then concat sent else [].
Proof.
  unfold batches_of. induction sent as [|b sent IH]; simpl; [by destruct (decide _)|].
  change (list_fmap _ _ (pair k) sent) with (pair k <$> sent).
  rewrite filter_cons. simpl. destruct (decide (k = r)) as [->|]; simpl; [by f_equal|done].
Qed.

Lemma snd_pairs (k : nat) (sent : list (list RequestForSession)) : (pair k <$> sent).*2 = sent.
Proof. induction sent as [|b sent IH]; [done|]. simpl. by f_equal. Qed.

Lemma acc_reach_spec n mb e0 a e pushed :
  acc_reach n mb e0 a e pushed →
  acc_ok n a ∧ acc_max_batch_size a = mb ∧
  ∃ bs, e = foldl (submit OK) e0 bs.*2 ∧ Forall (batch_fits mb) bs.*2 ∧
    ∀ r, of_runner n r pushed = batches_of r bs ++ unsubmitted a r.
Proof.
  induction 1 as [|x a a' e pushed _ (Hok & Hm & bs & He & Hf & Ho) Ep
                  |r a a' e e' pushed _ (Hok & Hm & bs & He & Hf & Ho) Hr Et].
  - split; [apply acc_initialize_ok|]. split; [done|]. exists []. split_and!; [done|by simpl|].
    intros r. by rewrite acc_initialize_unsubmitted.
  - destruct (acc_push_spec _ _ _ _ Hok Ep) as (Hok' & Hm' & Hk). split; [done|]. split; [congruence|].
    exists bs. split_and!; [done|done|]. intros r. unfold of_runner in *. rewrite filter_app, Ho, Hk, filter_cons, filter_nil.
    destruct (decide (queue_of n (rs_session_id x) = r)) as [<-|Hne].
    + rewrite decide_True by done. by rewrite (assoc_L (++)).
    + by rewrite decide_False, app_nil_r by congruence.
  - destruct (run_turn_spec n r a e Hok Hr) as (a1 & sent & E1 & [Hok' Hm' Hf' Ho' Hk _ _]).
    rewrite E1 in Et. simplify_eq. split; [done|]. split; [done|].
    exists (bs ++ (pair r <$> sent)). rewrite fmap_app, snd_pairs, foldl_app, Forall_app. split_and!; try done.
    intros k. rewrite Ho, batches_of_app, batches_of_same.
    destruct (decide (r = k)) as [<-|Hne]; rewrite <-(assoc_L (++)); [by rewrite <-Ho'|]. rewrite Hk by done. done.
Qed.

(** Without new requests a runner submits everything it has: a turn per queued
    request and one for the batch. *)
Lemma acc_drains n r a e :
  acc_ok n a → (r < n)%nat →
  ∃ a' sent, repeat_st (S (length (rq_items (acc_queue a) r))) (run_turn OK r) (a, e) =
      ((a', foldl (submit OK) e sent), Ret tt) ∧
    unsubmitted a r = concat sent ∧ Forall (batch_fits (acc_max_batch_size a)) sent.
Proof.
  remember (length (rq_items (acc_queue a) r)) as m eqn:Em. revert a e Em.
  induction m as [|m IH]; intros a e Em Hok Hr;
    destruct (run_turn_spec n r a e Hok Hr) as (a1 & sent & E1 & [Hok' Hm' Hf' Ho' _ Hl Hz]).
  - exists a1, sent. cbn [repeat_st]. rewrite (bind_Ret _ _ _ _ _ E1). split_and!; [done| |done].
    rewrite Ho', Hz by (by apply nil_length_inv). apply app_nil_r.
  - destruct (IH a1 (foldl (submit OK) e sent)) as (a2 & sent2 & E2 & Ho2 & Hf2); [by rewrite Hl, <-Em|done|done|].
    exists a2, (sent ++ sent2). cbn [repeat_st] in *. rewrite (bind_Ret _ _ _ _ _ E1), foldl_app.
    rewrite Ho', Ho2, concat_app, Forall_app. rewrite Hm' in Hf2. done.
Qed.
End Order.

(** ** Shutdown *)

Lemma acc_drain_spec CANCELLED {E : Type} `{AccumulatorEnv E} fuel qs (e : E) :
  (length (in_queues qs) <= fuel)%nat →
  ∃ qs', acc_drain CANCELLED fuel qs e =
      (qs', foldl (λ e x, env_onError false CANCELLED (rs_session_id x) (rs_xid x) (rs_opnum x) e) e (in_queues qs)) ∧
    in_queues qs' = [].
Proof.
  revert qs e. induction fuel as [|fuel IH]; intros qs e Hf; simpl.
  { exists qs. destruct (in_queues qs) eqn:E1; simpl in *; [done|lia]. }
  pose proof (rq_tryPopAny_spec qs) as Hp. destruct (in_queues qs) as [|x l] eqn:E1.
  - rewrite Hp. by exists qs.
  - destruct Hp as (qs' & -> & Hl). rewrite <-Hl. apply IH. rewrite Hl. simpl in Hf. lia.
Qed.

(** Shutting down reports every queued request as cancelled, once; the batches
    the runners had begun are neither submitted nor reported. *)
Lemma acc_shutdown_spec CANCELLED {E : Type} `{AccumulatorEnv E} a (e : E) :
  acc_shutdown_called a = false →
  ∃ a', acc_shutdown CANCELLED (a, e) =
      ((a', foldl (λ e x, env_onError false CANCELLED (rs_session_id x) (rs_xid x) (rs_opnum x) e) e
              (in_queues (acc_queue a))), Ret tt) ∧
    in_queues (acc_queue a') = [] ∧ acc_batches a' = acc_batches a ∧ acc_shutdown_called a' = true.
Proof.
  intros Hs. unfold acc_shutdown. rewrite Hs.
  destruct (acc_drain_spec CANCELLED (Z.to_nat (rq_size (acc_queue a))) (acc_queue a) e) as (qs & -> & Hq).
  { rewrite rq_size_in_queues. lia. }
  eexists. split; [done|]. done.
Qed.

(** ** Properties *)

(** C23: in every interleaving of pushes with the turns of the runners, what a
    runner was given is, in that order, the batches it submitted and then what
    it still holds: no request is lost, repeated or overtaken on the way to
    Raft, and no batch is empty or larger than the maximum. When nothing new
    arrives, one turn per queued request and one more submit all the rest. *)
Theorem batches_keep_order (OK : Z) {E : Type} `{AccumulatorEnv E} n mb e0 a e pushed r :
  acc_reach OK n mb e0 a e pushed → (r < n)%nat →
  ∃ bs a' sent,
    e = foldl (submit OK) e0 bs.*2 ∧
    of_runner n r pushed = batches_of r bs ++ unsubmitted a r ∧
    repeat_st (S (length (rq_items (acc_queue a) r))) (run_turn OK r) (a, e) =
      ((a', foldl (submit OK) e sent), Ret tt) ∧
    of_runner n r pushed = batches_of r bs ++ concat sent ∧
    Forall (batch_fits mb) (bs.*2 ++ sent).
Proof.
  intros Hreach Hr. destruct (acc_reach_spec _ _ _ _ _ _ _ Hreach) as (Hok & <- & bs & He & Hf & Ho).
  destruct (acc_drains OK n r a e Hok Hr) as (a' & sent & E1 & Hu & Hf').
  exists bs, a', sent. rewrite Forall_app. specialize (Ho r). by rewrite Hu in *.
Qed.

(** An environment that records what it is told; Raft refuses the second batch. *)
Module AccumulatorDemo.
Inductive report : Type :=
| Batch (b : list RequestForSession)
| Answer (server client : Z) (r : ForwardResponse)
| Failed (accepted : bool) (code sid xid : Z) (op : OpNum).

#[global] Instance recorder : AccumulatorEnv (list report) := {|
  env_putRequestBatch b h := (h ++ [Batch b], (bool_decide (h = []), 0));
  env_sendAppendEntryResponse s c r h := h ++ [Answer s c r];
  env_onError acc code sid xid op h := h ++ [Failed acc code sid xid op]
|}.

Definition req (xid server client : Z) : RequestForSession :=
  mkRFS 1 (mkRequest xid false (SetRequest "/a" "x" (-1))) 1000 server client.
Definition pushed := [req 1 (-1) (-1); req 2 (-1) (-1); req 3 (-1) (-1); req 4 7 0].
Definition add (x : RequestForSession) (a : Accumulator) : Accumulator := default a (acc_push x a).
Definition loaded (k : nat) : Accumulator := foldl (λ a x, add x a) (acc_initialize 1 2) (take k pushed).
Definition turned (k : nat) : Accumulator * list report := (repeat_st k (run_turn 0 0) (loaded 4, [])).1.

Lemma reached : acc_reach 0 1 2 [] (turned 2).1 (turned 2).2 pushed.
Proof.
  assert (acc_reach 0 1 2 [] (loaded 4) [] pushed) as Hl.
  { change pushed with (((([] ++ [req 1 (-1) (-1)]) ++ [req 2 (-1) (-1)]) ++ [req 3 (-1) (-1)]) ++ [req 4 7 0]).
    eapply (acc_pushed _ _ _ _ _ (loaded 3)); [|reflexivity]. eapply (acc_pushed _ _ _ _ _ (loaded 2)); [|reflexivity].
    eapply (acc_pushed _ _ _ _ _ (loaded 1)); [|reflexivity]. eapply acc_pushed; [apply acc_start|reflexivity]. }
  eapply (acc_turned _ _ _ _ 0 (turned 1).1); [|lia|reflexivity]. eapply (acc_turned _ _ _ _ 0); [exact Hl|lia|reflexivity].
Qed.
End AccumulatorDemo.

Lemma batches_keep_order_witness :
  ∃ bs a' sent,
    [AccumulatorDemo.Batch [AccumulatorDemo.req 1 (-1) (-1); AccumulatorDemo.req 2 (-1) (-1)]] =
      foldl (submit 0) [] bs.*2 ∧
    AccumulatorDemo.pushed = batches_of 0 bs ++ [AccumulatorDemo.req 3 (-1) (-1); AccumulatorDemo.req 4 7 0] ∧
    repeat_st 3 (run_turn 0 0) (AccumulatorDemo.turned 2) =
      ((a', foldl (submit 0) (AccumulatorDemo.turned 2).2 sent), Ret tt) ∧
    AccumulatorDemo.pushed = batches_of 0 bs ++ concat sent ∧
    Forall (batch_fits 2) (bs.*2 ++ sent).
Proof.
  exact (batches_keep_order 0 1 2 [] (AccumulatorDemo.turned 2).1 (AccumulatorDemo.turned 2).2 AccumulatorDemo.pushed 0
    AccumulatorDemo.reached ltac:(lia)).
Defined.
