(* ===== verification/RequestForwarder.v ===== *)
(** * The request forwarder: src/Service/RequestForwarder.{h,cpp}

    On a follower the writes of its sessions go to the leader; the runner of a
    session sends them over its own connection, and a second thread reads what
    the leader answers. What the forwarder asks of the server, the dispatcher
    and the processor is the class [ForwarderEnv]. *)

From S2P Require Import Prelude Types RequestsQueue RequestProcessor ProcessorOrder Forwarding RequestAccumulator.
From stdpp Require Import base gmap sets strings option list.
From Stdlib Require Import ZArith Lia.
Open Scope Z_scope.

Record Forwarder : Type := mkForwarder {
  fw_thread_count : nat;
  fw_queue : RequestsQueue;
  session_sync_idx : Z;
  session_sync_period_ms : Z;
  fw_shutdown_called : bool
}.

(** [fe_localSessions]: the sessions with their expiration times of the store,
    those connected to this server. A connection is shared by pointer: setting it
    stands for what a call on it changes. *)
Class ForwarderEnv (S E : Type) : Type := {
  fe_isLeader : E → bool;
  fe_isLeaderAlive : E → bool;
  fe_getLeaderClient : nat → E → option (ForwardingConnection S);
  fe_setLeaderClient : nat → ForwardingConnection S → E → E;
  fe_localSessions : E → list (Z * Z);
  fe_onError : bool → Z → Z → Z → OpNum → E → E
}.

Definition fw_initialize (thread_count : nat) (period : Z) : Forwarder :=
  mkForwarder thread_count (RequestsQueue_new thread_count 20000) 0 period false.

(** [None] while it waits for room. *)
Definition fw_push (x : RequestForSession) (f : Forwarder) : option Forwarder :=
  '(qs, _) ← rq_push x (fw_queue f);
  Some (mkForwarder (fw_thread_count f) qs (session_sync_idx f) (session_sync_period_ms f) (fw_shutdown_called f)).

Section Forwarder.
Context (OK CANCELLED FAILED : Z) {S E : Type} `{SocketOps S} `{ForwarderEnv S E}.

Abbreviation FwM := (ST (Forwarder * E) exn).

Definition fail_request (code : Z) (x : RequestForSession) (e : E) : E :=
  fe_onError false code (rs_session_id x) (rs_xid x) (rs_opnum x) e.

(** A request a runner has popped: sent, or reported as failed. *)
Definition forward_one (runner_id : nat) (x : RequestForSession) (e : E) : E :=
  if negb (fe_isLeader e) && fe_isLeaderAlive e then
    match fe_getLeaderClient runner_id e with
    | None => fail_request FAILED x e
    | Some c =>
        match fc_send x c with
        | (c, Ret _) => fe_setLeaderClient runner_id c e
        | (c, _) => fail_request FAILED x (fe_setLeaderClient runner_id c e)
        end
    end
  else fail_request FAILED x e.

(** The sessions of this server go to the leader; failures are logged. *)
Definition send_sessions (runner_id : nat) (e : E) : E :=
  if negb (fe_isLeader e) && fe_isLeaderAlive e then
    match fe_getLeaderClient runner_id e with
    | None => e
    | Some c =>
        if bool_decide (fe_localSessions e = []) then e
        else fe_setLeaderClient runner_id (fc_sendSession (fe_localSessions e) c).1 e
    end
  else e.

(** One turn of [run]; [elapsed] is what the stopwatch shows after the wait. *)
Definition fw_run_turn (runner_id : nat) (elapsed : Z) : FwM unit := λ '(f, e),
  if fw_shutdown_called f then ((f, e), Ret tt)
  else
    match rq_tryPop runner_id (fw_queue f) with
    | None => ((f, e), Crash)
    | Some (qs, o) =>
        let e := match o with Some x => forward_one runner_id x e | None => e end in
        if (session_sync_idx f =? Z.of_nat runner_id) && (session_sync_period_ms f <=? elapsed) then
          let idx := wrap_u 8 (session_sync_idx f + 1) mod Z.of_nat (fw_thread_count f) in
          ((mkForwarder (fw_thread_count f) qs idx (session_sync_period_ms f) false, send_sessions runner_id e), Ret tt)
        else
          ((mkForwarder (fw_thread_count f) qs (session_sync_idx f) (session_sync_period_ms f) false, e), Ret tt)
    end.

(** One turn of [runReceive]; [readable] is what polling the socket answers. The
    result of [receive] is not looked at. *)
Definition fw_runReceive (runner_id : nat) (readable : bool) (e : E) : E :=
  if negb (fe_isLeader e) && fe_isLeaderAlive e then
    match fe_getLeaderClient runner_id e with
    | Some c =>
        if connected c && readable then
          match fc_receive (forward_response_new OK) c with
          | (c, Ret (_, r)) =>
              let e := fe_setLeaderClient runner_id c e in
              if negb (fr_accepted r) && (fr_protocol r =? pkg_code Pkg_Result)
                 && negb (fr_session_id r =? non_session_id)
              then fe_onError (fr_accepted r) (fr_error_code r) (fr_session_id r) (fr_xid r) (fr_opnum r) e
              else e
          | (c, _) => fe_setLeaderClient runner_id c e
          end
        else e
    | None => e
    end
  else e.

(** [shutdown] sends what is queued over the connection of the first runner. *)
Fixpoint fw_drain (fuel : nat) (qs : RequestsQueue) (e : E) : RequestsQueue * E :=
  match fuel with
  | O => (qs, e)
  | Datatypes.S fuel =>
      match rq_tryPopAny qs with
      | (qs', Some x) =>
          fw_drain fuel qs'
            (match fe_getLeaderClient 0 e with
             | None => e
             | Some c =>
                 match fc_send x c with
                 | (c, Ret _) => fe_setLeaderClient 0 c e
                 | (c, _) => fail_request CANCELLED x (fe_setLeaderClient 0 c e)
                 end
             end)
      | (_, None) => (qs, e)
      end
  end.

Definition fw_shutdown : FwM unit := λ '(f, e),
  if fw_shutdown_called f then ((f, e), Ret tt)
  else
    let '(qs, e) := fw_drain (Z.to_nat (rq_size (fw_queue f))) (fw_queue f) e in
    ((mkForwarder (fw_thread_count f) qs (session_sync_idx f) (session_sync_period_ms f) true, e), Ret tt).
End Forwarder.
