(* ===== verification/KeeperDispatcher.v ===== *)
(** * The dispatcher: src/Service/KeeperDispatcher.{h,cpp}

    The dispatcher owns the request queue, the table of the sessions connected to
    this server and the table of the forwarding connections; its threads move
    requests to the processor, the accumulator and the forwarder, and responses
    to the connections. The callbacks it stores are names of connections; calling
    one, and what the Raft server is asked, is the class [DispatcherEnv]. *)

From S2P Require Import Prelude Types ZkIO ZkCodec ACLMap SessionExpiryQueue KeeperPaths KeeperNode KeeperStore RequestsQueue RequestProcessor ProcessorOrder Pipeline StateMachine Forwarding RequestAccumulator RequestForwarder.
From stdpp Require Import base gmap sets strings option list.
From Stdlib Require Import ZArith Lia.
Open Scope Z_scope.

(** [d_world] holds the response queue and the store of the Raft server. *)
Record Dispatcher (K F : Type) : Type := mkDispatcher {
  d_requests : RequestsQueue;
  d_processor : Processor Z;
  d_world : World;
  d_accumulator : Accumulator;
  d_forwarder : Forwarder;
  session_to_response_callback : gmap Z K;
  forward_to_response_callback : gmap (Z * Z) F;
  d_shutdown_called : bool
}.
Arguments mkDispatcher {K F}. Arguments d_requests {K F}. Arguments d_processor {K F}.
Arguments d_world {K F}. Arguments d_accumulator {K F}. Arguments d_forwarder {K F}.
Arguments session_to_response_callback {K F}. Arguments forward_to_response_callback {K F}.
Arguments d_shutdown_called {K F}.

(** [de_respond] and [de_answer] call a stored callback; a response that cannot
    be written throws. [de_append_entries] is NuRaft's, with the result waited for. *)
Class DispatcherEnv (S K F E : Type) : Type := {
  de_isLeader : E → bool;
  de_isLeaderAlive : E → bool;
  de_append_entries : list bytes → E → E * (bool * Z);
  de_getLeaderClient : nat → E → option (ForwardingConnection S);
  de_setLeaderClient : nat → ForwardingConnection S → E → E;
  de_respond : K → ZooKeeperResponse → ST E exn unit;
  de_answer : F → ForwardResponse → E → E;
  de_server_shutdown : E → E
}.

Section Fields.
Context {K F : Type}.
Implicit Types d : Dispatcher K F.

Definition set_d_requests (q : RequestsQueue) d : Dispatcher K F :=
  mkDispatcher q (d_processor d) (d_world d) (d_accumulator d) (d_forwarder d)
    (session_to_response_callback d) (forward_to_response_callback d) (d_shutdown_called d).
Definition set_d_processor (p : Processor Z) d : Dispatcher K F :=
  mkDispatcher (d_requests d) p (d_world d) (d_accumulator d) (d_forwarder d)
    (session_to_response_callback d) (forward_to_response_callback d) (d_shutdown_called d).
Definition set_d_world (w : World) d : Dispatcher K F :=
  mkDispatcher (d_requests d) (d_processor d) w (d_accumulator d) (d_forwarder d)
    (session_to_response_callback d) (forward_to_response_callback d) (d_shutdown_called d).
Definition set_d_accumulator (a : Accumulator) d : Dispatcher K F :=
  mkDispatcher (d_requests d) (d_processor d) (d_world d) a (d_forwarder d)
    (session_to_response_callback d) (forward_to_response_callback d) (d_shutdown_called d).
Definition set_d_forwarder (f : Forwarder) d : Dispatcher K F :=
  mkDispatcher (d_requests d) (d_processor d) (d_world d) (d_accumulator d) f
    (session_to_response_callback d) (forward_to_response_callback d) (d_shutdown_called d).
Definition set_d_sessions (m : gmap Z K) d : Dispatcher K F :=
  mkDispatcher (d_requests d) (d_processor d) (d_world d) (d_accumulator d) (d_forwarder d)
    m (forward_to_response_callback d) (d_shutdown_called d).
Definition set_d_forwards (m : gmap (Z * Z) F) d : Dispatcher K F :=
  mkDispatcher (d_requests d) (d_processor d) (d_world d) (d_accumulator d) (d_forwarder d)
    (session_to_response_callback d) m (d_shutdown_called d).
Definition set_d_shutdown d : Dispatcher K F :=
  mkDispatcher (d_requests d) (d_processor d) (d_world d) (d_accumulator d) (d_forwarder d)
    (session_to_response_callback d) (forward_to_response_callback d) true.

(** [initialize] with the session-consistent pipeline, on the store of the Raft
    server; the forwarder synchronizes sessions twice per check period. *)
Definition initialize (thread_count : nat) (max_batch_size dead_session_check_period_ms : Z) (w : World)
    : Dispatcher K F :=
  mkDispatcher (RequestsQueue_new thread_count 20000) (Processor_new thread_count) w
    (acc_initialize 1 max_batch_size) (fw_initialize thread_count (Z.quot dead_session_check_period_ms 2))
    ∅ ∅ false.

(** ** Sessions and forwarding connections *)

Definition isLocalSession d (session_id : Z) : bool :=
  bool_decide (is_Some (session_to_response_callback d !! session_id)).

(** [try_emplace] keeps a callback that is already there. *)
Definition registerSession (session_id : Z) (callback : K) (is_reconnected : bool)
    : ST (Dispatcher K F) exn unit := λ d,
  match session_to_response_callback d !! session_id with
  | None => (set_d_sessions (<[session_id := callback]> (session_to_response_callback d)) d, Ret tt)
  | Some _ => (d, if is_reconnected then Ret tt else Throw LOGICAL_ERROR)
  end.

Definition finishSession (session_id : Z) d : Dispatcher K F :=
  set_d_sessions (delete session_id (session_to_response_callback d)) d.

Definition filterLocalSessions (session_to_expiration_time : gmap Z Z) d : gmap Z Z :=
  filter (λ kv, isLocalSession d kv.1 = true) session_to_expiration_time.

Definition registerForward (server_client : Z * Z) (callback : F) : ST (Dispatcher K F) exn unit := λ d,
  match forward_to_response_callback d !! server_client with
  | None => (set_d_forwards (<[server_client := callback]> (forward_to_response_callback d)) d, Ret tt)
  | Some _ => (d, Throw LOGICAL_ERROR)
  end.

Definition unRegisterForward (server_id client_id : Z) d : Dispatcher K F :=
  set_d_forwards (delete (server_id, client_id) (forward_to_response_callback d)) d.

(** ** Requests from connections *)

(** A request enters the queue: a close request waits for room ([None] while it
    does), any other one at most the operation timeout; [timeout] is the exception
    thrown then. *)
Definition enqueue (timeout : exn) (x : RequestForSession) d : option (Dispatcher K F * outcome exn bool) :=
  if bool_decide (rs_opnum x = Op_Close) then
    '(q, ok) ← rq_push x (d_requests d);
    Some (if (ok : bool) then (set_d_requests q d, Ret true) else (d, Throw SYSTEM_ERROR))
  else
    '(q, ok) ← rq_tryPush x (d_requests d);
    Some (if (ok : bool) then (set_d_requests q d, Ret true) else (d, Throw timeout)).

(** [putRequest] passes the size of the queue where the constructor of the
    exception takes the code. *)
Definition putRequest (now : Z) (request : ZooKeeperRequest) (session_id : Z) d
    : option (Dispatcher K F * outcome exn bool) :=
  if isLocalSession d session_id
  then enqueue (EXCEPTION_WITH_CODE (s32 (rq_size (d_requests d)))) (mkRFS session_id request now (-1) (-1)) d
  else Some (d, Ret false).

Definition putForwardingRequest (now server_id client_id : Z) (request : ZooKeeperRequest) (session_id : Z) d
    : option (Dispatcher K F * outcome exn bool) :=
  enqueue TIMEOUT_EXCEEDED (mkRFS session_id request now server_id client_id) d.

(** ** The request threads *)

(** A thread takes a request from its queue; one taken after shutdown is dropped. *)
Definition take_request (thread_index : nat) d : option (Dispatcher K F * option RequestForSession) :=
  '(q, o) ← rq_tryPop thread_index (d_requests d);
  Some (set_d_requests q d, if d_shutdown_called d then None else o).

(** A request of a local session is pushed to the processor. *)
Definition give_processor (x : RequestForSession) d : option (Dispatcher K F) :=
  if isLocalSession d (rs_session_id x)
  then p ← push x (d_processor d); Some (set_d_processor p d)
  else Some d.

Section Route.
Context {S E : Type} `{DispatcherEnv S K F E}.

(** A write goes to the accumulator or the forwarder. *)
Definition route (x : RequestForSession) (e : E) d : option (Dispatcher K F) :=
  if rs_is_read x then Some d
  else if de_isLeaderAlive e && negb (de_isLeader e)
  then f ← fw_push x (d_forwarder d); Some (set_d_forwarder f d)
  else a ← acc_push x (d_accumulator d); Some (set_d_accumulator a d).

(** One turn of [requestThreadFakeZk], [None] while it waits for room. *)
Definition requestThreadFakeZk (thread_index : nat) (e : E) d : option (Dispatcher K F) :=
  '(d, o) ← take_request thread_index d;
  match o with
  | None => Some d
  | Some x => d ← give_processor x d; route x e d
  end.
End Route.

(** The leader closes the sessions that expired. *)
Definition clean_session (now dead_session : Z) d : option (Dispatcher K F * bool) :=
  '(q, ok) ← rq_push (mkRFS dead_session (mkRequest CLOSE_XID false CloseRequest) now (-1) (-1)) (d_requests d);
  Some (if (ok : bool) then (finishSession dead_session (set_d_requests q d), true) else (d, false)).

Fixpoint clean_sessions (now : Z) (dead : list Z) d : option (Dispatcher K F) :=
  match dead with
  | [] => Some d
  | sid :: dead =>
      '(d, ok) ← clean_session now sid d;
      if (ok : bool) then clean_sessions now dead d else Some d
  end.

Definition sessionCleanerTask (isLeader : bool) (now : Z) d : option (Dispatcher K F) :=
  if d_shutdown_called d then Some d
  else if isLeader then clean_sessions now (getDeadSessions now (w_store (d_world d))) d
  else Some d.
End Fields.

(** ** Responses *)

Section Responses.
Context {S K F E : Type} `{DispatcherEnv S K F E}.
Implicit Types d : Dispatcher K F.

Abbreviation DM := (ST (Dispatcher K F * E) exn).

(** After the answer to a close request the session is forgotten. *)
Definition setResponse (session_id : Z) (response : ZooKeeperResponse) : DM unit := λ '(d, e),
  match session_to_response_callback d !! session_id with
  | None => ((d, e), Ret tt)
  | Some k =>
      match de_respond k response e with
      | (e, Ret _) =>
          if resp_xid response =? WATCH_XID then ((d, e), Ret tt)
          else
            match resp_getOpNum response with
            | Ret op => ((if decide (op = Op_Close) then finishSession session_id d else d, e), Ret tt)
            | Throw x => ((d, e), Throw x)
            | Crash => ((d, e), Crash)
            end
      | (e, Throw x) => ((d, e), Throw x)
      | (e, Crash) => ((d, e), Crash)
      end
  end.

(** One turn of [responseThread]: exceptions are logged. *)
Definition responseThread : DM unit := λ '(d, e),
  let w := d_world d in
  match tsq_tryPop (w_responses w) with
  | (_, None) => ((d, e), Ret tt)
  | (q, Some (session_id, response)) =>
      let d := set_d_world (mkWorld (w_store w) q (w_turn w) (w_crashed w)) d in
      if d_shutdown_called d then ((d, e), Ret tt)
      else
        match setResponse session_id response (d, e) with
        | (s, Crash) => (s, Crash)
        | (s, _) => (s, Ret tt)
        end
  end.

Definition sendAppendEntryResponse (server_id client_id : Z) (r : ForwardResponse) : Dispatcher K F * E → Dispatcher K F * E :=
  λ '(d, e),
  match forward_to_response_callback d !! (server_id, client_id) with
  | None => (d, e)
  | Some f => (d, de_answer f r e)
  end.

(** [putRequestBatch] of src/Service/KeeperServer.cpp: every request of the batch
    becomes a log entry. *)
Definition putRequestBatch (batch : list RequestForSession) (s : Dispatcher K F * E)
    : (Dispatcher K F * E) * (bool * Z) :=
  let '(e, result) := de_append_entries (serializeRequest <$> batch) s.2 in ((s.1, e), result).

(** The interfaces the accumulator and the forwarder ask for. *)
#[export] Instance dispatcher_accumulator_env : AccumulatorEnv (Dispatcher K F * E) := {|
  env_putRequestBatch := putRequestBatch;
  env_sendAppendEntryResponse := sendAppendEntryResponse;
  env_onError accepted code sid xid op s :=
    (set_d_processor (onError accepted code sid xid op (d_processor s.1)) s.1, s.2)
|}.

#[export] Instance dispatcher_forwarder_env : ForwarderEnv S (Dispatcher K F * E) := {|
  fe_isLeader s := de_isLeader s.2;
  fe_isLeaderAlive s := de_isLeaderAlive s.2;
  fe_getLeaderClient r s := de_getLeaderClient r s.2;
  fe_setLeaderClient r c s := (s.1, de_setLeaderClient r c s.2);
  fe_localSessions s :=
    map_to_list (filterLocalSessions (sessionToExpirationTime (w_store (d_world s.1))) s.1);
  fe_onError accepted code sid xid op s :=
    (set_d_processor (onError accepted code sid xid op (d_processor s.1)) s.1, s.2)
|}.

(** ** Shutdown *)

(** The answer to a request that no thread took; its number is not set. *)
Definition expired_answer (x : RequestForSession) : ZooKeeperResponse :=
  set_error ZSESSIONEXPIRED (makeResponse (rs_request x)).

(** An exception leaves the loop and the function. *)
Fixpoint answer_queued (fuel : nat) : DM unit := λ '(d, e),
  match fuel with
  | O => ((d, e), Ret tt)
  | Datatypes.S fuel =>
      match rq_tryPopAny (d_requests d) with
      | (_, None) => ((d, e), Ret tt)
      | (q, Some x) =>
          (setResponse (rs_session_id x) (expired_answer x);; answer_queued fuel) (set_d_requests q d, e)
      end
  end.

Section Shutdown.
Context (CANCELLED : Z) `{SocketOps S}.

(** A part of the dispatcher shuts down on its own state and the rest. *)
Definition on_part {A} (part : Dispatcher K F → A) (set : A → Dispatcher K F → Dispatcher K F)
    (m : ST (A * (Dispatcher K F * E)) exn unit) : DM unit := λ '(d, e),
  let '((a, (d, e)), o) := m (part d, (d, e)) in ((set a d, e), o).

(** [shutdown], once its threads have ended; a second call does nothing. *)
Definition shutdown_dispatcher : DM unit :=
  s ← get;
  if d_shutdown_called s.1 then mret tt
  else
    modify (λ '(d, e), (set_d_shutdown d, e));;
    on_part d_forwarder set_d_forwarder (fw_shutdown CANCELLED);;
    on_part d_accumulator set_d_accumulator (acc_shutdown CANCELLED);;
    (λ '(d, e), let '((p, w), o) := RequestProcessor.shutdown refuse_request (d_processor d, d_world d) in
                ((set_d_world w (set_d_processor p d), e), o));;
    modify (λ '(d, e), (d, de_server_shutdown e));;
    s ← get;
    answer_queued (Z.to_nat (rq_size (d_requests s.1)));;
    modify (λ '(d, e), (set_d_sessions ∅ d, e)).
End Shutdown.
End Responses.
