(* ===== verification/KeeperServer.v ===== *)
(** * The server around Raft: src/Service/KeeperServer.{h,cpp}

    The server turns requests and sessions into log entries, gives them to Raft
    and waits for the result; [requestThread] of the dispatcher is the thread
    that uses it when the pipeline is switched off. Raft is the class
    [RaftServer]: appending entries and waiting for their result, and waiting
    until the state machine of this server reports a session. *)

From coqutil Require Import Word.LittleEndianList Byte.
From S2P Require Import Prelude Types ZkIO ZkCodec SessionExpiryQueue KeeperStore StoreInv StoreRequest RequestsQueue RequestProcessor StateMachine StateMachineProps SnapshotMachine KeeperDispatcher.
From stdpp Require Import base gmap sets strings option sorting list.
From Stdlib Require Import ZArith Lia.
Open Scope Z_scope.

Record RaftResult : Type := mkResult {
  rr_accepted : bool;
  rr_code : Z;
  rr_data : option bytes
}.

(** [rv_wait session_id ms]: whether the waiting thread was notified in time. *)
Class RaftServer (E : Type) : Type := {
  rv_isLeaderAlive : E → bool;
  rv_append_entries : list bytes → E → E * RaftResult;
  rv_wait : Z → Z → E → E * bool;
  rv_machine : E → Machine;
  rv_set_machine : Machine → E → E
}.

Section Server.
Context (getSHA1 base64Encode : string → string) (OK TIMEOUT : Z).
Context (put_i64 : Z → bytes) (get_i64 : bytes → outcome exn (Z * bytes)).
Context {E : Type} `{RaftServer E}.
Implicit Types e : E.

(** A call on the state machine of this server. *)
Definition on_machine {A} (k : ST Machine exn A) : ST E exn A := λ e,
  let '(m, o) := k (rv_machine e) in (rv_set_machine m e, o).

(** The answer when Raft does not take a request. *)
Definition raft_failure (x : RequestForSession) (r : RaftResult) : ZooKeeperResponse :=
  set_error (if rr_code r =? TIMEOUT then ZOPERATIONTIMEOUT else ZCONNECTIONLOSS)
    (set_header (rs_xid x) 0 (makeResponse (rs_request x))).

Definition push_response (x : RequestForSession) (resp : ZooKeeperResponse) (m : Machine) : Machine :=
  mkMachine (sm_store m) (sm_responses m ++ [(rs_session_id x, resp)]) (last_committed_idx m) (task_manager m)
    (new_session_id_callback m) (notified m) (request_processor m).

Definition server_putRequest (now : Z) (x : RequestForSession) : ST E exn unit := λ e,
  if rv_isLeaderAlive e && rs_is_read x then on_machine (processReadRequest getSHA1 base64Encode now x) e
  else
    let '(e, r) := rv_append_entries [serializeRequest x] e in
    if rr_accepted r && (rr_code r =? OK) then (e, Ret tt)
    else (rv_set_machine (push_response x (raft_failure x r) (rv_machine e)) e, Throw RAFT_ERROR).

(** A thread waits until the state machine reports a session. *)
Definition wait_session (session_id session_timeout_ms : Z) : ST E exn unit := λ e,
  let callbacks f e :=
    let m := rv_machine e in
    rv_set_machine (mkMachine (sm_store m) (sm_responses m) (last_committed_idx m) (task_manager m)
      (f (new_session_id_callback m)) (notified m) (request_processor m)) e in
  let '(e, in_time) := rv_wait session_id session_timeout_ms (callbacks (λ s, {[session_id]} ∪ s) e) in
  (callbacks (λ s, s ∖ {[session_id]}) e, if (in_time : bool) then Ret tt else Throw RAFT_ERROR).

Definition server_getSessionID (session_timeout_ms : Z) : ST E exn Z := λ e,
  let '(e, r) := rv_append_entries [put_i64 session_timeout_ms] e in
  if negb (rr_accepted r) || negb (rr_code r =? OK) then (e, Throw RAFT_ERROR)
  else
    match rr_data r with
    | None => (e, Throw RAFT_ERROR)
    | Some resp =>
        match get_i64 resp with
        | Ret (sid, _) =>
            if containsSession sid (sm_store (rv_machine e)) then (e, Ret sid)
            else (wait_session sid session_timeout_ms;; mret sid) e
        | Throw x => (e, Throw x)
        | Crash => (e, Crash)
        end
    end.

Definition server_updateSessionTimeout (now session_id session_timeout_ms : Z) : ST E exn bool := λ e,
  let '(e, r) := rv_append_entries [put_i64 session_id ++ put_i64 session_timeout_ms] e in
  if negb (rr_accepted r) || negb (rr_code r =? OK) then (e, Throw RAFT_ERROR)
  else
    match rr_data r with
    | None => (e, Throw RAFT_ERROR)
    | Some resp =>
        match (read_i8 resp).2 with
        | Ret is_success =>
            if is_success =? 0 then (e, Ret false)
            else if bool_decide (session_id ∈ getDeadSessions now (sm_store (rv_machine e)))
            then (wait_session session_id session_timeout_ms;; mret true) e
            else (e, Ret true)
        | Throw x => (e, Throw x)
        | Crash => (e, Crash)
        end
    end.

(** One turn of [requestThread]; exceptions are logged. *)
Definition requestThread {K F} (now : Z) : ST (Dispatcher K F * E) exn unit := λ '(d, e),
  match rq_tryPopAny (d_requests d) with
  | (_, None) => ((d, e), Ret tt)
  | (q, Some x) =>
      let d := set_d_requests q d in
      if d_shutdown_called d then ((d, e), Ret tt)
      else
        match server_putRequest now x e with
        | (e, Crash) => ((d, e), Crash)
        | (e, _) => ((d, e), Ret tt)
        end
  end.
End Server.

(** ** Sessions *)

(** What anything that happens on a server does to its state machine. *)
Record grows (m m' : Machine) : Prop := {
  gr_wf : store_wf (sm_store m) → store_wf (sm_store m');
  gr_counter : session_id_counter (sm_store m) <= session_id_counter (sm_store m')
}.

#[export] Instance grows_preorder : PreOrder grows.
Proof.
  split.
  - intros m. by split.
  - intros m1 m2 m3 [Hw1 Hc1] [Hw2 Hc2]. split; [by auto|lia].
Qed.

Section Sessions.
Context (getSHA1 base64Encode : string → string) (OK : Z).
Context (put_i64 : Z → bytes) (get_i64 : bytes → outcome exn (Z * bytes)) (put_i8 : Z → bytes).
Hypothesis length_put_i64 : ∀ z, length (put_i64 z) = 8%nat.
Hypothesis get_put_i64 : ∀ z rest, in_s 64 z → get_i64 (put_i64 z ++ rest) = Ret (z, rest).

(** What Raft promises: an entry that is appended with success was committed by the
    state machine the server looks at, between other entries, and the result is
    what [commit] returned. At most [limit] sessions are opened. *)
Class RaftCommits (limit : Z) (E : Type) `{RaftServer E} : Prop := {
  rc_set m (e : E) : rv_machine (rv_set_machine m e) = m;
  rc_wait sid ms (e : E) : grows (rv_machine e) (rv_machine (rv_wait sid ms e).1);
  rc_append data (e e' : E) r :
    rv_append_entries [data] e = (e', r) → rr_accepted r = true → rr_code r = OK →
    ∃ m1 m2 now log_idx, grows (rv_machine e) m1 ∧ session_id_counter (sm_store m1) < limit ∧
      commit getSHA1 base64Encode put_i64 get_i64 put_i8 now log_idx data false m1 = (m2, Ret (rr_data r)) ∧
      grows m2 (rv_machine e')
}.

Context (limit : Z) (Hlimit : limit < 2 ^ 63) {E : Type} `{RaftServer E} `{!RaftCommits limit E}.
Implicit Types e : E.

Lemma commit_new_session now log_idx ms m m' res :
  store_wf (sm_store m) → in_s 64 ms →
  commit getSHA1 base64Encode put_i64 get_i64 put_i8 now log_idx (put_i64 ms) false m = (m', Ret res) →
  res = Some (put_i64 (session_id_counter (sm_store m))) ∧ store_wf (sm_store m') ∧
  session_id_counter (sm_store m') = s64 (session_id_counter (sm_store m) + 1) ∧
  is_Some (session_and_timeout (sm_store m') !! session_id_counter (sm_store m)).
Proof.
  intros Hwf Hms Hc. unfold commit in Hc.
  assert (isNewSessionRequest (put_i64 ms) = true) as Hn by (unfold isNewSessionRequest; by rewrite length_put_i64).
  rewrite Hn in Hc. pose proof (get_put_i64 ms [] Hms) as Eg. rewrite app_nil_r in Eg. rewrite Eg in Hc.
  destruct (getSessionID_wf now ms (sm_store m) Hwf) as (s' & E1 & Hwf' & _ & Hin & Hcnt & _).
  unfold lift, mbind, ST_bind, on_keeper, on_store, modify, mret, ST_ret in Hc. rewrite E1 in Hc. cbn in Hc.
  injection Hc as <- <-. cbn. by unfold sm_notify; repeat case_match.
Qed.

Lemma wait_session_grows sid ms e e' o :
  wait_session sid ms e = (e', o) → grows (rv_machine e) (rv_machine e').
Proof.
  unfold wait_session. destruct (rv_wait _ _ _) as [e1 b] eqn:Ew. intros [= <- _].
  pose proof (rc_wait sid ms (rv_set_machine (mkMachine (sm_store (rv_machine e)) (sm_responses (rv_machine e))
    (last_committed_idx (rv_machine e)) (task_manager (rv_machine e)) ({[sid]} ∪ new_session_id_callback (rv_machine e))
    (notified (rv_machine e)) (request_processor (rv_machine e))) e)) as Hw.
  rewrite Ew, rc_set in Hw. rewrite rc_set. destruct Hw as [Hw Hc]. by split.
Qed.

(** The number is the next one of the state machine that committed the entry. *)
Lemma server_getSessionID_spec ms e e' sid :
  store_wf (sm_store (rv_machine e)) → 0 <= session_id_counter (sm_store (rv_machine e)) → in_s 64 ms →
  server_getSessionID OK put_i64 get_i64 ms e = (e', Ret sid) →
  session_id_counter (sm_store (rv_machine e)) <= sid < session_id_counter (sm_store (rv_machine e')) ∧
  store_wf (sm_store (rv_machine e')) ∧
  ∃ m, store_wf (sm_store m) ∧ is_Some (session_and_timeout (sm_store m) !! sid) ∧ grows m (rv_machine e').
Proof.
  intros Hwf Hin Hms E1. unfold server_getSessionID in E1.
  destruct (rv_append_entries _ e) as [e1 r] eqn:Ea.
  destruct (rr_accepted r) eqn:Eacc; [|done]. destruct (rr_code r =? OK) eqn:Eok; [|done]. cbn [negb orb] in E1. apply Z.eqb_eq in Eok.
  destruct (rc_append _ _ _ _ Ea Eacc Eok) as (m1 & m2 & now & idx & [Hw1 Hc1] & Hlim & Hcommit & Hg2).
  destruct (commit_new_session _ _ _ _ _ _ (Hw1 Hwf) Hms Hcommit) as (Hres & Hwf2 & Hcnt & Hsome). rewrite Hres in E1.
  assert (in_s 64 (session_id_counter (sm_store m1)) ∧ in_s 64 (session_id_counter (sm_store m1) + 1)) as [Hi1 Hi2] by (unfold in_s in *; lia).
  rewrite wrap_s_id in Hcnt by done. pose proof (get_put_i64 _ [] Hi1) as Eg. rewrite app_nil_r in Eg. rewrite Eg in E1.
  assert (sid = session_id_counter (sm_store m1) ∧ grows (rv_machine e1) (rv_machine e')) as [-> Hg3].
  { destruct (containsSession _ _); [by injection E1 as <- <-|]. unfold mbind, ST_bind in E1.
    destruct (wait_session _ _ e1) as [e2 [u|x|]] eqn:Ew; try done. injection E1 as <- <-.
    split; [done|by eapply wait_session_grows]. }
  assert (grows m2 (rv_machine e')) as Hg by (by etransitivity).
  split; [destruct Hg; lia|]. split; [by apply Hg|]. by exists m2.
Qed.

(** Sessions are opened one after the other, between them anything happens. *)
Inductive opens : E → list Z → E → Prop :=
| opens_nil e : opens e [] e
| opens_other e e1 e2 ids : grows (rv_machine e) (rv_machine e1) → opens e1 ids e2 → opens e ids e2
| opens_session ms e e1 e2 sid ids : in_s 64 ms →
    server_getSessionID OK put_i64 get_i64 ms e = (e1, Ret sid) → opens e1 ids e2 → opens e (sid :: ids) e2.

Lemma opens_increasing e ids e' :
  opens e ids e' → store_wf (sm_store (rv_machine e)) → 0 <= session_id_counter (sm_store (rv_machine e)) →
  StronglySorted Z.lt ids ∧ Forall (λ sid, session_id_counter (sm_store (rv_machine e)) <= sid) ids ∧
  session_id_counter (sm_store (rv_machine e)) <= session_id_counter (sm_store (rv_machine e')) ∧
  Forall (λ sid, sid < session_id_counter (sm_store (rv_machine e'))) ids.
Proof.
  induction 1 as [e|e e1 e2 ids [Hw Hc] _ IH|ms e e1 e2 sid ids Hms Hcall _ IH]; intros Hwf H0.
  - by split_and!; try constructor.
  - destruct (IH (Hw Hwf) ltac:(lia)) as (Hs & Hl & Hle & Hu). split_and!; [done| |lia|done].
    eapply Forall_impl; [exact Hl|]. simpl. lia.
  - destruct (server_getSessionID_spec _ _ _ _ Hwf H0 Hms Hcall) as (Hb & Hwf1 & _).
    destruct (IH Hwf1 ltac:(lia)) as (Hs & Hl & Hle & Hu). split_and!; [|constructor|lia|constructor].
    + constructor; [done|]. eapply Forall_impl; [exact Hl|]. simpl. lia.
    + lia.
    + eapply Forall_impl; [exact Hl|]. simpl. lia.
    + lia.
    + done.
Qed.
End Sessions.


(** ** A server that commits at once *)

Module ServerDemo.
Definition limit : Z := 2 ^ 62.
Definition Commit := commit MachineDemo.id MachineDemo.id MachineDemo.put MachineDemo.get_s (λ z, [byte.of_Z z]) 1000.

(** Entries are committed as they come; without room for sessions none is taken. *)
#[global] Instance demo_raft : RaftServer Machine := {|
  rv_isLeaderAlive _ := true;
  rv_append_entries ds m :=
    match ds with
    | [data] =>
        if bool_decide (session_id_counter (sm_store m) < limit) then
          match Commit (last_committed_idx m + 1) data false m with
          | (m, Ret res) => (m, mkResult true 0 res)
          | (m, _) => (m, mkResult false (-1) None)
          end
        else (m, mkResult false (-1) None)
    | _ => (m, mkResult false (-1) None)
    end;
  rv_wait _ _ m := (m, true);
  rv_machine m := m;
  rv_set_machine m _ := m
|}.

#[global] Instance demo_commits :
  RaftCommits MachineDemo.id MachineDemo.id 0 MachineDemo.put MachineDemo.get_s (λ z, [byte.of_Z z]) limit Machine.
Proof.
  split; [done|done|]. intros data m m' r E1 Hacc _. simpl in E1. case_bool_decide as Hl; [|by injection E1 as <- <-].
  destruct (Commit _ data false m) as [m2 [res|x|]] eqn:Ec; injection E1 as <- <-; try done.
  exists m, m2, 1000, (last_committed_idx m + 1). by split_and!.
Qed.

Definition Open := server_getSessionID 0 MachineDemo.put MachineDemo.get_s.
Definition m1 : Machine := (Open 30000 MachineDemo.machine).1.
Definition m2 : Machine := (Open 6000 m1).1.
End ServerDemo.

