(* ===== verification/Leader.v ===== *)
(** * The leader: the parts around the dispatcher put together

    A request of a client goes through the queue of the dispatcher
    (KeeperDispatcher.v) to the processor (RequestProcessor.v) and, when it is a
    write, to the accumulator (RequestAccumulator.v), which hands it to Raft as a
    log entry (StateMachine.v); Raft gives the entry back, the processor applies
    the request to the store and its answer goes from the response queue to the
    connection. Every thread of these parts is a kind of step here, and the
    theorem is about every interleaving of them on a server that stays leader.
    The steps of the processor itself are those of ProcessorOrder.v, whose
    assumption about the order of commits is discharged here. *)

From S2P Require Import Prelude Types ZkIO ZkCodec ACLMap SessionExpiryQueue KeeperPaths KeeperNode KeeperStore RequestsQueue RequestProcessor ProcessorOrder Pipeline StateMachine StateMachineProps Forwarding RequestAccumulator RequestForwarder KeeperDispatcher.
From stdpp Require Import base gmap sets strings option list.
From Stdlib Require Import ZArith Lia.
Open Scope Z_scope.

#[local] Opaque serializeRequest parseRequest.

(** ** The outside: Raft's log and the connections *)

(** Entries Raft has taken and not yet given to the state machine, how many
    batches it was asked to take, and what the connections were given. *)
Record Outside : Type := mkOutside {
  o_appends : nat;
  o_raft : list bytes;
  o_delivered : list (Z * ZooKeeperResponse);
  o_answered : list (Z * ForwardResponse)
}.

Definition set_raft (raft : list bytes) (o : Outside) : Outside :=
  mkOutside (o_appends o) raft (o_delivered o) (o_answered o).

(** The leader with the histories of ProcessorOrder.v. [ld_hand] are the requests
    the threads of the dispatcher work on, with whether the processor has them. *)
Record Leader : Type := mkLeader {
  ld_d : Dispatcher Z Z;
  ld_o : Outside;
  ld_hand : gmap nat (RequestForSession * bool);
  ld_h : list event;
  ld_log : list RequestForSession;
  ld_sent : list RequestForSession;
  ld_phase : Phase;
  ld_put : list RequestForSession
}.

Definition sys_of (l : Leader) : Sys Z :=
  mkSys (d_processor (ld_d l)) (ld_h l) (ld_log l) (ld_sent l) (ld_phase l).

Definition session_entry (data : bytes) : bool := isNewSessionRequest data || isUpdateSessionRequest data.

(** The request an entry of the log holds. *)
Definition entry_req (data : bytes) : option RequestForSession :=
  if session_entry data then None else match parseRequest 0 data with Ret x => Some x | _ => None end.

Section Leader.
(** Raft: whether a batch is accepted, with which code, and whether its entries
    get into the log although the result is an error. *)
Context (OK TIMEOUT : Z) (answer : nat → list bytes → bool * Z * bool).
Context (getSHA1 base64Encode : string → string) (clock : nat → Z).
Context (put_i64 : Z → bytes) (get_i64 : bytes → outcome exn (Z * bytes)) (put_i8 : Z → bytes).

Definition append_entries (entries : list bytes) (o : Outside) : Outside * (bool * Z) :=
  let '(accepted, code, anyway) := answer (o_appends o) entries in
  (mkOutside (S (o_appends o)) (if (accepted && (code =? OK)) || anyway then o_raft o ++ entries else o_raft o)
     (o_delivered o) (o_answered o), (accepted, code)).

#[local] Instance leader_env : DispatcherEnv unit Z Z Outside := {|
  de_isLeader _ := true;
  de_isLeaderAlive _ := true;
  de_append_entries := append_entries;
  de_getLeaderClient _ _ := None;
  de_setLeaderClient _ _ o := o;
  de_respond k r o := (mkOutside (o_appends o) (o_raft o) (o_delivered o ++ [(k, r)]) (o_answered o), Ret tt);
  de_answer f r o := mkOutside (o_appends o) (o_raft o) (o_delivered o) (o_answered o ++ [(f, r)]);
  de_server_shutdown o := o
|}.

(** The sessions [T] stay connected and none of their requests fails; [conn] is
    the connection of such a session. *)
Context (T : Z → bool) (conn : Z → Z).

Definition client_ok (x : RequestForSession) (put : list RequestForSession) : Prop :=
  loggable x ∧ push_ok T x put.

Inductive lstep : Leader → Leader → Prop :=
| l_put now request sid d d' o hand h log sent ph put :
    putRequest now request sid d = Some (d', Ret true) →
    client_ok (mkRFS sid request now (-1) (-1)) put →
    lstep (mkLeader d o hand h log sent ph put)
          (mkLeader d' o hand h log sent ph (put ++ [mkRFS sid request now (-1) (-1)]))
| l_forwarded now server_id client_id request sid d d' o hand h log sent ph put :
    putForwardingRequest now server_id client_id request sid d = Some (d', Ret true) →
    loggable (mkRFS sid request now server_id client_id) → T sid = false →
    lstep (mkLeader d o hand h log sent ph put) (mkLeader d' o hand h log sent ph put)
| l_take i x d d' o hand h log sent ph put :
    hand !! i = None → take_request i d = Some (d', Some x) →
    lstep (mkLeader d o hand h log sent ph put) (mkLeader d' o (<[i := (x, false)]> hand) h log sent ph put)
| l_give i x d d' o hand h log sent ph put :
    hand !! i = Some (x, false) → give_processor x d = Some d' →
    lstep (mkLeader d o hand h log sent ph put)
          (mkLeader d' o (<[i := (x, true)]> hand) h log
             (if isLocalSession d (rs_session_id x) then sent ++ [x] else sent) ph put)
| l_route i x d d' o hand h log sent ph put :
    hand !! i = Some (x, true) → route x o d = Some d' →
    lstep (mkLeader d o hand h log sent ph put) (mkLeader d' o (delete i hand) h log sent ph put)
| l_accumulate d a' d' o o' hand h log sent ph put :
    run_turn OK 0 (d_accumulator d, (d, o)) = ((a', (d', o')), Ret tt) →
    lstep (mkLeader d o hand h log sent ph put) (mkLeader (set_d_accumulator a' d') o' hand h log sent ph put)
| l_session_entry data d o hand h log sent ph put :
    session_entry data = true →
    lstep (mkLeader d o hand h log sent ph put)
          (mkLeader d (set_raft (o_raft o ++ [data]) o) hand h log sent ph put)
| l_commit now data raft c p' d o hand h log sent ph put :
    o_raft o = data :: raft → session_entry data = false → parseRequest now data = Ret c →
    RequestProcessor.commit c (d_processor d) = Some p' →
    lstep (mkLeader d o hand h log sent ph put)
          (mkLeader (set_d_processor p' d) (set_raft raft o) hand h (log ++ [c]) sent ph put)
| l_commit_session now idx data raft m m' r w d o hand h log sent ph put :
    o_raft o = data :: raft → session_entry data = true →
    StateMachine.commit getSHA1 base64Encode put_i64 get_i64 put_i8 now idx data false m = (m', Ret r) →
    sm_store m = w_store (d_world d) → sm_responses m = w_responses (d_world d) →
    w = mkWorld (sm_store m') (sm_responses m') (w_turn (d_world d)) (w_crashed (d_world d)) →
    lstep (mkLeader d o hand h log sent ph put)
          (mkLeader (set_d_world w d) (set_raft raft o) hand h log sent ph put)
| l_process p' evs ph' d o hand h log sent ph put :
    step TIMEOUT (isLocalSession d) T (mkSys (d_processor d) h log sent ph) (mkSys p' (h ++ evs) log sent ph') →
    lstep (mkLeader d o hand h log sent ph put)
          (mkLeader (set_d_world (Pipeline.replay getSHA1 base64Encode clock (λ _, true) evs (d_world d))
                       (set_d_processor p' d)) o hand (h ++ evs) log sent ph' put)
| l_respond d d' o o' hand h log sent ph put :
    responseThread (d, o) = ((d', o'), Ret tt) →
    (∀ sid r, head (w_responses (d_world d)) = Some (sid, r) → T sid = true → resp_getOpNum r ≠ Ret Op_Close) →
    lstep (mkLeader d o hand h log sent ph put) (mkLeader d' o' hand h log sent ph put)
| l_connect sid k is_reconnected d d' o hand h log sent ph put :
    registerSession sid k is_reconnected d = (d', Ret tt) → (∀ t, T t = true → conn t ≠ k) →
    lstep (mkLeader d o hand h log sent ph put) (mkLeader d' o hand h log sent ph put)
| l_disconnect sid d o hand h log sent ph put :
    T sid = false →
    lstep (mkLeader d o hand h log sent ph put) (mkLeader (finishSession sid d) o hand h log sent ph put)
| l_clean now d d' o hand h log sent ph put :
    sessionCleanerTask true now d = Some d' → in_s 64 now →
    Forall (λ sid, T sid = false ∧ in_s 64 sid) (getDeadSessions now (w_store (d_world d))) →
    lstep (mkLeader d o hand h log sent ph put) (mkLeader d' o hand h log sent ph put).

Inductive lsteps : Leader → Leader → Prop :=
| lsteps_refl l : lsteps l l
| lsteps_next l1 l2 l3 : lsteps l1 l2 → lstep l2 l3 → lsteps l1 l3.

(** ** The invariant *)

(** The request of session [sid] that a thread holds, at the given stage. *)
Definition in_hand (n : nat) (hand : gmap nat (RequestForSession * bool)) (stage : bool) (sid : Z)
    : list RequestForSession :=
  match hand !! queue_of n sid with
  | Some (x, b) => if decide (b = stage ∧ rs_session_id x = sid) then [x] else []
  | None => []
  end.

(** A request as it is before Raft; those of [T] are not forwarded ones. *)
Definition mine (x : RequestForSession) : Prop :=
  loggable x ∧ (T (rs_session_id x) = true → rs_server_id x = -1 ∧ rs_client_id x = -1).

Definition raft_entry (data : bytes) : Prop :=
  session_entry data = true ∨ ∃ x, data = serializeRequest x ∧ mine x.

(** The queue of the dispatcher and the threads that work on it. *)
Record queues_ok (n : nat) (q : RequestsQueue) (hand : gmap nat (RequestForSession * bool)) : Prop := {
  qo_length : length q = n;
  qo_pos : (0 < n)%nat;
  qo_open : rq_open q;
  qo_queue i x : x ∈ rq_items q i → queue_of n (rs_session_id x) = i ∧ mine x;
  qo_hand i x b : hand !! i = Some (x, b) → queue_of n (rs_session_id x) = i ∧ mine x
}.

Record raft_ok (a : Accumulator) (raft : list bytes) : Prop := {
  ro_acc : acc_ok 1 a;
  ro_mine : Forall mine (unsubmitted a 0);
  ro_raft : Forall raft_entry raft
}.

Record sessions_ok (m : gmap Z Z) : Prop := {
  so_reg sid : T sid = true → m !! sid = Some (conn sid);
  so_conn sid k : T sid = true → m !! k = Some (conn sid) → k = sid
}.

(** The requests a session has put, and its writes, part by part. *)
Record flow_ok (n : nat) (l : Leader) (sid : Z) : Prop := {
  fo_put : of_session sid (ld_put l) =
    of_session sid (ld_sent l) ++ in_hand n (ld_hand l) false sid ++
    of_session sid (rq_items (d_requests (ld_d l)) (queue_of n sid));
  fo_writes : writes (of_session sid (ld_sent l)) =
    of_session sid (ld_log l) ++ of_session sid (omap entry_req (o_raft (ld_o l))) ++
    of_session sid (unsubmitted (d_accumulator (ld_d l)) 0) ++ writes (in_hand n (ld_hand l) true sid);
  fo_xids : distinct_xids (of_session sid (ld_put l));
  fo_auth : Forall (λ x, rs_opnum x ≠ Op_Auth) (of_session sid (ld_put l));
  fo_answers : answers_of (conn sid) (o_delivered (ld_o l)) ++ answers_of sid (w_responses (d_world (ld_d l)))
    `sublist_of` xids (handled_of (ld_h l) sid)
}.

Record LInv (n : nat) (l : Leader) : Prop := {
  li_sys : Inv T (sys_of l);
  li_queues : queues_ok n (d_requests (ld_d l)) (ld_hand l);
  li_raft : raft_ok (d_accumulator (ld_d l)) (o_raft (ld_o l));
  li_sessions : sessions_ok (session_to_response_callback (ld_d l));
  li_flow sid : T sid = true → flow_ok n l sid
}.

(** ** Steps keep the invariant *)

Section Steps.
Context (n : nat).
Hypothesis trusted_range : ∀ k, T k = true → in_s 64 k.
(** Raft takes every batch with a request of a session in [T]. *)
Hypothesis trusted_taken : ∀ i batch x, x ∈ batch → mine x → T (rs_session_id x) = true →
  (answer i (serializeRequest <$> batch)).1 = (true, OK).

Lemma local_trusted (d : Dispatcher Z Z) k :
  sessions_ok (session_to_response_callback d) → T k = true → isLocalSession d k = true ∧ in_s 64 k.
Proof.
  intros [Hreg _] Hk. split; [|by apply trusted_range]. unfold isLocalSession.
  rewrite (Hreg k Hk). by apply bool_decide_eq_true_2.
Qed.

(** *** The queue of the dispatcher *)

Lemma enqueue_spec t x (d d' : Dispatcher Z Z) :
  rq_open (d_requests d) → enqueue t x d = Some (d', Ret true) →
  ∃ q, d' = set_d_requests q d ∧ length q = length (d_requests d) ∧ rq_open q ∧
    ∀ k, rq_items q k = if decide (k = queue_of (length (d_requests d)) (rs_session_id x))
                        then rq_items (d_requests d) k ++ [x] else rq_items (d_requests d) k.
Proof.
  intros Ho E. unfold enqueue in E. destruct (bool_decide _).
  - destruct (rq_push x (d_requests d)) as [[q ok]|] eqn:Eq; [|done]. simpl in E.
    apply rq_push_spec in Eq as (-> & Hl & Ho' & Hk); [|done]. simplify_eq. by exists q.
  - destruct (rq_tryPush x (d_requests d)) as [[q ok]|] eqn:Eq; [|done]. simpl in E.
    apply rq_tryPush_spec in Eq as (Hl & Ho' & Hk); [|done]. destruct ok; simplify_eq. exists q.
    split_and!; [done..|]. intros k. rewrite Hk. simpl. by case_bool_decide; case_decide.
Qed.

Lemma queues_ok_push x q q' hand :
  queues_ok n q hand → mine x → length q' = length q → rq_open q' →
  (∀ k, rq_items q' k = if decide (k = queue_of (length q) (rs_session_id x)) then rq_items q k ++ [x] else rq_items q k) →
  queues_ok n q' hand.
Proof.
  intros [Hl Hp Ho Hq Hh] Hx Hl' Ho' Hk. split; try done; [congruence|].
  intros i y. rewrite Hk, Hl. case_decide as Hi; [|by apply Hq].
  rewrite elem_of_app, list_elem_of_singleton. intros [Hy| ->]; [by apply Hq|done].
Qed.

(** What a session has in the queue after a push. *)
Lemma session_queue_push x q q' sid :
  (∀ k, rq_items q' k = if decide (k = queue_of n (rs_session_id x)) then rq_items q k ++ [x] else rq_items q k) →
  of_session sid (rq_items q' (queue_of n sid)) = of_session sid (rq_items q (queue_of n sid)) ++ of_session sid [x].
Proof.
  intros Hk. rewrite Hk, of_session_one. case_decide as Hi; case_decide as Hs; simplify_eq.
  - rewrite filter_app, of_session_one. by rewrite decide_True.
  - rewrite filter_app, of_session_one. by rewrite decide_False.
  - by rewrite app_nil_r.
Qed.

Lemma inv_l_put now request sid d d' o hand h log sent ph put :
  let x := mkRFS sid request now (-1) (-1) in
  LInv n (mkLeader d o hand h log sent ph put) →
  putRequest now request sid d = Some (d', Ret true) → client_ok x put →
  LInv n (mkLeader d' o hand h log sent ph (put ++ [x])).
Proof.
  intros x [Hs Hq Hr Hse Hf] E [Hlog Hok]. simpl in *. unfold putRequest in E.
  destruct (isLocalSession d sid); [|done]. apply enqueue_spec in E as (q & -> & Hl & Ho & Hk); [|by apply Hq].
  assert (mine x) as Hx by (split; [exact Hlog|done]).
  pose proof (queues_ok_push _ _ _ _ Hq Hx Hl Ho Hk) as Hq'. rewrite (qo_length _ _ _ Hq) in Hk.
  split; simpl; try done. intros k Ht. destruct (Hf k Ht) as [H1 H2 H3 H4 H5]. split; simpl in *; try done.
  - rewrite filter_app, H1, (session_queue_push x _ q k Hk). by rewrite !(assoc_L (++)).
  - rewrite filter_app, of_session_one. case_decide as Hs'; [|by rewrite app_nil_r].
    subst k. destruct (Hok Ht) as [_ Hx']. by rewrite filter_app, of_session_one, decide_True in Hx'.
  - rewrite filter_app, Forall_app. split; [done|]. rewrite of_session_one. case_decide as Hs'; [|done].
    subst k. apply Forall_singleton. by destruct (Hok Ht).
Qed.

(** A request of a session outside [T] enters the queue. *)
Lemma inv_l_other x q d o hand h log sent ph put :
  LInv n (mkLeader d o hand h log sent ph put) → mine x → T (rs_session_id x) = false →
  length q = length (d_requests d) → rq_open q →
  (∀ k, rq_items q k = if decide (k = queue_of (length (d_requests d)) (rs_session_id x))
                       then rq_items (d_requests d) k ++ [x] else rq_items (d_requests d) k) →
  LInv n (mkLeader (set_d_requests q d) o hand h log sent ph put).
Proof.
  intros [Hs Hq Hr Hse Hf] Hx HT Hl Ho Hk. simpl in *.
  pose proof (queues_ok_push _ _ _ _ Hq Hx Hl Ho Hk) as Hq'. rewrite (qo_length _ _ _ Hq) in Hk.
  split; simpl; try done. intros k Ht. destruct (Hf k Ht) as [H1 H2 H3 H4 H5]. split; simpl in *; try done.
  rewrite H1, (session_queue_push x _ q k Hk), of_session_one, decide_False by congruence. by rewrite app_nil_r.
Qed.

(** *** The request threads *)

Lemma in_hand_insert hand i x b stage sid :
  in_hand n (<[i := (x, b)]> hand) stage sid =
    if decide (queue_of n sid = i) then (if decide (b = stage) then of_session sid [x] else [])
    else in_hand n hand stage sid.
Proof.
  unfold in_hand. case_decide as Hi.
  - subst i. rewrite lookup_insert_eq, of_session_one. repeat case_decide; naive_solver.
  - by rewrite lookup_insert_ne.
Qed.

Lemma in_hand_delete hand i stage sid :
  in_hand n (delete i hand) stage sid = if decide (queue_of n sid = i) then [] else in_hand n hand stage sid.
Proof.
  unfold in_hand. case_decide as Hi; [subst i; by rewrite lookup_delete_eq|by rewrite lookup_delete_ne].
Qed.

Lemma in_hand_at hand i x b stage sid :
  hand !! i = Some (x, b) → queue_of n sid = i →
  in_hand n hand stage sid = if decide (b = stage) then of_session sid [x] else [].
Proof.
  intros Hi <-. unfold in_hand. rewrite Hi, of_session_one. repeat case_decide; naive_solver.
Qed.

(** A request is only ever in the queue and the hand of its session. *)
Lemma other_hand i x sid : queue_of n (rs_session_id x) = i → queue_of n sid ≠ i → of_session sid [x] = [].
Proof. intros Hi Hne. rewrite of_session_one. case_decide; [congruence|done]. Qed.

Lemma inv_l_take i x d d' o hand h log sent ph put :
  LInv n (mkLeader d o hand h log sent ph put) →
  hand !! i = None → take_request i d = Some (d', Some x) →
  LInv n (mkLeader d' o (<[i := (x, false)]> hand) h log sent ph put).
Proof.
  intros [Hs Hq Hr Hse Hf] Hi E. simpl in *. unfold take_request in E.
  destruct (rq_tryPop i (d_requests d)) as [[q oo]|] eqn:Eq; [|done]. simpl in E.
  destruct (d_shutdown_called d); [done|]. simplify_eq.
  apply rq_tryPop_spec in Eq as (Hl & Ho & Hx & Hk); [|by apply Hq].
  assert (queue_of n (rs_session_id x) = i ∧ mine x) as [Hxi Hxm].
  { apply (qo_queue _ _ _ Hq). rewrite Hx. apply list_elem_of_here. }
  split; simpl; try done.
  - destruct Hq as [Hn Hp _ Hin Hh]. split; try done; [congruence| |].
    + intros k y Hy. apply Hin. destruct (decide (k = i)) as [->|Hne]; [rewrite Hx; by apply list_elem_of_further|].
      by rewrite <-Hk.
    + intros k y b. rewrite lookup_insert_Some. intros [[<- ?]|[? ?]]; [by simplify_eq|by eapply Hh].
  - intros sid Ht. destruct (Hf sid Ht) as [H1 H2 H3 H4 H5]. split; simpl in *; try done.
    + rewrite in_hand_insert. case_decide as Hsi.
      * rewrite decide_True by done. rewrite H1, Hsi, Hx. change (x :: rq_items q i) with ([x] ++ rq_items q i).
        rewrite (filter_app _ [x]). unfold in_hand. by rewrite Hsi, Hi.
      * by rewrite Hk.
    + rewrite in_hand_insert. case_decide as Hsi; [|done]. rewrite decide_False by done.
      rewrite H2. unfold in_hand. by rewrite Hsi, Hi.
Qed.

Lemma distinct_xids_app l k : distinct_xids (l ++ k) → distinct_xids l.
Proof.
  intros H i j x y Hx Hy. apply (H i j x y); [by apply lookup_app_l_Some|by apply lookup_app_l_Some].
Qed.

(** What a thread gives to the processor continues what its session sent. *)
Lemma hand_push_ok i x d o hand h log sent ph put :
  LInv n (mkLeader d o hand h log sent ph put) → hand !! i = Some (x, false) → push_ok T x sent.
Proof.
  intros [Hs Hq Hr Hse Hf] Hi Ht. simpl in *. destruct (Hf _ Ht) as [H1 H2 H3 H4 H5]. simpl in *.
  destruct (qo_hand _ _ _ Hq i x false Hi) as [Hxi _].
  rewrite (in_hand_at hand i x false) in H1 by done. rewrite decide_True in H1 by done.
  rewrite H1, (assoc_L (++)), <-(filter_app _ sent) in H3, H4. apply Forall_app in H4 as [H4 _].
  apply distinct_xids_app in H3. split; [|exact H3].
  rewrite filter_app, Forall_app, of_session_one, decide_True in H4 by done. apply (proj1 (Forall_singleton _ _) (proj2 H4)).
Qed.

Lemma inv_l_give i x d d' o hand h log sent ph put :
  LInv n (mkLeader d o hand h log sent ph put) →
  hand !! i = Some (x, false) → give_processor x d = Some d' →
  LInv n (mkLeader d' o (<[i := (x, true)]> hand) h log
            (if isLocalSession d (rs_session_id x) then sent ++ [x] else sent) ph put).
Proof.
  intros HI Hi E. pose proof (hand_push_ok _ _ _ _ _ _ _ _ _ _ HI Hi) as Hpush.
  destruct HI as [Hs Hq Hr Hse Hf]. simpl in *. destruct (qo_hand _ _ _ Hq i x false Hi) as [Hxi Hxm].
  assert (∃ p, d' = set_d_processor p d ∧
    Inv T (mkSys p h log (if isLocalSession d (rs_session_id x) then sent ++ [x] else sent) ph)) as (p & -> & Hp).
  { unfold give_processor in E. destruct (isLocalSession d (rs_session_id x)).
    - destruct (push x (d_processor d)) as [p|] eqn:Ep; simplify_eq/=. exists p. split; [done|].
      eapply (inv_step TIMEOUT (isLocalSession d)); [intros k; by apply local_trusted|exact Hs|by constructor].
    - simplify_eq. exists (d_processor d'). split; [by destruct d'|exact Hs]. }
  assert (∀ sid, T sid = true → of_session sid (if isLocalSession d (rs_session_id x) then sent ++ [x] else sent) =
    of_session sid sent ++ of_session sid [x]) as Hsent.
  { intros sid Ht. destruct (isLocalSession d (rs_session_id x)) eqn:El; [apply filter_app|].
    rewrite of_session_one. case_decide as Hsx; [|by rewrite app_nil_r].
    destruct (local_trusted d sid Hse Ht) as [Hc _]. congruence. }
  split; simpl; try done.
  - destruct Hq as [Hn Hp' Ho Hin Hh]. split; try done. intros k y b. rewrite lookup_insert_Some.
    intros [[<- ?]|[? ?]]; [by simplify_eq|by eapply Hh].
  - intros sid Ht. destruct (Hf sid Ht) as [H1 H2 H3 H4 H5]. split; simpl in *; try done; rewrite Hsent by done.
    + rewrite H1, in_hand_insert. case_decide as Hsi.
      * rewrite (in_hand_at hand i x false), decide_True, decide_False by done. by rewrite <-(assoc_L (++)).
      * by rewrite (other_hand i x sid), app_nil_r.
    + rewrite filter_app, H2, in_hand_insert, <-!(assoc_L (++)). case_decide as Hsi.
      * rewrite (in_hand_at hand i x false), decide_False, decide_True by done. done.
      * by rewrite (other_hand i x sid), app_nil_r.
Qed.

Lemma queue_of_one sid : queue_of 1 sid = 0%nat.
Proof. pose proof (queue_of_lt 1 sid). lia. Qed.

Lemma acc_push_one x a a' :
  acc_ok 1 a → acc_push x a = Some a' → acc_ok 1 a' ∧ unsubmitted a' 0 = unsubmitted a 0 ++ [x].
Proof.
  intros Ha E. destruct (acc_push_spec _ _ _ _ Ha E) as (Ha' & _ & Hk). split; [done|].
  by rewrite Hk, queue_of_one, decide_True.
Qed.

Lemma inv_l_route i x d d' o hand h log sent ph put :
  LInv n (mkLeader d o hand h log sent ph put) →
  hand !! i = Some (x, true) → route x o d = Some d' →
  LInv n (mkLeader d' o (delete i hand) h log sent ph put).
Proof.
  intros [Hs Hq Hr Hse Hf] Hi E. simpl in *. destruct (qo_hand _ _ _ Hq i x true Hi) as [Hxi Hxm].
  assert (queues_ok n (d_requests d) (delete i hand)) as Hq'.
  { destruct Hq as [Hn Hp Ho Hin Hh]. split; try done. intros k y b [_ Hy]%lookup_delete_Some. by eapply Hh. }
  unfold route in E. destruct (rs_is_read x) eqn:Er.
  - injection E as <-. split; simpl; try done. intros sid Ht. destruct (Hf sid Ht) as [H1 H2 H3 H4 H5].
    split; simpl in *; try done; rewrite in_hand_delete; case_decide as Hsi; try done.
    + by rewrite H1, (in_hand_at hand i x true) by done.
    + rewrite H2, (in_hand_at hand i x true), decide_True, of_session_one by done.
      case_decide; [|done]. by rewrite filter_cons_False, filter_nil by (rewrite Er; done).
  - simpl in E. destruct (acc_push x (d_accumulator d)) as [a|] eqn:Ea; [|done]. injection E as <-.
    destruct Hr as [Ha Hm Hraft]. destruct (acc_push_one _ _ _ Ha Ea) as [Ha' Hu].
    split; simpl; try done.
    + split; try done. rewrite Hu. apply Forall_app. split; [done|]. by apply Forall_singleton.
    + intros sid Ht. destruct (Hf sid Ht) as [H1 H2 H3 H4 H5]. split; simpl in *; try done; rewrite in_hand_delete.
      * case_decide as Hsi; [|done]. by rewrite H1, (in_hand_at hand i x true) by done.
      * rewrite H2, Hu, filter_app, <-!(assoc_L (++)). case_decide as Hsi.
        -- rewrite (in_hand_at hand i x true), decide_True, of_session_one, app_nil_r by done.
           case_decide; [|by rewrite filter_nil]. by rewrite filter_cons_True, filter_nil.
        -- by rewrite (other_hand i x sid).
Qed.

(** *** The accumulator and Raft's answers *)

(** [s'] differs from [s] in the errors of sessions outside [T] and in answers to
    other servers. *)
Definition reported (h : list event) (log sent : list RequestForSession) (ph : Phase)
    (s s' : Dispatcher Z Z * Outside) : Prop :=
  ∃ p, s'.1 = set_d_processor p s.1 ∧ Inv T (mkSys p h log sent ph) ∧
    o_raft s'.2 = o_raft s.2 ∧ o_delivered s'.2 = o_delivered s.2.

Lemma reported_refl h log sent ph d o :
  Inv T (mkSys (d_processor d) h log sent ph) → reported h log sent ph (d, o) (d, o).
Proof. intros HI. exists (d_processor d). split_and!; try done. by destruct d. Qed.

Lemma reported_trans h log sent ph s1 s2 s3 :
  reported h log sent ph s1 s2 → reported h log sent ph s2 s3 → reported h log sent ph s1 s3.
Proof.
  intros (p & E1 & HI & Hr & Hd) (p' & E2 & HI' & Hr' & Hd'). exists p'. rewrite E2, E1. split_and!; congruence || done.
Qed.

Lemma trusted_not_forward x : mine x → T (rs_session_id x) = true → isForwardRequest x = false.
Proof. intros [_ Hm] Ht. destruct (Hm Ht) as [E _]. unfold isForwardRequest. by rewrite E. Qed.

Lemma report_reported h log sent ph x result d o :
  Inv T (mkSys (d_processor d) h log sent ph) → mine x → (T (rs_session_id x) = true → result = (true, OK)) →
  reported h log sent ph (d, o) (report_one OK result x (d, o)).
Proof.
  intros HI Hx Ht. unfold report_one. destruct result as [accepted code].
  destruct (T (rs_session_id x)) eqn:ET.
  { injection (Ht eq_refl) as -> ->. rewrite trusted_not_forward, Z.eqb_refl by done. by apply reported_refl. }
  destruct (isForwardRequest x).
  - simpl. unfold sendAppendEntryResponse. destruct (_ !! _); [|by apply reported_refl].
    exists (d_processor d). split_and!; try done. by destruct d.
  - destruct (negb accepted || negb (code =? OK)); [|by apply reported_refl].
    eexists. split; [reflexivity|]. split_and!; try done.
    eapply inv_report; [exact HI| |exact ET]. destruct Hx as [(_ & Hs & _) _]. exact Hs.
Qed.

Lemma reports_reported h log sent ph batch result d o :
  Inv T (mkSys (d_processor d) h log sent ph) → Forall mine batch →
  (∀ x, x ∈ batch → T (rs_session_id x) = true → result = (true, OK)) →
  reported h log sent ph (d, o) (foldl (λ e x, report_one OK result x e) (d, o) batch).
Proof.
  revert d o. induction batch as [|x batch IH]; intros d o HI Hm Ht; [by apply reported_refl|].
  apply Forall_cons in Hm as [Hx Hm].
  pose proof (report_reported h log sent ph x result d o HI Hx (Ht x (list_elem_of_here x batch))) as Hr.
  cbn [foldl]. destruct (report_one OK result x (d, o)) as [d1 o1] eqn:E1. eapply reported_trans; [exact Hr|].
  apply IH; [|exact Hm|]; [|intros y Hy; by apply Ht, list_elem_of_further].
  destruct Hr as (p & E & HI' & _). simpl in E. subst d1. exact HI'.
Qed.

Lemma entry_of_mine x : mine x → entry_req (serializeRequest x) = Some (logged x).
Proof.
  intros [Hl _]. unfold entry_req, session_entry. destruct (request_is_no_session x) as [-> ->]. simpl.
  by rewrite (parse_serialized 0 x Hl).
Qed.

Lemma logged_trusted x : mine x → T (rs_session_id x) = true → logged x = x.
Proof. intros [_ Hm] Ht. destruct (Hm Ht) as [E1 E2]. destruct x; simpl in *. by subst. Qed.

Lemma session_entries sid batch :
  Forall mine batch → T sid = true →
  of_session sid (omap entry_req (serializeRequest <$> batch)) = of_session sid batch.
Proof.
  intros Hm Ht. induction Hm as [|x batch Hx Hm IH]; [done|]. rewrite fmap_cons. cbn [omap list_omap].
  rewrite (entry_of_mine x Hx). rewrite !filter_cons. simpl rs_session_id.
  case_decide as Hs; [|exact IH]. rewrite (logged_trusted x Hx) by (by rewrite Hs). f_equal. exact IH.
Qed.

(** What a batch does to the rest of the server. *)
Lemma submit_spec h log sent ph batch d o :
  Inv T (mkSys (d_processor d) h log sent ph) → Forall mine batch →
  ∃ p o' es, submit OK (d, o) batch = (set_d_processor p d, o') ∧ Inv T (mkSys p h log sent ph) ∧
    o_delivered o' = o_delivered o ∧ o_raft o' = o_raft o ++ es ∧ Forall raft_entry es ∧
    ∀ sid, T sid = true → of_session sid (omap entry_req es) = of_session sid batch.
Proof.
  intros HI Hm. unfold submit, waitResultAndHandleError. simpl env_putRequestBatch. unfold putRequestBatch.
  simpl de_append_entries. unfold append_entries. simpl.
  destruct (answer (o_appends o) (serializeRequest <$> batch)) as [[accepted code] anyway] eqn:Ea.
  assert (∀ x, x ∈ batch → T (rs_session_id x) = true → (accepted, code) = (true, OK)) as Hok.
  { intros x Hx Ht. rewrite Forall_forall in Hm. pose proof (trusted_taken (o_appends o) batch x Hx (Hm x Hx) Ht) as E.
    rewrite Ea in E. exact E. }
  set (taken := (accepted && (code =? OK)) || anyway).
  set (o1 := mkOutside _ _ _ _).
  destruct (reports_reported h log sent ph batch (accepted, code) d o1 HI Hm Hok) as (p & E1 & HI' & Hr & Hd).
  destruct (foldl _ (d, o1) batch) as [d2 o2]. simpl in E1, Hr, Hd. subst d2.
  exists p, o2, (if taken then serializeRequest <$> batch else []).
  split_and!; [done|exact HI'|done| | |].
  - rewrite Hr. unfold o1. simpl. destruct taken; [done|]. by rewrite app_nil_r.
  - destruct taken; [|done]. apply Forall_fmap. eapply Forall_impl; [exact Hm|]. intros x Hx. right. exists x. split; [reflexivity|exact Hx].
  - intros sid Ht. destruct taken eqn:Et; [by apply session_entries|].
    symmetry. apply filter_none, Forall_forall. intros x Hx Hs. subst sid.
    injection (Hok x Hx Ht) as -> ->. unfold taken in Et. by rewrite Z.eqb_refl in Et.
Qed.

Lemma submits_spec h log sent ph batches d o :
  Inv T (mkSys (d_processor d) h log sent ph) → Forall mine (concat batches) →
  ∃ p o' es, foldl (submit OK) (d, o) batches = (set_d_processor p d, o') ∧ Inv T (mkSys p h log sent ph) ∧
    o_delivered o' = o_delivered o ∧ o_raft o' = o_raft o ++ es ∧ Forall raft_entry es ∧
    ∀ sid, T sid = true → of_session sid (omap entry_req es) = of_session sid (concat batches).
Proof.
  revert d o. induction batches as [|b batches IH]; intros d o HI Hm.
  { exists (d_processor d), o, []. rewrite app_nil_r. split_and!; try done. by destruct d. }
  simpl in Hm. apply Forall_app in Hm as [Hb Hm].
  destruct (submit_spec h log sent ph b d o HI Hb) as (p & o1 & es & E1 & HI1 & Hd1 & Hr1 & He1 & Hs1).
  destruct (IH (set_d_processor p d) o1 HI1 Hm) as (p2 & o2 & es2 & E2 & HI2 & Hd2 & Hr2 & He2 & Hs2).
  exists p2, o2, (es ++ es2). cbn [foldl]. rewrite E1, E2, Hd2, Hr2, Hr1, (assoc_L (++)).
  split_and!; [done|exact HI2|done|done|by apply Forall_app|].
  intros sid Ht. rewrite omap_app, filter_app, Hs1, Hs2 by done. simpl. by rewrite filter_app.
Qed.

Lemma inv_l_accumulate d a' d' o o' hand h log sent ph put :
  LInv n (mkLeader d o hand h log sent ph put) →
  run_turn OK 0 (d_accumulator d, (d, o)) = ((a', (d', o')), Ret tt) →
  LInv n (mkLeader (set_d_accumulator a' d') o' hand h log sent ph put).
Proof.
  intros [Hs Hq Hr Hse Hf] E. simpl in Hs, Hq, Hr, Hse, Hf. destruct Hr as [Ha Hm Hraft].
  destruct (run_turn_spec OK 1 0 (d_accumulator d) (d, o) Ha ltac:(lia)) as (a1 & batches & E1 & [Ha1 _ _ Hu _ _ _]).
  rewrite E1 in E. rewrite Hu in Hm. apply Forall_app in Hm as [Hb Hm].
  destruct (submits_spec h log sent ph batches d o Hs Hb) as (p & o2 & es & E2 & HI2 & Hd2 & Hr2 & He2 & Hs2).
  rewrite E2 in E. injection E as <- <- <-.
  split; simpl; try done.
  - split; [done|done|]. rewrite Hr2. by apply Forall_app.
  - intros sid Ht. destruct (Hf sid Ht) as [H1 H2 H3 H4 H5]. split; simpl in *; try done; [|by rewrite Hd2].
    rewrite H2, Hu, Hr2, omap_app, !filter_app, Hs2 by done. by rewrite <-!(assoc_L (++)).
Qed.

(** *** Commits *)

Lemma entry_req_session data : session_entry data = true → entry_req data = None.
Proof. intros E. unfold entry_req. by rewrite E. Qed.

Lemma inv_l_session_entry data d o hand h log sent ph put :
  LInv n (mkLeader d o hand h log sent ph put) → session_entry data = true →
  LInv n (mkLeader d (set_raft (o_raft o ++ [data]) o) hand h log sent ph put).
Proof.
  intros [Hs Hq [Ha Hm Hraft] Hse Hf] E. simpl in *. split; simpl; try done.
  - split; try done. apply Forall_app. split; [done|]. apply Forall_singleton. by left.
  - intros sid Ht. destruct (Hf sid Ht) as [H1 H2 H3 H4 H5]. split; simpl in *; try done.
    rewrite H2, omap_app. cbn [omap list_omap]. by rewrite (entry_req_session data E), app_nil_r.
Qed.

(** A committed request is the one that was given to Raft. *)
Lemma committed_entry data now c :
  raft_entry data → session_entry data = false → parseRequest now data = Ret c → entry_req data = Some c.
Proof.
  intros [Hc|(x & -> & Hx)] Hn E; [congruence|]. rewrite (entry_of_mine x Hx).
  destruct Hx as [Hl _]. rewrite (parse_serialized now x Hl) in E. by injection E as <-.
Qed.

Lemma inv_l_commit now data raft c p' d o hand h log sent ph put :
  LInv n (mkLeader d o hand h log sent ph put) →
  o_raft o = data :: raft → session_entry data = false → parseRequest now data = Ret c →
  RequestProcessor.commit c (d_processor d) = Some p' →
  LInv n (mkLeader (set_d_processor p' d) (set_raft raft o) hand h (log ++ [c]) sent ph put).
Proof.
  intros [Hs Hq [Ha Hm Hraft] Hse Hf] Er Hn Ep Ec. simpl in *. rewrite Er in Hraft.
  apply Forall_cons in Hraft as [Hdata Hraft]. pose proof (committed_entry data now c Hdata Hn Ep) as Ee.
  assert (∀ sid, T sid = true → of_session sid (omap entry_req (o_raft o)) =
    of_session sid [c] ++ of_session sid (omap entry_req raft)) as Hsess.
  { intros sid _. rewrite Er. cbn [omap list_omap]. rewrite Ee. apply (filter_app _ [c]). }
  assert (commit_ok T c log sent) as Hok.
  { intros Ht. destruct (Hf _ Ht) as [_ H2 _ _ _]. simpl in H2. rewrite Hsess in H2 by done. rewrite filter_app, H2.
    rewrite <-(assoc_L (++)). apply prefix_app, prefix_app_r. done. }
  split; simpl; try done.
  - eapply (inv_step TIMEOUT (isLocalSession d)); [intros k; by apply local_trusted|exact Hs|by apply step_raft].
  - intros sid Ht. destruct (Hf sid Ht) as [H1 H2 H3 H4 H5]. split; simpl in *; try done.
    by rewrite H2, Hsess, filter_app, <-!(assoc_L (++)) by done.
Qed.

(** An entry that opens or updates a session puts nothing into the response queue. *)
Lemma commit_session_responses now idx data m m' r :
  session_entry data = true →
  StateMachine.commit getSHA1 base64Encode put_i64 get_i64 put_i8 now idx data false m = (m', Ret r) →
  sm_responses m' = sm_responses m.
Proof.
  assert (∀ A (k : STS A) m1 m2 a, on_keeper (on_store k) m1 = (m2, Ret a) → sm_responses m2 = sm_responses m1) as Hk.
  { intros A k m1 m2 a. unfold on_keeper, on_store. destruct (k (sm_store m1)) as [s o]. by intros [= <- _]. }
  assert (∀ sid m, sm_responses (sm_notify sid m) = sm_responses m) as Hnt.
  { intros sid m0. unfold sm_notify. by case_match. }
  unfold session_entry, StateMachine.commit. intros Hse E.
  destruct (isNewSessionRequest data); [|destruct (isUpdateSessionRequest data); [|done]].
  - apply bind_inv_Ret in E as (s1 & [v rest] & [= <- _] & E). st_inv E.
    apply Hk in Hm. injection Hm0 as <-. injection Hm1 as <-. injection E as <- _. by rewrite Hnt.
  - apply bind_inv_Ret in E as (s1 & [v rest] & [= <- _] & E). apply bind_inv_Ret in E as (s2 & [v2 rest2] & [= <- _] & E).
    st_inv E. apply Hk in Hm. injection Hm0 as <-. injection Hm1 as <-. injection E as <- _. by rewrite Hnt.
Qed.

Lemma inv_l_commit_session now idx data raft m m' r w d o hand h log sent ph put :
  LInv n (mkLeader d o hand h log sent ph put) →
  o_raft o = data :: raft → session_entry data = true →
  StateMachine.commit getSHA1 base64Encode put_i64 get_i64 put_i8 now idx data false m = (m', Ret r) →
  sm_responses m = w_responses (d_world d) →
  w = mkWorld (sm_store m') (sm_responses m') (w_turn (d_world d)) (w_crashed (d_world d)) →
  LInv n (mkLeader (set_d_world w d) (set_raft raft o) hand h log sent ph put).
Proof.
  intros [Hs Hq [Ha Hm Hraft] Hse Hf] Er Hn Ec Hresp ->. simpl in Hs, Hq, Ha, Hm, Hraft, Hse, Hf. apply commit_session_responses in Ec; [|done].
  rewrite Er in Hraft. apply Forall_cons in Hraft as [_ Hraft]. split; simpl; try done.
  intros sid Ht. destruct (Hf sid Ht) as [H1 H2 H3 H4 H5]. split; simpl in *; try done.
  - rewrite H2, Er. cbn [omap list_omap]. by rewrite (entry_req_session data Hn).
  - by rewrite Ec, Hresp.
Qed.

(** *** The processor and the responses *)

Lemma handled_of_app h h' sid : handled_of (h ++ h') sid = handled_of h sid ++ handled_of h' sid.
Proof. unfold handled_of. by rewrite fmap_app, filter_app. Qed.

Lemma inv_l_process p' evs ph' d o hand h log sent ph put :
  LInv n (mkLeader d o hand h log sent ph put) →
  step TIMEOUT (isLocalSession d) T (mkSys (d_processor d) h log sent ph) (mkSys p' (h ++ evs) log sent ph') →
  LInv n (mkLeader (set_d_world (Pipeline.replay getSHA1 base64Encode clock (λ _, true) evs (d_world d))
            (set_d_processor p' d)) o hand (h ++ evs) log sent ph' put).
Proof.
  intros [Hs Hq Hr Hse Hf] E. simpl in *. split; simpl; try done.
  - eapply (inv_step TIMEOUT (isLocalSession d)); [intros k; by apply local_trusted|exact Hs|exact E].
  - intros sid Ht. destruct (Hf sid Ht) as [H1 H2 H3 H4 H5]. split; simpl in *; try done.
    rewrite handled_of_app, fmap_app, filter_app. etrans; [apply sublist_app; [reflexivity|apply replay_answers]|].
    rewrite (assoc_L (++)). apply sublist_app; [exact H5|reflexivity].
Qed.

Lemma answers_of_single k r s :
  answers_of s [(k, r)] = if decide (k = s) then filter (λ xid, xid ≠ WATCH_XID) [resp_xid r] else [].
Proof. unfold answers_of. rewrite filter_cons, filter_nil. simpl. by case_decide. Qed.

Lemma sessions_ok_finish m sid : sessions_ok m → T sid = false → sessions_ok (delete sid m).
Proof.
  intros [Hreg Hconn] Hsid. split.
  - intros k Hk. rewrite lookup_delete_ne by congruence. by apply Hreg.
  - intros s k Hs [_ Hk]%lookup_delete_Some. by apply Hconn.
Qed.

Lemma inv_l_disconnect sid d o hand h log sent ph put :
  LInv n (mkLeader d o hand h log sent ph put) → T sid = false →
  LInv n (mkLeader (finishSession sid d) o hand h log sent ph put).
Proof.
  intros [Hs Hq Hr Hse Hf] E. split; simpl in *; try done.
  - by apply sessions_ok_finish.
  - intros k Ht. by destruct (Hf k Ht).
Qed.

(** The response queue loses its first response, which a connection may get. *)
Lemma inv_l_deliver sid r q dl d o hand h log sent ph put :
  let w := d_world d in
  let d' := set_d_world (mkWorld (w_store w) q (w_turn w) (w_crashed w)) d in
  LInv n (mkLeader d o hand h log sent ph put) → w_responses w = (sid, r) :: q →
  (dl = [] ∨ ∃ k, session_to_response_callback d !! sid = Some k ∧ dl = [(k, r)]) →
  LInv n (mkLeader d' (mkOutside (o_appends o) (o_raft o) (o_delivered o ++ dl) (o_answered o)) hand h log sent ph put).
Proof.
  intros w d' [Hs Hq Hr Hse Hf] Hw Hdl. split; simpl in *; try done.
  intros t Ht. destruct (Hf t Ht) as [H1 H2 H3 H4 H5]. split; simpl in *; try done.
  etrans; [|exact H5]. fold w. rewrite Hw. change ((sid, r) :: q) with ([(sid, r)] ++ q).
  rewrite !answers_of_app, <-(assoc_L (++)). apply sublist_app; [reflexivity|].
  apply sublist_app; [|reflexivity]. destruct Hdl as [->|(k & Hk & ->)]; [apply sublist_nil_l|].
  rewrite !answers_of_single. case_decide as Hc; [|apply sublist_nil_l]. subst k.
  rewrite (so_conn _ Hse t sid Ht Hk). by rewrite decide_True.
Qed.

Lemma inv_l_respond d d' o o' hand h log sent ph put :
  LInv n (mkLeader d o hand h log sent ph put) →
  responseThread (d, o) = ((d', o'), Ret tt) →
  (∀ sid r, head (w_responses (d_world d)) = Some (sid, r) → T sid = true → resp_getOpNum r ≠ Ret Op_Close) →
  LInv n (mkLeader d' o' hand h log sent ph put).
Proof.
  intros HI E Hc. unfold responseThread in E.
  destruct (w_responses (d_world d)) as [|[sid r] q] eqn:Hw; simpl in E; [by injection E as <- <-|].
  set (d1 := set_d_world _ d) in E.
  assert (∀ dl, dl = [] ∨ (∃ k, session_to_response_callback d !! sid = Some k ∧ dl = [(k, r)]) →
    LInv n (mkLeader d1 (mkOutside (o_appends o) (o_raft o) (o_delivered o ++ dl) (o_answered o)) hand h log sent ph put))
    as Hd by (intros dl; by apply (inv_l_deliver sid r q)).
  assert (LInv n (mkLeader d1 o hand h log sent ph put)) as Hd0.
  { specialize (Hd [] (or_introl eq_refl)). rewrite app_nil_r in Hd. by destruct o. }
  destruct (d_shutdown_called d); [by injection E as <- <-|].
  destruct (session_to_response_callback d !! sid) as [k|] eqn:Hk; [|by injection E as <- <-].
  specialize (Hd [(k, r)] ltac:(right; by exists k)). simpl in E.
  destruct (resp_xid r =? WATCH_XID); [by injection E as <- <-|].
  destruct (resp_getOpNum r) as [op|x|] eqn:Eo; [|by injection E as <- <-|done].
  injection E as <- <-. case_decide as Hop; [|exact Hd]. apply inv_l_disconnect; [exact Hd|].
  destruct (T sid) eqn:Ht; [|done]. subst op. by destruct (Hc sid r eq_refl Ht).
Qed.

Lemma inv_l_connect sid k is_reconnected d d' o hand h log sent ph put :
  LInv n (mkLeader d o hand h log sent ph put) →
  registerSession sid k is_reconnected d = (d', Ret tt) → (∀ t, T t = true → conn t ≠ k) →
  LInv n (mkLeader d' o hand h log sent ph put).
Proof.
  intros HI E Hk. unfold registerSession in E.
  destruct (session_to_response_callback d !! sid) as [k'|] eqn:Hs'; [by injection E as <- _|].
  injection E as <-. destruct HI as [Hs Hq Hr Hse Hf]. split; simpl in *; try done.
  - destruct Hse as [Hreg Hconn]. split.
    + intros t Ht. rewrite lookup_insert_ne; [by apply Hreg|]. intros ->. by rewrite Hreg in Hs'.
    + intros t s Ht [[<- Hc]|[_ Hc]]%lookup_insert_Some; [by destruct (Hk t Ht)|by apply Hconn].
  - intros t Ht. by destruct (Hf t Ht).
Qed.

(** *** The session cleaner *)

Lemma close_mine sid now : T sid = false → in_s 64 sid → in_s 64 now →
  mine (mkRFS sid (mkRequest CLOSE_XID false CloseRequest) now (-1) (-1)).
Proof.
  intros HT Hs Hnow. split; [|simpl; congruence]. unfold loggable. cbn [rs_request rs_session_id rs_create_time].
  split_and!; try assumption; [|by vm_compute]. simpl. split_and!; [by vm_compute|done|done].
Qed.

Lemma inv_l_clean now dead d d' o hand h log sent ph put :
  LInv n (mkLeader d o hand h log sent ph put) → clean_sessions now dead d = Some d' → in_s 64 now →
  Forall (λ sid, T sid = false ∧ in_s 64 sid) dead →
  LInv n (mkLeader d' o hand h log sent ph put).
Proof.
  revert d. induction dead as [|sid dead IH]; intros d HI E Hnow Hdead; simpl in E; [by injection E as <-|].
  apply Forall_cons in Hdead as [[HT Hsid] Hdead]. unfold clean_session in E.
  set (x := mkRFS sid _ now (-1) (-1)) in E.
  destruct (rq_push x (d_requests d)) as [[q ok]|] eqn:Eq; [|done]. simpl in E.
  apply rq_push_spec in Eq as (-> & Hl & Ho & Hk); [|by apply HI].
  eapply IH; [|exact E|exact Hnow|exact Hdead]. apply inv_l_disconnect; [|exact HT].
  eapply (inv_l_other x); [exact HI|by apply close_mine|exact HT|exact Hl|exact Ho|exact Hk].
Qed.

Lemma inv_lstep l l' : LInv n l → lstep l l' → LInv n l'.
Proof.
  intros HI Hs. destruct Hs.
  - by eapply inv_l_put.
  - unfold putForwardingRequest in H. apply enqueue_spec in H as (q & -> & Hl & Ho & Hk); [|by apply HI].
    eapply (inv_l_other (mkRFS sid request now server_id client_id)); [exact HI| |exact H1|exact Hl|exact Ho|exact Hk].
    split; [exact H0|]. simpl. congruence.
  - by eapply inv_l_take.
  - by eapply inv_l_give.
  - by eapply inv_l_route.
  - by eapply inv_l_accumulate.
  - by apply inv_l_session_entry.
  - by eapply inv_l_commit.
  - by eapply inv_l_commit_session.
  - by eapply inv_l_process.
  - by eapply inv_l_respond.
  - by eapply inv_l_connect.
  - by apply inv_l_disconnect.
  - unfold sessionCleanerTask in H. destruct (d_shutdown_called d); [by injection H as <-|]. by eapply inv_l_clean.
Qed.

Lemma inv_lsteps l l' : LInv n l → lsteps l l' → LInv n l'.
Proof. intros HI Hs. induction Hs; eauto using inv_lstep. Qed.
End Steps.

(** ** The start *)

(** A leader with the sessions of the table [m] connected. *)
Definition leader_initial (n : nat) (mb period : Z) (w : World) (m : gmap Z Z) : Leader :=
  mkLeader (set_d_sessions m (initialize n mb period w)) (mkOutside 0 [] [] []) ∅ [] [] [] Idle [].

Lemma inv_leader_initial n mb period w m :
  (0 < n)%nat → sessions_ok m → w_responses w = [] → LInv n (leader_initial n mb period w m).
Proof.
  intros Hn Hm Hw. split; simpl.
  - by apply (inv_initial (C := Z) T).
  - split; [apply length_replicate|done|apply rq_new_open| |].
    + intros i x. rewrite rq_new_items. by intros ?%not_elem_of_nil.
    + intros i x b. by rewrite lookup_empty.
  - split; [apply acc_initialize_ok|by rewrite acc_initialize_unsubmitted|done].
  - exact Hm.
  - intros sid Ht. unfold leader_initial, initialize, set_d_sessions.
    split; cbn [ld_put ld_sent ld_hand ld_d ld_o ld_log ld_h d_requests d_accumulator d_world o_raft o_delivered].
    + rewrite rq_new_items. unfold in_hand. by rewrite lookup_empty.
    + rewrite acc_initialize_unsubmitted. unfold in_hand. by rewrite lookup_empty.
    + by intros i j x y Hx.
    + done.
    + by rewrite Hw.
Qed.
End Leader.
