(* ===== verification/LeaderProps.v ===== *)
(** * Properties of the leader

    What a client of a server that stays leader can rely on, from putting a
    request to the answer on its connection (Leader.v). *)

From S2P Require Import Prelude Types ZkIO ZkCodec ACLMap SessionExpiryQueue KeeperPaths KeeperNode KeeperStore RequestsQueue RequestProcessor ProcessorOrder Pipeline PipelineProps StateMachine StateMachineProps Forwarding RequestAccumulator RequestForwarder KeeperDispatcher Leader.
From stdpp Require Import base gmap sets strings option list.
From Stdlib Require Import ZArith Lia.
Open Scope Z_scope.

#[local] Opaque serializeRequest parseRequest.


(** ** A run

    One session creates a node; its request goes all the way to Raft and back and
    its connection, number 100, gets the answer. *)
Module LeaderDemo.
Definition T (sid : Z) : bool := sid =? 1.
Definition conn (sid : Z) : Z := if sid =? 1 then 100 else 0.
Definition answer (i : nat) (entries : list bytes) : bool * Z * bool := (true, 0, false).
Definition clock (i : nat) : Z := 1000.
Definition sha (s : string) : string := s.
Definition put_num (z : Z) : bytes := [].
Definition get_num (b : bytes) : outcome exn (Z * bytes) := Ret (0, b).
Definition sessions : gmap Z Z := {[1 := 100; 2 := 200]}.

Definition body : RequestBody := CreateRequest "/a" "x" false false [].
Definition request : ZooKeeperRequest := mkRequest 7 false body.
Definition x : RequestForSession := mkRFS 1 request 1000 (-1) (-1).

Abbreviation Steps := (lsteps 0 1 answer sha sha clock put_num get_num put_num T conn).
#[local] Instance env : DispatcherEnv unit Z Z Outside := leader_env 0 answer.

Definition l0 : Leader := leader_initial 1 1 0 PipelineDemo.w0 sessions.
Definition d0 : Dispatcher Z Z := ld_d l0.
Definition o0 : Outside := ld_o l0.

(** The request is put, taken, given to the processor and to the accumulator,
    which submits it; Raft commits it. *)
Definition d1 := default (d0, Ret false) (putRequest 1000 request 1 d0).
Definition d2 := default (d0, None) (take_request 0 d1.1).
Definition d3 := default d0 (give_processor x d2.1).
Definition d4 := default d0 (route x o0 d3).
Definition s5 := (run_turn 0 0 (d_accumulator d4, (d4, o0))).1.
Definition d5 := set_d_accumulator s5.1 s5.2.1.
Definition o5 := s5.2.2.
Definition p6 := default (d_processor d5) (RequestProcessor.commit x (d_processor d5)).
Definition d6 := set_d_processor p6 d5.
Definition o6 := set_raft [] o5.

(** The processor takes it, then applies it. *)
Definition p7 := (move_one 0 (p6, [] : list event)).1.1.
Definition d7 := set_d_processor p7 d6.
Definition p8 := (commit_one h_apply (isLocalSession d7) (p7, [])).1.1.
Definition d8 := set_d_world (Pipeline.replay sha sha clock (λ _, true) [Applied x] (d_world d7)) (set_d_processor p8 d7).
Definition s9 := (responseThread (d8, o6)).1.
Definition l9 : Leader := mkLeader s9.1 s9.2 ∅ [Applied x] [x] [x] (Committing 0) [x].

Lemma loggable_x : loggable x.
Proof.
  unfold loggable. split; [|by split_and!].
  cbn [request_ok rs_request x request body]. unfold vec_ok, string_ok, in_s. by split_and!.
Qed.

Lemma client_x : client_ok T x [].
Proof.
  split; [exact loggable_x|]. intros _. split; [done|]. apply distinct_xids_NoDup. by apply (bool_decide_unpack _).
Qed.

Lemma submitted : Steps l0 (mkLeader d5 o5 ∅ [] [] [x] Idle [x]).
Proof.
  eapply lsteps_next.
  { eapply lsteps_next.
    { eapply lsteps_next.
      { eapply lsteps_next.
        { eapply lsteps_next; [apply lsteps_refl|]. eapply (l_put _ _ _ _ _ _ _ _ _ _ _ 1000 request 1 d0 d1.1).
          - vm_compute. reflexivity.
          - exact client_x. }
        eapply (l_take _ _ _ _ _ _ _ _ _ _ _ 0 x d1.1 d2.1); [reflexivity|vm_compute; reflexivity]. }
      eapply (l_give _ _ _ _ _ _ _ _ _ _ _ 0 x d2.1 d3); [reflexivity|vm_compute; reflexivity]. }
    eapply (l_route _ _ _ _ _ _ _ _ _ _ _ 0 x d3 d4); [reflexivity|vm_compute; reflexivity]. }
  eapply (l_accumulate _ _ _ _ _ _ _ _ _ _ _ d4 s5.1 s5.2.1). vm_compute. reflexivity.
Qed.

Lemma committed_x : Steps l0 (mkLeader d6 o6 ∅ [] [x] [x] Idle [x]).
Proof.
  eapply lsteps_next; [exact submitted|].
  eapply (l_commit _ _ _ _ _ _ _ _ _ _ _ 0 (serializeRequest x) [] x p6 d5 o5).
  - vm_compute. reflexivity.
  - unfold session_entry. by destruct (request_is_no_session x) as [-> ->].
  - exact (parse_serialized 0 x loggable_x).
  - vm_compute. reflexivity.
Qed.

(** A turn of the main loop of the processor. *)
Lemma processed_x : Steps l0 (mkLeader d8 o6 ∅ [Applied x] [x] [x] (Committing 0) [x]).
Proof.
  assert (Steps l0 (mkLeader d6 o6 ∅ [] [x] [x] (Running 1 {[0%nat := 1%nat]}) [x])) as Hb.
  { eapply lsteps_next; [eapply lsteps_next; [exact committed_x|]|].
    - eapply (l_process _ _ _ _ _ _ _ _ _ _ _ p6 [] (Running 1 ∅) d6). apply step_start.
    - eapply (l_process _ _ _ _ _ _ _ _ _ _ _ p6 [] _ d6). apply (step_begin 1 _ _ 0); [vm_compute; lia|reflexivity]. }
  assert (Steps l0 (mkLeader d7 o6 ∅ [] [x] [x] (Committing 1) [x])) as Hm.
  { eapply lsteps_next; [eapply lsteps_next; [exact Hb|]|].
    - eapply (l_process _ _ _ _ _ _ _ _ _ _ _ p7 [] (Running 1 {[0%nat := 0%nat]}) d6).
      apply (step_move 1 _ _ 0 0 p6 p7 [] []); [reflexivity|vm_compute; reflexivity].
    - eapply (l_process _ _ _ _ _ _ _ _ _ _ _ p7 [] (Committing 1) d7). apply step_join.
      intros r Hr. assert (runner_count p7 = 1%nat) as E by (vm_compute; reflexivity).
      change (d_processor d7) with p7 in Hr. assert (r = 0%nat) as -> by lia. reflexivity. }
  eapply lsteps_next; [exact Hm|].
  eapply (l_process _ _ _ _ _ _ _ _ _ _ _ p8 [Applied x] (Committing 0) d7).
  apply step_committed. vm_compute. reflexivity.
Qed.

Lemma answered_x : Steps l0 l9.
Proof.
  eapply lsteps_next; [exact processed_x|].
  eapply (l_respond _ _ _ _ _ _ _ _ _ _ _ d8 s9.1 o6 s9.2).
  - vm_compute. reflexivity.
  - intros sid r. vm_compute. intros [= <- <-] _. discriminate.
Qed.

Lemma sessions_fine : sessions_ok T conn sessions.
Proof.
  split.
  - intros sid E%Z.eqb_eq. by subst sid.
  - intros sid k E%Z.eqb_eq Hk. subst sid. unfold sessions in Hk.
    apply lookup_insert_Some in Hk as [[<- _]|[_ Hk]]; [done|].
    apply lookup_singleton_Some in Hk as [_ Hk]. by vm_compute in Hk.
Qed.

Lemma range_fine k : T k = true → in_s 64 k.
Proof. intros E%Z.eqb_eq. subst k. by vm_compute. Qed.
End LeaderDemo.

