(* ===== verification/FifoBuffer.v ===== *)
(** * Buffers of a socket: what the connection handlers use of Poco

    [Poco::FIFOBuffer] is a buffer of fixed size; its operations are the class
    [FIFOBuffer], what its documentation says of them the class [FIFOLaws].
    [receiveBytes] reads from a socket that does not block: it moves some of the
    bytes that are there, as many as it likes but at least one, into the room
    that is left. *)

From S2P Require Import Prelude Types ZkIO.
From stdpp Require Import base list.
From Stdlib Require Import ZArith Lia.

Class FIFOBuffer (B : Type) : Type := {
  fifo_new : nat → B;
  fifo_size : B → nat;
  fifo_bytes : B → bytes;
  fifo_write : bytes → B → B;
  fifo_drain : nat → B → B
}.

Class FIFOLaws (B : Type) `{FIFOBuffer B} : Prop := {
  new_size n : fifo_size (fifo_new n) = n;
  new_bytes n : fifo_bytes (fifo_new n) = [];
  write_size bs b : fifo_size (fifo_write bs b) = fifo_size b;
  write_bytes bs b : fifo_bytes (fifo_write bs b) = fifo_bytes b ++ take (fifo_size b - length (fifo_bytes b)) bs;
  drain_size n b : fifo_size (fifo_drain n b) = fifo_size b;
  drain_bytes n b :
    fifo_bytes (fifo_drain n b) = if bool_decide (n = 0)%nat then [] else drop n (fifo_bytes b)
}.

Section Receive.
Context {B : Type} `{FIFOBuffer B}.

Definition fifo_used (b : B) : nat := length (fifo_bytes b).
Definition fifo_room (b : B) : nat := fifo_size b - fifo_used b.
Definition isFull (b : B) : bool := bool_decide (fifo_used b = fifo_size b).

(** How many of [n] bytes that are there a read with the given room moves. *)
Definition receives (recv : nat → nat → nat) : Prop :=
  ∀ room n, (recv room n <= room)%nat ∧ (recv room n <= n)%nat ∧
    ((0 < room)%nat → (0 < n)%nat → (0 < recv room n)%nat).

Definition receiveBytes (recv : nat → nat → nat) (b : B) (input : bytes) : B * bytes :=
  let k := recv (fifo_room b) (length input) in
  (fifo_write (take k input) b, drop k input).

Context `{!FIFOLaws B}.

Lemma receiveBytes_spec recv (b : B) input :
  receives recv →
  ∃ k, (receiveBytes recv b input).2 = drop k input ∧ fifo_size (receiveBytes recv b input).1 = fifo_size b ∧
    fifo_bytes (receiveBytes recv b input).1 = fifo_bytes b ++ take k input ∧
    (k <= fifo_room b)%nat ∧ (k <= length input)%nat ∧
    ((0 < fifo_room b)%nat → input ≠ [] → (0 < k)%nat).
Proof.
  intros Hr. destruct (Hr (fifo_room b) (length input)) as (H1 & H2 & H3).
  exists (recv (fifo_room b) (length input)). unfold receiveBytes. cbn [fst snd].
  rewrite write_size, write_bytes. split_and!; try done.
  - f_equal. apply take_ge. rewrite length_take. unfold fifo_room, fifo_used in *. lia.
  - intros Hroom Hin. apply H3; [done|]. destruct input; simpl; [done|lia].
Qed.
End Receive.

(** Readable events: how the reads are cut and the bytes that are there. *)
Definition chunks_ok (chunks : list ((nat → nat → nat) * bytes)) : Prop :=
  Forall (λ ch, receives ch.1 ∧ ch.2 ≠ []) chunks.

(** The bytes as a list. *)
Module ListBuffer.
Record buffer : Type := mkBuffer { b_size : nat; b_bytes : bytes }.
#[global] Instance list_buffer : FIFOBuffer buffer := {|
  fifo_new n := mkBuffer n [];
  fifo_size := b_size;
  fifo_bytes := b_bytes;
  fifo_write bs b := mkBuffer (b_size b) (b_bytes b ++ take (b_size b - length (b_bytes b)) bs);
  fifo_drain n b := mkBuffer (b_size b) (if bool_decide (n = 0)%nat then [] else drop n (b_bytes b))
|}.
#[global] Instance list_buffer_laws : FIFOLaws buffer.
Proof. by split. Qed.
End ListBuffer.
