(* ===== verification/ConnectionHandler.v ===== *)
(** * Client connections: src/Service/ConnectionHandler.{h,cpp}

    A connection collects the bytes of its socket into packages: four bytes of
    length and a body. The first package is the handshake, which opens a session
    or takes up an old one, the others are requests for the dispatcher. Responses
    are queued and written when the socket has room. What the handler asks of the
    dispatcher and the Raft server is the class [HandlerEnv]; the statistics of a
    connection are left out. *)

From coqutil Require Import Word.LittleEndianList Byte.
From S2P Require Import Prelude Types ZkIO ZkCodec FifoBuffer.
From stdpp Require Import base gmap sets strings option list.
From Stdlib Require Import ZArith Lia.
Open Scope Z_scope.

Definition ZOOKEEPER_PROTOCOL_VERSION : Z := 0.
Definition CLIENT_HANDSHAKE_LENGTH : Z := 44.
Definition CLIENT_HANDSHAKE_LENGTH_WITH_READONLY : Z := 45.
Definition SERVER_HANDSHAKE_LENGTH : Z := 36.
Definition PASSWORD_LENGTH : nat := 16.

(** ** Data *)

Record ConnectRequest : Type := mkConnectRequest {
  protocol_version : Z;
  last_zxid_seen : Z;
  timeout_ms : Z;
  previous_session_id : Z;
  passwd : bytes;
  readonly : bool
}.

Record HandShakeResult : Type := mkHandShakeResult {
  connect_success : bool;
  session_expired : bool;
  is_reconnected : bool
}.

(** The members that are about the session; the timeout is in microseconds. *)
Record Conn : Type := mkConn {
  handshake_done : bool;
  session_id : Z;
  session_timeout : Z;
  close_xid : Z
}.

Record Handler (B : Type) : Type := mkHandler {
  next_req_header_read_done : bool;
  previous_req_body_read_done : bool;
  body_len : Z;
  req_header_buf : B;
  req_body_buf : option B;
  h_conn : Conn
}.
Arguments mkHandler {B}. Arguments next_req_header_read_done {B}. Arguments previous_req_body_read_done {B}.
Arguments body_len {B}. Arguments req_header_buf {B}. Arguments req_body_buf {B}. Arguments h_conn {B}.

Definition isHandShake (handshake_length : Z) : bool :=
  (handshake_length =? CLIENT_HANDSHAKE_LENGTH) || (handshake_length =? CLIENT_HANDSHAKE_LENGTH_WITH_READONLY).

(** A [std::array] of characters: its length, then as many bytes as there are. *)
Definition write_array (bs : bytes) : bytes := write_i32 (Z.of_nat (length bs)) ++ bs.
Definition read_array (n : nat) : reader bytes :=
  size ← read_i32;
  if size =? Z.of_nat n
  then bs ← rb_read n; mret (bs ++ replicate (n - length bs) Byte.x00)
  else throw (KEEPER_EXCEPTION ZMARSHALLINGERROR).

(** Exceptions that are not of the class [Exception] pass its handlers. *)
Definition is_std (x : exn) : bool :=
  match x with STD_INVALID_ARGUMENT | STD_OUT_OF_RANGE | STD_BAD_ALLOC => true | _ => false end.

(** [e.code() == ErrorCodes::TIMEOUT_EXCEEDED]. *)
Definition is_timeout (x : exn) : bool :=
  match x with TIMEOUT_EXCEEDED => true | EXCEPTION_WITH_CODE code => code =? 159 | _ => false end.

Class HandlerEnv (E : Type) : Type := {
  he_lastProcessedZxid : E → Z;
  he_hasLeader : E → bool;
  he_containsSession : Z → E → bool;
  he_updateSessionTimeout : Z → Z → ST E exn bool;
  he_getSessionID : Z → ST E exn Z;
  he_registerSession : Z → bool → ST E exn unit;
  he_finishSession : Z → E → E;
  he_putRequest : ZooKeeperRequest → Z → ST E exn bool;
  he_send : bytes → E → E;
  he_fourLetterCmd : Z → E → E
}.

Section Handshake.
Context {E : Type} `{HandlerEnv E}.

Definition receiveHandshake (last_zxid handshake_req_len : Z) : reader ConnectRequest :=
  if negb (isHandShake handshake_req_len) then throw UNEXPECTED_PACKET_FROM_CLIENT
  else
    version ← read_i32;
    if negb (version =? ZOOKEEPER_PROTOCOL_VERSION) then throw UNEXPECTED_PACKET_FROM_CLIENT
    else
      last_zxid_seen ← read_i64;
      timeout_ms ← read_i32;
      if last_zxid <? last_zxid_seen then throw UNEXPECTED_PACKET_FROM_CLIENT
      else
        previous_session_id ← read_i64;
        passwd ← read_array PASSWORD_LENGTH;
        readonly ← (if handshake_req_len =? CLIENT_HANDSHAKE_LENGTH_WITH_READONLY then read_bool else mret false);
        mret (mkConnectRequest version last_zxid_seen timeout_ms previous_session_id passwd readonly).

(** The product of the 32-bit timeout and 1000 is taken in 32 bits. *)
Definition negotiated (timeout_ms session_timeout : Z) : Z :=
  if timeout_ms =? 0 then session_timeout else Z.min (s32 (timeout_ms * 1000)) session_timeout.

Definition totalMilliseconds (timespan : Z) : Z := Z.quot timespan 1000.

(** An exception of the server is logged and refuses the session. *)
Definition handleHandshake (req : ConnectRequest) : ST (Conn * E) exn HandShakeResult := λ '(c, e),
  let timeout := negotiated (timeout_ms req) (session_timeout c) in
  let c := mkConn (handshake_done c) (session_id c) timeout (close_xid c) in
  if negb (he_hasLeader e) then ((c, e), Ret (mkHandShakeResult false true false))
  else if negb (previous_session_id req =? 0) then
    let sid := previous_session_id req in
    let c := mkConn (handshake_done c) sid timeout (close_xid c) in
    if negb (he_containsSession sid e) then ((c, e), Ret (mkHandShakeResult false true false))
    else
      match he_updateSessionTimeout sid (totalMilliseconds timeout) e with
      | (e, Ret true) => ((c, e), Ret (mkHandShakeResult true false true))
      | (e, Ret false) => ((c, e), Ret (mkHandShakeResult false true false))
      | (e, Throw x) => ((c, e), if is_std x then Throw x else Ret (mkHandShakeResult false false false))
      | (e, Crash) => ((c, e), Crash)
      end
  else
    match he_getSessionID (totalMilliseconds timeout) e with
    | (e, Ret sid) => ((mkConn (handshake_done c) sid timeout (close_xid c), e), Ret (mkHandShakeResult true false false))
    | (e, Throw x) => ((c, e), if is_std x then Throw x else Ret (mkHandShakeResult false false false))
    | (e, Crash) => ((c, e), Crash)
    end.

Definition sendHandshake (result : HandShakeResult) (c : Conn) : bytes :=
  write_i32 SERVER_HANDSHAKE_LENGTH ++
  write_i32 (if connect_success result then ZOOKEEPER_PROTOCOL_VERSION else 42) ++
  write_i32 (if session_expired result then -1 else s32 (totalMilliseconds (session_timeout c))) ++
  write_i64 (session_id c) ++
  write_array (replicate PASSWORD_LENGTH Byte.x00).

(** [destroyMe]: the session is forgotten and the connection gone ([None]). *)
Definition destroyMe (c : Conn) (e : E) : option Conn * E := (None, he_finishSession (session_id c) e).

(** The first package. *)
Definition do_handshake (len : Z) (body : bytes) (c : Conn) (e : E) : option Conn * E :=
  match (receiveHandshake (he_lastProcessedZxid e) len body).2 with
  | Ret req =>
      match handleHandshake req (c, e) with
      | ((c, e), Ret result) =>
          let e := he_send (sendHandshake result c) e in
          if negb (connect_success result) then destroyMe c e
          else
            match he_registerSession (session_id c) (is_reconnected result) e with
            | (e, Ret _) => (Some (mkConn true (session_id c) (session_timeout c) (close_xid c)), e)
            | (e, _) => destroyMe c e
            end
      | ((c, e), _) => destroyMe c e
      end
  | _ => destroyMe c e
  end.

(** [receiveRequest]: a session the dispatcher does not know is an exception. *)
Definition receiveRequest (body : bytes) (sid : Z) : ST E exn (OpNum * Z) := λ e,
  match (request_read body).2 with
  | Ret r =>
      match he_putRequest r sid e with
      | (e, Ret true) => (e, Ret (getOpNum r, req_xid r))
      | (e, Ret false) => (e, Throw TIMEOUT_EXCEEDED)
      | (e, Throw x) => (e, Throw x)
      | (e, Crash) => (e, Crash)
      end
  | Throw x => (e, Throw x)
  | Crash => (e, Crash)
  end.

(** A later package. *)
Definition do_request (body : bytes) (c : Conn) (e : E) : option Conn * E :=
  match receiveRequest body (session_id c) e with
  | (e, Ret (op, xid)) =>
      (Some (if decide (op = Op_Close) then mkConn (handshake_done c) (session_id c) (session_timeout c) xid else c), e)
  | (e, Throw x) => if is_timeout x || is_std x then destroyMe c e else (Some c, e)
  | (e, Crash) => destroyMe c e
  end.

Definition handle_package (len : Z) (body : bytes) (c : Conn) (e : E) : option Conn * E :=
  if handshake_done c then do_request body c e else do_handshake len body c e.
End Handshake.

(** ** Reading *)

Section Readable.
Context {B E : Type} `{FIFOBuffer B} `{HandlerEnv E}.
Implicit Types h : Handler B.

Definition set_conn (oc : option Conn) h : option (Handler B) :=
  c ← oc;
  Some (mkHandler (next_req_header_read_done h) (previous_req_body_read_done h) (body_len h)
          (req_header_buf h) (req_body_buf h) c).

(** The body: a buffer for a new one, more bytes, and the package when it is
    complete. A negative length is a buffer that cannot be allocated. *)
Definition read_body (recv : nat → nat → nat) h (e : E) (input : bytes) : option (Handler B) * E * bytes :=
  if previous_req_body_read_done h && (body_len h <? 0) then
    ((None, he_finishSession (session_id (h_conn h)) e), input)
  else
    let buf :=
      if previous_req_body_read_done h then Some (fifo_new (Z.to_nat (body_len h))) else req_body_buf h in
    match buf with
    | None => ((None, e), input)
    | Some buf =>
        let '(buf, input) := receiveBytes recv buf input in
        if negb (isFull buf) then
          ((Some (mkHandler true false (body_len h) (req_header_buf h) (Some buf) (h_conn h)), e), input)
        else
          let h := mkHandler false true (body_len h) (req_header_buf h) (Some buf) (h_conn h) in
          let '(oc, e) := handle_package (body_len h) (fifo_bytes buf) (h_conn h) e in
          ((set_conn oc h, e), input)
    end.

(** One turn of the loop of [onSocketReadable]: the header, then the body. *)
Definition read_turn (recv : nat → nat → nat) h (e : E) (input : bytes) : option (Handler B) * E * bytes :=
  if next_req_header_read_done h then read_body recv h e input
  else
    let '(hb, input) := if isFull (req_header_buf h) then (req_header_buf h, input)
                        else receiveBytes recv (req_header_buf h) input in
    let h := mkHandler false (previous_req_body_read_done h) (body_len h) hb (req_body_buf h) (h_conn h) in
    if negb (isFull hb) then ((Some h, e), input)
    else
      match (read_i32 (fifo_bytes hb)).2 with
      | Ret header =>
          if negb (isHandShake header) && negb (handshake_done (h_conn h))
          then ((None, he_fourLetterCmd header e), input)
          else
            read_body recv
              (mkHandler true (previous_req_body_read_done h) header (fifo_drain (fifo_used hb) hb)
                 (req_body_buf h) (h_conn h)) e input
      | _ => ((None, he_finishSession (session_id (h_conn h)) e), input)
      end.

(** Every turn takes a byte of the input: its length is enough fuel. *)
Fixpoint read_loop (fuel : nat) (recv : nat → nat → nat) h (e : E) (input : bytes) : option (Handler B) * E :=
  match fuel, input with
  | O, _ | _, [] => (Some h, e)
  | S fuel, _ =>
      match read_turn recv h e input with
      | ((Some h, e), input) => read_loop fuel recv h e input
      | ((None, e), _) => (None, e)
      end
  end.

(** A readable socket without bytes is one the client has closed. *)
Definition onSocketReadable (recv : nat → nat → nat) (input : bytes) h (e : E) : option (Handler B) * E :=
  if bool_decide (input = []) then (None, he_finishSession (session_id (h_conn h)) e)
  else read_loop (length input) recv h e input.

Definition new_handler (timeout : Z) : Handler B :=
  mkHandler false true 0 (fifo_new 4) None (mkConn false (-1) timeout 0x7FFFFFFF).
End Readable.
