(* ===== verification/ConnectionProps.v ===== *)
(** * What arrives over a connection

    The packages of a client reach the dispatcher however the network cuts their
    bytes: the handler of ConnectionHandler.v behaves as [serve], which takes
    whole packages from the bytes received so far. *)

From coqutil Require Import Word.LittleEndianList Byte.
From S2P Require Import Prelude Types ZkIO ZkCodec SessionExpiryQueue KeeperStore RequestsQueue RequestProcessor Pipeline RequestAccumulator RequestForwarder KeeperDispatcher FifoBuffer ConnectionHandler.
From stdpp Require Import base gmap sets strings option list.
From Stdlib Require Import ZArith Lia.
Open Scope Z_scope.

(** The length at the head of some bytes. *)
Definition header_of (bs : bytes) : Z := match (read_i32 (take 4 bs)).2 with Ret z => z | _ => 0 end.

Lemma read_header bs : length bs = 4%nat → (read_i32 bs).2 = Ret (header_of bs).
Proof.
  intros Hl. unfold header_of. rewrite take_ge by lia.
  unfold read_i32, read_sint, read_uint. unfold mbind, ST_bind, rb_readStrict.
  rewrite take_ge, decide_True by lia. done.
Qed.

Lemma header_app bs t : length bs = 4%nat → header_of (bs ++ t) = header_of bs.
Proof. intros Hl. unfold header_of. by rewrite take_app_le, (take_ge bs) by lia. Qed.

Section Serve.
Context {B E : Type} `{FIFOBuffer B} `{!FIFOLaws B} `{HandlerEnv E}.
Implicit Types (h : Handler B) (c : Conn) (e : E) (s p input : bytes).

(** ** The reference *)

(** Whole packages are taken from the stream; what is left waits. [None] when
    the connection is gone. *)
Fixpoint serve (fuel : nat) c e s : option (Conn * bytes) * E :=
  match fuel with
  | O => (Some (c, s), e)
  | S fuel =>
      if bool_decide (length s < 4)%nat then (Some (c, s), e)
      else
        let len := header_of s in
        if negb (isHandShake len) && negb (handshake_done c) then (None, he_fourLetterCmd len e)
        else if len <? 0 then (None, he_finishSession (session_id c) e)
        else if bool_decide (length (drop 4 s) < Z.to_nat len)%nat then (Some (c, s), e)
        else
          match handle_package len (take (Z.to_nat len) (drop 4 s)) c e with
          | (Some c, e) => serve fuel c e (drop (Z.to_nat len) (drop 4 s))
          | (None, e) => (None, e)
          end
  end.

Definition serve_all c e s : option (Conn * bytes) * E := serve (S (length s)) c e s.

Lemma serve_fuel fuel fuel' c e s :
  (length s < fuel)%nat → (length s < fuel')%nat → serve fuel c e s = serve fuel' c e s.
Proof.
  revert fuel' c e s. induction fuel as [|fuel IH]; intros [|fuel'] c e s H1 H2; try lia. simpl.
  case_bool_decide; [done|]. destruct (_ && _); [done|]. destruct (_ <? 0); [done|].
  case_bool_decide; [done|]. destruct (handle_package _ _ c e) as [[c'|] e']; [|done].
  apply IH; rewrite !length_drop; lia.
Qed.

(** One package at the head of the stream. *)
Lemma serve_step c e s :
  serve_all c e s =
    if bool_decide (length s < 4)%nat then (Some (c, s), e)
    else if negb (isHandShake (header_of s)) && negb (handshake_done c) then (None, he_fourLetterCmd (header_of s) e)
    else if header_of s <? 0 then (None, he_finishSession (session_id c) e)
    else if bool_decide (length (drop 4 s) < Z.to_nat (header_of s))%nat then (Some (c, s), e)
    else
      match handle_package (header_of s) (take (Z.to_nat (header_of s)) (drop 4 s)) c e with
      | (Some c, e) => serve_all c e (drop (Z.to_nat (header_of s)) (drop 4 s))
      | (None, e) => (None, e)
      end.
Proof.
  unfold serve_all at 1. cbn [serve]. case_bool_decide as H4; [done|].
  destruct (_ && _); [done|]. destruct (_ <? 0); [done|]. case_bool_decide; [done|].
  destruct (handle_package _ _ c e) as [[c'|] e']; [|done]. apply serve_fuel; rewrite ?length_drop; lia.
Qed.

(** Too few bytes for a package. *)
Lemma serve_wait c e s :
  (length s < 4)%nat ∨
    ((4 <= length s)%nat ∧ isHandShake (header_of s) || handshake_done c = true ∧ 0 <= header_of s ∧
     (length (drop 4 s) < Z.to_nat (header_of s))%nat) →
  serve_all c e s = (Some (c, s), e).
Proof.
  intros Hs. rewrite serve_step. destruct (decide (length s < 4)%nat) as [H4|H4].
  { by rewrite (bool_decide_eq_true_2 (length s < 4)%nat). }
  destruct Hs as [Hs|(_ & Hh & Hz & Hs)]; [done|].
  rewrite (bool_decide_eq_false_2 (length s < 4)%nat), (bool_decide_eq_true_2 (_ < Z.to_nat _)%nat) by done.
  rewrite (proj2 (Z.ltb_ge _ _)) by done. by destruct (isHandShake _), (handshake_done c).
Qed.

(** Serving a stream is serving its beginning and then the rest with what was left. *)
Lemma serve_app c e s t :
  serve_all c e (s ++ t) =
    match serve_all c e s with
    | (Some (c, p), e) => serve_all c e (p ++ t)
    | (None, e) => (None, e)
    end.
Proof.
  remember (length s) as n eqn:Hn. revert c e s Hn. induction n as [n IH] using lt_wf_ind. intros c e s ->.
  destruct (decide (length s < 4)%nat) as [H4|H4]; [by rewrite (serve_wait c e s) by (by left)|].
  assert (header_of (s ++ t) = header_of s) as Hh by (unfold header_of; by rewrite take_app_le by lia).
  rewrite (serve_step c e s), (bool_decide_eq_false_2 (length s < 4)%nat) by done.
  destruct (decide (length (drop 4 s) < Z.to_nat (header_of s))%nat) as [Hb|Hb].
  - rewrite (bool_decide_eq_true_2 (_ < Z.to_nat _)%nat) by done.
    destruct (_ && _) eqn:E1; [|destruct (_ <? 0) eqn:E2; [|done]];
      rewrite serve_step, Hh, (bool_decide_eq_false_2 (_ < 4)%nat), E1, ?E2 by (rewrite length_app; lia); done.
  - rewrite (bool_decide_eq_false_2 (_ < Z.to_nat _)%nat) by done.
    rewrite (serve_step c e (s ++ t)), Hh, (bool_decide_eq_false_2 (_ < 4)%nat) by (rewrite length_app; lia).
    destruct (_ && _); [done|]. destruct (_ <? 0); [done|]. rewrite drop_app_le by lia.
    rewrite (bool_decide_eq_false_2 (_ < Z.to_nat _)%nat) by (rewrite length_app; lia).
    rewrite take_app_le, drop_app_le by lia. destruct (handle_package _ _ c e) as [[c'|] e']; [|done].
    apply (IH (length (drop (Z.to_nat (header_of s)) (drop 4 s)))); [rewrite !length_drop; lia|done].
Qed.

(** ** The handler follows the reference *)

(** The bytes [p] of an unfinished package are in the buffers of the handler. *)
Inductive holds h c : bytes → Prop :=
| holds_header :
    h_conn h = c → next_req_header_read_done h = false → previous_req_body_read_done h = true →
    fifo_size (req_header_buf h) = 4%nat → (fifo_used (req_header_buf h) < 4)%nat →
    holds h c (fifo_bytes (req_header_buf h))
| holds_body hdr buf :
    h_conn h = c → next_req_header_read_done h = true → previous_req_body_read_done h = false →
    fifo_size (req_header_buf h) = 4%nat → fifo_bytes (req_header_buf h) = [] →
    length hdr = 4%nat → header_of hdr = body_len h → 0 <= body_len h →
    isHandShake (body_len h) || handshake_done c = true →
    req_body_buf h = Some buf → fifo_size buf = Z.to_nat (body_len h) → (fifo_used buf < fifo_size buf)%nat →
    holds h c (hdr ++ fifo_bytes buf).

Lemma holds_waits h c e p : holds h c p → serve_all c e p = (Some (c, p), e).
Proof.
  intros Hh. apply serve_wait. destruct Hh as [_ _ _ _ Hu|hdr buf _ _ _ _ _ Hl Hd Hz Hs _ Hb Hu]; [by left|right].
  rewrite header_app, Hd by done. rewrite drop_app_length' by done.
  split_and!; [rewrite length_app; lia|done|done|]. rewrite <-Hb. exact Hu.
Qed.

(** [r], the outcome of some reading, agrees with serving the stream [s]. *)
Definition follows (r : option (Handler B) * E * bytes) c e s : Prop :=
  match r with
  | ((Some h', e'), rest) => ∃ c' p', holds h' c' p' ∧ serve_all c e s = serve_all c' e' (p' ++ rest)
  | ((None, e'), _) => serve_all c e s = (None, e')
  end.

(** A complete package is handled as the reference does. *)
Lemma serve_package c e hdr body rest :
  length hdr = 4%nat → 0 <= header_of hdr → length body = Z.to_nat (header_of hdr) →
  isHandShake (header_of hdr) || handshake_done c = true →
  serve_all c e (hdr ++ body ++ rest) =
    match handle_package (header_of hdr) body c e with
    | (Some c', e') => serve_all c' e' rest
    | (None, e') => (None, e')
    end.
Proof.
  intros Hl Hz Hb Hs. rewrite serve_step, header_app, drop_app_length' by done.
  rewrite (bool_decide_eq_false_2 (_ < 4)%nat) by (rewrite length_app; lia).
  rewrite (bool_decide_eq_false_2 (_ < Z.to_nat _)%nat) by (rewrite length_app; lia).
  rewrite (proj2 (Z.ltb_ge _ _)), take_app_length', drop_app_length' by done.
  by destruct (isHandShake _), (handshake_done c).
Qed.

(** The bytes of the body that are there already. *)
Definition body_started h (q : bytes) : Prop :=
  (previous_req_body_read_done h = true ∧ q = []) ∨
  (previous_req_body_read_done h = false ∧ 0 <= body_len h ∧ ∃ buf, req_body_buf h = Some buf ∧
     fifo_bytes buf = q ∧ fifo_size buf = Z.to_nat (body_len h) ∧ (fifo_used buf < fifo_size buf)%nat).

Lemma read_body_buffer h q :
  body_started h q → 0 <= body_len h →
  ∃ buf, (if previous_req_body_read_done h then Some (fifo_new (Z.to_nat (body_len h))) else req_body_buf h) = Some buf ∧
    fifo_bytes buf = q ∧ fifo_size buf = Z.to_nat (body_len h) ∧ (q = [] ∨ (fifo_used buf < fifo_size buf)%nat).
Proof.
  intros [(-> & ->)|(-> & _ & buf & -> & Hq & Hs & Hu)] Hz.
  - eexists. split; [done|]. rewrite new_bytes, new_size. auto.
  - exists buf. auto.
Qed.

Lemma read_body_follows recv h e c hdr q input :
  receives recv → h_conn h = c → fifo_size (req_header_buf h) = 4%nat → fifo_bytes (req_header_buf h) = [] →
  length hdr = 4%nat → header_of hdr = body_len h → isHandShake (body_len h) || handshake_done c = true →
  body_started h q →
  follows (read_body recv h e input) c e (hdr ++ q ++ input).
Proof.
  intros Hrecv Hc Hhs Hhb Hl Hd Hs Hstart. unfold read_body.
  destruct (decide (body_len h < 0)) as [Hneg|Hz].
  { destruct Hstart as [(-> & ->)|(_ & Hz & _)]; [|lia]. rewrite (proj2 (Z.ltb_lt _ _)) by done. simpl.
    rewrite serve_step, header_app, Hd, (bool_decide_eq_false_2 (_ < 4)%nat), (proj2 (Z.ltb_lt _ _)), Hc
      by (rewrite ?length_app; lia). by destruct (isHandShake _), (handshake_done c). }
  rewrite (proj2 (Z.ltb_ge _ _)), andb_false_r by lia.
  destruct (read_body_buffer h q Hstart ltac:(lia)) as (buf & -> & Hq & Hsz & _).
  destruct (receiveBytes_spec recv buf input Hrecv) as (k & Hrest & Hsz' & Hb' & Hk1 & Hk2 & _).
  destruct (receiveBytes recv buf input) as [buf' rest]. cbn [fst snd] in *. subst rest.
  rewrite Hq in Hb'.
  assert (q ++ input = fifo_bytes buf' ++ drop k input) as -> by (by rewrite Hb', <-(assoc_L (++)), take_drop).
  unfold isFull. rewrite Hsz', Hsz. case_bool_decide as Hfull; cbn [negb].
  - pose proof (serve_package c e hdr (fifo_bytes buf') (drop k input)) as Hp. rewrite Hd in Hp.
    specialize (Hp Hl ltac:(lia) Hfull Hs). simpl. rewrite Hc.
    destruct (handle_package _ _ c e) as [[c'|] e']; [|exact Hp]. simpl.
    exists c', []. split; [|exact Hp].
    rewrite <-Hhb. change (req_header_buf h) with (req_header_buf (mkHandler false true (body_len h) (req_header_buf h) (Some buf') c')).
    apply holds_header; try done. unfold fifo_used. simpl. rewrite Hhb. simpl. lia.
  - simpl. exists c, (hdr ++ fifo_bytes buf'). split; [|by rewrite (assoc_L (++))].
    apply holds_body; simpl; try done; [lia|congruence|]. rewrite Hsz', Hsz.
    assert (fifo_used buf' <= fifo_size buf')%nat; [|lia].
    unfold fifo_used in *. rewrite Hb', length_app, length_take. unfold fifo_room, fifo_used in Hk1. rewrite Hq in Hk1.
    destruct Hstart as [(_ & ->)|(_ & _ & b2 & _ & Hq2 & Hs2 & Hu2)]; simpl in *; [lia|].
    unfold fifo_used in Hu2. rewrite Hq2 in Hu2. lia.
Qed.

Lemma read_body_takes recv h e input :
  receives recv → (length (read_body recv h e input).2 <= length input)%nat.
Proof.
  intros Hr. unfold read_body. destruct (_ && _); [done|]. destruct (if previous_req_body_read_done h then _ else _) as [buf|]; [|done].
  destruct (receiveBytes_spec recv buf input Hr) as (k & Hrest & _).
  destruct (receiveBytes recv buf input) as [buf' rest]. simpl in Hrest. subst rest.
  destruct (negb _); simpl; [by rewrite length_drop; lia|].
  destruct (handle_package _ _ _ _) as [oc e']. simpl. rewrite length_drop. lia.
Qed.

Lemma read_body_takes_one recv h c e p input :
  receives recv → holds h c p → next_req_header_read_done h = true → input ≠ [] →
  (length (read_body recv h e input).2 < length input)%nat.
Proof.
  intros Hr Hh Hn Hin. destruct Hh as [_ Hn' _ _ _|hdr buf _ _ Hp _ _ _ _ Hz _ Hbuf Hsz Hu]; [congruence|].
  unfold read_body. rewrite Hp, Hbuf. cbn [andb].
  destruct (receiveBytes_spec recv buf input Hr) as (k & Hrest & _ & _ & _ & Hk & Hpos).
  destruct (receiveBytes recv buf input) as [buf' rest]. simpl in Hrest. subst rest.
  assert (0 < k)%nat by (apply Hpos; [unfold fifo_room; lia|done]).
  destruct (negb _); simpl; [by rewrite length_drop; lia|].
  destruct (handle_package _ _ _ _) as [oc e']. simpl. rewrite length_drop. lia.
Qed.

Lemma read_turn_follows recv h e c p input :
  receives recv → holds h c p → input ≠ [] →
  follows (read_turn recv h e input) c e (p ++ input) ∧ (length (read_turn recv h e input).2 < length input)%nat.
Proof.
  intros Hr Hh Hin. unfold read_turn. destruct (next_req_header_read_done h) eqn:Hn.
  { split; [|by eapply read_body_takes_one].
    destruct Hh as [_ Hn' _ _ _|hdr buf Hc _ Hp Hhs Hhb Hl Hd Hz Hs Hbuf Hsz Hu]; [congruence|].
    rewrite <-(assoc_L (++)). apply read_body_follows; try done. right. eauto 10. }
  destruct Hh as [Hc _ Hp Hsz Hu|hdr buf _ Hn' _ _ _ _ _ _ _ _ _ _]; [|congruence].
  assert (isFull (req_header_buf h) = false) as -> by (apply bool_decide_eq_false_2; lia).
  destruct (receiveBytes_spec recv (req_header_buf h) input Hr) as (k & Hrest & Hsz' & Hb' & Hk1 & Hk & Hpos).
  destruct (receiveBytes recv (req_header_buf h) input) as [hb rest]. cbn [fst snd] in *. subst rest.
  assert (0 < k)%nat as Hk0 by (apply Hpos; [unfold fifo_room; lia|done]).
  assert (fifo_bytes (req_header_buf h) ++ input = fifo_bytes hb ++ drop k input) as ->
    by (by rewrite Hb', <-(assoc_L (++)), take_drop).
  unfold isFull. rewrite Hsz', Hsz. case_bool_decide as Hfull; cbn [negb].
  - unfold fifo_used in Hfull. rewrite (read_header _ Hfull).
    cbn [h_conn previous_req_body_read_done req_body_buf body_len]. rewrite Hc.
    destruct (negb (isHandShake _) && _) eqn:E1.
    { split; [|simpl; rewrite length_drop; lia]. simpl.
      rewrite serve_step, header_app, E1, (bool_decide_eq_false_2 (_ < 4)%nat) by (rewrite ?length_app; lia). done. }
    split.
    + change (fifo_bytes hb ++ drop k input) with (fifo_bytes hb ++ [] ++ drop k input).
      apply read_body_follows; simpl; rewrite ?drain_size, ?drain_bytes; try done; [congruence| | |by left].
      * unfold fifo_used. rewrite Hfull. simpl. by rewrite drop_ge by lia.
      * by destruct (isHandShake _), (handshake_done c).
    + eapply Nat.le_lt_trans; [by apply read_body_takes|]. rewrite length_drop. lia.
  - split; [|simpl; rewrite length_drop; lia]. simpl. exists c, (fifo_bytes hb). split; [|done].
    change hb with (req_header_buf (mkHandler false (previous_req_body_read_done h) (body_len h) hb (req_body_buf h) (h_conn h))) at 2.
    apply holds_header; simpl; try done; [congruence|]. unfold fifo_used in *. rewrite Hb', length_app, length_take.
    unfold fifo_room, fifo_used in Hk1. rewrite Hb', length_app, length_take in Hfull. lia.
Qed.

Lemma read_loop_follows fuel recv h e c p input :
  receives recv → holds h c p → (length input <= fuel)%nat →
  match read_loop fuel recv h e input with
  | (Some h', e') => ∃ c' p', holds h' c' p' ∧ serve_all c e (p ++ input) = (Some (c', p'), e')
  | (None, e') => serve_all c e (p ++ input) = (None, e')
  end.
Proof.
  intros Hr. revert h e c p input. induction fuel as [|fuel IH]; intros h e c p input Hh Hf.
  { destruct input; simpl in Hf; [|lia]. exists c, p. rewrite app_nil_r. split; [done|by eapply holds_waits]. }
  destruct input as [|y input].
  { exists c, p. rewrite app_nil_r. split; [done|by eapply holds_waits]. }
  destruct (read_turn_follows recv h e c p (y :: input) Hr Hh ltac:(done)) as [Hfol Hlt].
  cbn [read_loop]. destruct (read_turn recv h e (y :: input)) as [[[h'|] e'] rest]; [|exact Hfol].
  destruct Hfol as (c' & p' & Hh' & ->). apply IH; [done|]. simpl in *. lia.
Qed.

(** ** Events *)

(** The socket becomes readable again and again; [None] once the connection is gone. *)
Fixpoint events (chunks : list ((nat → nat → nat) * bytes)) h e : option (Handler B) * E :=
  match chunks with
  | [] => (Some h, e)
  | (recv, input) :: chunks =>
      match onSocketReadable recv input h e with
      | (Some h, e) => events chunks h e
      | (None, e) => (None, e)
      end
  end.

Lemma events_follow chunks h e c p :
  chunks_ok chunks → holds h c p →
  match events chunks h e with
  | (Some h', e') => ∃ c' p', holds h' c' p' ∧ serve_all c e (p ++ concat chunks.*2) = (Some (c', p'), e')
  | (None, e') => serve_all c e (p ++ concat chunks.*2) = (None, e')
  end.
Proof.
  intros Hch. revert h e c p. induction Hch as [|[recv input] chunks [Hr Hin] _ IH]; intros h e c p Hh; simpl.
  { exists c, p. rewrite app_nil_r. split; [done|by eapply holds_waits]. }
  unfold onSocketReadable. simpl in Hr, Hin. rewrite bool_decide_eq_false_2 by done.
  pose proof (read_loop_follows (length input) recv h e c p input Hr Hh ltac:(done)) as Hl.
  rewrite (assoc_L (++)), serve_app. destruct (read_loop _ recv h e input) as [[h'|] e'].
  - destruct Hl as (c' & p' & Hh' & ->). by apply IH.
  - by rewrite Hl.
Qed.

Lemma new_handler_holds timeout : holds (new_handler timeout) (mkConn false (-1) timeout 0x7FFFFFFF) [].
Proof.
  assert (holds (new_handler timeout) (mkConn false (-1) timeout 0x7FFFFFFF) (fifo_bytes (fifo_new 4))) as Hh.
  - apply (holds_header (new_handler timeout)); simpl; try done; [by rewrite new_size|].
    unfold fifo_used. rewrite new_bytes. simpl. lia.
  - by rewrite new_bytes in Hh.
Qed.

(** ** Packages of a client *)

(** What a client sends first; the last byte of the longer form says whether it
    wants a read-only session. *)
Definition connect_body (long : bool) (req : ConnectRequest) : bytes :=
  write_i32 (protocol_version req) ++ write_i64 (last_zxid_seen req) ++ write_i32 (timeout_ms req) ++
  write_i64 (previous_session_id req) ++ write_array (passwd req) ++
  (if long then write_bool (readonly req) else []).
Definition connect_length (long : bool) : Z :=
  if long then CLIENT_HANDSHAKE_LENGTH_WITH_READONLY else CLIENT_HANDSHAKE_LENGTH.
Definition connect_package (long : bool) (req : ConnectRequest) : bytes :=
  write_i32 (connect_length long) ++ connect_body long req.

Definition connect_ok (long : bool) (req : ConnectRequest) : Prop :=
  protocol_version req = ZOOKEEPER_PROTOCOL_VERSION ∧ in_s 64 (last_zxid_seen req) ∧ in_s 32 (timeout_ms req) ∧
  in_s 64 (previous_session_id req) ∧ length (passwd req) = PASSWORD_LENGTH ∧ (long = false → readonly req = false).

Lemma reads_array bs n : length bs = n → (Z.of_nat n < 2 ^ 31) → reads (read_array n) (write_array bs) bs.
Proof.
  intros Hl Hn rest. unfold read_array, write_array. rewrite <-(assoc_L (++)), Hl.
  assert (in_s 32 (Z.of_nat n)) as Hin by (unfold in_s; lia).
  rewrite (bind_Ret _ _ _ _ _ (reads_i32 _ Hin _)), Z.eqb_refl.
  unfold rb_read, mbind, ST_bind. rewrite take_app_length', drop_app_length' by done.
  rewrite Hl, Nat.sub_diag. simpl. by rewrite app_nil_r.
Qed.

Lemma receiveHandshake_reads last_zxid long req :
  connect_ok long req → last_zxid_seen req <= last_zxid →
  (receiveHandshake last_zxid (connect_length long) (connect_body long req)).2 = Ret req.
Proof.
  intros (Hv & Hz & Ht & Hp & Hpw & Hro) Hseen. unfold receiveHandshake, connect_body. rewrite Hv.
  assert (isHandShake (connect_length long) = true) as -> by (by destruct long). cbn [negb].
  rewrite (bind_Ret _ _ _ _ _ (reads_i32 ZOOKEEPER_PROTOCOL_VERSION ltac:(by vm_compute) _)). rewrite Z.eqb_refl. cbn [negb].
  rewrite (bind_Ret _ _ _ _ _ (reads_i64 _ Hz _)), (bind_Ret _ _ _ _ _ (reads_i32 _ Ht _)).
  rewrite (proj2 (Z.ltb_ge _ _)) by done. rewrite (bind_Ret _ _ _ _ _ (reads_i64 _ Hp _)).
  rewrite (bind_Ret _ _ _ _ _ (reads_array _ _ Hpw ltac:(vm_compute; reflexivity) _)).
  assert ((connect_length long =? CLIENT_HANDSHAKE_LENGTH_WITH_READONLY) = long) as -> by (by destruct long).
  destruct req as [v z t sid pw ro]; cbn in Hv; subst v. destruct long; cbn [readonly].
  - pose proof (reads_bool ro []) as Hb. rewrite app_nil_r in Hb. by rewrite (bind_Ret _ _ _ _ _ Hb).
  - cbn in Hro. by rewrite Hro.
Qed.

(** The header of a package whose length fits into 31 bits. *)
Lemma header_write z rest : 0 <= z < 2 ^ 31 → header_of (write_i32 z ++ rest) = z.
Proof.
  intros Hz. unfold header_of. rewrite take_app_length' by (unfold write_i32; by rewrite length_write_int).
  pose proof (reads_i32 z ltac:(unfold in_s; lia) []) as Hr. rewrite app_nil_r in Hr. by rewrite Hr.
Qed.

Lemma serve_written c e z body rest :
  0 <= z < 2 ^ 31 → length body = Z.to_nat z → isHandShake z || handshake_done c = true →
  serve_all c e (write_i32 z ++ body ++ rest) =
    match handle_package z body c e with
    | (Some c', e') => serve_all c' e' rest
    | (None, e') => (None, e')
    end.
Proof.
  intros Hz Hb Hs. pose proof (header_write z [] Hz) as Hh. rewrite app_nil_r in Hh.
  assert (length (write_i32 z) = 4%nat) as Hl by apply length_write_int.
  rewrite (serve_package c e (write_i32 z) body rest Hl); rewrite ?Hh; done || lia.
Qed.

(** The dispatcher accepts the requests one after the other. *)
Fixpoint put_all (sid : Z) (rs : list ZooKeeperRequest) (e : E) : option E :=
  match rs with
  | [] => Some e
  | r :: rs => match he_putRequest r sid e with (e, Ret true) => put_all sid rs e | _ => None end
  end.

Definition sendable (r : ZooKeeperRequest) : Prop :=
  request_ok r ∧ Z.of_nat (length (request_packet r)) < 2 ^ 31.

Lemma request_write_eq r :
  sendable r → request_write r = write_i32 (Z.of_nat (length (request_packet r))) ++ request_packet r.
Proof. intros [_ Hl]. unfold request_write. by rewrite wrap_s_id by (unfold in_s; lia). Qed.

Lemma serve_requests c e rs e' :
  handshake_done c = true → Forall sendable rs → put_all (session_id c) rs e = Some e' →
  ∃ c', serve_all c e (concat (request_write <$> rs)) = (Some (c', []), e') ∧
    handshake_done c' = true ∧ session_id c' = session_id c.
Proof.
  intros Hd Hrs. revert c e Hd. induction Hrs as [|r rs [Hok Hlen] _ IH]; intros c e Hd Hput; cbn [put_all] in Hput.
  { injection Hput as <-. exists c. split; [|done]. apply serve_wait. left. simpl. lia. }
  rewrite fmap_cons. cbn [concat].
  destruct (he_putRequest r (session_id c) e) as [e1 [[]| |]] eqn:Ep; try done.
  rewrite (request_write_eq r (conj Hok Hlen)), <-(assoc_L (++)), serve_written; [|lia|lia|by rewrite Hd, orb_true_r].
  unfold handle_package, do_request, receiveRequest. rewrite Hd.
  pose proof (request_read_write r [] Hok) as Hread. rewrite app_nil_r in Hread. rewrite Hread. cbn [snd]. rewrite Ep.
  destruct (decide (getOpNum r = Op_Close)).
  - destruct (IH (mkConn true (session_id c) (session_timeout c) (req_xid r)) e1 eq_refl Hput) as (c' & E1 & H1).
    exists c'. split; [exact E1|exact H1].
  - destruct (IH c e1 Hd Hput) as (c' & E1 & H1).
    exists c'. split; [exact E1|exact H1].
Qed.

Lemma serve_connect c e long req rest c1 e1 result e2 :
  connect_ok long req → handshake_done c = false → last_zxid_seen req <= he_lastProcessedZxid e →
  handleHandshake req (c, e) = ((c1, e1), Ret result) → connect_success result = true →
  he_registerSession (session_id c1) (is_reconnected result) (he_send (sendHandshake result c1) e1) = (e2, Ret tt) →
  serve_all c e (connect_package long req ++ rest) =
    serve_all (mkConn true (session_id c1) (session_timeout c1) (close_xid c1)) e2 rest.
Proof.
  intros Hok Hd Hz Hh Hs Hreg. unfold connect_package. rewrite <-(assoc_L (++)).
  assert (length (connect_body long req) = Z.to_nat (connect_length long)) as Hl.
  { destruct Hok as (_ & _ & _ & _ & Hpw & _). unfold connect_body, write_array, write_i32, write_i64, write_bool.
    rewrite !length_app, !length_write_int, Hpw. by destruct long. }
  rewrite serve_written; [|by destruct long|done|by destruct long].
  unfold handle_package, do_handshake. rewrite Hd, (receiveHandshake_reads _ _ _ Hok Hz), Hh, Hs. cbn [negb].
  by rewrite Hreg.
Qed.
End Serve.

(** C20: whatever way the network cuts the bytes of a client into readable events
    and the socket cuts the reads, the handler opens the session of the first
    package and hands exactly the requests of the following packages to the
    dispatcher, in order and under that session; nothing stays in its buffers. *)
Theorem client_requests_arrive {B E : Type} `{FIFOBuffer B} `{!FIFOLaws B} `{HandlerEnv E}
    chunks long req rs timeout (e : E) c1 e1 result e2 e3 :
  chunks_ok chunks →
  concat chunks.*2 = connect_package long req ++ concat (request_write <$> rs) →
  connect_ok long req → last_zxid_seen req <= he_lastProcessedZxid e → Forall sendable rs →
  handleHandshake req (mkConn false (-1) timeout 0x7FFFFFFF, e) = ((c1, e1), Ret result) →
  connect_success result = true →
  he_registerSession (session_id c1) (is_reconnected result) (he_send (sendHandshake result c1) e1) = (e2, Ret tt) →
  put_all (session_id c1) rs e2 = Some e3 →
  ∃ h : Handler B, events chunks (new_handler timeout) e = (Some h, e3) ∧
    session_id (h_conn h) = session_id c1 ∧ handshake_done (h_conn h) = true ∧
    fifo_bytes (req_header_buf h) = [] ∧ next_req_header_read_done h = false.
Proof.
  intros Hch Hcat Hok Hz Hrs Hh Hs Hreg Hput.
  pose proof (events_follow chunks (new_handler timeout) e _ [] Hch (new_handler_holds timeout)) as Hev.
  rewrite app_nil_l, Hcat in Hev. rewrite (serve_connect (mkConn false (-1) timeout 0x7FFFFFFF) _ _ _ _ _ _ _ _ Hok eq_refl Hz Hh Hs Hreg) in Hev.
  destruct (serve_requests (mkConn true (session_id c1) (session_timeout c1) (close_xid c1)) e2 rs e3 eq_refl Hrs Hput)
    as (c' & E1 & Hd' & Hsid). rewrite E1 in Hev.
  destruct (events chunks (new_handler timeout) e) as [[h|] e'].
  - destruct Hev as (c2 & p & Hh2 & E2). injection E2 as <- <- <-. exists h.
    inversion Hh2 as [Hc Hn _ _ _ Hp|hdr buf _ _ _ _ _ Hl _ _ _ _ _ _ Hp]; [|by destruct hdr].
    by rewrite Hc, Hp.
  - discriminate.
Qed.

(** ** A client of a dispatcher *)

(** A connection of a dispatcher on its own store: sessions are opened there at
    once, and what is sent is kept. *)
Module ConnectionDemo.
Definition Server : Type := Dispatcher Z Z * bytes.
Definition store_call {A} (m : STS A) : ST Server exn A := λ '(d, out),
  let w := d_world d in
  let '(s, o) := m (w_store w) in
  ((set_d_world (mkWorld s (w_responses w) (w_turn w) (w_crashed w)) d, out), o).

#[global] Instance server_env : HandlerEnv Server := {|
  he_lastProcessedZxid s := zxid (w_store (d_world s.1));
  he_hasLeader _ := true;
  he_containsSession sid s := containsSession sid (w_store (d_world s.1));
  he_updateSessionTimeout sid _ := store_call (updateSessionTimeout 1000 sid);
  he_getSessionID ms := store_call (getSessionID 1000 ms);
  he_registerSession sid reconnected := λ '(d, out),
    let '(d, o) := registerSession sid 100 reconnected d in ((d, out), o);
  he_finishSession sid s := (finishSession sid s.1, s.2);
  he_putRequest r sid := λ '(d, out),
    match putRequest 1000 r sid d with
    | Some (d, o) => ((d, out), o)
    | None => ((d, out), Throw TIMEOUT_EXCEEDED)
    end;
  he_send bs s := (s.1, s.2 ++ bs);
  he_fourLetterCmd _ s := s
|}.

Definition server : Server := (initialize 2 10 0 (mkWorld (KeeperStore_new 500 "") [] 0 false), []).
Definition req : ConnectRequest := mkConnectRequest 0 0 10000 0 (replicate 16 Byte.x00) false.
Definition rs : list ZooKeeperRequest :=
  [mkRequest 1 false (CreateRequest "/a" "x" false false []); mkRequest 2 true (GetRequest "/a");
   mkRequest 3 false CloseRequest].
Definition stream : bytes := connect_package true req ++ concat (request_write <$> rs).

(** Single bytes first, then all the rest, read byte by byte. *)
Definition all_there (room n : nat) : nat := Nat.min room n.
Definition one_byte (room n : nat) : nat := Nat.min 1 (Nat.min room n).
Definition chunks : list ((nat → nat → nat) * bytes) :=
  [(all_there, take 3 stream); (one_byte, take 30 (drop 3 stream)); (all_there, take 70 (drop 33 stream));
   (one_byte, drop 103 stream)].

Lemma chunks_fine : chunks_ok chunks.
Proof.
  assert (receives all_there) as H1 by (intros room n; unfold all_there; lia).
  assert (receives one_byte) as H2 by (intros room n; unfold one_byte; lia).
  unfold chunks. repeat apply Forall_cons_2; try apply Forall_nil_2; (split; [assumption|vm_compute; discriminate]).
Qed.

Lemma requests_fine : Forall sendable rs.
Proof.
  unfold rs. repeat apply Forall_cons_2; try apply Forall_nil_2; (split; [|by vm_compute]);
    cbn [request_ok has_watch_field]; unfold vec_ok, string_ok, in_s; by split_and!.
Qed.

Lemma connect_fine : connect_ok true req.
Proof. unfold connect_ok, in_s. cbn. by split_and!. Qed.

Definition opened := handleHandshake req (mkConn false (-1) 30000000 0x7FFFFFFF, server).
Definition registered :=
  he_registerSession (session_id opened.1.1) false (he_send (sendHandshake (mkHandShakeResult true false false) opened.1.1) opened.1.2).
Definition final : Server := default server (put_all 1 rs registered.1).
End ConnectionDemo.

Lemma client_requests_arrive_witness :
  (∃ h : Handler ListBuffer.buffer,
    events ConnectionDemo.chunks (new_handler 30000000) ConnectionDemo.server = (Some h, ConnectionDemo.final) ∧
    session_id (h_conn h) = 1 ∧ handshake_done (h_conn h) = true ∧
    fifo_bytes (req_header_buf h) = [] ∧ next_req_header_read_done h = false) ∧
  rs_request <$> rq_items (d_requests ConnectionDemo.final.1) 1 = ConnectionDemo.rs.
Proof.
  split; [|vm_compute; reflexivity].
  exact (client_requests_arrive ConnectionDemo.chunks true ConnectionDemo.req ConnectionDemo.rs 30000000
    ConnectionDemo.server ConnectionDemo.opened.1.1 ConnectionDemo.opened.1.2 (mkHandShakeResult true false false)
    ConnectionDemo.registered.1 ConnectionDemo.final ConnectionDemo.chunks_fine
    ltac:(vm_compute; reflexivity) ConnectionDemo.connect_fine ltac:(vm_compute; discriminate)
    ConnectionDemo.requests_fine ltac:(vm_compute; reflexivity) eq_refl ltac:(vm_compute; reflexivity)
    ltac:(vm_compute; reflexivity)).
Defined.
