(* ===== verification/ConnectionSend.v ===== *)
(** * Responses on a connection: the writing side of src/Service/ConnectionHandler.cpp

    A response is encoded into a buffer of its own and queued; when the socket is
    writable the handler copies queued bytes into its send buffer, sends it and
    removes from the queue what was sent. An empty pointer in the queue says that
    the session is closed. The forwarding handler has the same code. *)

From S2P Require Import Prelude Types ZkIO ZkCodec RequestsQueue FifoBuffer.
From stdpp Require Import base gmap sets strings option list.
From Stdlib Require Import ZArith Lia.
Open Scope nat_scope.

Abbreviation SENT_BUFFER_SIZE := 1024.

Record Sender (B : Type) : Type := mkSender {
  responses : list (option B);
  send_buf : B;
  (* the handler waits for a writable socket *)
  writable : bool
}.
Arguments mkSender {B}. Arguments responses {B}. Arguments send_buf {B}. Arguments writable {B}.

Section Sender.
Context {B : Type} `{FIFOBuffer B}.
Implicit Types s : Sender B.

Definition new_sender : Sender B := mkSender [] (fifo_new SENT_BUFFER_SIZE) false.

(** [WriteBufferFromFiFoBuffer]: a buffer with exactly the bytes written. *)
Definition encoded (bs : bytes) : B := fifo_write bs (fifo_new (length bs)).

Definition queue_response (r : option B) s : Sender B := mkSender (tsq_push r (responses s)) (send_buf s) true.

(** [sendResponse]; a response that cannot be written throws. *)
Definition sendResponse (response : ZooKeeperResponse) : ST (Sender B) exn unit := λ s,
  match (if (resp_xid response =? WATCH_XID)%Z then Ret false
         else match resp_getOpNum response with
              | Ret op => Ret (bool_decide (op = Op_Close)) | Throw e => Throw e | Crash => Crash
              end) with
  | Ret true => (queue_response None s, Ret tt)
  | Ret false =>
      match response_write response with
      | Ret bs => (queue_response (Some (encoded bs)) s, Ret tt)
      | Throw e => (s, Throw e)
      | Crash => (s, Crash)
      end
  | Throw e => (s, Throw e)
  | Crash => (s, Crash)
  end.

(** The copy into the send buffer: a response that does not fit is added in part,
    which does not count for [size_to_sent], so that the loop goes on. *)
Fixpoint fill (size_to_sent : nat) (resps : list (option B)) (buf : B) : B :=
  match resps with
  | [] | None :: _ => buf
  | Some r :: resps =>
      if bool_decide (size_to_sent + fifo_used r < SENT_BUFFER_SIZE)
      then fill (size_to_sent + fifo_used r) resps (fifo_write (fifo_bytes r) buf)
      else if bool_decide (size_to_sent + fifo_used r = SENT_BUFFER_SIZE) then fifo_write (fifo_bytes r) buf
      else fill size_to_sent resps (fifo_write (take (SENT_BUFFER_SIZE - size_to_sent) (fifo_bytes r)) buf)
  end.

(** The removal of what was sent; the close mark has no buffer to look at. *)
Fixpoint remove_sent (sent : nat) (resps : list (option B)) : outcome exn (list (option B)) :=
  match resps with
  | [] => Ret []
  | r :: resps' =>
      if bool_decide (sent = 0) then Ret resps
      else
        match r with
        | None => Crash
        | Some b =>
            if bool_decide (fifo_used b <= sent) then remove_sent (sent - fifo_used b) resps'
            else Ret (Some (fifo_drain sent b) :: resps')
        end
  end.

(** One writable event; the socket takes [taken n] of [n] bytes. The result is
    [None] when the connection is closed, and the bytes that went out. *)
Definition onSocketWritable (taken : nat → nat) s : outcome exn (option (Sender B) * bytes) :=
  if bool_decide (responses s = []) && bool_decide (fifo_used (send_buf s) = 0) then Ret (Some s, [])
  else
    let buf := fill 0 (responses s) (send_buf s) in
    let sent := taken (fifo_used buf) in
    let out := take sent (fifo_bytes buf) in
    let buf := if bool_decide (sent = 0) then buf else fifo_drain sent buf in
    match remove_sent sent (responses s) with
    | Ret (None :: _) => Ret (None, out)
    | Ret resps =>
        Ret (Some (mkSender resps buf
                     (negb (bool_decide (resps = []) && bool_decide (fifo_used buf = 0)) && writable s)), out)
    | Throw e => Throw e
    | Crash => Crash
    end.
End Sender.

(** ** A socket that takes everything *)

Inductive send_event (R : Type) : Type := Respond (r : R) | Ready.
Arguments Respond {R}. Arguments Ready {R}.

Section Arrive.
Context {B : Type} `{FIFOBuffer B} `{!FIFOLaws B}.
Implicit Types (s : Sender B) (resps : list (option B)).

(** The bytes in front of the close mark. *)
Fixpoint queued_bytes resps : bytes :=
  match resps with
  | [] | None :: _ => []
  | Some b :: resps => fifo_bytes b ++ queued_bytes resps
  end.

Lemma fill_full size resps buf :
  fifo_used buf = fifo_size buf → fifo_bytes (fill size resps buf) = fifo_bytes buf ∧ fifo_size (fill size resps buf) = fifo_size buf.
Proof.
  revert size buf. induction resps as [|[r|] resps IH]; intros size buf Hf; simpl; try done.
  assert (∀ bs, fifo_bytes (fifo_write bs buf) = fifo_bytes buf) as Hw.
  { intros bs. rewrite write_bytes. unfold fifo_used in Hf. rewrite Hf, Nat.sub_diag. simpl. apply app_nil_r. }
  assert (∀ bs, fifo_used (fifo_write bs buf) = fifo_size (fifo_write bs buf)) as Hu.
  { intros bs. unfold fifo_used. by rewrite Hw, write_size. }
  repeat case_bool_decide; rewrite ?(proj1 (IH _ _ (Hu _))), ?(proj2 (IH _ _ (Hu _))); by rewrite Hw, write_size.
Qed.

(** What is in the buffer after the copy: as much of the queue as it has room. *)
Lemma fill_bytes size resps buf :
  fifo_size buf = SENT_BUFFER_SIZE → fifo_used buf = size → size < SENT_BUFFER_SIZE →
  fifo_bytes (fill size resps buf) = fifo_bytes buf ++ take (SENT_BUFFER_SIZE - size) (queued_bytes resps).
Proof.
  revert size buf. induction resps as [|[r|] resps IH]; intros size buf Hs Hu Hlt; cbn [fill queued_bytes];
    try by rewrite take_nil, app_nil_r.
  assert (∀ bs, fifo_bytes (fifo_write bs buf) = fifo_bytes buf ++ take (SENT_BUFFER_SIZE - size) bs) as Hw.
  { intros bs. rewrite write_bytes, Hs. unfold fifo_used in Hu. by rewrite Hu. }
  rewrite take_app. unfold fifo_used in *. case_bool_decide as H1.
  - rewrite IH; [|by rewrite write_size| |lia]; rewrite Hw, (take_ge (fifo_bytes r)) by lia.
    + rewrite <-(assoc_L (++)). do 2 f_equal. f_equal. lia.
    + rewrite length_app. lia.
  - case_bool_decide as H2.
    + rewrite Hw. f_equal. rewrite (take_ge (fifo_bytes r)) by lia.
      replace (SENT_BUFFER_SIZE - size - length (fifo_bytes r)) with 0 by lia. by rewrite take_0, app_nil_r.
    + replace (SENT_BUFFER_SIZE - size - length (fifo_bytes r)) with 0 by lia. rewrite take_0, app_nil_r.
      set (buf' := fifo_write (take (SENT_BUFFER_SIZE - size) (fifo_bytes r)) buf).
      assert (fifo_bytes buf' = fifo_bytes buf ++ take (SENT_BUFFER_SIZE - size) (fifo_bytes r)) as Hb
        by (unfold buf'; by rewrite Hw, take_take, Nat.min_id).
      rewrite (proj1 (fill_full size resps buf' ltac:(unfold fifo_used, buf' at 2;
        rewrite write_size, Hb, length_app, length_take, Hs; lia))). exact Hb.
Qed.

Lemma fill_size size resps buf : fifo_size (fill size resps buf) = fifo_size buf.
Proof.
  revert size buf. induction resps as [|[r|] resps IH]; intros size buf; simpl; try done.
  repeat case_bool_decide; rewrite ?IH; by rewrite write_size.
Qed.

(** Responses are never empty: they start with their length. *)
Definition nonempty resps : Prop := Forall (λ r, match r with Some b => fifo_bytes b ≠ [] | None => True end) resps.

Lemma queued_nil resps : nonempty resps → queued_bytes resps = [] → resps = [] ∨ head resps = Some None.
Proof.
  intros Hn Hq. destruct Hn as [|[b|] resps Hb _]; [by left| |by right].
  simpl in Hq. by apply app_eq_nil in Hq as [Hq _].
Qed.

Lemma remove_sent_bytes sent resps :
  nonempty resps → sent ≤ length (queued_bytes resps) →
  ∃ resps', remove_sent sent resps = Ret resps' ∧ queued_bytes resps' = drop sent (queued_bytes resps) ∧
    nonempty resps' ∧ (None ∈ resps' ↔ None ∈ resps).
Proof.
  intros Hne. revert sent. induction Hne as [|r resps Hr Hne IH]; intros sent Hle; cbn [remove_sent queued_bytes] in *.
  { exists []. split_and!; [done|by rewrite drop_nil|by constructor|done]. }
  case_bool_decide as H0.
  { subst sent. exists (r :: resps). split_and!; [done|done|by constructor|done]. }
  destruct r as [b|]; [|simpl in Hle; lia]. case_bool_decide as H1; unfold fifo_used in *.
  - rewrite length_app in Hle. destruct (IH (sent - length (fifo_bytes b)) ltac:(lia)) as (resps' & -> & Hq & Hn & Hc).
    exists resps'. rewrite drop_app_ge by lia. split_and!; try done. rewrite Hc. set_solver.
  - exists (Some (fifo_drain sent b) :: resps). assert (fifo_bytes (fifo_drain sent b) = drop sent (fifo_bytes b)) as Hd.
    { rewrite drain_bytes. by rewrite bool_decide_eq_false_2. }
    split_and!; [done| | |set_solver].
    + simpl. by rewrite Hd, drop_app_le by lia.
    + constructor; [|done]. rewrite Hd. intros Hz. apply (f_equal length) in Hz. rewrite length_drop in Hz. simpl in Hz. lia.
Qed.

(** ** Events

    [send r] queues the encoding [enc r] of a response. *)
Context {R : Type} (send : R → ST (Sender B) exn unit) (enc : R → bytes).

(** The socket takes all it is given. *)
Fixpoint send_events (evs : list (send_event R)) s (out : bytes) : outcome exn (option (Sender B) * bytes) :=
  match evs with
  | [] => Ret (Some s, out)
  | Respond r :: evs =>
      match send r s with
      | (s, Ret _) => send_events evs s out
      | (_, Throw e) => Throw e
      | (_, Crash) => Crash
      end
  | Ready :: evs =>
      match onSocketWritable id s with
      | Ret (Some s, bs) => send_events evs s (out ++ bs)
      | Ret (None, bs) => Ret (None, out ++ bs)
      | Throw e => Throw e
      | Crash => Crash
      end
  end.

(** The bytes of the responses of some events. *)
Definition response_bytes (evs : list (send_event R)) : bytes :=
  concat (map (λ ev, match ev with Respond r => enc r | Ready => [] end) evs).

Definition plain (ev : send_event R) : Prop :=
  match ev with
  | Respond r => enc r ≠ [] ∧ ∀ s, send r s = (queue_response (Some (encoded (enc r))) s, Ret tt)
  | Ready => True
  end.

Record sending s : Prop := {
  se_size : fifo_size (send_buf s) = SENT_BUFFER_SIZE;
  se_empty : fifo_bytes (send_buf s) = [];
  se_nonempty : nonempty (responses s)
}.

Lemma encoded_bytes (bs : bytes) : fifo_bytes (encoded bs : B) = bs.
Proof. unfold encoded. rewrite write_bytes, new_bytes, new_size. simpl. by rewrite Nat.sub_0_r, take_ge. Qed.

Lemma queued_bytes_snoc resps r :
  None ∉ resps → queued_bytes (resps ++ [r]) = queued_bytes resps ++ (match r with Some b => fifo_bytes b | None => [] end).
Proof.
  induction resps as [|[b|] resps IH]; intros Hn; simpl.
  - by destruct r; rewrite ?app_nil_r.
  - rewrite IH by set_solver. by rewrite (assoc_L (++)).
  - set_solver.
Qed.

Lemma respond_plain r s :
  plain (Respond r) → sending s → None ∉ responses s →
  ∃ s', send r s = (s', Ret tt) ∧ sending s' ∧ (None ∉ responses s') ∧
    queued_bytes (responses s') = queued_bytes (responses s) ++ enc r.
Proof.
  intros [Hnz Hsend] [H1 H2 H3] Hn. exists (queue_response (Some (encoded (enc r))) s).
  split_and!; [apply Hsend| | |]; unfold queue_response, tsq_push; simpl.
  - split; try done. apply Forall_app. split; [done|]. apply Forall_singleton. by rewrite encoded_bytes.
  - set_solver.
  - rewrite queued_bytes_snoc by done. by rewrite encoded_bytes.
Qed.

(** A writable event sends as much as the send buffer holds. *)
Lemma ready_sends s :
  sending s → responses s ≠ [] →
  ∃ resps buf w, onSocketWritable id s =
      Ret (match resps with None :: _ => None | _ => Some (mkSender resps buf w) end,
           take SENT_BUFFER_SIZE (queued_bytes (responses s))) ∧
    queued_bytes resps = drop SENT_BUFFER_SIZE (queued_bytes (responses s)) ∧
    (None ∈ resps ↔ None ∈ responses s) ∧ sending (mkSender resps buf w).
Proof.
  intros [H1 H2 H3] Hne. unfold onSocketWritable. rewrite (bool_decide_eq_false_2 (responses s = [])) by done. cbn [andb].
  set (buf := fill 0 (responses s) (send_buf s)). set (q := queued_bytes (responses s)).
  assert (fifo_bytes buf = take SENT_BUFFER_SIZE q) as Hb.
  { unfold buf. rewrite fill_bytes, H2; [done|done|unfold fifo_used; by rewrite H2|lia]. }
  assert (fifo_size buf = SENT_BUFFER_SIZE) as Hbs by (unfold buf; rewrite fill_size; exact H1).
  assert (fifo_used buf = length (take SENT_BUFFER_SIZE q)) as -> by (unfold fifo_used; by rewrite Hb).
  unfold id. rewrite Hb. set (sent := length (take SENT_BUFFER_SIZE q)).
  destruct (remove_sent_bytes sent (responses s) H3) as (resps & -> & Hq & Hn & Hc).
  { unfold sent. rewrite length_take. unfold q. lia. }
  assert (drop sent q = drop SENT_BUFFER_SIZE q) as Hdrop.
  { unfold sent. rewrite length_take. destruct (decide (SENT_BUFFER_SIZE <= length q)); [by rewrite Nat.min_l|].
    rewrite Nat.min_r, !drop_ge by lia. done. }
  rewrite (take_ge (take SENT_BUFFER_SIZE q) sent) by (unfold sent; lia).
  set (buf' := if bool_decide (sent = 0) then buf else fifo_drain sent buf).
  assert (fifo_bytes buf' = [] ∧ fifo_size buf' = SENT_BUFFER_SIZE) as [Hb1 Hb2].
  { unfold buf'. case_bool_decide as Hz.
    - split; [|done]. rewrite Hb. by apply nil_length_inv.
    - rewrite drain_size, drain_bytes, bool_decide_eq_false_2, Hb by done. split; [|done]. apply drop_ge. unfold sent. lia. }
  eexists resps, buf', _. split; [by destruct resps as [|[]]|]. split; [rewrite Hq; exact Hdrop|]. split; [done|]. by split.
Qed.

Lemma idle_ready s : sending s → responses s = [] → onSocketWritable id s = Ret (Some s, []).
Proof.
  intros Hs Hnil. unfold onSocketWritable. rewrite bool_decide_eq_true_2 by done.
  by rewrite bool_decide_eq_true_2 by (unfold fifo_used; by rewrite (se_empty s Hs)).
Qed.

(** What has gone out and what is queued are the responses so far. *)
Lemma send_events_spec evs s out :
  Forall plain evs → sending s → None ∉ responses s →
  ∃ s' out', send_events evs s out = Ret (Some s', out') ∧ sending s' ∧ (None ∉ responses s') ∧
    out' ++ queued_bytes (responses s') = out ++ queued_bytes (responses s) ++ response_bytes evs.
Proof.
  intros Hp. revert s out. induction Hp as [|ev evs Hev _ IH]; intros s out Hs Hn.
  { exists s, out. unfold response_bytes. simpl. by rewrite app_nil_r. }
  destruct ev as [r|]; cbn [send_events].
  - destruct (respond_plain r s Hev Hs Hn) as (s1 & -> & Hs1 & Hn1 & Hq).
    destruct (IH s1 out Hs1 Hn1) as (s' & out' & E & Hs' & Hn' & Hout). exists s', out'.
    split_and!; try done. rewrite Hout, Hq. unfold response_bytes. simpl. by rewrite <-!(assoc_L (++)).
  - destruct (decide (responses s = [])) as [Hnil|Hnil].
    + rewrite idle_ready, app_nil_r by done. by apply IH.
    + destruct (ready_sends s Hs Hnil) as (resps & buf & w & -> & Hq & Hc & Hs1).
      assert (None ∉ resps) as Hn1 by (by rewrite Hc).
      destruct resps as [|[b|] resps]; [| |set_solver];
        (edestruct IH as (s' & out' & E & Hs' & Hn' & Hout); [exact Hs1|exact Hn1|]; exists s', out';
         split_and!; [exact E|done|done|]; rewrite Hout; simpl responses; rewrite Hq; unfold response_bytes; simpl;
         rewrite <-(assoc_L (++) out); f_equal; by rewrite (assoc_L (++)), take_drop).
Qed.

Lemma send_events_app evs evs' s s' out out' :
  send_events evs s out = Ret (Some s', out') → send_events (evs ++ evs') s out = send_events evs' s' out'.
Proof.
  revert s out. induction evs as [|[r|] evs IH]; intros s out E; simpl in *; [by simplify_eq| |].
  - by destruct (send r s) as [s1 [[]|e|]]; [apply IH| |].
  - by destruct (onSocketWritable id s) as [[[s1|] bs]|e|]; [apply IH| | |].
Qed.

(** Writable events empty the queue, 1024 bytes each; behind a close mark the
    connection is closed when its bytes are out. *)
Lemma ready_drains n s out :
  sending s → None ∉ responses s → length (queued_bytes (responses s)) <= SENT_BUFFER_SIZE * n →
  ∃ s', send_events (replicate n Ready) s out = Ret (Some s', out ++ queued_bytes (responses s)) ∧ responses s' = [].
Proof.
  revert s out. induction n as [|n IH]; intros s out Hs Hn Hlen.
  - assert (queued_bytes (responses s) = []) as Hq by (apply nil_length_inv; lia).
    exists s. simpl. rewrite Hq, app_nil_r. split; [done|].
    destruct (queued_nil _ (se_nonempty s Hs) Hq) as [?|Hh]; [done|].
    destruct (responses s); simplify_eq/=. set_solver.
  - cbn [replicate send_events]. destruct (decide (responses s = [])) as [Hnil|Hnil].
    { rewrite idle_ready, app_nil_r by done. apply IH; [done|done|]. rewrite Hnil. simpl. lia. }
    destruct (ready_sends s Hs Hnil) as (resps & buf & w & -> & Hq & Hc & Hs1).
    assert (None ∉ resps) as Hn1 by (by rewrite Hc).
    edestruct (IH (mkSender resps buf w)) as (s' & E & Hs'); [exact Hs1|exact Hn1| |].
    { simpl responses. rewrite Hq, length_drop. lia. }
    exists s'. split; [|done]. destruct resps as [|[b|] resps]; [| |set_solver];
      rewrite E; simpl responses; by rewrite Hq, <-(assoc_L (++)), take_drop.
Qed.

Lemma ready_closes n s out :
  sending s → None ∈ responses s → length (queued_bytes (responses s)) <= SENT_BUFFER_SIZE * n → 0 < n →
  send_events (replicate n Ready) s out = Ret (None, out ++ queued_bytes (responses s)).
Proof.
  revert s out. induction n as [|n IH]; intros s out Hs Hn Hlen Hpos; [lia|]. cbn [replicate send_events].
  assert (responses s ≠ []) as Hnil by (by intros E; rewrite E in Hn; inv Hn).
  destruct (ready_sends s Hs Hnil) as (resps & buf & w & -> & Hq & Hc & Hs1). rewrite <-Hc in Hn.
  destruct resps as [|[b|] resps]; [by inv Hn| |].
  - rewrite IH; [|exact Hs1|exact Hn| |]; simpl responses.
    + by rewrite Hq, <-(assoc_L (++)), take_drop.
    + rewrite Hq, length_drop. lia.
    + destruct n; [|lia]. destruct (queued_nil _ (se_nonempty _ Hs1)) as [?|?]; simpl responses in *; [|done|done].
      rewrite Hq. apply drop_ge. lia.
  - do 3 f_equal. rewrite <-(take_drop SENT_BUFFER_SIZE (queued_bytes (responses s))) at 2. rewrite <-Hq. symmetry. apply app_nil_r.
Qed.

Lemma new_sending : sending new_sender.
Proof. by split; [apply new_size|apply new_bytes|constructor]. Qed.

(** What was sent and what is queued, and how the rest goes out. *)
Lemma sends_all evs n :
  Forall plain evs →
  ∃ s out, send_events evs new_sender [] = Ret (Some s, out) ∧ sending s ∧ (None ∉ responses s) ∧
    out ++ queued_bytes (responses s) = response_bytes evs ∧
    (length (queued_bytes (responses s)) <= SENT_BUFFER_SIZE * n →
     ∃ s', send_events (evs ++ replicate n Ready) new_sender [] = Ret (Some s', response_bytes evs) ∧ responses s' = []).
Proof.
  intros Hp. destruct (send_events_spec evs new_sender [] Hp new_sending) as (s & out & E & Hs & Hn & Hout); [set_solver|].
  exists s, out. split_and!; [exact E|done|done|exact Hout|]. intros Hlen. simpl in Hout.
  rewrite (send_events_app _ _ _ _ _ _ E), <-Hout. by apply ready_drains.
Qed.
End Arrive.

(** ** Responses to a client *)

Section Client.
Context {B : Type} `{FIFOBuffer B} `{!FIFOLaws B}.
Implicit Types s : Sender B.

Definition written (r : ZooKeeperResponse) : bytes := match response_write r with Ret bs => bs | _ => [] end.

Definition is_close_response (r : ZooKeeperResponse) : Prop :=
  resp_xid r ≠ WATCH_XID ∧ resp_getOpNum r = Ret Op_Close.

(** A response that is no close response and has an encoding. *)
Definition answerable (r : ZooKeeperResponse) : Prop :=
  (∃ bs, response_write r = Ret bs ∧ bs ≠ []) ∧
  (resp_xid r = WATCH_XID ∨ ∃ op, resp_getOpNum r = Ret op ∧ op ≠ Op_Close).

Lemma answerable_plain r : answerable r → plain (B := B) sendResponse written (Respond r).
Proof.
  intros [(bs & Hbs & Hnz) Hop]. unfold plain, written. rewrite Hbs. split; [done|]. intros s.
  unfold sendResponse. rewrite Hbs. destruct Hop as [->|(op & -> & Hne)]; [done|].
  destruct (resp_xid r =? WATCH_XID)%Z; [done|]. by rewrite bool_decide_eq_false_2.
Qed.

Lemma close_queues r s :
  is_close_response r → sendResponse r s = (queue_response None s, Ret tt).
Proof.
  intros [Hx Ho]. unfold sendResponse. rewrite (proj2 (Z.eqb_neq _ _) Hx), Ho. by rewrite bool_decide_eq_true_2.
Qed.

End Client.

(** Two data reads with a watch event between them, the second larger than the
    send buffer. *)
Module SendDemo.
Definition get (xid : Z) (n : nat) : ZooKeeperResponse :=
  set_header xid 7 (new_response (GetResponse (String.concat "" (replicate n "a"%string)) Stat_zero)).
Definition watch : ZooKeeperResponse := mkResponse WATCH_XID (-1) ZOK 0 (WatchResponse 2 3 "/a").
Definition evs : list (send_event ZooKeeperResponse) := [Respond (get 1 3); Ready; Respond watch; Respond (get 2 1500); Ready].
Definition close : ZooKeeperResponse := set_header 3 8 (new_response CloseResponse).

Lemma get_fine xid n : xid ≠ WATCH_XID → match response_write (get xid n) with Ret (_ :: _) => true | _ => false end = true →
  answerable (get xid n).
Proof.
  intros Hx Hw. split; [|right; by exists Op_Get].
  destruct (response_write (get xid n)) as [[|b bs]| |]; try done. by exists (b :: bs).
Qed.

Lemma evs_fine x : Respond x ∈ evs → answerable x.
Proof.
  intros Hx. assert (x = get 1 3 ∨ x = watch ∨ x = get 2 1500) as [Hx1|[Hx1|Hx1]].
  { unfold evs in Hx. rewrite !elem_of_cons, elem_of_nil in Hx. naive_solver. }
  all: subst x.
  - apply get_fine; [discriminate|vm_compute; reflexivity].
  - split; [|left; reflexivity]. exists (written watch). split; vm_compute; [reflexivity|discriminate].
  - apply get_fine; [discriminate|vm_compute; reflexivity].
Qed.

(** The first read of [responses_arrive_witness] taken in part by the socket: the
    rest stays in the send buffer, is copied there again from the queue and goes
    out twice. *)
Example partial_send_repeats :
  let s := queue_response (Some (encoded (written (get 1 3)))) (new_sender (B := ListBuffer.buffer)) in
  match onSocketWritable (λ _, 10) s with
  | Ret (Some s, first) =>
      match onSocketWritable id s with
      | Ret (_, second) => (first, second) = (take 10 (written (get 1 3)), drop 10 (written (get 1 3)) ++ drop 10 (written (get 1 3)))
      | _ => False
      end
  | _ => False
  end.
Proof. vm_compute. reflexivity. Qed.
End SendDemo.

