(* ===== verification/ForwardingHandler.v ===== *)
(** * The leader's end of forwarding: src/Service/ForwardingConnectionHandler.{h,cpp}

    The leader keeps a handler per forwarding connection. It collects packages
    from the socket: a type, for requests and sessions a length, and a body. A
    handshake registers the connection at the dispatcher, a request is put into
    the request queue, sessions renew the expiration times of the follower's
    clients. What it asks of the dispatcher is the class [ForwardHandlerEnv]. *)

From S2P Require Import Prelude Types ZkIO ZkCodec RequestsQueue RequestProcessor Forwarding FifoBuffer ConnectionSend.
From stdpp Require Import base gmap sets strings option list.
From Stdlib Require Import ZArith Lia.
Open Scope Z_scope.

(** The members that reading uses: [current_package] is the type and whether the
    last package is done. The numbers of the follower are not initialized before
    the handshake. *)
Record FHandler (B : Type) : Type := mkFHandler {
  fh_header_buf : B;
  fh_body_len_buf : B;
  fh_body_buf : option B;
  fh_protocol : Z;
  fh_is_done : bool;
  fh_server_id : Z;
  fh_client_id : Z
}.
Arguments mkFHandler {B}. Arguments fh_header_buf {B}. Arguments fh_body_len_buf {B}. Arguments fh_body_buf {B}.
Arguments fh_protocol {B}. Arguments fh_is_done {B}. Arguments fh_server_id {B}. Arguments fh_client_id {B}.

Class ForwardHandlerEnv (E : Type) : Type := {
  fhe_registerForward : Z → Z → ST E exn unit;
  fhe_unRegisterForward : Z → Z → E → E;
  fhe_sendAppendEntryResponse : Z → Z → ForwardResponse → E → E;
  fhe_putForwardingRequest : Z → Z → ZooKeeperRequest → Z → ST E exn bool;
  fhe_handleRemoteSession : Z → Z → ST E exn unit
}.

Section Handler.
Context {B E : Type} `{FIFOBuffer B} `{ForwardHandlerEnv E} (OK CANCELLED : Z).
Implicit Types (h : FHandler B) (e : E) (input : bytes).

Definition new_fhandler (server_id client_id : Z) : FHandler B :=
  mkFHandler (fifo_new 1) (fifo_new 4) None (pkg_code Pkg_Unknown) true server_id client_id.

Definition set_fh_len (b : B) h : FHandler B :=
  mkFHandler (fh_header_buf h) b (fh_body_buf h) (fh_protocol h) (fh_is_done h) (fh_server_id h) (fh_client_id h).
Definition set_fh_body (b : option B) h : FHandler B :=
  mkFHandler (fh_header_buf h) (fh_body_len_buf h) b (fh_protocol h) (fh_is_done h) (fh_server_id h) (fh_client_id h).

(** The package is done: its buffer is released. *)
Definition package_done h : FHandler B :=
  mkFHandler (fh_header_buf h) (fh_body_len_buf h) None (fh_protocol h) true (fh_server_id h) (fh_client_id h).

(** [destroyMe]: the connection is gone ([None]). *)
Definition fh_destroyMe h e : option (FHandler B) * E :=
  (None, fhe_unRegisterForward (fh_server_id h) (fh_client_id h) e).

(** A response without a source. *)
Definition plain_response (t : PkgType) (accepted : bool) (code : Z) : ForwardResponse :=
  mkForwardResponse (pkg_code t) accepted code non_session_id non_xid Op_Error.

(** [receiveRequest] for the follower's numbers; the result is the source of the
    request. *)
Definition fh_receiveRequest (server_id client_id : Z) (body : bytes) : ST E exn (Z * Z * OpNum) := λ e,
  match ((session_id ← read_i64; r ← request_read; mret (session_id, r)) body).2 with
  | Ret (session_id, r) =>
      match fhe_putForwardingRequest server_id client_id r session_id e with
      | (e, Ret true) => (e, Ret (session_id, req_xid r, getOpNum r))
      | (e, Ret false) => (e, Throw TIMEOUT_EXCEEDED)
      | (e, Throw x) => (e, Throw x)
      | (e, Crash) => (e, Crash)
      end
  | Throw x => (e, Throw x)
  | Crash => (e, Crash)
  end.

(** The loop over the sessions of a package. *)
Fixpoint read_sessions (session_size : nat) (body : bytes) : ST E exn unit := λ e,
  match session_size with
  | O => (e, Ret tt)
  | S n =>
      match (session_id ← read_i64; time ← read_i64; mret (session_id, time)) body with
      | (body, Ret (session_id, time)) => (fhe_handleRemoteSession session_id time;; read_sessions n body) e
      | (_, Throw x) => (e, Throw x)
      | (_, Crash) => (e, Crash)
      end
  end.

(** What is done with the body of a package and what its length says; a request is
    answered by the accumulator. *)
Definition body_size (protocol z : Z) : Z := if protocol =? pkg_code Pkg_Data then z else s32 (z * 16).
Definition consume (server_id client_id protocol : Z) (body : bytes) : ST E exn unit :=
  if protocol =? pkg_code Pkg_Data then fh_receiveRequest server_id client_id body;; mret tt
  else read_sessions (length body / 16) body.
Definition when_done (server_id client_id protocol : Z) e : E :=
  if protocol =? pkg_code Pkg_Data then e
  else fhe_sendAppendEntryResponse server_id client_id (plain_response Pkg_Session true OK) e.

(** The handler of the exceptions of a package: nothing is released, so that the
    same package is taken up again. *)
Definition when_failed (server_id client_id protocol : Z) e : E :=
  fhe_sendAppendEntryResponse server_id client_id
    (if protocol =? pkg_code Pkg_Data then plain_response Pkg_Result false CANCELLED
     else plain_response Pkg_Session false OK) e.

(** ** One turn of the loop *)

Definition header_turn (recv : nat → nat → nat) h e input : option (FHandler B) * E * bytes :=
  let '(hb, input) := if isFull (fh_header_buf h) then (fh_header_buf h, input)
                      else receiveBytes recv (fh_header_buf h) input in
  let h' := mkFHandler hb (fh_body_len_buf h) (fh_body_buf h) (fh_protocol h) (fh_is_done h) (fh_server_id h) (fh_client_id h) in
  if negb (isFull hb) then ((Some h', e), input)
  else
    match (read_i8 (fifo_bytes hb)).2 with
    | Ret p =>
        let known := (p =? pkg_code Pkg_Handshake) || (p =? pkg_code Pkg_Session) || (p =? pkg_code Pkg_Data) in
        let h' := mkFHandler (fifo_drain (fifo_used hb) hb) (fh_body_len_buf h) (fh_body_buf h) p
                    (negb known) (fh_server_id h) (fh_client_id h) in
        (if known then (Some h', e) else fh_destroyMe h' e, input)
    | _ => (fh_destroyMe h' e, input)
    end.

(** The body of a handshake. *)
Definition read_ids : reader (Z * Z) := server_id ← read_i32; client_id ← read_i32; mret (server_id, client_id).

Definition handshake_turn (recv : nat → nat → nat) h e input : option (FHandler B) * E * bytes :=
  let buf := match fh_body_buf h with Some buf => buf | None => fifo_new 8 end in
  let '(buf, input) := receiveBytes recv buf input in
  if negb (isFull buf) then ((Some (set_fh_body (Some buf) h), e), input)
  else
    match (read_ids (fifo_bytes buf)).2 with
    | Ret (server_id, client_id) =>
        let h := mkFHandler (fh_header_buf h) (fh_body_len_buf h) (Some buf) (fh_protocol h) (fh_is_done h) server_id client_id in
        match fhe_registerForward server_id client_id e with
        | (e, Ret _) => ((Some (package_done h), fhe_sendAppendEntryResponse server_id client_id (plain_response Pkg_Handshake true OK) e), input)
        | (e, _) => (fh_destroyMe h e, input)
        end
    | _ => (fh_destroyMe h e, input)
    end.

Definition body_turn (recv : nat → nat → nat) (buf : B) h e input : option (FHandler B) * E * bytes :=
  let '(buf, input) := receiveBytes recv buf input in
  let h := set_fh_body (Some buf) h in
  if negb (isFull buf) then ((Some h, e), input)
  else
    match consume (fh_server_id h) (fh_client_id h) (fh_protocol h) (fifo_bytes buf) e with
    | (e, Ret _) => ((Some (package_done h), when_done (fh_server_id h) (fh_client_id h) (fh_protocol h) e), input)
    | (e, _) => ((Some h, when_failed (fh_server_id h) (fh_client_id h) (fh_protocol h) e), input)
    end.

(** A request or a list of sessions; a negative size is a buffer that cannot be
    allocated. *)
Definition package_turn (recv : nat → nat → nat) h e input : option (FHandler B) * E * bytes :=
  match fh_body_buf h with
  | Some buf => body_turn recv buf h e input
  | None =>
      let '(lb, input) := if isFull (fh_body_len_buf h) then (fh_body_len_buf h, input)
                          else receiveBytes recv (fh_body_len_buf h) input in
      if negb (isFull lb) then ((Some (set_fh_len lb h), e), input)
      else
        match (read_i32 (fifo_bytes lb)).2 with
        | Ret z =>
            let h := set_fh_len (fifo_drain (fifo_used lb) lb) h in
            let size := body_size (fh_protocol h) z in
            if size <? 0 then ((Some h, when_failed (fh_server_id h) (fh_client_id h) (fh_protocol h) e), input)
            else body_turn recv (fifo_new (Z.to_nat size)) h e input
        | _ => ((Some (set_fh_len lb h), when_failed (fh_server_id h) (fh_client_id h) (fh_protocol h) e), input)
        end
  end.

Definition fh_turn (recv : nat → nat → nat) h e input : option (FHandler B) * E * bytes :=
  if fh_is_done h then header_turn recv h e input
  else if fh_protocol h =? pkg_code Pkg_Handshake then handshake_turn recv h e input
  else if (fh_protocol h =? pkg_code Pkg_Data) || (fh_protocol h =? pkg_code Pkg_Session) then package_turn recv h e input
  else ((Some h, e), input).

(** The loop ends when the socket has no more bytes; [None] is out of fuel. *)
Fixpoint fh_loop (fuel : nat) (recv : nat → nat → nat) h e input : option (option (FHandler B) * E) :=
  match input, fuel with
  | [], _ => Some (Some h, e)
  | _, O => None
  | _, S fuel =>
      match fh_turn recv h e input with
      | ((Some h, e), input) => fh_loop fuel recv h e input
      | ((None, e), _) => Some (None, e)
      end
  end.

Definition fh_onSocketReadable (fuel : nat) (recv : nat → nat → nat) input h e : option (option (FHandler B) * E) :=
  if bool_decide (input = []) then Some (fh_destroyMe h e) else fh_loop fuel recv h e input.

(** [sendResponse]. *)
Definition fh_sendResponse (response : ForwardResponse) : ST (Sender B) exn unit := λ s,
  (queue_response (Some (encoded (forward_response_write response))) s, Ret tt).
End Handler.
