(* ===== verification/ForwardingProps.v ===== *)
(** * What arrives over a forwarding connection

    The packages of a follower reach the dispatcher of the leader however the
    network cuts their bytes, and the leader's answers reach the follower. The
    handler of ForwardingHandler.v behaves as the automaton [feed], which takes
    one byte after the other. *)

From coqutil Require Import Word.LittleEndianList Byte.
From S2P Require Import Prelude Types ZkIO ZkCodec SessionExpiryQueue KeeperStore RequestsQueue RequestProcessor Pipeline RequestAccumulator Forwarding RequestForwarder KeeperDispatcher FifoBuffer ConnectionSend ForwardingHandler.
From stdpp Require Import base gmap sets strings option list.
From Stdlib Require Import ZArith Lia.
Open Scope Z_scope.

Section Feed.
Context {B E : Type} `{FIFOBuffer B} `{!FIFOLaws B} `{ForwardHandlerEnv E} (OK CANCELLED : Z).
Implicit Types (h : FHandler B) (e : E) (got input : bytes).

(** ** The automaton *)

Inductive stage : Type := St_type | St_handshake | St_len (p : Z) | St_body (p : Z) (n : nat).

(** How many bytes a stage collects. *)
Definition need (t : stage) : nat :=
  match t with St_type => 1 | St_handshake => 8 | St_len _ => 4 | St_body _ n => n end.

(** Collecting with what is there already, gone, or at a package that cannot be
    handled. *)
Inductive fstate : Type := Collect (server_id client_id : Z) (t : stage) (got : bytes) | Gone | Refused.

Definition complete_body (sid cid p : Z) (body : bytes) e : fstate * E :=
  match consume sid cid p body e with
  | (e, Ret _) => (Collect sid cid St_type [], when_done OK sid cid p e)
  | (e, _) => (Refused, e)
  end.

Definition complete (sid cid : Z) (t : stage) (got : bytes) e : fstate * E :=
  match t with
  | St_type =>
      match (read_i8 got).2 with
      | Ret p =>
          if p =? pkg_code Pkg_Handshake then (Collect sid cid St_handshake [], e)
          else if (p =? pkg_code Pkg_Data) || (p =? pkg_code Pkg_Session) then (Collect sid cid (St_len p) [], e)
          else (Gone, fhe_unRegisterForward sid cid e)
      | _ => (Refused, e)
      end
  | St_handshake =>
      match (read_ids got).2 with
      | Ret (sid, cid) =>
          match fhe_registerForward sid cid e with
          | (e, Ret _) => (Collect sid cid St_type [], fhe_sendAppendEntryResponse sid cid (plain_response Pkg_Handshake true OK) e)
          | (e, _) => (Gone, fhe_unRegisterForward sid cid e)
          end
      | _ => (Refused, e)
      end
  | St_len p =>
      match (read_i32 got).2 with
      | Ret z =>
          if body_size p z <? 0 then (Refused, e)
          else if bool_decide (body_size p z = 0) then complete_body sid cid p [] e
          else (Collect sid cid (St_body p (Z.to_nat (body_size p z))) [], e)
      | _ => (Refused, e)
      end
  | St_body p _ => complete_body sid cid p got e
  end.

Definition feed (s : fstate * E) (b : Byte.byte) : fstate * E :=
  match s with
  | (Collect sid cid t got, e) =>
      if bool_decide (length (got ++ [b]) < need t)%nat then (Collect sid cid t (got ++ [b]), e)
      else complete sid cid t (got ++ [b]) e
  | _ => s
  end.

Definition feeds (s : fstate * E) (bs : bytes) : fstate * E := foldl feed s bs.

Lemma feeds_app s bs bs' : feeds s (bs ++ bs') = feeds (feeds s bs) bs'.
Proof. apply foldl_app. Qed.

Lemma feeds_gone e bs : feeds (Gone, e) bs = (Gone, e).
Proof. by induction bs. Qed.
Lemma feeds_refused e bs : feeds (Refused, e) bs = (Refused, e).
Proof. by induction bs. Qed.

(** Bytes within a stage. *)
Lemma feeds_within sid cid t got bs e :
  (length (got ++ bs) < need t)%nat → feeds (Collect sid cid t got, e) bs = (Collect sid cid t (got ++ bs), e).
Proof.
  revert got. induction bs as [|b bs IH]; intros got Hl; simpl; [by rewrite app_nil_r|].
  rewrite (bool_decide_eq_true_2 (_ < need t)%nat) by (rewrite !length_app in *; simpl in *; lia).
  rewrite IH; rewrite <-(assoc_L (++)); done.
Qed.

(** The bytes that complete a stage. *)
Lemma feeds_complete sid cid t got bs e :
  bs ≠ [] → length (got ++ bs) = need t → feeds (Collect sid cid t got, e) bs = complete sid cid t (got ++ bs) e.
Proof.
  intros Hne Hl. destruct bs as [|b bs _] using rev_ind; [done|].
  rewrite feeds_app, feeds_within by (rewrite (assoc_L (++)), length_app in Hl; simpl in Hl; lia).
  simpl. rewrite <-(assoc_L (++)). by rewrite bool_decide_eq_false_2 by lia.
Qed.

(** ** The handler follows the automaton *)

Record fh_sizes h : Prop := {
  fs_header : fifo_size (fh_header_buf h) = 1%nat;
  fs_len : fifo_size (fh_body_len_buf h) = 4%nat;
  fs_header_empty : fifo_bytes (fh_header_buf h) = []
}.

Definition collecting (buf : B) (n : nat) (got : bytes) : Prop :=
  fifo_size buf = n ∧ fifo_bytes buf = got ∧ (length got < n)%nat.

(** The buffers of the handler hold what the automaton has collected. *)
Inductive fholds h : fstate → Prop :=
| fholds_type :
    fh_sizes h → fh_is_done h = true → fh_body_buf h = None → fifo_bytes (fh_body_len_buf h) = [] →
    fholds h (Collect (fh_server_id h) (fh_client_id h) St_type [])
| fholds_handshake got :
    fh_sizes h → fh_is_done h = false → fh_protocol h = pkg_code Pkg_Handshake → fifo_bytes (fh_body_len_buf h) = [] →
    collecting (match fh_body_buf h with Some buf => buf | None => fifo_new 8 end) 8 got →
    fholds h (Collect (fh_server_id h) (fh_client_id h) St_handshake got)
| fholds_len got :
    fh_sizes h → fh_is_done h = false → fh_protocol h ∈ [pkg_code Pkg_Data; pkg_code Pkg_Session] →
    fh_body_buf h = None → collecting (fh_body_len_buf h) 4 got →
    fholds h (Collect (fh_server_id h) (fh_client_id h) (St_len (fh_protocol h)) got)
| fholds_body buf n got :
    fh_sizes h → fh_is_done h = false → fh_protocol h ∈ [pkg_code Pkg_Data; pkg_code Pkg_Session] →
    fh_body_buf h = Some buf → fifo_bytes (fh_body_len_buf h) = [] → collecting buf n got →
    fholds h (Collect (fh_server_id h) (fh_client_id h) (St_body (fh_protocol h) n) got).

Definition agrees (r : option (FHandler B) * E) (s : fstate * E) : Prop :=
  match s with
  | (Refused, _) => True
  | (Gone, e) => r = (None, e)
  | (st, e) => ∃ h, r = (Some h, e) ∧ fholds h st
  end.

(** Reading into the buffer of a stage. *)
Lemma receive_stage recv (b : B) n got input :
  receives recv → fifo_size b = n → fifo_bytes b = got → (length got <= n)%nat →
  ∃ k b', receiveBytes recv b input = (b', drop k input) ∧ fifo_size b' = n ∧ fifo_bytes b' = got ++ take k input ∧
    (k <= length input)%nat ∧ ((length got < n)%nat → input ≠ [] → (0 < k)%nat) ∧
    ((isFull b' = true ∧ length (got ++ take k input) = n) ∨
     (isFull b' = false ∧ (length (got ++ take k input) < n)%nat)).
Proof.
  intros Hr Hs Hb Hl. destruct (receiveBytes_spec recv b input Hr) as (k & H1 & H2 & H3 & H4 & H5 & H6).
  destruct (receiveBytes recv b input) as [b' rest]. cbn [fst snd] in *. subst rest. exists k, b'.
  unfold fifo_room, fifo_used in *. rewrite Hs, Hb in *. split_and!; try done; [intros; apply H6; [lia|done]|].
  unfold isFull, fifo_used. rewrite H3, H2, length_app, length_take. rewrite Nat.min_l by done.
  case_bool_decide; [left|right]; split; try done; lia.
Qed.

Lemma body_turn_follows recv (buf : B) h e n got input :
  receives recv → fh_sizes h → fh_is_done h = false → fh_protocol h ∈ [pkg_code Pkg_Data; pkg_code Pkg_Session] →
  fifo_bytes (fh_body_len_buf h) = [] → fifo_size buf = n → fifo_bytes buf = got → (length got <= n)%nat →
  ∃ k, (body_turn OK CANCELLED recv buf h e input).2 = drop k input ∧ (k <= length input)%nat ∧
    ((length got < n)%nat → input ≠ [] → (0 < k)%nat) ∧ (length (got ++ take k input) <= n)%nat ∧
    agrees (body_turn OK CANCELLED recv buf h e input).1
      (if bool_decide (length (got ++ take k input) < n)%nat
       then (Collect (fh_server_id h) (fh_client_id h) (St_body (fh_protocol h) n) (got ++ take k input), e)
       else complete_body (fh_server_id h) (fh_client_id h) (fh_protocol h) (got ++ take k input) e).
Proof.
  intros Hr Hs Hd Hp Hlb Hsz Hb Hl. unfold body_turn.
  destruct (receive_stage recv buf n got input Hr Hsz Hb Hl) as (k & b' & -> & Hsz' & Hb' & Hk & Hpos & [[-> Hfull]|[-> Hlt]]);
    exists k; simpl.
  - rewrite (bool_decide_eq_false_2 (_ < n)%nat) by lia. unfold complete_body. rewrite Hb'.
    destruct (consume _ _ _ _ e) as [e' [u|x|]]; simpl; split_and!; try done; try lia.
    eexists. split; [done|]. destruct Hs. by apply (fholds_type (package_done (set_fh_body (Some b') h))).
  - rewrite (bool_decide_eq_true_2 (_ < n)%nat) by lia. split_and!; try done; try lia.
    eexists. split; [done|]. destruct Hs. by apply (fholds_body (set_fh_body (Some b') h) b').
Qed.

Lemma take_nonempty k input : (0 < k)%nat → input ≠ [] → take k input ≠ [].
Proof. destruct k; [lia|]. by destruct input. Qed.

Lemma not_full (b : B) n : fifo_size b = n → (length (fifo_bytes b) < n)%nat → isFull b = false.
Proof. intros Hs Hl. apply bool_decide_eq_false_2. unfold fifo_used. lia. Qed.

Lemma drained (b : B) : fifo_bytes b ≠ [] → fifo_bytes (fifo_drain (fifo_used b) b) = [].
Proof.
  intros Hb. rewrite drain_bytes. unfold fifo_used. rewrite bool_decide_eq_false_2.
  - by apply drop_ge.
  - by intros Hz%nil_length_inv.
Qed.

Lemma header_turn_follows recv h e input :
  receives recv → fholds h (Collect (fh_server_id h) (fh_client_id h) St_type []) → fh_is_done h = true → input ≠ [] →
  ∃ k, (header_turn recv h e input).2 = drop k input ∧ (0 < k <= length input)%nat ∧
    agrees (header_turn recv h e input).1 (feeds (Collect (fh_server_id h) (fh_client_id h) St_type [], e) (take k input)).
Proof.
  intros Hr Hh Hd Hin. inversion Hh as [[Hs1 Hs2 Hs3] _ Hb Hlb| | |]; subst. unfold header_turn.
  rewrite (not_full _ 1) by (rewrite ?Hs3; simpl; done || lia).
  destruct (receive_stage recv (fh_header_buf h) 1 [] input Hr Hs1 Hs3 ltac:(simpl; lia))
    as (k & b' & -> & Hsz' & Hb' & Hk & Hpos & Hcase). specialize (Hpos ltac:(simpl; lia) Hin).
  pose proof (take_nonempty k input Hpos Hin) as Hne. rewrite app_nil_l in *.
  assert (isFull b' = true ∧ length (take k input) = 1%nat) as [-> Hl].
  { destruct Hcase as [?|[_ Hlt]]; [done|]. destruct (take k input); simpl in *; [done|lia]. }
  exists k. rewrite feeds_complete by done. cbn [negb complete]. rewrite app_nil_l, <-Hb'.
  destruct (read_i8 (fifo_bytes b')).2 as [p|x|]; cbn [fst snd]; try (split_and!; simpl; done || lia).
  destruct (p =? pkg_code Pkg_Handshake) eqn:E1; [|destruct ((p =? pkg_code Pkg_Data) || (p =? pkg_code Pkg_Session)) eqn:E2].
  - cbn [orb fst snd agrees]. split_and!; [done|lia|lia|]. eexists. split; [done|].
    apply (fholds_handshake (mkFHandler _ _ _ _ _ _ _)); simpl; [split; simpl; rewrite ?drain_size, ?drained|..]; try done.
    + by rewrite Hb'.
    + by apply Z.eqb_eq in E1.
    + rewrite Hb. by split_and!; rewrite ?new_size, ?new_bytes; simpl; try lia.
  - rewrite orb_false_l, (orb_comm (p =? pkg_code Pkg_Session)), E2. cbn [fst snd agrees]. split_and!; [done|lia|lia|]. eexists. split; [done|].
    apply (fholds_len (mkFHandler _ _ _ _ _ _ _)); simpl; [split; simpl; rewrite ?drain_size, ?drained|..]; try done.
    + by rewrite Hb'.
    + apply orb_true_iff in E2 as [E2%Z.eqb_eq|E2%Z.eqb_eq]; set_solver.
    + split_and!; try done. simpl. lia.
  - rewrite orb_false_l, (orb_comm (p =? pkg_code Pkg_Session)), E2. cbn [fst snd agrees]. by split_and!; try lia.
Qed.

Lemma handshake_turn_follows recv h e got input :
  receives recv → fholds h (Collect (fh_server_id h) (fh_client_id h) St_handshake got) → input ≠ [] →
  ∃ k, (handshake_turn OK recv h e input).2 = drop k input ∧ (0 < k <= length input)%nat ∧
    agrees (handshake_turn OK recv h e input).1 (feeds (Collect (fh_server_id h) (fh_client_id h) St_handshake got, e) (take k input)).
Proof.
  intros Hr Hh Hin. inversion Hh as [|? [Hs1 Hs2 Hs3] Hd Hp Hlb (Hb1 & Hb2 & Hb3)| |]; subst. unfold handshake_turn.
  destruct (receive_stage recv _ 8 _ input Hr Hb1 eq_refl ltac:(lia))
    as (k & b' & -> & Hsz' & Hb' & Hk & Hpos & Hcase). specialize (Hpos ltac:(lia) Hin).
  pose proof (take_nonempty k input Hpos Hin) as Hne. exists k.
  destruct Hcase as [[-> Hl]|[-> Hlt]]; cbn [negb].
  - rewrite feeds_complete by done. cbn [complete]. rewrite <-Hb'.
    destruct (read_ids (fifo_bytes b')).2 as [[sid cid]|x|]; cbn [fst snd]; try (split_and!; simpl; done || lia).
    destruct (fhe_registerForward sid cid e) as [e' [u|x|]]; cbn [fst snd agrees]; split_and!; try done; try lia.
    eexists. split; [done|]. by apply (fholds_type (package_done (mkFHandler _ _ _ _ _ sid cid))).
  - rewrite feeds_within by done. cbn [fst snd agrees]. split_and!; try done; try lia.
    eexists. split; [done|]. rewrite <-Hb'. rewrite <-Hb' in Hlt. by apply (fholds_handshake (set_fh_body (Some b') h)).
Qed.

Lemma len_turn_follows recv h e got input :
  receives recv → fholds h (Collect (fh_server_id h) (fh_client_id h) (St_len (fh_protocol h)) got) → input ≠ [] →
  ∃ k, (package_turn OK CANCELLED recv h e input).2 = drop k input ∧ (0 < k <= length input)%nat ∧
    agrees (package_turn OK CANCELLED recv h e input).1
      (feeds (Collect (fh_server_id h) (fh_client_id h) (St_len (fh_protocol h)) got, e) (take k input)).
Proof.
  intros Hr Hh Hin. inversion Hh as [| |? [Hs1 Hs2 Hs3] Hd Hp Hb (_ & Hb2 & Hb3)|]; subst. unfold package_turn. rewrite Hb.
  rewrite (not_full _ 4) by done.
  destruct (receive_stage recv _ 4 _ input Hr Hs2 eq_refl ltac:(lia))
    as (k & b' & -> & Hsz' & Hb' & Hk & Hpos & Hcase). specialize (Hpos ltac:(lia) Hin).
  pose proof (take_nonempty k input Hpos Hin) as Hne.
  destruct Hcase as [[-> Hl]|[-> Hlt]]; cbn [negb].
  2:{ exists k. rewrite feeds_within by done. cbn [fst snd agrees]. split_and!; try done; try lia.
      eexists. split; [done|]. rewrite <-Hb'. rewrite <-Hb' in Hlt. by apply (fholds_len (set_fh_len b' h)). }
  assert (∀ k', feeds (Collect (fh_server_id h) (fh_client_id h) (St_len (fh_protocol h)) (fifo_bytes (fh_body_len_buf h)), e)
      (take (k + k') input) = feeds (complete (fh_server_id h) (fh_client_id h) (St_len (fh_protocol h)) (fifo_bytes b') e)
      (take k' (drop k input))) as Hfeeds.
  { intros k'. by rewrite <-take_take_drop, feeds_app, feeds_complete, Hb'. }
  destruct (read_i32 (fifo_bytes b')).2 as [z|x|] eqn:Ez.
  2,3: exists k; specialize (Hfeeds 0%nat); rewrite Nat.add_0_r, take_0 in Hfeeds; rewrite Hfeeds; simpl; rewrite Ez;
       split_and!; simpl; done || lia.
  cbn [fh_protocol set_fh_len]. destruct (body_size (fh_protocol h) z <? 0) eqn:Eneg.
  { exists k. specialize (Hfeeds 0%nat). rewrite Nat.add_0_r, take_0 in Hfeeds. rewrite Hfeeds. simpl. rewrite Ez, Eneg.
    split_and!; simpl; done || lia. }
  destruct (body_turn_follows recv (fifo_new (Z.to_nat (body_size (fh_protocol h) z))) (set_fh_len (fifo_drain (fifo_used b') b') h)
    e (Z.to_nat (body_size (fh_protocol h) z)) [] (drop k input)) as (k' & H1 & H2 & _ & Hle & H3); try done.
  { by split; simpl; rewrite ?drain_size. }
  { simpl. rewrite drained; [done|]. rewrite Hb'. by destruct (fifo_bytes (fh_body_len_buf h)). }
  { apply new_size. } { apply new_bytes. } { simpl. lia. }
  exists (k + k')%nat. rewrite length_drop in H2. rewrite Hfeeds, <-drop_drop. split; [exact H1|]. split; [lia|].
  cbn [complete]. rewrite Ez, Eneg. rewrite app_nil_l in H3. cbn [fh_server_id fh_client_id fh_protocol set_fh_len] in H3.
  rewrite app_nil_l in Hle. destruct (decide (body_size (fh_protocol h) z = 0)) as [Hz|Hz];
    [rewrite bool_decide_eq_true_2 by done|rewrite (bool_decide_eq_false_2 (_ = 0)) by done].
  - assert (take k' (drop k input) = []) as Hnil by (apply nil_length_inv; lia). rewrite Hnil in H3 |- *.
    by rewrite bool_decide_eq_false_2 in H3 by (simpl; lia).
  - apply Z.ltb_ge in Eneg. case_bool_decide as Hlt.
    + by rewrite feeds_within.
    + by rewrite feeds_complete; [|intros Hnil; rewrite Hnil in Hlt; simpl in Hlt; lia|simpl; lia].
Qed.

Lemma fh_turn_follows recv h e st input :
  receives recv → fholds h st → input ≠ [] →
  ∃ k, (fh_turn OK CANCELLED recv h e input).2 = drop k input ∧ (0 < k <= length input)%nat ∧
    agrees (fh_turn OK CANCELLED recv h e input).1 (feeds (st, e) (take k input)).
Proof.
  intros Hr Hh Hin. unfold fh_turn. pose proof Hh as Hh'.
  destruct Hh as [Hs Hd _ _|got Hs Hd Hp _ _|got Hs Hd Hp _ _|buf n got Hs Hd Hp Hb Hlb (Hb1 & Hb2 & Hb3)]; rewrite Hd.
  - by apply header_turn_follows.
  - rewrite Hp. by apply handshake_turn_follows.
  - assert ((fh_protocol h =? pkg_code Pkg_Handshake) = false ∧
            (fh_protocol h =? pkg_code Pkg_Data) || (fh_protocol h =? pkg_code Pkg_Session) = true) as [-> ->]
      by (rewrite !elem_of_cons, elem_of_nil in Hp; destruct Hp as [->|[->|[]]]; done).
    by apply len_turn_follows.
  - assert ((fh_protocol h =? pkg_code Pkg_Handshake) = false ∧
            (fh_protocol h =? pkg_code Pkg_Data) || (fh_protocol h =? pkg_code Pkg_Session) = true) as [-> ->]
      by (rewrite !elem_of_cons, elem_of_nil in Hp; destruct Hp as [->|[->|[]]]; done).
    unfold package_turn. rewrite Hb.
    destruct (body_turn_follows recv buf h e n got input Hr Hs Hd Hp Hlb Hb1 Hb2 ltac:(lia)) as (k & H1 & H2 & H3 & Hle & H4).
    exists k. split; [exact H1|]. split; [split; [by apply H3|done]|]. case_bool_decide as Hlt.
    + by rewrite feeds_within.
    + rewrite feeds_complete; [exact H4| |simpl; lia]. apply take_nonempty; [by apply H3|done].
Qed.

(** Unless a package is refused, the loop takes at least a byte in each turn and
    ends where the automaton does. *)
Lemma fh_loop_follows fuel recv h e st input :
  receives recv → fholds h st → (length input <= fuel)%nat → (feeds (st, e) input).1 ≠ Refused →
  ∃ r, fh_loop OK CANCELLED fuel recv h e input = Some r ∧ agrees r (feeds (st, e) input).
Proof.
  intros Hr. revert h e st input. induction fuel as [|fuel IH]; intros h e st input Hh Hf Hok.
  { destruct input; simpl in Hf; [|lia]. exists (Some h, e). split; [done|]. destruct Hh; simpl; eauto using fholds. }
  destruct (decide (input = [])) as [->|Hin].
  { exists (Some h, e). split; [done|]. destruct Hh; simpl; eauto using fholds. }
  destruct (fh_turn_follows recv h e st input Hr Hh Hin) as (k & Hrest & Hk & Hag).
  rewrite <-(take_drop k input), feeds_app in Hok |- *. rewrite take_drop.
  assert (fh_loop OK CANCELLED (S fuel) recv h e input = match fh_turn OK CANCELLED recv h e input with
      | ((Some h, e), input) => fh_loop OK CANCELLED fuel recv h e input | ((None, e), _) => Some (None, e) end) as ->
    by (by destruct input).
  destruct (fh_turn OK CANCELLED recv h e input) as [[oh e1] rest]. cbn [fst snd] in *. subst rest.
  destruct (feeds (st, e) (take k input)) as [[sid cid t got| |] e2]; cbn [agrees] in Hag.
  - destruct Hag as (h' & [= -> ->] & Hh'). apply IH; [done|rewrite length_drop; lia|done].
  - injection Hag as -> ->. exists (None, e2). by rewrite feeds_gone.
  - by rewrite feeds_refused in Hok.
Qed.

(** ** Events *)

(** The loop of an event has its length as fuel; [None] if that were not enough. *)
Fixpoint fh_events (chunks : list ((nat → nat → nat) * bytes)) h e : option (option (FHandler B) * E) :=
  match chunks with
  | [] => Some (Some h, e)
  | (recv, input) :: chunks =>
      match fh_onSocketReadable OK CANCELLED (length input) recv input h e with
      | Some (Some h, e) => fh_events chunks h e
      | r => r
      end
  end.

Lemma fh_events_follow chunks h e st :
  chunks_ok chunks → fholds h st → (feeds (st, e) (concat chunks.*2)).1 ≠ Refused →
  ∃ r, fh_events chunks h e = Some r ∧ agrees r (feeds (st, e) (concat chunks.*2)).
Proof.
  intros Hch. revert h e st. induction Hch as [|[recv input] chunks [Hr Hin] _ IH]; intros h e st Hh Hok; simpl in *.
  { exists (Some h, e). split; [done|]. destruct Hh; simpl; eauto using fholds. }
  unfold fh_onSocketReadable. rewrite bool_decide_eq_false_2 by done. rewrite feeds_app in Hok |- *.
  destruct (fh_loop_follows (length input) recv h e st input Hr Hh ltac:(done)) as (r & -> & Hag).
  { intros E1. destruct (feeds (st, e) input) as [st' e']. simpl in E1. subst st'. by rewrite feeds_refused in Hok. }
  destruct (feeds (st, e) input) as [[sid cid t got| |] e2]; cbn [agrees] in Hag.
  - destruct Hag as (h' & -> & Hh'). by apply IH.
  - subst r. exists (None, e2). by rewrite feeds_gone.
  - by rewrite feeds_refused in Hok.
Qed.

(** ** Packages of a follower *)

Inductive package : Type := Request (x : RequestForSession) | Sessions (l : list (Z * Z)).

Definition package_bytes (p : package) : bytes :=
  match p with Request x => data_package x | Sessions l => session_package l end.

Definition package_ok (p : package) : Prop :=
  match p with
  | Request x => in_s 64 (rs_session_id x) ∧ request_ok (rs_request x) ∧ Z.of_nat (length (forward_body x)) < 2 ^ 31
  | Sessions l => Forall (λ st, in_s 64 st.1 ∧ in_s 64 st.2) l ∧ Z.of_nat (length l) * 16 < 2 ^ 31
  end.

Fixpoint remote_sessions (l : list (Z * Z)) : ST E exn unit :=
  match l with
  | [] => mret tt
  | (session_id, time) :: l => fhe_handleRemoteSession session_id time;; remote_sessions l
  end.

(** What a package does at the dispatcher when it is accepted. *)
Definition accept (sid cid : Z) (p : package) e : option E :=
  match p with
  | Request x =>
      match fhe_putForwardingRequest sid cid (rs_request x) (rs_session_id x) e with
      | (e, Ret true) => Some e
      | _ => None
      end
  | Sessions l =>
      match remote_sessions l e with
      | (e, Ret _) => Some (fhe_sendAppendEntryResponse sid cid (plain_response Pkg_Session true OK) e)
      | _ => None
      end
  end.

Fixpoint accept_all (sid cid : Z) (ps : list package) e : option E :=
  match ps with
  | [] => Some e
  | p :: ps => e ← accept sid cid p e; accept_all sid cid ps e
  end.

Lemma reads_whole {A} (rd : reader A) bs a : reads rd bs a → (rd bs).2 = Ret a.
Proof. intros Hr. specialize (Hr []). rewrite app_nil_r in Hr. by rewrite Hr. Qed.

Lemma feeds_stage sid cid t bs rest e :
  bs ≠ [] → length bs = need t →
  feeds (Collect sid cid t [], e) (bs ++ rest) = feeds (complete sid cid t bs e) rest.
Proof. intros Hne Hl. by rewrite feeds_app, feeds_complete. Qed.

Lemma write_int_nonempty n x : (0 < n)%nat → write_int n x ≠ [].
Proof. intros Hn Hz. apply (f_equal length) in Hz. rewrite length_write_int in Hz. simpl in Hz. lia. Qed.

(** A package with a length and a body. *)
Lemma feeds_package sid cid t z body rest e :
  t ∈ [Pkg_Data; Pkg_Session] → in_s 32 z → body_size (pkg_code t) z = Z.of_nat (length body) →
  feeds (Collect sid cid St_type [], e) (write_i8 (pkg_code t) ++ write_i32 z ++ body ++ rest) =
  feeds (complete_body sid cid (pkg_code t) body e) rest.
Proof.
  intros Ht Hz Hs.
  assert (complete sid cid St_type (write_i8 (pkg_code t)) e = (Collect sid cid (St_len (pkg_code t)) [], e)) as Htype.
  { rewrite !elem_of_cons, elem_of_nil in Ht. cbn [complete].
    assert (in_s 8 (pkg_code t)) as Hp by (destruct Ht as [->|[->|[]]]; by vm_compute).
    rewrite (reads_whole _ _ _ (reads_i8 _ Hp)). by destruct Ht as [->|[->|[]]]. }
  rewrite feeds_stage, Htype by done. rewrite feeds_stage; [|apply (write_int_nonempty 4); lia|apply length_write_int].
  cbn [complete]. rewrite (reads_whole _ _ _ (reads_i32 z Hz)), Hs.
  rewrite (proj2 (Z.ltb_ge _ _)) by lia. case_bool_decide as H1.
  - assert (body = []) as -> by (apply nil_length_inv; lia). done.
  - rewrite Nat2Z.id. rewrite feeds_stage; [done| |done]. by intros ->.
Qed.

Lemma consume_request sid cid x e e' :
  package_ok (Request x) → accept sid cid (Request x) e = Some e' →
  complete_body sid cid (pkg_code Pkg_Data) (forward_body x) e = (Collect sid cid St_type [], e').
Proof.
  intros (Hs & Hr & _) Ha. unfold complete_body, consume. cbn [pkg_code Z.eqb Pos.eqb]. unfold fh_receiveRequest.
  assert (forward_body x = write_i64 (rs_session_id x) ++ request_packet (rs_request x)) as Hb by done.
  assert (((session_id ← read_i64; r ← request_read; mret (session_id, r)) (forward_body x)).2 = Ret (rs_session_id x, rs_request x)) as Hread.
  { rewrite Hb, (bind_Ret _ _ _ _ _ (reads_i64 _ Hs _)).
    pose proof (request_read_write (rs_request x) [] Hr) as Hq. rewrite app_nil_r in Hq. by rewrite (bind_Ret _ _ _ _ _ Hq). }
  cbn [accept] in Ha. unfold mbind at 1, ST_bind at 1. rewrite Hread.
  destruct (fhe_putForwardingRequest _ _ _ _ e) as [e1 [[]|y|]]; try done. by injection Ha as ->.
Qed.

Lemma read_sessions_all l e :
  Forall (λ st, in_s 64 st.1 ∧ in_s 64 st.2) l →
  read_sessions (length l) (concat (map (λ '(session_id, time), write_i64 session_id ++ write_i64 time) l)) e = remote_sessions l e.
Proof.
  intros Hl. revert e. induction Hl as [|[sid t] l [H1 H2] _ IH]; intros e; [done|]. cbn [fst snd] in H1, H2. cbn [map concat length read_sessions remote_sessions].
  rewrite <-(assoc_L (++)), (bind_Ret _ _ _ _ _ (reads_i64 _ H1 _)), (bind_Ret _ _ _ _ _ (reads_i64 _ H2 _)). cbn [mret ST_ret].
  unfold mret, ST_ret. unfold mbind, ST_bind. destruct (fhe_handleRemoteSession sid t e) as [e1 [u|y|]]; [apply IH|done|done].
Qed.

Lemma sessions_length l :
  length (concat (map (λ '(session_id, time), write_i64 session_id ++ write_i64 time) l)) = (16 * length l)%nat.
Proof.
  induction l as [|[sid t] l IH]; [done|]. cbn [map concat length]. rewrite !length_app, IH.
  unfold write_i64. rewrite !length_write_int. lia.
Qed.

Lemma consume_sessions sid cid l e e' :
  package_ok (Sessions l) → accept sid cid (Sessions l) e = Some e' →
  complete_body sid cid (pkg_code Pkg_Session) (concat (map (λ '(session_id, time), write_i64 session_id ++ write_i64 time) l)) e
  = (Collect sid cid St_type [], e').
Proof.
  intros (Hl & _) Ha. unfold complete_body, consume, when_done. cbn [pkg_code Z.eqb Pos.eqb].
  rewrite sessions_length, (Nat.mul_comm 16), Nat.div_mul, read_sessions_all by done. cbn [accept] in Ha.
  destruct (remote_sessions l e) as [e1 [u|y|]]; try done. by injection Ha as ->.
Qed.

Lemma feeds_accept sid cid p rest e e' :
  package_ok p → accept sid cid p e = Some e' →
  feeds (Collect sid cid St_type [], e) (package_bytes p ++ rest) = feeds (Collect sid cid St_type [], e') rest.
Proof.
  intros Hok Ha. destruct p as [x|l]; cbn [package_bytes].
  - unfold data_package, write_string. rewrite <-!(assoc_L (++)), String.list_byte_of_string_of_list_byte.
    rewrite <-(length_list_byte_of_string (String.string_of_list_byte _)), String.list_byte_of_string_of_list_byte.
    pose proof Hok as (_ & _ & Hlen).
    rewrite wrap_s_id by (unfold in_s; lia). rewrite (feeds_package sid cid Pkg_Data).
    + by rewrite (consume_request _ _ _ _ _ Hok Ha).
    + set_solver.
    + unfold in_s; lia.
    + done.
  - unfold session_package. rewrite <-!(assoc_L (++)). pose proof Hok as (_ & Hlen).
    rewrite wrap_s_id by (unfold in_s; lia). rewrite (feeds_package sid cid Pkg_Session).
    + by rewrite (consume_sessions _ _ _ _ _ Hok Ha).
    + set_solver.
    + unfold in_s; lia.
    + unfold body_size. cbn [pkg_code Z.eqb Pos.eqb]. rewrite wrap_s_id by (unfold in_s; lia). rewrite sessions_length. lia.
Qed.

Lemma feeds_handshake s0 c0 sid cid rest e e1 :
  in_s 32 sid → in_s 32 cid → fhe_registerForward sid cid e = (e1, Ret tt) →
  feeds (Collect s0 c0 St_type [], e) (handshake_package sid cid ++ rest) =
  feeds (Collect sid cid St_type [], fhe_sendAppendEntryResponse sid cid (plain_response Pkg_Handshake true OK) e1) rest.
Proof.
  intros Hs Hc Hreg. unfold handshake_package. rewrite <-!(assoc_L (++)). rewrite feeds_stage by done. cbn [complete].
  rewrite (reads_whole _ _ _ (reads_i8 (pkg_code Pkg_Handshake) ltac:(by vm_compute))). cbn [pkg_code Z.eqb Pos.eqb].
  rewrite (assoc_L (++) (write_i32 sid)). rewrite feeds_stage.
  - cbn [complete]. unfold read_ids.
    assert (reads (server_id ← read_i32; client_id ← read_i32; mret (server_id, client_id)) (write_i32 sid ++ write_i32 cid) (sid, cid)) as Hr.
    { intros rest'. rewrite <-(assoc_L (++)). by rewrite (bind_Ret _ _ _ _ _ (reads_i32 _ Hs _)), (bind_Ret _ _ _ _ _ (reads_i32 _ Hc _)). }
    by rewrite (reads_whole _ _ _ Hr), Hreg.
  - intros Hz. apply app_eq_nil in Hz as [Hz _]. revert Hz. apply (write_int_nonempty 4). lia.
  - unfold write_i32. by rewrite length_app, !length_write_int.
Qed.

Lemma feeds_packages sid cid ps e e' :
  Forall package_ok ps → accept_all sid cid ps e = Some e' →
  feeds (Collect sid cid St_type [], e) (concat (package_bytes <$> ps)) = (Collect sid cid St_type [], e').
Proof.
  intros Hps. revert e. induction Hps as [|p ps Hp _ IH]; intros e Ha; cbn [accept_all] in Ha; [by injection Ha as ->|].
  apply bind_Some in Ha as (e1 & Ha & Hrest). rewrite fmap_cons. cbn [concat]. rewrite (feeds_accept _ _ _ _ _ _ Hp Ha).
  by apply IH.
Qed.

Lemma new_fhandler_holds s0 c0 : fholds (new_fhandler s0 c0) (Collect s0 c0 St_type []).
Proof.
  apply (fholds_type (new_fhandler s0 c0)); simpl; rewrite ?new_bytes; try done.
  split; simpl; by rewrite ?new_size, ?new_bytes.
Qed.
End Feed.

(** Whatever way the network cuts what a follower sends, the leader registers the
    follower of the handshake, hands the forwarded requests to its dispatcher in
    order and with the sessions they came with, and renews the sessions the
    follower reports; every event is handled in as many turns as it has bytes. *)
Lemma packages_arrive {B E : Type} `{FIFOBuffer B} `{!FIFOLaws B} `{ForwardHandlerEnv E} (OK CANCELLED : Z)
    chunks sid cid ps s0 c0 (e e1 e2 : E) :
  chunks_ok chunks → concat chunks.*2 = handshake_package sid cid ++ concat (package_bytes <$> ps) →
  in_s 32 sid → in_s 32 cid → Forall package_ok ps →
  fhe_registerForward sid cid e = (e1, Ret tt) →
  accept_all OK sid cid ps (fhe_sendAppendEntryResponse sid cid (plain_response Pkg_Handshake true OK) e1) = Some e2 →
  ∃ h : FHandler B, fh_events OK CANCELLED chunks (new_fhandler s0 c0) e = Some (Some h, e2) ∧
    fh_server_id h = sid ∧ fh_client_id h = cid ∧ fh_is_done h = true ∧ fh_body_buf h = None.
Proof.
  intros Hch Hcat Hs Hc Hps Hreg Ha.
  pose proof (fh_events_follow OK CANCELLED chunks (new_fhandler s0 c0 : FHandler B) e _ Hch (new_fhandler_holds s0 c0)) as Hev.
  rewrite Hcat, (feeds_handshake _ _ _ _ _ _ _ _ Hs Hc Hreg), (feeds_packages _ _ _ _ _ _ Hps Ha) in Hev.
  destruct (Hev ltac:(done)) as (r & Hr & h & -> & Hh). exists h. split; [exact Hr|].
  inversion Hh; subst; auto.
Qed.

(** C40: a forwarded request that the leader cannot read or put is not released: as
    long as there are bytes behind it the handler takes up the same request again
    and does not return from the event, whatever number of turns it is given. *)
Theorem refused_request_blocks {B E : Type} `{FIFOBuffer B} `{!FIFOLaws B} `{ForwardHandlerEnv E} (OK CANCELLED : Z)
    fuel recv (h : FHandler B) buf (e : E) input :
  receives recv → fh_is_done h = false → fh_protocol h = pkg_code Pkg_Data → fh_body_buf h = Some buf → isFull buf = true →
  (∀ e a, (fh_receiveRequest (fh_server_id h) (fh_client_id h) (fifo_bytes buf) e).2 ≠ Ret a) →
  input ≠ [] → fh_loop OK CANCELLED fuel recv h e input = None.
Proof.
  intros Hr Hd Hp Hb Hfull Hno Hin. destruct input as [|y input]; [done|]. clear Hin.
  revert h buf e Hd Hp Hb Hfull Hno. induction fuel as [|fuel IH]; intros h buf e Hd Hp Hb Hfull Hno; [done|]. cbn [fh_loop].
  unfold fh_turn. rewrite Hd, Hp. cbn [pkg_code Z.eqb Pos.eqb orb]. unfold package_turn. rewrite Hb. unfold body_turn.
  unfold isFull in Hfull. apply bool_decide_eq_true_1 in Hfull.
  destruct (receive_stage recv buf _ _ (y :: input) Hr eq_refl eq_refl ltac:(unfold fifo_used in Hfull; lia))
    as (k & b' & -> & Hs' & Hb' & Hk & _ & [[Hf Hl]|[_ Hl]]); unfold fifo_used in Hfull; rewrite length_app in Hl; [|lia].
  assert (k = 0%nat) as -> by (rewrite length_take in Hl; lia). rewrite take_0, app_nil_r in Hb'. rewrite Hf, Hb'. cbn [negb].
  unfold consume. cbn [fh_protocol set_fh_body fh_server_id fh_client_id]. rewrite Hp. cbn [pkg_code Z.eqb Pos.eqb drop].
  unfold mbind, ST_bind. pose proof (Hno e) as He.
  destruct (fh_receiveRequest _ _ _ e) as [e1 [a|x|]]; [by destruct (He a)| |];
    (apply (IH (set_fh_body (Some b') h) b'); simpl; [done|done|done|exact Hf|by rewrite Hb']).
Qed.

(** ** The answers of the leader *)

Section Answers.
Context {S : Type} `{SocketDelivers S}.

(** The follower receives a number of responses, each into a new one. *)
Fixpoint receive_all (OK : Z) (n : nat) (c : ForwardingConnection S) : ForwardingConnection S * option (list ForwardResponse) :=
  match n with
  | O => (c, Some [])
  | Datatypes.S n =>
      match fc_receive (forward_response_new OK) c with
      | (c, Ret (true, r)) => let '(c, o) := receive_all OK n c in (c, (r ::.) <$> o)
      | (c, _) => (c, None)
      end
  end.

Lemma receive_all_reads OK rs c rest :
  Forall forward_response_ok rs → connected c = true → incoming (fc_socket c) = concat (forward_response_write <$> rs) ++ rest →
  ∃ c', receive_all OK (length rs) c = (c', Some rs) ∧ incoming (fc_socket c') = rest.
Proof.
  intros Hrs. revert c. induction Hrs as [|r rs Hr _ IH]; intros c Hc Hin; [by exists c|].
  rewrite fmap_cons in Hin. cbn [concat] in Hin. rewrite <-(assoc_L (++)) in Hin.
  destruct (receive_fields_reads (fc_socket c) r (forward_response_new OK) _ Hr Hin) as (s' & E & Hin').
  destruct (IH (set_socket true s' c) eq_refl Hin') as (c' & E' & Hc'). exists c'. split; [|done].
  cbn [length receive_all]. unfold fc_receive. rewrite Hc, E. cbn [negb]. by rewrite E'.
Qed.
End Answers.

Definition responded {R} (evs : list (send_event R)) : list R :=
  omap (λ ev, match ev with Respond r => Some r | Ready => None end) evs.

Lemma response_bytes_responded {R} (enc : R → bytes) evs : response_bytes enc evs = concat (enc <$> responded evs).
Proof. unfold response_bytes. induction evs as [|[r|] evs IH]; simpl; [done| |done]. by rewrite IH. Qed.

Lemma responded_in {R} (evs : list (send_event R)) r : r ∈ responded evs → Respond r ∈ evs.
Proof. unfold responded. rewrite list_elem_of_omap. intros ([x|] & Hx & E); simplify_eq. done. Qed.


(** ** A follower of a dispatcher *)

Module ForwardDemo.
(** The answers on the connections. *)
Definition Outside : Type := list (Z * ForwardResponse).
#[global] Instance outside_env : DispatcherEnv unit Z Z Outside := {|
  de_isLeader _ := true;
  de_isLeaderAlive _ := true;
  de_append_entries _ o := (o, (true, 0));
  de_getLeaderClient _ _ := None;
  de_setLeaderClient _ _ o := o;
  de_respond _ _ o := (o, Ret tt);
  de_answer f r o := o ++ [(f, r)];
  de_server_shutdown o := o
|}.
Definition Server : Type := Dispatcher Z Z * Outside.

#[global] Instance server_forward_env : ForwardHandlerEnv Server := {|
  fhe_registerForward sid cid := λ '(d, o), let '(d, r) := registerForward (sid, cid) 100 d in ((d, o), r);
  fhe_unRegisterForward sid cid s := (unRegisterForward sid cid s.1, s.2);
  fhe_sendAppendEntryResponse := sendAppendEntryResponse;
  fhe_putForwardingRequest sid cid r session_id := λ '(d, o),
    match putForwardingRequest 1000 sid cid r session_id d with
    | Some (d, r) => ((d, o), r)
    | None => ((d, o), Throw TIMEOUT_EXCEEDED)
    end;
  fhe_handleRemoteSession session_id time := λ '(d, o),
    let w := d_world d in
    let '(st, r) := handleRemoteSession session_id time (w_store w) in
    ((set_d_world (mkWorld st (w_responses w) (w_turn w) (w_crashed w)) d, o), r)
|}.

Definition server : Server := (initialize 2 10 0 (mkWorld (KeeperStore_new 500 "") [] 0 false), []).
Definition create : ZooKeeperRequest := mkRequest 1 false (CreateRequest "/a" "x" false false []).
Definition ps : list package :=
  [Request (mkRFS 7 create 900 (-1) (-1)); Sessions [(7, 5000); (8, 6000)];
   Request (mkRFS 8 (mkRequest 2 false CloseRequest) 900 (-1) (-1))].
Definition stream : bytes := handshake_package 2 1 ++ concat (package_bytes <$> ps).

Definition all_there (room n : nat) : nat := Nat.min room n.
Definition one_byte (room n : nat) : nat := Nat.min 1 (Nat.min room n).
Definition chunks : list ((nat → nat → nat) * bytes) :=
  [(all_there, take 3 stream); (one_byte, take 30 (drop 3 stream)); (all_there, drop 33 stream)].

Lemma all_receives : receives all_there.
Proof. intros room n. unfold all_there. lia. Qed.

Lemma stream_fine : chunks_ok chunks.
Proof.
  assert (receives one_byte) as H2 by (intros room n; unfold one_byte; lia). pose proof all_receives.
  unfold chunks. repeat apply Forall_cons_2; try apply Forall_nil_2; (split; [assumption|vm_compute; discriminate]).
Qed.

Lemma ps_fine : Forall package_ok ps.
Proof.
  unfold ps. repeat apply Forall_cons_2; try apply Forall_nil_2; cbn [package_ok].
  - split_and!; [by vm_compute| |by vm_compute]. cbn. unfold vec_ok, string_ok, in_s. by split_and!.
  - split; [|by vm_compute]. repeat constructor; by vm_compute.
  - split_and!; [by vm_compute| |by vm_compute]. cbn. unfold in_s. by split_and!.
Qed.

Definition registered : Server := (fhe_registerForward 2 1 server).1.
Definition final : Server :=
  default server (accept_all 0 2 1 ps (fhe_sendAppendEntryResponse 2 1 (plain_response Pkg_Handshake true 0) registered)).

(** A socket as the bytes that wait in it. *)
#[global] Instance bytes_socket : SocketOps bytes := {|
  sock_connect s := (s, true);
  sock_write _ s := (s, true);
  sock_read n s := if bool_decide (n <= length s)%nat then (drop n s, Some (take n s)) else (s, None);
  sock_close s := s
|}.
#[global] Instance bytes_delivers : SocketDelivers bytes.
Proof.
  refine {| incoming s := s |}. intros n s bs rest -> <-. exists rest. split; [|done]. simpl.
  rewrite bool_decide_eq_true_2 by (rewrite length_app; lia). by rewrite drop_app_length, take_app_length.
Defined.

Definition result : ForwardResponse := mkForwardResponse (pkg_code Pkg_Result) false (-9) 7 1 Op_Create.
Definition evs : list (send_event ForwardResponse) :=
  [Respond (plain_response Pkg_Handshake true 0); Ready; Respond result; Respond (plain_response Pkg_Session true 0)].

Lemma answers_fine r : Respond r ∈ evs → forward_response_ok r.
Proof.
  intros Hr. unfold evs in Hr. rewrite !elem_of_cons, elem_of_nil in Hr.
  destruct Hr as [E|[E|[E|[E|E]]]]; try done; injection E as ->; by vm_compute.
Qed.

(** A handler with a request of an unknown operation in its buffer. *)
Definition stuck : FHandler ListBuffer.buffer :=
  mkFHandler (fifo_new 1) (fifo_new 4)
    (Some (ListBuffer.mkBuffer 16 (write_i64 7 ++ write_i32 1 ++ write_i32 77))) (pkg_code Pkg_Data) false 2 1.
End ForwardDemo.

Lemma refused_request_blocks_witness :
  fh_loop 0 (-1) 1000 ForwardDemo.all_there ForwardDemo.stuck ForwardDemo.server [Byte.x03] = None.
Proof.
  apply (refused_request_blocks 0 (-1) 1000 ForwardDemo.all_there ForwardDemo.stuck
    (ListBuffer.mkBuffer 16 (write_i64 7 ++ write_i32 1 ++ write_i32 77)) ForwardDemo.server [Byte.x03] ForwardDemo.all_receives
    eq_refl eq_refl eq_refl); [vm_compute; reflexivity| |discriminate].
  intros e a. vm_compute. discriminate.
Defined.

