(* ===== verification/ForwarderProps.v ===== *)
(** * From a follower to the leader

    The forwarder of a follower and the handler of the leader together: what is
    pushed on the follower arrives at the leader, in the order of the sessions. *)

From coqutil Require Import Word.LittleEndianList Byte.
From S2P Require Import Prelude Types ZkIO ZkCodec SessionExpiryQueue KeeperStore RequestsQueue RequestProcessor Pipeline RequestAccumulator Forwarding RequestForwarder KeeperDispatcher FifoBuffer ConnectionSend ForwardingHandler ForwardingProps.
From stdpp Require Import base gmap sets strings option list.
From Stdlib Require Import ZArith Lia.
Open Scope Z_scope.

(** A socket that connects and takes what is written; [sent] is what was written
    since it connected. *)
Class SocketAccepts (S : Type) `{SocketOps S} : Type := {
  sent : S → bytes;
  connect_accepts s : ∃ s', sock_connect s = (s', true) ∧ sent s' = [];
  write_accepts bs s : ∃ s', sock_write bs s = (s', true) ∧ sent s' = sent s ++ bs
}.

(** A connection that is set is the one that is found, and nothing else changes. *)
Class ForwarderLaws (S E : Type) `{ForwarderEnv S E} : Prop := {
  get_set_client r c (e : E) : fe_getLeaderClient r (fe_setLeaderClient r c e) = Some c;
  get_set_client_ne r r' c (e : E) : r ≠ r' → fe_getLeaderClient r (fe_setLeaderClient r' c e) = fe_getLeaderClient r e;
  set_client_leader r c (e : E) : fe_isLeader (fe_setLeaderClient r c e) = fe_isLeader e;
  set_client_alive r c (e : E) : fe_isLeaderAlive (fe_setLeaderClient r c e) = fe_isLeaderAlive e;
  set_client_sessions r c (e : E) : fe_localSessions (fe_setLeaderClient r c e) = fe_localSessions e
}.

Section Forwarder.
Context {S E : Type} `{SocketAccepts S} `{ForwarderEnv S E} `{!ForwarderLaws S E} (FAILED : Z).
Implicit Types (c : ForwardingConnection S) (e : E) (f : Forwarder).

(** ** One connection *)

(** The packages [ps] went over the connection since its handshake. *)
Definition carried c (ps : list package) : Prop :=
  if connected c then sent (fc_socket c) = handshake_package (my_server_id c) (thread_id c) ++ concat (package_bytes <$> ps)
  else ps = [].

Definition same_ids c c' : Prop := my_server_id c' = my_server_id c ∧ thread_id c' = thread_id c.

Lemma send_package_carries p c ps :
  carried c ps →
  ∃ c', send_package (package_bytes p) c = (c', Ret tt) ∧ same_ids c c' ∧ connected c' = true ∧ carried c' (ps ++ [p]).
Proof.
  intros Hc. unfold send_package, carried in *. destruct (connected c) eqn:Hcon.
  - rewrite Hcon. cbn [negb]. destruct (write_accepts (package_bytes p) (fc_socket c)) as (s' & -> & Hs').
    eexists. split; [done|]. split; [done|]. split; [done|]. cbn [connected fc_socket my_server_id thread_id set_socket].
    rewrite Hs', Hc, fmap_app, concat_app. change (concat (package_bytes <$> [p])) with (package_bytes p ++ []).
    by rewrite app_nil_r, <-(assoc_L (++)).
  - subst ps. unfold fc_connect. cbn [connect_tries].
    destruct (connect_accepts (fc_socket c)) as (s1 & -> & Hs1).
    destruct (write_accepts (handshake_package (my_server_id c) (thread_id c)) s1) as (s2 & -> & Hs2). cbn [connected set_socket negb].
    destruct (write_accepts (package_bytes p) s2) as (s3 & Hw & Hs3). cbn [fc_socket set_socket]. rewrite Hw.
    eexists. split; [done|]. split; [done|]. split; [done|]. cbn [connected fc_socket my_server_id thread_id set_socket].
    change (concat (package_bytes <$> [] ++ [p])) with (package_bytes p ++ []). by rewrite Hs3, Hs2, Hs1, app_nil_r.
Qed.

(** ** All connections *)

(** The requests among some packages. *)
Definition requests_of (ps : list package) : list RequestForSession :=
  omap (λ p, match p with Request x => Some x | Sessions _ => None end) ps.

Lemma requests_of_app ps ps' : requests_of (ps ++ ps') = requests_of ps ++ requests_of ps'.
Proof. apply omap_app. Qed.

(** A follower of a leader that is alive, with a connection for each runner. *)
Record following (n : nat) e : Prop := {
  fo_leader : fe_isLeader e = false;
  fo_alive : fe_isLeaderAlive e = true;
  fo_sessions : package_ok (Sessions (fe_localSessions e))
}.

(** The state after requests [xs] were pushed: each runner [r] has sent a
    beginning of those of its sessions and the rest is queued. *)
Record fw_inv (n : nat) (ids : nat → Z * Z) (xs : list RequestForSession) f e : Prop := {
  fi_following : following n e;
  fi_requests : Forall (λ x, package_ok (Request x)) xs;
  fi_queues : length (fw_queue f) = n;
  fi_open : rq_open (fw_queue f);
  fi_runners r : (r < n)%nat → ∃ c ps, fe_getLeaderClient r e = Some c ∧ (my_server_id c, thread_id c) = ids r ∧
    carried c ps ∧ Forall package_ok ps ∧
    requests_of ps ++ rq_items (fw_queue f) r = filter (λ x, queue_of n (rs_session_id x) = r) xs
}.

(** A runner sends one package. *)
Lemma inv_send n ids xs f e r p qs c c' ps :
  fw_inv n ids xs f e → (r < n)%nat → package_ok p → length qs = n → rq_open qs →
  (∀ k, k ≠ r → rq_items qs k = rq_items (fw_queue f) k) →
  requests_of [p] ++ rq_items qs r = rq_items (fw_queue f) r →
  fe_getLeaderClient r e = Some c → (my_server_id c, thread_id c) = ids r → carried c ps → Forall package_ok ps →
  requests_of ps ++ rq_items (fw_queue f) r = filter (λ x, queue_of n (rs_session_id x) = r) xs →
  same_ids c c' → carried c' (ps ++ [p]) →
  ∀ f', fw_queue f' = qs → fw_inv n ids xs f' (fe_setLeaderClient r c' e).
Proof.
  intros [[L1 L2 L3] Lx L4 L5 L6] Hr Hp Hlen Hopen Hne Heq Hget Hids Hcar Hps Hreq [Hi1 Hi2] Hcar' f' <-. split; [|done|done|done|].
  - split; [by rewrite set_client_leader|by rewrite set_client_alive|by rewrite set_client_sessions].
  - intros k Hk. destruct (decide (k = r)) as [->|Hkr].
    + exists c', (ps ++ [p]). split_and!; [apply get_set_client|by rewrite Hi1, Hi2|done|by apply Forall_app_2; [|apply Forall_singleton]|].
      by rewrite requests_of_app, <-(assoc_L (++)), Heq.
    + rewrite get_set_client_ne, Hne by done. by apply L6.
Qed.

Lemma forward_one_inv n ids xs f e r x qs :
  fw_inv n ids xs f e → (r < n)%nat → package_ok (Request x) → length qs = n → rq_open qs →
  (∀ k, k ≠ r → rq_items qs k = rq_items (fw_queue f) k) → x :: rq_items qs r = rq_items (fw_queue f) r →
  ∀ f', fw_queue f' = qs → fw_inv n ids xs f' (forward_one FAILED r x e).
Proof.
  intros Hinv Hr Hx Hlen Hopen Hne Heq f' Hf'. pose proof Hinv as [[L1 L2 _] _ _ _ L6].
  destruct (L6 r Hr) as (c & ps & Hget & Hids & Hcar & Hps & Hreq).
  unfold forward_one. rewrite L1, L2, Hget. cbn [negb andb].
  destruct (send_package_carries (Request x) c ps Hcar) as (c' & E1 & Hi & _ & Hcar'). unfold fc_send.
  change (data_package x) with (package_bytes (Request x)). rewrite E1.
  by eapply (inv_send n ids xs f e r (Request x) qs c c' ps).
Qed.

Lemma send_sessions_inv n ids xs f e r :
  fw_inv n ids xs f e → (r < n)%nat → fw_inv n ids xs f (send_sessions r e).
Proof.
  intros Hinv Hr. pose proof Hinv as [[L1 L2 L3] Lx L4 L5 L6].
  destruct (L6 r Hr) as (c & ps & Hget & Hids & Hcar & Hps & Hreq).
  unfold send_sessions. rewrite L1, L2, Hget. cbn [negb andb]. case_bool_decide; [done|].
  destruct (send_package_carries (Sessions (fe_localSessions e)) c ps Hcar) as (c' & E1 & Hi & _ & Hcar').
  unfold fc_sendSession. change (session_package (fe_localSessions e)) with (package_bytes (Sessions (fe_localSessions e))).
  rewrite E1. by eapply (inv_send n ids xs f e r (Sessions (fe_localSessions e)) (fw_queue f) c c' ps).
Qed.

(** ** Runs *)

(** A request is pushed, a runner takes a turn, or the rest of the server moves on;
    the server stays a follower and its connections are used by the runners only. *)
Inductive fw_step (n : nat) : Forwarder * E → list RequestForSession → Forwarder * E → Prop :=
| fw_step_push x f f' e : package_ok (Request x) → fw_push x f = Some f' → fw_step n (f, e) [x] (f', e)
| fw_step_run r elapsed f e f' e' :
    (r < n)%nat → fw_run_turn FAILED r elapsed (f, e) = ((f', e'), Ret tt) → fw_step n (f, e) [] (f', e')
| fw_step_env f e e' :
    following n e' → (∀ r, fe_getLeaderClient r e' = fe_getLeaderClient r e) → fw_step n (f, e) [] (f, e').

Inductive fw_steps (n : nat) : Forwarder * E → list RequestForSession → Forwarder * E → Prop :=
| fw_steps_nil s : fw_steps n s [] s
| fw_steps_snoc s1 s2 s3 xs ys : fw_steps n s1 xs s2 → fw_step n s2 ys s3 → fw_steps n s1 (xs ++ ys) s3.

Lemma run_turn_inv n ids xs r elapsed f e f' e' :
  fw_inv n ids xs f e → (r < n)%nat → fw_run_turn FAILED r elapsed (f, e) = ((f', e'), Ret tt) → fw_inv n ids xs f' e'.
Proof.
  intros Hinv Hr Hrun. unfold fw_run_turn in Hrun. destruct (fw_shutdown_called f); [by injection Hrun as <- <-|].
  destruct (rq_tryPop r (fw_queue f)) as [[qs o]|] eqn:Eq; [|done].
  pose proof Hinv as [L1 Lx L2 L3 L4]. apply rq_tryPop_spec in Eq as (Hlen & Hopen & Ho); [|done]. rewrite L2 in Hlen.
  set (e1 := match o with Some x => forward_one FAILED r x e | None => e end) in Hrun.
  assert (∀ f', fw_queue f' = qs → fw_inv n ids xs f' e1) as Hone.
  { intros f1 Hf1. unfold e1. destruct o as [x|].
    - destruct Ho as [Heq Hne]. apply (forward_one_inv n ids xs f e r x qs); try done.
      destruct (L4 r Hr) as (c & ps & _ & _ & _ & _ & Hreq).
      assert (x ∈ filter (λ x, queue_of n (rs_session_id x) = r) xs) as Hin 
        by (rewrite <-Hreq, Heq, elem_of_app, elem_of_cons; auto).
      rewrite list_elem_of_filter in Hin. rewrite Forall_forall in Lx. exact (Lx x (proj2 Hin)).
    - destruct Ho as [-> _]. split; rewrite ?Hf1; done. }
  destruct (_ && _); injection Hrun as <- <-; [apply send_sessions_inv; [|done]|]; by apply Hone.
Qed.

Lemma fw_step_inv n ids xs ys s s' :
  fw_inv n ids xs s.1 s.2 → fw_step n s ys s' → fw_inv n ids (xs ++ ys) s'.1 s'.2.
Proof.
  intros Hinv Hstep. destruct Hstep as [x f f' e Hx Hpush|r elapsed f e f' e' Hr Hrun|f e e' He Hget]; cbn [fst snd] in *.
  - unfold fw_push in Hpush. destruct (rq_push x (fw_queue f)) as [[qs b]|] eqn:Eq; [|done]. simpl in Hpush. injection Hpush as <-.
    destruct Hinv as [L1 Lx L2 L3 L4]. apply rq_push_spec in Eq as (_ & Hlen & Hopen & Hitems); [|done].
    split; simpl; [done|by apply Forall_app_2; [|apply Forall_singleton]|congruence|done|].
    intros r Hr. destruct (L4 r Hr) as (c & ps & G1 & G2 & G3 & G4 & G5). exists c, ps. split_and!; try done.
    rewrite Hitems, filter_app, <-G5, L2. destruct (decide (r = queue_of n (rs_session_id x))) as [->|Hne].
    + rewrite filter_cons_True by done. by rewrite (assoc_L (++)).
    + rewrite filter_cons_False by done. by rewrite app_nil_r.
  - rewrite app_nil_r. by eapply run_turn_inv.
  - rewrite app_nil_r. destruct Hinv as [L1 Lx L2 L3 L4]. split; try done. intros r Hr. rewrite Hget. by apply L4.
Qed.

Lemma fw_steps_inv n ids s xs s' :
  fw_steps n s xs s' → fw_inv n ids [] s.1 s.2 → fw_inv n ids xs s'.1 s'.2.
Proof. intros Hs. induction Hs as [|s1 s2 s3 xs ys _ IH Hstep]; intros Hinv; [done|]. by eapply fw_step_inv; [apply IH|]. Qed.

(** A new forwarder whose connections are not connected yet. *)
Lemma fw_initialize_inv n ids period e :
  following n e → (∀ r, (r < n)%nat → ∃ c, fe_getLeaderClient r e = Some c ∧ connected c = false ∧ (my_server_id c, thread_id c) = ids r) →
  fw_inv n ids [] (fw_initialize n period) e.
Proof.
  intros He Hc. split; simpl; [done|constructor|apply length_replicate|apply rq_new_open|].
  intros r Hr. destruct (Hc r Hr) as (c & Hget & Hcon & Hids). exists c, []. unfold carried. rewrite Hcon, rq_new_items.
  by split_and!.
Qed.
End Forwarder.


(** ** Two runners *)

Module ForwarderDemo.
Record out_socket : Type := mkOut { written_out : bytes }.
#[global] Instance out_socket_ops : SocketOps out_socket := {|
  sock_connect _ := (mkOut [], true);
  sock_write bs s := (mkOut (written_out s ++ bs), true);
  sock_read _ s := (s, None);
  sock_close s := s
|}.
#[global] Instance out_socket_accepts : SocketAccepts out_socket.
Proof. refine {| sent := written_out |}; intros; eexists; by split. Defined.

Definition Follower : Type := gmap nat (ForwardingConnection out_socket).
#[global] Instance follower_env : ForwarderEnv out_socket Follower := {|
  fe_isLeader _ := false;
  fe_isLeaderAlive _ := true;
  fe_getLeaderClient r e := e !! r;
  fe_setLeaderClient r c e := <[r := c]> e;
  fe_localSessions _ := [(7, 5000); (8, 6000)];
  fe_onError _ _ _ _ _ e := e
|}.
#[global] Instance follower_laws : ForwarderLaws out_socket Follower.
Proof. split; try done; intros; simpl; [apply lookup_insert_eq|by apply lookup_insert_ne]. Qed.

Definition ids (r : nat) : Z * Z := (2, Z.of_nat r).
Definition e0 : Follower := {[0%nat := mkFC 2 0 false (mkOut []); 1%nat := mkFC 2 1 false (mkOut [])]}.
Definition x1 : RequestForSession := mkRFS 7 ForwardDemo.create 900 (-1) (-1).
Definition x2 : RequestForSession := mkRFS 7 (mkRequest 2 false CloseRequest) 901 (-1) (-1).

Definition f1 : Forwarder := default (fw_initialize 2 500) (fw_push x1 (fw_initialize 2 500)).
Definition s2 := (fw_run_turn 0 1 1000 (f1, e0)).1.
Definition f3 : Forwarder := default f1 (fw_push x2 s2.1).
Definition s4 := (fw_run_turn 0 0 1000 (f3, s2.2)).1.
Definition s5 := (fw_run_turn 0 1 1000 (s4.1, s4.2)).1.

Lemma x_fine : package_ok (Request x1) ∧ package_ok (Request x2).
Proof.
  split; (split_and!; [by vm_compute| |by vm_compute]); cbn; unfold vec_ok, string_ok, in_s; by split_and!.
Qed.

Lemma follower_fine e : following (E := Follower) 2 e.
Proof. split; [done|done|]. split; [|by vm_compute]. repeat constructor; by vm_compute. Qed.

Lemma run : fw_steps 0 2 (fw_initialize 2 500, e0) [x1; x2] (s5.1, s5.2).
Proof.
  destruct x_fine as [Hx1 Hx2].
  apply (fw_steps_snoc 0 2 _ (s4.1, s4.2) _ [x1; x2] []); [|by apply (fw_step_run 0 2 1 1000); [lia|vm_compute]].
  apply (fw_steps_snoc 0 2 _ (f3, s2.2) _ [x1; x2] []); [|by apply (fw_step_run 0 2 0 1000); [lia|vm_compute]].
  apply (fw_steps_snoc 0 2 _ (s2.1, s2.2) _ [x1] [x2]); [|by apply fw_step_push].
  apply (fw_steps_snoc 0 2 _ (f1, e0) _ [x1] []); [|by apply (fw_step_run 0 2 1 1000); [lia|vm_compute]].
  apply (fw_steps_snoc 0 2 _ (fw_initialize 2 500, e0) _ [] [x1]); [constructor|by apply fw_step_push].
Qed.

Lemma clients_fine r : (r < 2)%nat →
  ∃ c, fe_getLeaderClient r e0 = Some c ∧ connected c = false ∧ (my_server_id c, thread_id c) = ids r.
Proof. intros Hr. destruct r as [|[|r]]; [| |lia]; eexists; (split; [vm_compute; reflexivity|]); by split. Qed.

Definition client : ForwardingConnection out_socket := default (mkFC 0 0 false (mkOut [])) (s5.2 !! 1%nat).
End ForwarderDemo.

