(* ===== verification/DataReader.v ===== *)
(** * Importing the files of a ZooKeeper server: src/Service/ZooKeeperDataReader.cpp

    The converter reads the latest snapshot of a ZooKeeper server into a new
    store and then applies the transactions of its logs. A file is the bytes it
    holds; a directory is the list of the files the iterator visits, each with
    its path. The reader works on the bytes left in the file and on the store,
    [ZR]; what the store reads from the clock is a function of the position in
    the file, since every call is made at a position of its own. *)

From S2P Require Import Prelude Types ZkIO ACLMap SessionExpiryQueue KeeperPaths KeeperNode KeeperStore.
From stdpp Require Import base gmap sets strings option sorting list.
From Stdlib Require Import ZArith Lia Ascii.
Open Scope Z_scope.

Abbreviation ZR := (ST (bytes * KeeperStore) exn).

Definition of_in {A} (r : reader A) : ZR A := λ '(b, s), let '(b', o) := r b in ((b', s), o).
Definition of_store {A} (m : STS A) : ZR A := λ '(b, s), let '(s', o) := m s in ((b, s'), o).

(** [in.count()] counts the bytes read; only differences of it are used, and
    they are differences of the bytes left. *)
Definition bytes_left : reader Z := λ b, (b, Ret (Z.of_nat (length b))).

(** [ReadBuffer::ignore(size_t n)] *)
Definition rb_ignore (n : Z) : reader unit := λ b,
  if Z.of_nat (length b) <? n then ([], Throw ATTEMPT_TO_READ_AFTER_EOF)
  else (drop (Z.to_nat n) b, Ret tt).

(** ** The number in a file name *)

Definition fs_filename (path : string) : string :=
  match rfind slash path with
  | None => path
  | Some k => String.substring (S k) (String.length path - S k) path
  end.

(** [std::filesystem::path::extension]: from the last dot of the file name,
    unless that is its first character. *)
Definition fs_extension (path : string) : string :=
  let name := fs_filename path in
  if bool_decide (name = "..") then ""
  else
    match rfind "."%char name with
    | None | Some O => ""
    | Some k => String.substring k (String.length name - k) name
    end.

Definition hex_digit (c : ascii) : option Z :=
  let n := Z.of_nat (nat_of_ascii c) in
  if (48 <=? n) && (n <=? 57) then Some (n - 48)
  else if (65 <=? n) && (n <=? 70) then Some (n - 55)
  else if (97 <=? n) && (n <=? 102) then Some (n - 87)
  else None.

(** [isspace] of the C locale. *)
Definition is_space (c : ascii) : bool :=
  let n := Z.of_nat (nat_of_ascii c) in (n =? 32) || ((9 <=? n) && (n <=? 13)).

Fixpoint skip_spaces (s : string) : string :=
  match s with
  | String c s' => if is_space c then skip_spaces s' else s
  | EmptyString => s
  end.

Fixpoint hex_value (v : Z) (s : string) : Z :=
  match s with
  | EmptyString => v
  | String c s' => match hex_digit c with Some d => hex_value (v * 16 + d) s' | None => v end
  end.

Definition skip_0x (s : string) : string :=
  match s with
  | String "0" (String x (String d s')) =>
      if (bool_decide (x = "x"%char) || bool_decide (x = "X"%char)) && bool_decide (is_Some (hex_digit d))
      then String d s' else s
  | _ => s
  end.

(** [strtoul(s, &end, 16)]: white space, a sign, [0x], the digits; a value out of
    range is [ULONG_MAX], and a minus sign negates in [unsigned long]. *)
Definition strtoul_16 (s : string) : Z :=
  let s := skip_spaces s in
  let '(negative, s) :=
    match s with
    | String "-" s' => (true, s')
    | String "+" s' => (false, s')
    | _ => (false, s)
    end in
  let v := hex_value 0 (skip_0x s) in
  if 2 ^ 64 <=? v then 2 ^ 64 - 1 else if negative : bool then u64 (- v) else v.

(** [extension.data() + 1] is past the end of an empty extension. *)
Definition getZxidFromName (path : string) : outcome exn Z :=
  match fs_extension path with
  | EmptyString => Crash
  | String _ digits => Ret (s64 (strtoul_16 digits))
  end.

(** ** The snapshot *)

Definition SNP_HEADER : Z := 1514885966.
Definition LOG_HEADER : Z := 1514884167.

Definition deserializeSnapshotMagic : reader unit :=
  magic_header ← read_i32;
  version ← read_i32;
  if negb (version =? 2) then throw NOT_IMPLEMENTED
  else
    _ ← read_i64;
    if negb (magic_header =? SNP_HEADER) then throw CORRUPTED_DATA else mret tt.

(** [while (count > 0) { ...; count--; }], the loop carrying a value. *)
Fixpoint countdown {S A} (count : nat) (body : A → ST S exn A) (a : A) : ST S exn A :=
  match count with
  | O => mret a
  | Datatypes.S count => a' ← body a; countdown count body a'
  end.

Section Reader.
Context (getSHA1 base64Encode : string → string).
(** The clock when that many bytes of the file are left. *)
Context (clock : Z → Z).

Definition read_session_timeout (max_session_id : Z) : ZR Z :=
  session_id ← of_in read_i64;
  timeout ← of_in read_i32;
  remaining ← of_in bytes_left;
  of_store (addSessionID (clock remaining) session_id timeout);;
  mret (Z.max session_id max_session_id).

Definition deserializeSessionAndTimeout : ZR Z :=
  count ← of_in read_i32;
  countdown (Z.to_nat count) read_session_timeout 0.

(** The number is an [int64_t] in the file and a [uint64_t] in the map. *)
Definition read_acl_mapping (_ : unit) : ZR unit :=
  map_index ← of_in read_i64;
  acls_len ← of_in read_i32;
  acls ← of_in (read_n read_ACL (Z.to_nat acls_len));
  of_store (modify (upd_acl (addMapping (u64 map_index) acls))).

Definition deserializeACLMap : ZR unit :=
  count ← of_in read_i32;
  countdown (Z.to_nat count) read_acl_mapping tt.

(** The fields of a node after its path. *)
Definition read_node : reader KeeperNode :=
  data ← read_string;
  _ ← read_uint 8;
  cz ← read_i64; mz ← read_i64; ct ← read_i64; mt ← read_i64;
  v ← read_i32; cv ← read_i32; av ← read_i32; eo ← read_i64; pz ← read_i64;
  mret (mkNode data 0 (negb (eo =? 0)) false
    (mkStat cz mz ct mt v cv av eo (s32 (Z.of_nat (String.length data))) 0 pz) ∅).

(** [container.emplace] and, for an ephemeral node, [ephemerals[owner].insert]. *)
Definition store_node (path : string) (n : KeeperNode) (s : KeeperStore) : KeeperStore :=
  let s := upd_container <[path := n]> s in
  if node_is_ephemeral n then
    upd_ephemerals (λ e, let sid := ephemeralOwner (node_stat n) in
      <[sid := {[path]} ∪ default ∅ (e !! sid)]> e) s
  else s.

(** [while (path != "/")]; a node without a path is read and dropped. An
    iteration reads at least one byte, which bounds the fuel. *)
Fixpoint storage_loop (fuel : nat) (path : string) (max_zxid : Z) : ZR Z :=
  if bool_decide (path = "/") then mret max_zxid
  else
    match fuel with
    | O => crash
    | S fuel =>
        n ← of_in read_node;
        (if bool_decide (path = "") then mret tt else of_store (modify (store_node path n)));;
        path' ← of_in read_string;
        storage_loop fuel path' (Z.max max_zxid (mzxid (node_stat n)))
    end.

Definition deserializeStorageData : ZR Z :=
  path ← of_in read_string;
  remaining ← of_in bytes_left;
  max_zxid ← storage_loop (S (Z.to_nat remaining)) path 0;
  of_store (buildPathChildren true);;
  mret max_zxid.

Definition deserializeKeeperStoreFromSnapshot (path : string) (file : bytes) : STS unit := λ s,
  let '((_, s'), o) :=
    (z ← lift (getZxidFromName path);
     of_in deserializeSnapshotMagic;;
     max_session_id ← deserializeSessionAndTimeout;
     of_store (modify (upd_counter (λ _, s64 (max_session_id + 1))));;
     deserializeACLMap;;
     deserializeStorageData;;
     of_store (modify (upd_zxid z))) (file, s) in
  (s', o).

(** ** Transactions *)

Definition deserializeLogMagic : reader unit :=
  magic_header ← read_i32;
  version ← read_i32;
  _ ← read_i64;
  if negb (magic_header =? LOG_HEADER) then throw CORRUPTED_DATA
  else if negb (version =? 2) then throw NOT_IMPLEMENTED
  else mret tt.

(** [ZooKeeperRequestPtr]: a null pointer, a request, or a multi-request, whose
    own requests may be null. *)
Inductive RequestPtr : Set :=
| nullptr
| request_ptr (b : RequestBody)
| multi_ptr (requests : list RequestPtr).

Definition deserializeCreateTxn : reader RequestPtr :=
  path ← read_string; data ← read_string; acls ← read_vec read_ACL;
  is_ephemeral ← read_bool; _ ← read_i32;
  mret (request_ptr (CreateRequest path data is_ephemeral false acls)).

Definition deserializeDeleteTxn : reader RequestPtr :=
  path ← read_string; mret (request_ptr (RemoveRequest path (-1))).

Definition deserializeSetTxn : reader RequestPtr :=
  path ← read_string; data ← read_string; version ← read_i32;
  mret (request_ptr (SetRequest path data (s32 (version - 1)))).

Definition deserializeCheckVersionTxn : reader RequestPtr :=
  path ← read_string; version ← read_i32;
  mret (request_ptr (CheckRequest path (s32 (version - 1)))).

(** [internal_id] and [server_id] stay uninitialised and are never read. *)
Definition deserializeCreateSession : reader RequestPtr :=
  timeout ← read_i32; mret (request_ptr (SessionIDRequest 0 timeout 0)).

Definition deserializeCloseSession (empty : bool) : reader RequestPtr :=
  (if empty then mret [] else read_vec read_string);;
  mret (request_ptr CloseRequest).

Definition deserializeErrorTxn : reader RequestPtr := _ ← read_i32; mret nullptr.

Definition deserializeSetACLTxn : reader RequestPtr :=
  path ← read_string; acls ← read_vec read_ACL; version ← read_i32;
  mret (request_ptr (SetACLRequest path acls (s32 (version - 1)))).

Definition deserializeMultiTxn (deserializeTxnImpl : reader RequestPtr) : reader RequestPtr :=
  length ← read_i32;
  requests ← read_n deserializeTxnImpl (Z.to_nat length);
  mret (multi_ptr requests).

(** Skip what is left of the [len] bytes that began when [before] bytes were left. *)
Definition skip_rest (len before : Z) : reader unit :=
  remaining ← bytes_left;
  let bytes_read := before - remaining in
  if bytes_read <? len then rb_ignore (len - bytes_read) else mret tt.

(** The switch on the type. *)
Definition txn_body (multi : reader RequestPtr) (log empty_txn : bool) (type : Z) : reader RequestPtr :=
  match type with
  | 1 => deserializeCreateTxn
  | 2 => deserializeDeleteTxn
  | 5 => deserializeSetTxn
  | 7 => deserializeSetACLTxn
  | 13 => deserializeCheckVersionTxn
  | 14 => multi
  | -10 => deserializeCreateSession
  | -11 => deserializeCloseSession empty_txn
  | -1 => deserializeErrorTxn
  | _ => if log then mret nullptr else throw NOT_IMPLEMENTED
  end.

(** The fuel bounds the nesting of multi-transactions; each level reads bytes. *)
Fixpoint deserializeTxnImpl (fuel : nat) (log subtxn : bool) (txn_length : Z) : reader RequestPtr :=
  match fuel with
  | O => crash
  | S fuel =>
      type ← read_i32;
      sub_txn_length ← (if subtxn then read_i32 else mret 0);
      let empty_txn := negb subtxn && (txn_length =? 32) in
      if empty_txn && negb (type =? -11) then throw NOT_IMPLEMENTED
      else
        in_count_before ← bytes_left;
        result ← txn_body (deserializeMultiTxn (deserializeTxnImpl fuel log true 0)) log empty_txn type;
        (if subtxn then skip_rest sub_txn_length in_count_before else mret tt);;
        mret result
  end.

Definition isErrorRequest (p : RequestPtr) : bool :=
  match p with nullptr => true | _ => false end.

Definition hasErrorsInMultiRequest (requests : list RequestPtr) : bool :=
  existsb isErrorRequest requests.

(** The requests of a multi-request. One that is itself a multi-request is
    refused for its type, so that the null pointers in it are never followed. *)
Fixpoint dereference (p : RequestPtr) : list ZooKeeperRequest :=
  match p with
  | nullptr => []
  | request_ptr b => [mkRequest 0 false b]
  | multi_ptr l => [mkRequest 0 false (MultiRequest (flat_map dereference l))]
  end.

(** [processRequest] with a queue of responses that is thrown away. *)
Definition process_txn (now session_id xid txn_zxid time : Z) (b : RequestBody) : STS unit := λ s,
  let '((s', _), o) :=
    processRequest getSHA1 base64Encode now (mkRequest xid false b) session_id time (Some txn_zxid)
      false true (s, []) in
  (s', o).

(** The second half of [deserializeTxn]. *)
Definition apply_txn (now session_id xid txn_zxid time : Z) (p : RequestPtr) : STS unit :=
  s ← get;
  if txn_zxid >? zxid s then
    match p with
    | nullptr => mret tt
    | request_ptr (SessionIDRequest _ session_timeout_ms _) =>
        getSessionID now session_timeout_ms;; mret tt
    | request_ptr b => process_txn now session_id xid txn_zxid time b
    | multi_ptr l =>
        if hasErrorsInMultiRequest l then mret tt
        else process_txn now session_id xid txn_zxid time (MultiRequest (flat_map dereference l))
    end
  else mret tt.

Definition deserializeTxn (log : bool) : ZR bool :=
  checksum ← of_in read_i64;
  if checksum =? 0 then mret false
  else
    txn_len ← of_in read_i32;
    count_before ← of_in bytes_left;
    session_id ← of_in read_i64;
    xid ← of_in read_i32;
    txn_zxid ← of_in read_i64;
    time ← of_in read_i64;
    request ← of_in (remaining ← bytes_left; deserializeTxnImpl (S (Z.to_nat remaining)) log false txn_len);
    of_in (skip_rest txn_len count_before);;
    remaining ← of_in bytes_left;
    of_store (apply_txn (clock remaining) session_id xid txn_zxid time request);;
    mret true.

(** [while (!reader.eof() && deserializeTxn(...))]: a transaction reads at least
    one byte, which bounds the fuel. *)
Fixpoint txn_loop (fuel : nat) : ZR unit :=
  eof ← of_in rb_eof;
  if eof : bool then mret tt
  else
    match fuel with
    | O => crash
    | S fuel =>
        more ← deserializeTxn true;
        if negb more then mret tt
        else
          forty_two ← of_in read_i8;
          if negb (forty_two =? 0x42) then throw NOT_IMPLEMENTED else txn_loop fuel
    end.

Definition deserializeLogAndApplyToStore (file : bytes) : STS unit := λ s,
  let '((_, s'), o) := (of_in deserializeLogMagic;; txn_loop (length file)) (file, s) in (s', o).
End Reader.

(** ** Directories *)

(** The files of a directory whose name has a prefix, by the number in the name:
    the [std::map] filled by the loop, in its order. *)
Fixpoint existing_files (prefix : string) (dir : list (string * bytes)) (m : gmap Z (string * bytes))
    : outcome exn (gmap Z (string * bytes)) :=
  match dir with
  | [] => Ret m
  | f :: dir =>
      if String.prefix prefix (fs_filename f.1) then
        match getZxidFromName f.1 with
        | Ret z => existing_files prefix dir (<[z := f]> m)
        | Throw e => Throw e
        | Crash => Crash
        end
      else existing_files prefix dir m
  end.

Definition by_zxid {A} (a b : Z * A) : Prop := a.1 <= b.1.
#[export] Instance by_zxid_dec {A} (a b : Z * A) : Decision (by_zxid a b).
Proof. unfold by_zxid. apply _. Defined.

Definition in_zxid_order {A} (m : gmap Z A) : list (Z * A) := merge_sort by_zxid (map_to_list m).

(** The loop over the logs, latest first: the last one taken is the first that
    begins before the store's zxid. *)
Fixpoint stored_files {A} (store_zxid : Z) (latest_first : list (Z * A)) : list A :=
  match latest_first with
  | [] => []
  | (z, f) :: logs => if z >=? store_zxid then f :: stored_files store_zxid logs else [f]
  end.

Section Directories.
Context (getSHA1 base64Encode : string → string).
(** The clock at each position of each file. *)
Context (clock : string → Z → Z).

Definition deserializeKeeperStoreFromSnapshotsDir (dir : list (string * bytes)) : STS unit :=
  existing_snapshots ← lift (existing_files "snapshot." dir ∅);
  match last (in_zxid_order existing_snapshots) with
  | Some (_, (path, file)) => deserializeKeeperStoreFromSnapshot (clock path) path file
  | None => throw CORRUPTED_DATA
  end.

Fixpoint apply_files (files : list (string * bytes)) : STS unit :=
  match files with
  | [] => mret tt
  | (path, file) :: files =>
      deserializeLogAndApplyToStore getSHA1 base64Encode (clock path) file;; apply_files files
  end.

Definition deserializeLogsAndApplyToStore (dir : list (string * bytes)) : STS unit :=
  existing_logs ← lift (existing_files "log." dir ∅);
  s ← get;
  apply_files (reverse (stored_files (zxid s) (reverse (in_zxid_order existing_logs)))).
End Directories.
