(* ===== verification/DataReaderLog.v ===== *)
(** * The transaction logs of a ZooKeeper server, read back

    The format of a log as ZooKeeper writes it, and what
    src/Service/ZooKeeperDataReader.cpp makes of it: every transaction of the
    files later than the snapshot is applied, in the order of the files, and the
    store stays consistent. *)

From S2P Require Import Prelude Types ZkIO ZkCodec ACLMap SessionExpiryQueue KeeperPaths KeeperNode KeeperStore StoreTree StoreInv StoreRequest DataReader.
From stdpp Require Import base gmap sets strings option sorting list.
From Stdlib Require Import ZArith Lia Ascii.
Open Scope Z_scope.

(** ** The format *)

Inductive TxnBody : Set :=
| CreateTxn (path data : string) (acls : ACLs) (ephemeral : bool) (parent_cversion : Z)
| DeleteTxn (path : string)
| SetDataTxn (path data : string) (version : Z)
| SetACLTxn (path : string) (acls : ACLs) (version : Z)
| CheckVersionTxn (path : string) (version : Z)
| CreateSessionTxn (timeout : Z)
| CloseSessionTxn (paths : list string)
| ErrorTxn (err : Z).

(** A transaction of a multi-transaction is followed by bytes its length counts
    and its type does not explain. *)
Inductive Txn : Set :=
| SimpleTxn (t : TxnBody)
| MultiTxn (ts : list (TxnBody * bytes))
| EmptyCloseTxn.

Definition body_type (t : TxnBody) : Z :=
  match t with
  | CreateTxn _ _ _ _ _ => 1 | DeleteTxn _ => 2 | SetDataTxn _ _ _ => 5 | SetACLTxn _ _ _ => 7
  | CheckVersionTxn _ _ => 13 | CreateSessionTxn _ => -10 | CloseSessionTxn _ => -11 | ErrorTxn _ => -1
  end.

Definition write_body (t : TxnBody) : bytes :=
  match t with
  | CreateTxn p d a e v =>
      write_string p ++ write_string d ++ write_vec write_ACL a ++ write_bool e ++ write_i32 v
  | DeleteTxn p => write_string p
  | SetDataTxn p d v => write_string p ++ write_string d ++ write_i32 v
  | SetACLTxn p a v => write_string p ++ write_vec write_ACL a ++ write_i32 v
  | CheckVersionTxn p v => write_string p ++ write_i32 v
  | CreateSessionTxn t => write_i32 t
  | CloseSessionTxn ps => write_vec write_string ps
  | ErrorTxn e => write_i32 e
  end.

Definition body_ok (t : TxnBody) : Prop :=
  match t with
  | CreateTxn p d a _ v => string_ok p ∧ string_ok d ∧ vec_ok ACL_ok a ∧ in_s 32 v
  | DeleteTxn p => string_ok p
  | SetDataTxn p d v => string_ok p ∧ string_ok d ∧ in_s 32 v
  | SetACLTxn p a v => string_ok p ∧ vec_ok ACL_ok a ∧ in_s 32 v
  | CheckVersionTxn p v => string_ok p ∧ in_s 32 v
  | CreateSessionTxn t => in_s 32 t
  | CloseSessionTxn ps => vec_ok string_ok ps
  | ErrorTxn e => in_s 32 e
  end.

(** The request that repeats a transaction. *)
Definition body_request (t : TxnBody) : RequestPtr :=
  match t with
  | CreateTxn p d a e _ => request_ptr (CreateRequest p d e false a)
  | DeleteTxn p => request_ptr (RemoveRequest p (-1))
  | SetDataTxn p d v => request_ptr (SetRequest p d (s32 (v - 1)))
  | SetACLTxn p a v => request_ptr (SetACLRequest p a (s32 (v - 1)))
  | CheckVersionTxn p v => request_ptr (CheckRequest p (s32 (v - 1)))
  | CreateSessionTxn t => request_ptr (SessionIDRequest 0 t 0)
  | CloseSessionTxn _ => request_ptr CloseRequest
  | ErrorTxn _ => nullptr
  end.

Definition len_i32 (b : bytes) : bytes := write_i32 (Z.of_nat (length b)).
Definition len_ok (b : bytes) : Prop := Z.of_nat (length b) < 2 ^ 31.

Definition write_sub (x : TxnBody * bytes) : bytes :=
  write_i32 (body_type x.1) ++ len_i32 (write_body x.1 ++ x.2) ++ write_body x.1 ++ x.2.
Definition sub_ok (x : TxnBody * bytes) : Prop := body_ok x.1 ∧ len_ok (write_body x.1 ++ x.2).

Definition write_txn (t : Txn) : bytes :=
  match t with
  | SimpleTxn t => write_i32 (body_type t) ++ write_body t
  | MultiTxn ts => write_i32 14 ++ write_i32 (Z.of_nat (length ts)) ++ mjoin (write_sub <$> ts)
  | EmptyCloseTxn => write_i32 (-11)
  end.

Definition txn_request (t : Txn) : RequestPtr :=
  match t with
  | SimpleTxn t => body_request t
  | MultiTxn ts => multi_ptr (body_request <$> ts.*1)
  | EmptyCloseTxn => request_ptr CloseRequest
  end.

Record TxnRecord : Set := mkTxn {
  t_checksum : Z;
  t_session : Z;
  t_xid : Z;
  t_zxid : Z;
  t_time : Z;
  t_txn : Txn;
  t_tail : bytes
}.

(** The transaction with its header and its tail, which the length counts. *)
Definition write_signed (r : TxnRecord) : bytes :=
  write_i64 (t_session r) ++ write_i32 (t_xid r) ++ write_i64 (t_zxid r) ++ write_i64 (t_time r)
  ++ write_txn (t_txn r) ++ t_tail r.
Definition write_record (r : TxnRecord) : bytes :=
  write_i64 (t_checksum r) ++ len_i32 (write_signed r) ++ write_signed r ++ write_i8 0x42.

Record record_ok (r : TxnRecord) : Prop := {
  rk_checksum : in_s 64 (t_checksum r) ∧ t_checksum r ≠ 0;
  rk_session : in_s 64 (t_session r);
  rk_xid : in_s 32 (t_xid r);
  rk_zxid : in_s 64 (t_zxid r);
  rk_time : in_s 64 (t_time r);
  rk_length : len_ok (write_signed r);
  rk_txn :
    match t_txn r with
    | SimpleTxn t => body_ok t
    | MultiTxn ts => Forall sub_ok ts ∧ Z.of_nat (length ts) < 2 ^ 31
    | EmptyCloseTxn => t_tail r = []
    end
}.

(** A log is preallocated: the file ends after a transaction or in zeros. *)
Definition padding (pad : bytes) : Prop := pad = [] ∨ ∃ junk, pad = write_i64 0 ++ junk.

Definition write_log (dbid : Z) (rs : list TxnRecord) (pad : bytes) : bytes :=
  (write_i32 LOG_HEADER ++ write_i32 2 ++ write_i64 dbid) ++ mjoin (write_record <$> rs) ++ pad.

(** ** Reading one transaction *)

Lemma len_i32_range b : len_ok b → in_s 32 (Z.of_nat (length b)).
Proof. unfold len_ok, in_s. change (2 ^ (32 - 1)) with (2 ^ 31). lia. Qed.

Lemma reads_body multi log t :
  body_ok t → reads (txn_body multi log false (body_type t)) (write_body t) (body_request t).
Proof.
  destruct t; cbn [body_ok body_type txn_body write_body body_request]; intros H; destruct_and?;
    unfold deserializeCreateTxn, deserializeDeleteTxn, deserializeSetTxn, deserializeSetACLTxn,
      deserializeCheckVersionTxn, deserializeCreateSession, deserializeCloseSession,
      deserializeErrorTxn; cbn iota; solve_reads.
  by apply (reads_last _ (λ _, request_ptr CloseRequest) _ paths), reads_strings.
Qed.

Lemma skip_rest_spec p junk rest :
  skip_rest (Z.of_nat (length (p ++ junk))) (Z.of_nat (length (p ++ junk ++ rest))) (junk ++ rest)
  = (rest, Ret tt).
Proof.
  unfold skip_rest, mbind, ST_bind, bytes_left. rewrite !length_app.
  case_match eqn:E; rewrite ?Z.ltb_lt, ?Z.ltb_ge in E.
  - unfold rb_ignore. replace (_ <? _) with false by (symmetry; apply Z.ltb_ge; rewrite ?length_app; lia).
    rewrite drop_app_length' by lia. done.
  - destruct junk; [done|]. cbn [length] in E. lia.
Qed.

Lemma body_type_range t : in_s 32 (body_type t).
Proof. unfold in_s. change (2 ^ (32 - 1)) with 2147483648. destruct t; cbn; lia. Qed.

Lemma reads_sub fuel log x :
  sub_ok x → reads (deserializeTxnImpl (S fuel) log true 0) (write_sub x) (body_request x.1).
Proof.
  destruct x as [t junk]. intros [Ht Hl] rest. unfold write_sub, len_i32. cbn [fst snd deserializeTxnImpl] in *.
  rewrite <-!app_assoc.
  rewrite (bind_Ret _ _ _ _ _ (reads_i32 _ (body_type_range t) _)).
  rewrite (bind_Ret _ _ _ _ _ (reads_i32 _ (len_i32_range _ Hl) _)). cbn [negb andb].
  unfold bytes_left at 1. erewrite bind_Ret; [|reflexivity].
  rewrite (bind_Ret _ _ _ _ _ (reads_body _ log t Ht _)).
  by rewrite (bind_Ret _ _ _ _ _ (skip_rest_spec _ _ _)).
Qed.

Lemma length_write_body t : (0 < length (write_body t))%nat.
Proof.
  destruct t; cbn [write_body]; unfold write_string, write_vec, write_i32;
    rewrite ?length_app, length_write_int; lia.
Qed.

(** The length of a signed transaction is that of an empty one only for an
    empty one. *)
Lemma signed_length r :
  record_ok r →
  (Z.of_nat (length (write_signed r)) =? 32) = match t_txn r with EmptyCloseTxn => true | _ => false end.
Proof.
  intros Hr. pose proof (rk_txn _ Hr) as Ht. unfold write_signed, write_i64, write_i32.
  rewrite !length_app, !length_write_int.
  destruct (t_txn r) as [t|ts|]; cbn [write_txn]; unfold write_i32; rewrite ?length_app, !length_write_int.
  - pose proof (length_write_body t). apply Z.eqb_neq. lia.
  - apply Z.eqb_neq. lia.
  - by rewrite Ht.
Qed.

Lemma reads_multi_txn fuel log ts :
  Forall sub_ok ts → Z.of_nat (length ts) < 2 ^ 31 →
  reads (deserializeMultiTxn (deserializeTxnImpl (S fuel) log true 0))
    (write_i32 (Z.of_nat (length ts)) ++ mjoin (write_sub <$> ts)) (multi_ptr (body_request <$> ts.*1)).
Proof.
  intros Hts Hlen. unfold deserializeMultiTxn. eapply reads_bind.
  { apply reads_i32. unfold in_s. change (2 ^ (32 - 1)) with (2 ^ 31). lia. }
  rewrite Nat2Z.id. apply (reads_last _ multi_ptr). clear Hlen.
  induction Hts as [|x ts Hx _ IH]; [apply reads_mret|]. cbn [length fmap list_fmap mjoin list_join].
  eapply reads_bind; [by apply reads_sub|]. by apply (reads_last _ (λ l, body_request x.1 :: l)).
Qed.

Lemma reads_top fuel log len type body a :
  in_s 32 type → (len =? 32) && negb (type =? -11) = false →
  reads (txn_body (deserializeMultiTxn (deserializeTxnImpl fuel log true 0)) log (len =? 32) type) body a →
  reads (deserializeTxnImpl (S fuel) log false len) (write_i32 type ++ body) a.
Proof.
  intros Ht He Hb rest. cbn [deserializeTxnImpl]. rewrite <-app_assoc.
  rewrite (bind_Ret _ _ _ _ _ (reads_i32 _ Ht _)). erewrite bind_Ret by reflexivity.
  cbn [negb andb]. rewrite He. erewrite bind_Ret by reflexivity.
  rewrite (bind_Ret _ _ _ _ _ (Hb _)). by erewrite bind_Ret by reflexivity.
Qed.

Lemma reads_txn fuel log r :
  record_ok r →
  reads (deserializeTxnImpl (S (S fuel)) log false (Z.of_nat (length (write_signed r))))
    (write_txn (t_txn r)) (txn_request (t_txn r)).
Proof.
  intros Hr. pose proof (rk_txn _ Hr) as Ht. pose proof (signed_length r Hr) as El.
  destruct (t_txn r) as [t|ts|]; cbn [write_txn txn_request].
  - apply reads_top; [apply body_type_range|by rewrite El|]. rewrite El. by apply reads_body.
  - apply reads_top; [done|by rewrite El|]. rewrite El. destruct Ht. by apply reads_multi_txn.
  - rewrite <-(app_nil_r (write_i32 (-11))). apply reads_top; [done|by rewrite El|].
    rewrite El. by intros rest.
Qed.

(** With the fuel [deserializeTxn] gives it. *)
Lemma txn_read log r rest :
  record_ok r →
  (remaining ← bytes_left;
   deserializeTxnImpl (S (Z.to_nat remaining)) log false (Z.of_nat (length (write_signed r))))
    (write_txn (t_txn r) ++ rest) = (rest, Ret (txn_request (t_txn r))).
Proof.
  intros Hr. erewrite bind_Ret by reflexivity. rewrite Nat2Z.id.
  destruct (length (write_txn (t_txn r) ++ rest)) as [|n] eqn:En; [|by apply reads_txn].
  exfalso. revert En. destruct (t_txn r); cbn [write_txn]; unfold write_i32;
    rewrite !length_app, length_write_int; lia.
Qed.

(** ** Reading a log *)

Lemma of_in_reads {A} (r : reader A) bs a rest s :
  reads r bs a → of_in r (bs ++ rest, s) = ((rest, s), Ret a).
Proof. intros H. unfold of_in. by rewrite H. Qed.

Lemma of_in_eq {A} (r : reader A) b b' o s : r b = (b', o) → of_in r (b, s) = ((b', s), o).
Proof. intros H. unfold of_in. by rewrite H. Qed.

Section Log.
Context (getSHA1 base64Encode : string → string) (clock : Z → Z).

Abbreviation apply_txn := (apply_txn getSHA1 base64Encode).
Abbreviation deserializeTxn := (deserializeTxn getSHA1 base64Encode clock).
Abbreviation txn_loop := (txn_loop getSHA1 base64Encode clock).

(** What the transactions of a log mean: each is applied at the time its
    successor is next to be read. *)
Definition apply_record (now : Z) (r : TxnRecord) : STS unit :=
  apply_txn now (t_session r) (t_xid r) (t_zxid r) (t_time r) (txn_request (t_txn r)).

Fixpoint apply_records (rs : list TxnRecord) (pad : bytes) : STS unit :=
  match rs with
  | [] => mret tt
  | r :: rs =>
      apply_record (clock (Z.of_nat (length (write_i8 0x42 ++ mjoin (write_record <$> rs) ++ pad)))) r;;
      apply_records rs pad
  end.

Lemma write_signed_app r rest :
  write_signed r ++ rest =
  write_i64 (t_session r) ++ write_i32 (t_xid r) ++ write_i64 (t_zxid r) ++ write_i64 (t_time r)
  ++ write_txn (t_txn r) ++ t_tail r ++ rest.
Proof. unfold write_signed. by rewrite <-!app_assoc. Qed.

Lemma skip_tail r rest :
  skip_rest (Z.of_nat (length (write_signed r))) (Z.of_nat (length (write_signed r ++ rest)))
    (t_tail r ++ rest) = (rest, Ret tt).
Proof. unfold write_signed. rewrite !app_assoc, <-(app_assoc _ (t_tail r) rest). apply skip_rest_spec. Qed.

Lemma deserializeTxn_record r rest s :
  record_ok r →
  deserializeTxn true (write_i64 (t_checksum r) ++ len_i32 (write_signed r) ++ write_signed r ++ rest, s) =
    let '(s', o) := apply_record (clock (Z.of_nat (length rest))) r s in
    ((rest, s'), match o with Ret _ => Ret true | Throw e => Throw e | Crash => Crash end).
Proof.
  intros Hr. pose proof Hr as [[Hc Hc0] Hs Hx Hz Ht Hl _]. unfold DataReader.deserializeTxn.
  rewrite (bind_Ret _ _ _ _ _ (of_in_reads _ _ _ _ _ (reads_i64 _ Hc))).
  rewrite (proj2 (Z.eqb_neq _ _) Hc0).
  rewrite (bind_Ret _ _ _ _ _ (of_in_reads _ _ _ _ _ (reads_i32 _ (len_i32_range _ Hl)))).
  erewrite bind_Ret by (apply of_in_eq; reflexivity).
  set (before := length (write_signed r ++ rest)).
  rewrite write_signed_app.
  rewrite (bind_Ret _ _ _ _ _ (of_in_reads _ _ _ _ _ (reads_i64 _ Hs))).
  rewrite (bind_Ret _ _ _ _ _ (of_in_reads _ _ _ _ _ (reads_i32 _ Hx))).
  rewrite (bind_Ret _ _ _ _ _ (of_in_reads _ _ _ _ _ (reads_i64 _ Hz))).
  rewrite (bind_Ret _ _ _ _ _ (of_in_reads _ _ _ _ _ (reads_i64 _ Ht))).
  rewrite (bind_Ret _ _ _ _ _ (of_in_eq _ _ _ _ _ (txn_read true r _ Hr))).
  rewrite (bind_Ret _ _ _ _ _ (of_in_eq _ _ _ _ _ (skip_tail r rest))).
  erewrite bind_Ret by (apply of_in_eq; reflexivity).
  unfold of_store, mbind, ST_bind, apply_record. by destruct (apply_txn _ _ _ _ _ _ s) as [s' [[]|e|]].
Qed.
Lemma txn_loop_records rs pad : Forall record_ok rs → padding pad →
  ∀ fuel s, (length rs < fuel)%nat →
  let '((_, s'), o) := txn_loop fuel (mjoin (write_record <$> rs) ++ pad, s) in
  (s', o) = apply_records rs pad s.
Proof.
  intros Hrs Hpad. induction Hrs as [|r rs Hr _ IH]; intros [|fuel] s Hf; cbn [length] in Hf; try lia.
  - destruct Hpad as [->|[junk ->]]; [done|]. cbn [fmap list_fmap mjoin list_join app].
    cbn [DataReader.txn_loop]. erewrite bind_Ret by (apply of_in_eq; reflexivity).
    rewrite bool_decide_eq_false_2 by (by vm_compute). unfold DataReader.deserializeTxn.
    rewrite bind_assoc, (bind_Ret _ _ _ _ _ (of_in_reads _ _ _ _ _ (reads_i64 0 ltac:(done)))). done.
  - cbn [fmap list_fmap mjoin list_join]. unfold write_record at 1. rewrite <-!app_assoc.
    cbn [DataReader.txn_loop]. erewrite bind_Ret by (apply of_in_eq; reflexivity).
    rewrite bool_decide_eq_false_2.
    2:{ intros E%(f_equal length). rewrite length_app in E. unfold write_i64 in E. rewrite length_write_int in E. done. }
    pose proof (deserializeTxn_record r (write_i8 0x42 ++ mjoin (write_record <$> rs) ++ pad) s Hr) as E.
    cbn [apply_records]. destruct (apply_record _ r s) as [s1 [[]|e|]] eqn:Ea; cbn beta iota zeta in E.
    2: by rewrite (bind_Throw _ _ _ _ _ E), (bind_Throw _ _ _ _ _ Ea).
    2: by rewrite (bind_Crash _ _ _ _ E), (bind_Crash _ _ _ _ Ea).
    rewrite (bind_Ret _ _ _ _ _ E), (bind_Ret _ _ _ _ _ Ea). cbn [negb].
    rewrite (bind_Ret _ _ _ _ _ (of_in_reads _ _ _ _ _ (reads_i8 0x42 ltac:(done)))). cbn [Z.eqb Pos.eqb negb].
    apply IH. lia.
Qed.

Lemma log_applied dbid rs pad s :
  in_s 64 dbid → Forall record_ok rs → padding pad →
  deserializeLogAndApplyToStore getSHA1 base64Encode clock (write_log dbid rs pad) s = apply_records rs pad s.
Proof.
  intros Hd Hrs Hpad. unfold deserializeLogAndApplyToStore.
  assert (reads deserializeLogMagic (write_i32 LOG_HEADER ++ write_i32 2 ++ write_i64 dbid) tt) as Hm.
  { unfold deserializeLogMagic. eapply reads_bind; [by apply reads_i32|].
    eapply reads_bind; [by apply reads_i32|]. by apply (reads_last _ (λ _, tt) _ dbid), reads_i64. }
  unfold write_log at 2. rewrite (bind_Ret _ _ _ _ _ (of_in_reads _ _ _ _ _ Hm)).
  pose proof (txn_loop_records rs pad Hrs Hpad (length (write_log dbid rs pad)) s) as H.
  destruct (txn_loop _ _) as [[b' s'] o]. apply H. clear.
  unfold write_log, write_i32, write_i64. rewrite !length_app, !length_write_int.
  enough (length rs ≤ length (mjoin (write_record <$> rs)))%nat by lia.
  induction rs as [|r rs IH]; [done|].
  change (mjoin (write_record <$> r :: rs)) with (write_record r ++ mjoin (write_record <$> rs)).
  cbn [length]. assert (length (write_record r) ≠ 0)%nat; [|rewrite length_app; lia].
  unfold write_record, write_i64. rewrite length_app, length_write_int. lia.
Qed.
(** A transaction the store has seen already changes nothing. *)
Lemma apply_record_old now r s : t_zxid r <= zxid s → apply_record now r s = (s, Ret tt).
Proof.
  intros H. unfold apply_record, DataReader.apply_txn. erewrite bind_Ret by reflexivity.
  by rewrite Z.gtb_ltb, (proj2 (Z.ltb_ge _ _) H).
Qed.

Lemma apply_records_old rs pad s :
  Forall (λ r, t_zxid r <= zxid s) rs → apply_records rs pad s = (s, Ret tt).
Proof.
  induction 1 as [|r rs Hr _ IH]; [done|]. cbn [apply_records].
  by rewrite (bind_Ret _ _ _ _ _ (apply_record_old _ r s Hr)).
Qed.

(** The requests of a transaction are ones a client may send. *)
Definition txn_valid (t : Txn) : bool :=
  match txn_request t with
  | nullptr => true
  | request_ptr b => one_valid (mkRequest 0 false b)
  | multi_ptr l => forallb one_valid (flat_map dereference l)
  end.

Lemma process_txn_wf now sid xid z time b s s' o :
  store_wf s → request_valid (mkRequest xid false b) = true → seqnum_target (mkRequest xid false b) s →
  process_txn getSHA1 base64Encode now sid xid z time b s = (s', o) → store_wf s' ∧ o ≠ Crash.
Proof.
  intros Hs Hv Ht. unfold process_txn.
  destruct (processRequest _ _ _ _ _ _ _ _ _ _) as [[s1 q1] o1] eqn:E. intros [= <- <-].
  by destruct (processRequest_keeps _ _ _ _ _ _ _ _ _ Hv _ _ _ _ _ (conj Hs Ht) E) as [[? _] ?].
Qed.

Lemma apply_record_wf now r s s' o :
  store_wf s → txn_valid (t_txn r) = true → apply_record now r s = (s', o) → store_wf s' ∧ o ≠ Crash.
Proof.
  intros Hs Hv. unfold apply_record, DataReader.apply_txn. erewrite bind_Ret by reflexivity.
  destruct (t_zxid r >? zxid s); [|by intros [= <- <-]]. unfold txn_valid in Hv.
  destruct (t_txn r) as [t|ts|]; cbn [txn_request] in *.
  - destruct t; cbn [body_request] in *; try (apply process_txn_wf; solve [done|exact I]).
    + destruct (getSessionID_wf now timeout s Hs) as (s1 & E & Hs1 & _).
      rewrite (bind_Ret _ _ _ _ _ E). by intros [= <- <-].
    + by intros [= <- <-].
  - destruct (hasErrorsInMultiRequest _); [by intros [= <- <-]|]. apply process_txn_wf; [done|exact Hv|exact I].
  - by apply process_txn_wf.
Qed.

Lemma apply_records_wf rs pad s s' o :
  store_wf s → Forall (λ r, txn_valid (t_txn r) = true) rs → apply_records rs pad s = (s', o) →
  store_wf s' ∧ o ≠ Crash.
Proof.
  intros Hs Hrs. revert s Hs. induction Hrs as [|r rs Hr _ IH]; intros s Hs; cbn [apply_records].
  { by intros [= <- <-]. }
  set (now := clock _). destruct (apply_record now r s) as [s1 o1] eqn:E.
  destruct (apply_record_wf _ _ _ _ _ Hs Hr E) as [Hs1 Ho].
  destruct o1 as [[]|e|]; [rewrite (bind_Ret _ _ _ _ _ E); by apply IH| |done].
  rewrite (bind_Throw _ _ _ _ _ E). by intros [= <- <-].
Qed.
End Log.

(** ** The directory of logs *)

Record LogFile : Set := mkLogFile {
  lf_path : string;
  lf_zxid : Z;
  lf_dbid : Z;
  lf_records : list TxnRecord;
  lf_pad : bytes
}.

Definition lf_file (f : LogFile) : string * bytes :=
  (lf_path f, write_log (lf_dbid f) (lf_records f) (lf_pad f)).
Definition lf_entry (f : LogFile) : Z * (string * bytes) := (lf_zxid f, lf_file f).

Record lf_ok (f : LogFile) : Prop := {
  lk_name : getZxidFromName (lf_path f) = Ret (lf_zxid f);
  lk_dbid : in_s 64 (lf_dbid f);
  lk_records : Forall record_ok (lf_records f);
  lk_pad : padding (lf_pad f)
}.

(** A file is named by a zxid above every transaction of the files before it. *)
Definition lf_before (f g : LogFile) : Prop :=
  lf_zxid f < lf_zxid g ∧ Forall (λ r, t_zxid r < lf_zxid g) (lf_records f).

(** The files of [dir] whose name begins with [prefix]. *)
Definition named (prefix : string) (dir : list (string * bytes)) : list (string * bytes) :=
  filter (λ f, String.prefix prefix (fs_filename f.1) = true) dir.

Definition number_of (path : string) : Z :=
  match getZxidFromName path with Ret z => z | _ => 0 end.

Lemma existing_files_named prefix dir m :
  Forall (λ f, getZxidFromName f.1 = Ret (number_of f.1)) (named prefix dir) →
  existing_files prefix dir m =
    Ret (foldl (λ m f, <[number_of f.1 := f]> m) m (named prefix dir)).
Proof.
  revert m. induction dir as [|f dir IH]; intros m H; [done|]. unfold named in *.
  cbn [existing_files]. rewrite filter_cons in H |- *. destruct (String.prefix _ _) eqn:Ep.
  - rewrite decide_True in H |- * by done. apply Forall_cons in H as [Hf H].
    rewrite Hf. by apply IH.
  - rewrite decide_False in H |- * by done. by apply IH.
Qed.

Lemma foldl_insert_map {A} (k : A → Z) (l : list A) :
  foldl (λ m a, <[k a := a]> m) (∅ : gmap Z A) l = list_to_map (reverse ((λ a, (k a, a)) <$> l)).
Proof.
  induction l as [|a l IH] using rev_ind; [done|].
  rewrite foldl_app, IH, fmap_app, reverse_app. done.
Qed.

Lemma sorted_keys {F A} (num : F → Z) (val : F → A) fs :
  StronglySorted (λ f g, num f < num g) fs →
  NoDup ((λ f, (num f, val f)) <$> fs).*1 ∧ StronglySorted by_zxid ((λ f, (num f, val f)) <$> fs).
Proof.
  induction 1 as [|f fs _ [IH1 IH2] Hf]; [split; constructor|]. cbn. rewrite Forall_forall in Hf. split.
  - constructor; [|done]. rewrite <-list_fmap_compose. intros (g & E & Hg)%list_elem_of_fmap.
    specialize (Hf g Hg). cbn in E. lia.
  - constructor; [done|]. apply Forall_forall. intros x (g & -> & Hg)%list_elem_of_fmap.
    specialize (Hf g Hg). unfold by_zxid. cbn. lia.
Qed.

#[export] Instance by_zxid_total {A} : Total (by_zxid (A := A)).
Proof. intros x y. unfold by_zxid. lia. Qed.
#[export] Instance by_zxid_transitive {A} : Transitive (by_zxid (A := A)).
Proof. intros x y z. unfold by_zxid. lia. Qed.

Lemma in_zxid_order_sorted {A} (l : list (Z * A)) :
  NoDup l.*1 → StronglySorted by_zxid l → in_zxid_order (list_to_map l) = l.
Proof.
  intros Hnd Hs. pose proof (map_to_list_to_map l Hnd) as Hp.
  eapply (StronglySorted_unique_strong by_zxid).
  - intros [k x] [j y] Hx Hy Hxy Hyx. unfold by_zxid in *. cbn in *. assert (k = j) as -> by lia.
    unfold in_zxid_order in Hx. rewrite merge_sort_Permutation, Hp in Hx.
    f_equal. apply elem_of_list_to_map_1 in Hx, Hy; [congruence|done..].
  - apply (StronglySorted_merge_sort by_zxid).
  - done.
  - unfold in_zxid_order. by rewrite merge_sort_Permutation.
Qed.

(** Whatever order the directory lists them in, the files come out by number. *)
Lemma existing_files_sorted {F} (path_file : F → string * bytes) (num : F → Z) prefix dir (fs : list F) :
  named prefix dir ≡ₚ path_file <$> fs →
  Forall (λ f, getZxidFromName (path_file f).1 = Ret (num f)) fs →
  StronglySorted (λ f g, num f < num g) fs →
  ∃ m, existing_files prefix dir ∅ = Ret m ∧ in_zxid_order m = (λ f, (num f, path_file f)) <$> fs.
Proof.
  intros Hp Hnum Hsorted. rewrite Forall_forall in Hnum.
  assert (∀ f, f ∈ fs → number_of (path_file f).1 = num f) as Hn.
  { intros f Hf. unfold number_of. by rewrite (Hnum f Hf). }
  destruct (sorted_keys num path_file fs Hsorted) as [Hnd Hs].
  eexists. split.
  { apply existing_files_named. rewrite Hp. apply Forall_forall. intros x (f & -> & Hf)%list_elem_of_fmap.
    by rewrite (Hn f Hf), (Hnum f Hf). }
  rewrite <-(in_zxid_order_sorted _ Hnd Hs). f_equal. rewrite foldl_insert_map.
  assert (reverse ((λ a : string * bytes, (number_of a.1, a)) <$> named prefix dir)
    ≡ₚ (λ f, (num f, path_file f)) <$> fs) as E.
  { rewrite reverse_Permutation, Hp, <-list_fmap_compose. apply reflexive_eq, list_fmap_ext.
    intros i f Hf. cbn. by rewrite (Hn f (list_elem_of_lookup_2 _ _ _ Hf)). }
  apply list_to_map_proper; [by rewrite E|done].
Qed.

(** The files applied are the last ones, from one that begins before the zxid of
    the store, or all of them. *)
Lemma stored_files_suffix {A} z (l : list (Z * A)) :
  ∃ old new, l = old ++ new ∧ reverse (stored_files z (reverse l)) = new.*2 ∧
    (old = [] ∨ ∃ k f new', new = (k, f) :: new' ∧ k < z).
Proof.
  induction l as [|[k f] l IH] using rev_ind; [by exists [], []; auto|].
  rewrite reverse_snoc. cbn [stored_files]. destruct (k >=? z) eqn:Ek.
  - destruct IH as (old & new & -> & E & Ho). exists old, (new ++ [(k, f)]).
    split_and!; [by rewrite app_assoc|by rewrite reverse_cons, E, fmap_app|].
    destruct Ho as [->|(k' & f' & new' & -> & ?)]; [by left|right]. eexists _, _, _. split; [done|lia].
  - exists l, [(k, f)]. split_and!; [done|done|]. right. exists k, f, []. split; [done|lia].
Qed.

Section Logs.
Context (getSHA1 base64Encode : string → string) (clock : string → Z → Z).

(** All transactions of all logs, in order. *)
Fixpoint apply_logs (fs : list LogFile) : STS unit :=
  match fs with
  | [] => mret tt
  | f :: fs =>
      apply_records getSHA1 base64Encode (clock (lf_path f)) (lf_records f) (lf_pad f);; apply_logs fs
  end.

Lemma apply_files_logs fs s :
  Forall lf_ok fs →
  apply_files getSHA1 base64Encode clock (lf_file <$> fs) s = apply_logs fs s.
Proof.
  intros H. revert s. induction H as [|f fs [_ Hd Hr Hp] _ IH]; intros s; [done|].
  cbn [fmap list_fmap lf_file apply_files apply_logs]. unfold lf_file at 1. unfold mbind, ST_bind.
  rewrite (log_applied _ _ (clock (lf_path f)) _ _ _ s Hd Hr Hp).
  destruct (apply_records _ _ _ _ _ s) as [s1 [[]|e|]]; [apply IH|done|done].
Qed.

Lemma apply_logs_old old new s :
  Forall (λ f, Forall (λ r, t_zxid r <= zxid s) (lf_records f)) old →
  apply_logs (old ++ new) s = apply_logs new s.
Proof.
  induction 1 as [|f fs Hf _ IH]; [done|]. cbn [app apply_logs].
  by rewrite (bind_Ret _ _ _ _ _ (apply_records_old _ _ _ _ _ _ Hf)).
Qed.

Lemma apply_logs_wf fs s s' o :
  store_wf s → Forall (λ f, Forall (λ r, txn_valid (t_txn r) = true) (lf_records f)) fs →
  apply_logs fs s = (s', o) → store_wf s' ∧ o ≠ Crash.
Proof.
  intros Hs H. revert s Hs. induction H as [|f fs Hf _ IH]; intros s Hs; cbn [apply_logs].
  { by intros [= <- <-]. }
  destruct (apply_records getSHA1 base64Encode (clock (lf_path f)) (lf_records f) (lf_pad f) s) as [s1 o1] eqn:E.
  destruct (apply_records_wf _ _ _ _ _ _ _ _ Hs Hf E) as [Hs1 Ho].
  destruct o1 as [[]|e|]; [rewrite (bind_Ret _ _ _ _ _ E); by apply IH| |done].
  rewrite (bind_Throw _ _ _ _ _ E). by intros [= <- <-].
Qed.

Lemma logs_applied dir fs s :
  named "log." dir ≡ₚ lf_file <$> fs → Forall lf_ok fs → StronglySorted lf_before fs →
  deserializeLogsAndApplyToStore getSHA1 base64Encode clock dir s = apply_logs fs s.
Proof.
  intros Hp Hok Hs. unfold deserializeLogsAndApplyToStore.
  destruct (existing_files_sorted lf_file lf_zxid "log." dir fs Hp) as (m & Em & Eo).
  { eapply Forall_impl; [exact Hok|]. by intros f []. }
  { clear -Hs. induction Hs as [|f fs _ IH Hf]; constructor; [done|]. eapply Forall_impl; [exact Hf|]. by intros g []. }
  rewrite Em. erewrite bind_Ret by reflexivity. erewrite bind_Ret by reflexivity. rewrite Eo.
  destruct (stored_files_suffix (zxid s) ((λ f, (lf_zxid f, lf_file f)) <$> fs)) as (old & new & E & -> & Ho).
  apply fmap_app_inv in E as (fold & fnew & -> & -> & ->).
  rewrite <-list_fmap_compose. apply Forall_app in Hok as [_ Hnew].
  change (_ <$> fnew) with (lf_file <$> fnew). rewrite (apply_files_logs fnew s Hnew). symmetry.
  apply apply_logs_old. destruct Ho as [->%fmap_nil_inv|(k & x & new' & Ek & Hk)]; [constructor|].
  destruct fnew as [|g fnew]; [done|]. injection Ek as <- _ _.
  clear -Hs Hk. induction fold as [|f fold IH]; [constructor|]. cbn [app] in Hs.
  apply StronglySorted_cons in Hs as [Hf Hs]. constructor; [|by apply IH].
  rewrite Forall_app, Forall_cons in Hf. destruct Hf as (_ & [_ Hf] & _).
  eapply Forall_impl; [exact Hf|]. cbn. lia.
Qed.
End Logs.
