(* ===== verification/DataReaderSnapshot.v ===== *)
(** * The snapshot of a ZooKeeper server, read back

    The format of a snapshot as ZooKeeper writes it, and the store
    src/Service/ZooKeeperDataReader.cpp builds from it: the tree of the snapshot
    without its access control lists and without the data of the root, with the
    sets of children and the child counters recomputed. *)

From S2P Require Import Prelude Types ZkIO ZkCodec ACLMap SessionExpiryQueue KeeperPaths KeeperNode KeeperStore StoreTree StoreInv StoreRequest KeeperSpec StoreRestore DataReader DataReaderLog.
From stdpp Require Import base gmap sets strings option sorting list.
From Stdlib Require Import ZArith Lia Ascii.
Open Scope Z_scope.

(** ** The format *)

(** A node with the number of its access control list. *)
Definition write_zk_node (acl : Z) (n : KeeperNode) : bytes :=
  let st := node_stat n in
  write_string (node_data n) ++ write_int 8 acl
  ++ write_i64 (czxid st) ++ write_i64 (mzxid st) ++ write_i64 (ctime st) ++ write_i64 (mtime st)
  ++ write_i32 (version st) ++ write_i32 (cversion st) ++ write_i32 (aversion st)
  ++ write_i64 (ephemeralOwner st) ++ write_i64 (pzxid st).

Definition zk_node_ok (n : KeeperNode) : Prop := string_ok (node_data n) ∧ Stat_ok (node_stat n).

Abbreviation ZkNode := (string * (Z * KeeperNode))%type.

Definition write_path_node (x : ZkNode) : bytes := write_string x.1 ++ write_zk_node x.2.1 x.2.2.

(** The nodes, each after its path, and the path that ends them. *)
Definition write_nodes (nodes : list ZkNode) : bytes :=
  mjoin (write_path_node <$> nodes) ++ write_string "/".

Definition write_session (x : Z * Z) : bytes := write_i64 x.1 ++ write_i32 x.2.
Definition write_mapping (x : Z * ACLs) : bytes :=
  write_i64 x.1 ++ write_i32 (Z.of_nat (length x.2)) ++ mjoin (write_ACL <$> x.2).

Record ZkSnapshot : Type := mkZkSnapshot {
  zs_dbid : Z;
  zs_sessions : list (Z * Z);
  zs_acls : list (Z * ACLs);
  zs_nodes : list ZkNode;
  zs_rest : bytes
}.

Definition write_zk_snapshot (x : ZkSnapshot) : bytes :=
  (write_i32 SNP_HEADER ++ write_i32 2 ++ write_i64 (zs_dbid x))
  ++ (write_i32 (Z.of_nat (length (zs_sessions x))) ++ mjoin (write_session <$> zs_sessions x))
  ++ (write_i32 (Z.of_nat (length (zs_acls x))) ++ mjoin (write_mapping <$> zs_acls x))
  ++ write_nodes (zs_nodes x) ++ zs_rest x.

Definition count_ok {A} (l : list A) : Prop := Z.of_nat (length l) < 2 ^ 31.

Record zk_snapshot_ok (x : ZkSnapshot) : Prop := {
  zo_dbid : in_s 64 (zs_dbid x);
  zo_sessions : count_ok (zs_sessions x) ∧ Forall (λ y, in_s 64 y.1 ∧ in_s 32 y.2) (zs_sessions x);
  zo_acls : count_ok (zs_acls x) ∧
    Forall (λ y, in_s 64 y.1 ∧ count_ok y.2 ∧ Forall ACL_ok y.2) (zs_acls x);
  zo_nodes : Forall (λ y, y.1 ≠ "/" ∧ string_ok y.1 ∧ zk_node_ok y.2.2) (zs_nodes x)
}.

(** ** What the reader makes of it *)

(** A node as it is read. *)
Definition read_as (n : KeeperNode) : KeeperNode :=
  let st := node_stat n in
  mkNode (node_data n) 0 (negb (ephemeralOwner st =? 0)) false
    (mkStat (czxid st) (mzxid st) (ctime st) (mtime st) (version st) (cversion st) (aversion st)
       (ephemeralOwner st) (s32 (Z.of_nat (String.length (node_data n)))) 0 (pzxid st)) ∅.

Lemma reads_node acl n : zk_node_ok n → reads read_node (write_zk_node acl n) (read_as n).
Proof.
  destruct n as [d a ie sq [cz mz ct mt v cv av eo dl nc pz] ch]. unfold zk_node_ok, Stat_ok, write_zk_node, read_node, read_as.
  cbn [node_data node_stat czxid mzxid ctime mtime version cversion aversion ephemeralOwner dataLength numChildren pzxid].
  intros (Hd&?&?&?&?&?&?&?&?&?&?&?). eapply reads_bind; [by apply reads_string|].
  eapply reads_bind; [apply reads_uint|]. solve_reads.
Qed.

Definition with_sessions (l : list (Z * Z)) (m : gmap Z Z) : gmap Z Z :=
  foldl (λ m x, emplace_timeout x.1 x.2 m) m l.
Definition max_session (l : list (Z * Z)) : Z := foldl (λ m x, Z.max x.1 m) 0 l.
Definition with_acls (l : list (Z * ACLs)) (m : ACLMap) : ACLMap :=
  foldl (λ m x, addMapping (u64 x.1) x.2 m) m l.

(** A step of a counted loop that reads what was written for one element. *)
Lemma countdown_spec {X A} (body : A → ZR A) (w : X → bytes) (P : X → Prop) (I : KeeperStore → Prop)
    (upd : X → KeeperStore → KeeperStore → Prop) (acc : X → A → A) :
  (∀ x a rest s, P x → I s → ∃ s', body a (w x ++ rest, s) = ((rest, s'), Ret (acc x a)) ∧ upd x s s' ∧ I s') →
  ∀ l a rest s, Forall P l → I s →
  ∃ s', countdown (length l) body a (mjoin (w <$> l) ++ rest, s) = ((rest, s'), Ret (foldl (λ a x, acc x a) a l)) ∧
    I s' ∧ (∀ R : list X → KeeperStore → KeeperStore → Prop,
      (∀ s, R [] s s) → (∀ x l s s1 s2, upd x s s1 → R l s1 s2 → R (x :: l) s s2) → R l s s').
Proof.
  intros Hb l a rest s Hl. revert a s. induction Hl as [|x l Hx _ IH]; intros a s Hs.
  { exists s. split_and!; [done|done|]. intros R H0 _. apply H0. }
  change (mjoin (w <$> x :: l)) with (w x ++ mjoin (w <$> l)). rewrite <-app_assoc. cbn [length countdown foldl].
  destruct (Hb x a (mjoin (w <$> l) ++ rest) s Hx Hs) as (s1 & E & Hu & Hs1).
  destruct (IH (acc x a) s1 Hs1) as (s2 & E2 & Hs2 & HR). exists s2.
  rewrite (bind_Ret _ _ _ _ _ E). split_and!; [done|done|]. intros R H0 H1. eapply H1; [done|]. by apply HR.
Qed.

Lemma reads_count {A} (l : list A) : count_ok l → reads read_i32 (write_i32 (Z.of_nat (length l))) (Z.of_nat (length l)).
Proof. intros H. apply reads_i32. unfold count_ok, in_s in *. change (2 ^ (32 - 1)) with (2 ^ 31). lia. Qed.

Lemma sessions_read clock l rest s :
  count_ok l → Forall (λ y, in_s 64 y.1 ∧ in_s 32 y.2) l → session_wf s →
  ∃ q, let s' := upd_expiry q (upd_timeout (with_sessions l) s) in
    deserializeSessionAndTimeout clock
      ((write_i32 (Z.of_nat (length l)) ++ mjoin (write_session <$> l)) ++ rest, s) = ((rest, s'), Ret (max_session l)) ∧
    session_wf s'.
Proof.
  intros Hc Hl Hs. unfold deserializeSessionAndTimeout. rewrite <-app_assoc.
  rewrite (bind_Ret _ _ _ _ _ (of_in_reads _ _ _ _ _ (reads_count l Hc))), Nat2Z.id.
  set (upd := λ (x : Z * Z) s s', ∃ q, s' = upd_expiry q (upd_timeout (emplace_timeout x.1 x.2) s)).
  destruct (countdown_spec (read_session_timeout clock) write_session (λ y, in_s 64 y.1 ∧ in_s 32 y.2) session_wf
    upd (λ x a, Z.max x.1 a)) with (l := l) (a := 0) (rest := rest) (s := s) as (s' & E & Hs' & HR); [|done|done|].
  - clear. intros [k t] a rest s [Hk Ht] Hs. unfold write_session. cbn [fst snd] in *. rewrite <-app_assoc.
    unfold read_session_timeout. rewrite (bind_Ret _ _ _ _ _ (of_in_reads _ _ _ _ _ (reads_i64 _ Hk))).
    rewrite (bind_Ret _ _ _ _ _ (of_in_reads _ _ _ _ _ (reads_i32 _ Ht))).
    erewrite bind_Ret by (apply of_in_eq; reflexivity). set (now := clock _).
    destruct (addNewSessionOrUpdate_ok now k t (session_expiry_queue s) ltac:(apply Hs)) as (q & e & E & Hq & Hdom).
    exists (upd_expiry q (upd_timeout (emplace_timeout k t) s)). split_and!.
    + erewrite bind_Ret; [reflexivity|]. unfold of_store, addSessionID. erewrite bind_Ret by reflexivity.
      by rewrite (on_expiry_ok _ (upd_timeout (emplace_timeout k t) s) _ _ E).
    + by exists q.
    + eapply session_wf_add; [done..|]. by rewrite dom_emplace_timeout.
  - destruct (HR (λ l s s', ∃ q, s' = upd_expiry q (upd_timeout (with_sessions l) s))) as [q ->].
    { intros s0. exists (session_expiry_queue s0). by destruct s0. }
    { intros x l' s0 s1 s2 [q1 ->] [q2 ->]. exists q2. by destruct s0. }
    exists q. by split.
Qed.

Lemma acls_read l rest s :
  count_ok l → Forall (λ y, in_s 64 y.1 ∧ count_ok y.2 ∧ Forall ACL_ok y.2) l →
  deserializeACLMap ((write_i32 (Z.of_nat (length l)) ++ mjoin (write_mapping <$> l)) ++ rest, s)
  = ((rest, upd_acl (with_acls l) s), Ret tt).
Proof.
  intros Hc Hl. unfold deserializeACLMap. rewrite <-app_assoc.
  rewrite (bind_Ret _ _ _ _ _ (of_in_reads _ _ _ _ _ (reads_count l Hc))), Nat2Z.id.
  destruct (countdown_spec read_acl_mapping write_mapping
    (λ y, in_s 64 y.1 ∧ count_ok y.2 ∧ Forall ACL_ok y.2) (λ _, True)
    (λ x s s', s' = upd_acl (addMapping (u64 x.1) x.2) s) (λ _ _, tt))
    with (l := l) (a := tt) (rest := rest) (s := s) as (s' & E & _ & HR); [|done|done|].
  - clear. intros [k a] [] rest s (Hk & Ha & Has) _. unfold write_mapping. cbn [fst snd] in *. rewrite <-!app_assoc.
    unfold read_acl_mapping. rewrite (bind_Ret _ _ _ _ _ (of_in_reads _ _ _ _ _ (reads_i64 _ Hk))).
    rewrite (bind_Ret _ _ _ _ _ (of_in_reads _ _ _ _ _ (reads_count a Ha))), Nat2Z.id.
    erewrite bind_Ret.
    2:{ apply of_in_reads, reads_n. eapply Forall_impl; [exact Has|]. apply reads_ACL. }
    by eexists.
  - rewrite E. rewrite (HR (λ l s s', s' = upd_acl (with_acls l) s)).
    + by destruct (foldl _ tt l).
    + by intros [].
    + intros x l' s0 s1 s2 -> ->. by destruct s0.
Qed.

(** ** The nodes *)

(** The node without a path, the root of ZooKeeper, is dropped. *)
Definition add_node (s : KeeperStore) (x : ZkNode) : KeeperStore :=
  if bool_decide (x.1 = "") then s else store_node x.1 (read_as x.2.2) s.
Definition add_nodes (nodes : list ZkNode) (s : KeeperStore) : KeeperStore := foldl add_node s nodes.

Definition max_mzxid (nodes : list ZkNode) (z : Z) : Z :=
  foldl (λ z x, Z.max z (mzxid (node_stat x.2.2))) z nodes.

Lemma string_ok_root : string_ok "/".
Proof. unfold string_ok. by vm_compute. Qed.

(** Reading a path and then the nodes from it on. *)
Lemma storage_loop_nodes nodes rest :
  Forall (λ y, y.1 ≠ "/" ∧ string_ok y.1 ∧ zk_node_ok y.2.2) nodes →
  ∀ fuel s z, (length nodes ≤ fuel)%nat →
  (path ← of_in read_string; storage_loop fuel path z) (write_nodes nodes ++ rest, s)
  = ((rest, add_nodes nodes s), Ret (max_mzxid nodes z)).
Proof.
  unfold write_nodes. induction 1 as [|[p [a n]] nodes (Hp & Hs & Hn) _ IH]; intros fuel s z Hf.
  - cbn [fmap list_fmap mjoin list_join app].
    rewrite (bind_Ret _ _ _ _ _ (of_in_reads _ _ _ _ _ (reads_string _ string_ok_root))). by destruct fuel.
  - change (mjoin (write_path_node <$> (p, (a, n)) :: nodes))
      with ((write_string p ++ write_zk_node a n) ++ mjoin (write_path_node <$> nodes)).
    cbn [fst snd length] in *. destruct fuel as [|fuel]; [lia|]. rewrite <-!app_assoc.
    rewrite (bind_Ret _ _ _ _ _ (of_in_reads _ _ _ _ _ (reads_string _ Hs))). cbn [storage_loop].
    rewrite bool_decide_eq_false_2 by done.
    rewrite (bind_Ret _ _ _ _ _ (of_in_reads _ _ _ _ _ (reads_node a n Hn))).
    rewrite (bind_Ret _ _ _ (mjoin (write_path_node <$> nodes) ++ write_string "/" ++ rest, add_node s (p, (a, n))) tt).
    2:{ unfold add_node. cbn [fst snd]. by case_bool_decide. }
    rewrite app_assoc. apply IH. lia.
Qed.

(** The bytes after the first path are more than the nodes. *)
Lemma first_path nodes rest :
  Forall (λ y, y.1 ≠ "/" ∧ string_ok y.1 ∧ zk_node_ok y.2.2) nodes →
  ∃ p b, read_string (write_nodes nodes ++ rest) = (b, Ret p) ∧ (length nodes ≤ length b)%nat.
Proof.
  assert (∀ x : ZkNode, 0 < length (write_path_node x))%nat as Hx.
  { intros x. unfold write_path_node, write_string, write_i32. rewrite !length_app, length_write_int. lia. }
  assert (∀ l : list ZkNode, length l ≤ length (mjoin (write_path_node <$> l)))%nat as Hl.
  { induction l as [|x l IH]; [done|].
    change (mjoin (write_path_node <$> x :: l)) with (write_path_node x ++ mjoin (write_path_node <$> l)).
    rewrite length_app. specialize (Hx x). cbn [length]. lia. }
  intros [|x l (_ & Hs & _) _]; unfold write_nodes; rewrite <-app_assoc.
  - exists "/", rest. split; [by apply reads_string, string_ok_root|cbn; lia].
  - change (mjoin (write_path_node <$> x :: l)) with (write_path_node x ++ mjoin (write_path_node <$> l)).
    unfold write_path_node at 1. rewrite <-!app_assoc. eexists _, _. split; [by apply reads_string|].
    rewrite !length_app. unfold write_zk_node, write_string at 1, write_i32 at 1.
    rewrite !length_app, length_write_int. specialize (Hl l). cbn [length]. lia.
Qed.

Lemma storage_read nodes rest s s' :
  Forall (λ y, y.1 ≠ "/" ∧ string_ok y.1 ∧ zk_node_ok y.2.2) nodes →
  buildPathChildren true (add_nodes nodes s) = (s', Ret tt) →
  deserializeStorageData (write_nodes nodes ++ rest, s) = ((rest, s'), Ret (max_mzxid nodes 0)).
Proof.
  intros Hn Hb. destruct (first_path nodes rest Hn) as (p & b & E & Hl).
  pose proof (storage_loop_nodes nodes rest Hn (S (length b)) s 0 ltac:(lia)) as H.
  unfold deserializeStorageData. apply (of_in_eq _ _ _ _ s) in E.
  rewrite (bind_Ret _ _ _ _ _ E) in H. rewrite (bind_Ret _ _ _ _ _ E).
  erewrite bind_Ret by (apply of_in_eq; reflexivity). rewrite Nat2Z.id, (bind_Ret _ _ _ _ _ H).
  erewrite bind_Ret; [done|]. unfold of_store. by rewrite Hb.
Qed.

(** ** The tree *)

(** What is kept of a node: not its access control list, and of the root only
    its children. *)
Definition import_node (p : string) (n : KeeperNode) : KeeperNode :=
  let m := if bool_decide (p = "/") then KeeperNode_new else read_as n in
  set_children (λ _, node_children n) (set_stat (stat_numChildren (λ _, numChildren (node_stat n))) m).

Definition imported_tree (c : Tree) : Tree := map_imap (λ p n, Some (import_node p n)) c.

Lemma lookup_imported c p : imported_tree c !! p = import_node p <$> c !! p.
Proof. unfold imported_tree. rewrite map_lookup_imap. by destruct (c !! p). Qed.

(** An ephemeral node is one with an owner. *)
Definition owners_ok (c : Tree) : Prop :=
  ∀ p n, c !! p = Some n → node_is_ephemeral n = negb (ephemeralOwner (node_stat n) =? 0).

Lemma import_node_ephemeral c e p n :
  tree_wf c e → owners_ok c → c !! p = Some n →
  node_is_ephemeral (import_node p n) = node_is_ephemeral n ∧
  (node_is_ephemeral n = true → ephemeralOwner (node_stat (import_node p n)) = ephemeralOwner (node_stat n)).
Proof.
  intros Hwf Ho Hp. unfold import_node. case_bool_decide as E; cbn.
  - subst p. destruct (wf_root _ _ Hwf) as (r & Hr & Hre). simplify_eq. by rewrite Hre.
  - by rewrite (Ho p n Hp).
Qed.

Lemma imported_tree_wf c e : tree_wf c e → owners_ok c → tree_wf (imported_tree c) e.
Proof.
  intros Hwf Ho.
  assert (∀ p m, imported_tree c !! p = Some m ↔ ∃ n, c !! p = Some n ∧ m = import_node p n) as Hl.
  { intros p m. rewrite lookup_imported, fmap_Some. naive_solver. }
  assert (∀ p n, node_children (import_node p n) = node_children n) as Hch by done.
  split.
  - destruct (wf_root _ _ Hwf) as (n & Hn & He). exists (import_node "/" n). split; [by rewrite lookup_imported, Hn|done].
  - intros p m (n & Hn & _)%Hl. by eapply wf_valid.
  - intros p m (n & Hn & ->)%Hl. destruct (wf_node _ _ Hwf _ _ Hn) as [H1 H2 H3].
    destruct (import_node_ephemeral c e p n Hwf Ho Hn) as [He _]. split; [done| |by rewrite He].
    unfold import_node. by case_bool_decide.
  - intros p m (n & Hn & ->)%Hl Hne. destruct (wf_parent _ _ Hwf _ _ Hn Hne) as (pn & Hpn & ? & ?).
    exists (import_node (parentPath p) pn). split_and!; [by rewrite lookup_imported, Hpn|done|done].
  - intros p m b (n & Hn & ->)%Hl Hb. destruct (wf_child _ _ Hwf _ _ b Hn Hb) as (? & ? & [x Hx]).
    split_and!; [done|done|]. rewrite lookup_imported, Hx. eauto.
  - intros sid p. rewrite (wf_eph _ _ Hwf). split.
    + intros (n & Hn & He & Hs). destruct (import_node_ephemeral c e p n Hwf Ho Hn) as [E1 E2].
      exists (import_node p n). rewrite Hl, E1, E2 by done. eauto.
    + intros (m & (n & Hn & ->)%Hl & He & Hs). destruct (import_node_ephemeral c e p n Hwf Ho Hn) as [E1 E2].
      rewrite E1 in He. rewrite E2 in Hs by done. eauto.
Qed.

(** The nodes of a snapshot are those of a tree, the root aside. *)
Definition nodes_of (c : Tree) (nodes : list ZkNode) : Prop :=
  NoDup nodes.*1 ∧
  ∀ p n, (∃ a, (p, (a, n)) ∈ nodes) ∧ p ≠ "" ↔ c !! p = Some n ∧ p ≠ "/".

Lemma lookup_add_nodes_out nodes s p :
  p ∉ nodes.*1 ∨ p = "" → container (add_nodes nodes s) !! p = container s !! p.
Proof.
  revert s. induction nodes as [|[q [a n]] nodes IH]; intros s H; [done|]. cbn [add_nodes foldl].
  etrans; [apply (IH (add_node s (q, (a, n)))); set_solver|]. unfold add_node, store_node. cbn [fst snd].
  case_bool_decide; [done|]. destruct (node_is_ephemeral _); cbn; apply lookup_insert_ne; set_solver.
Qed.

Lemma lookup_add_nodes_in nodes s p a n :
  NoDup nodes.*1 → (p, (a, n)) ∈ nodes → p ≠ "" →
  container (add_nodes nodes s) !! p = Some (read_as n).
Proof.
  revert s. induction nodes as [|[q [b m]] nodes IH]; intros s Hnd Hin Hp; [set_solver|]. cbn in Hnd.
  apply NoDup_cons in Hnd as [Hq Hnd]. apply elem_of_cons in Hin as [[= -> -> ->]|Hin].
  - cbn [add_nodes foldl]. etrans; [apply (lookup_add_nodes_out nodes (add_node s (q, (b, m)))); by left|].
    unfold add_node, store_node. cbn [fst snd]. rewrite bool_decide_eq_false_2 by done.
    destruct (node_is_ephemeral _); cbn; apply lookup_insert_eq.
  - by apply (IH (add_node s (q, (b, m)))).
Qed.

Lemma eph_add_nodes nodes s sid p :
  p ∈ eph_of (ephemerals (add_nodes nodes s)) sid ↔
  p ∈ eph_of (ephemerals s) sid ∨
  ∃ a n, (p, (a, n)) ∈ nodes ∧ p ≠ "" ∧ node_is_ephemeral (read_as n) = true ∧ ephemeralOwner (node_stat n) = sid.
Proof.
  revert s. induction nodes as [|[q [b m]] nodes IH]; intros s; [set_solver|]. cbn [add_nodes foldl].
  rewrite (IH (add_node s (q, (b, m)))).
  assert (p ∈ eph_of (ephemerals (add_node s (q, (b, m)))) sid ↔
    p ∈ eph_of (ephemerals s) sid ∨
    (p = q ∧ p ≠ "" ∧ node_is_ephemeral (read_as m) = true ∧ ephemeralOwner (node_stat m) = sid)) as E.
  { unfold add_node, store_node. cbn [fst snd]. case_bool_decide; [naive_solver|].
    destruct (node_is_ephemeral (read_as m)) eqn:Em; [|naive_solver]. cbn. unfold eph_of.
    destruct (decide (sid = ephemeralOwner (node_stat m))) as [->|Hne].
    - rewrite lookup_insert_eq. cbn. set_solver.
    - rewrite lookup_insert_ne by done. naive_solver. }
  rewrite E. set_solver.
Qed.

Lemma nodes_of_in c nodes p : nodes_of c nodes → p ∈ nodes.*1 → p ≠ "" → is_Some (c !! p) ∧ p ≠ "/".
Proof.
  intros [_ H] ([q [a n]] & -> & Hin)%list_elem_of_fmap Hp. cbn in *.
  destruct (proj1 (H q n)) as [Hc Hr]; [eauto|]. eauto.
Qed.

Lemma add_nodes_tree c e nodes s :
  tree_wf c e → owners_ok c → nodes_of c nodes →
  container s = {["/" := KeeperNode_new]} → ephemerals s = ∅ →
  container (add_nodes nodes s) = strip true <$> imported_tree c ∧
  eph_equiv e (ephemerals (add_nodes nodes s)).
Proof.
  intros Hwf Ho Hn Hc He. pose proof Hn as [Hnd Hin]. split.
  - apply map_eq. intros p. rewrite lookup_fmap, lookup_imported.
    destruct (decide (p ∈ nodes.*1 ∧ p ≠ "")) as [[Hp Hne]|Hp].
    + destruct (nodes_of_in _ _ _ Hn Hp Hne) as [_ Hr].
      apply list_elem_of_fmap in Hp as ([q [a n]] & -> & Hq). cbn in *.
      destruct (proj1 (Hin q n)) as [Hcq _]; [eauto|]. rewrite Hcq, (lookup_add_nodes_in _ _ _ _ _ Hnd Hq Hne).
      cbn. unfold import_node. by rewrite bool_decide_eq_false_2.
    + rewrite lookup_add_nodes_out by (destruct (decide (p = "")); naive_solver). rewrite Hc.
      destruct (decide (p = "/")) as [->|Hr].
      * destruct (wf_root _ _ Hwf) as (n & -> & _). by rewrite lookup_singleton_eq.
      * rewrite lookup_singleton_ne by done. destruct (c !! p) as [n|] eqn:E; [|done].
        destruct (proj2 (Hin p n) (conj E Hr)) as [[a Ha] Hne]. exfalso. apply Hp. split; [|done].
        apply list_elem_of_fmap. by exists (p, (a, n)).
  - intros sid. apply set_eq. intros p. rewrite eph_add_nodes, He, (wf_eph _ _ Hwf). split.
    + intros (n & Hp & Hi & Hs). right.
      destruct (proj2 (Hin p n)) as [[a Ha] Hne].
      { split; [done|]. intros ->. destruct (wf_root _ _ Hwf) as (r & Hr & Hre). congruence. }
      exists a, n. split_and!; [done|done|by rewrite <-Hi, (Ho p n Hp)|done].
    + intros [H|(a & n & Ha & Hne & Hi & Hs)]; [set_solver|]. destruct (proj1 (Hin p n)) as [Hp _]; [eauto|].
      exists n. split_and!; [done|by rewrite (Ho p n Hp)|done].
Qed.

Lemma add_nodes_rest nodes s :
  rest (add_nodes nodes s) = rest s ∧ acl_map (add_nodes nodes s) = acl_map s.
Proof.
  revert s. induction nodes as [|x nodes IH]; intros s; [done|].
  destruct (IH (add_node s x)) as [E1 E2]. cbn [add_nodes foldl]. unfold add_nodes in *. rewrite E1, E2.
  unfold add_node, store_node. case_bool_decide; [done|]. by destruct (node_is_ephemeral _).
Qed.

Lemma snapshot_read clock path x z c e tick digest :
  getZxidFromName path = Ret z → zk_snapshot_ok x →
  tree_wf c e → owners_ok c → nodes_of c (zs_nodes x) →
  ∃ s', deserializeKeeperStoreFromSnapshot clock path (write_zk_snapshot x) (KeeperStore_new tick digest) = (s', Ret tt) ∧
    store_wf s' ∧ container s' = imported_tree c ∧ zxid s' = z ∧
    session_and_timeout s' = with_sessions (zs_sessions x) ∅ ∧
    session_id_counter s' = s64 (max_session (zs_sessions x) + 1) ∧
    acl_map s' = with_acls (zs_acls x) ACLMap_empty.
Proof.
  intros Hz [Hd [Hc Hss] [Hca Hacl] Hno] Hwf Ho Hn.
  pose proof (KeeperStore_new_wf tick digest) as Hnew. set (s0 := KeeperStore_new tick digest) in *.
  unfold deserializeKeeperStoreFromSnapshot. erewrite bind_Ret by (unfold lift; rewrite Hz; reflexivity).
  assert (reads deserializeSnapshotMagic (write_i32 SNP_HEADER ++ write_i32 2 ++ write_i64 (zs_dbid x)) tt) as Hm.
  { unfold deserializeSnapshotMagic. eapply reads_bind; [by apply reads_i32|].
    eapply reads_bind; [by apply reads_i32|]. by apply (reads_last _ (λ _, tt) _ (zs_dbid x)), reads_i64. }
  unfold write_zk_snapshot. rewrite (bind_Ret _ _ _ _ _ (of_in_reads _ _ _ _ _ Hm)).
  match goal with |- context [(_ ++ mjoin (write_session <$> _)) ++ ?r] =>
    destruct (sessions_read clock (zs_sessions x) r s0 Hc Hss (wf_session _ Hnew)) as (q & E & Hw) end.
  cbn zeta in E, Hw. rewrite (bind_Ret _ _ _ _ _ E). erewrite bind_Ret by reflexivity.
  rewrite (bind_Ret _ _ _ _ _ (acls_read _ _ _ Hca Hacl)).
  set (s1 := upd_acl _ _). destruct (add_nodes_tree c e (zs_nodes x) s1 Hwf Ho Hn) as [Ec Ee]; [done..|].
  pose proof (buildPathChildren_exact true _ e _ (imported_tree_wf c e Hwf Ho) Ec) as Hb.
  rewrite (bind_Ret _ _ _ _ _ (storage_read _ (zs_rest x) s1 _ Hno Hb)).
  destruct (add_nodes_rest (zs_nodes x) s1) as [Er Ea].
  eexists. split; [reflexivity|]. unfold rest in Er. injection Er as R1 R2 R3 R4 R5 R6 R7 R8 R9.
  split_and!; [|done|done|exact R3|exact R1|exact Ea].
  split; cbn.
  - rewrite <-Ee. by apply imported_tree_wf.
  - unfold watch_wf. cbn. rewrite R4, R5, R6. apply (wf_watch _ Hnew).
  - unfold session_wf. cbn. rewrite R2, R3. exact Hw.
Qed.
