(* ===== verification/DataReaderProps.v ===== *)
(** * Properties of the import of a ZooKeeper server

    The theorems about src/Service/ZooKeeperDataReader.cpp: the tree of the latest
    snapshot and every transaction of the logs after it reach the store, the
    store is consistent, and the bounds on the loops are never met, whatever the
    files hold. *)

From S2P Require Import Prelude Types ZkIO ZkCodec ACLMap SessionExpiryQueue KeeperPaths KeeperNode KeeperStore StoreTree StoreInv StoreRequest KeeperSpec StoreRestore StoreProps DataReader DataReaderLog DataReaderSnapshot.
From stdpp Require Import base gmap sets strings option sorting list.
From Stdlib Require Import ZArith Lia Ascii.
Open Scope Z_scope.

(** ** The fuel is enough on any file *)

Lemma shrinks_bytes_left n : shrinks 0 n bytes_left.
Proof. intros b Hb. cbn. lia. Qed.

Lemma shrinks_skip_rest n len before : shrinks 0 n (skip_rest len before).
Proof.
  apply shrinks_bind0; [apply shrinks_bytes_left|]. intros k. apply shrinks_if; [|apply shrinks_mret].
  intros b Hb. unfold rb_ignore. destruct (_ <? _); [done|]. rewrite length_drop. lia.
Qed.

Lemma shrinks_i32 n : shrinks 0 n read_i32.
Proof. apply (shrinks_weaken 4); [lia|apply shrinks_sint]. Qed.

Lemma shrinks_string0 n : shrinks 0 n read_string.
Proof. apply (shrinks_weaken 4); [lia|apply shrinks_string]. Qed.

Lemma shrinks_ACL0 n : shrinks 0 n read_ACL.
Proof.
  repeat (apply shrinks_bind0; [first [apply shrinks_i32|apply shrinks_string0]|intros]). apply shrinks_mret.
Qed.

Lemma shrinks_vec0 {A} (r : reader A) n : shrinks 0 n r → shrinks 0 n (read_vec r).
Proof. intros H. apply (shrinks_weaken 4); [lia|by apply shrinks_vec]. Qed.

Lemma shrinks_bool0 n : shrinks 0 n read_bool.
Proof. apply (shrinks_weaken 1); [lia|apply shrinks_bool]. Qed.

#[local] Hint Resolve shrinks_i32 shrinks_string0 shrinks_ACL0 shrinks_vec0 shrinks_bool0
  shrinks_bytes_left shrinks_skip_rest shrinks_mret shrinks_throw : shrink.

Ltac shrink0 := repeat (apply shrinks_bind0; [solve [auto with shrink]|intros]); auto with shrink.

Lemma shrinks_body multi log empty type n :
  shrinks 0 n multi → shrinks 0 n (txn_body multi log empty type).
Proof.
  intros Hm. unfold txn_body.
  assert (shrinks 0 n (if log then mret nullptr else throw NOT_IMPLEMENTED)) as Hd by (destruct log; auto with shrink).
  assert (shrinks 0 n (deserializeCloseSession empty)) as Hc.
  { apply shrinks_bind0; [destruct empty; auto with shrink|intros; auto with shrink]. }
  assert (shrinks 0 n deserializeCreateTxn ∧ shrinks 0 n deserializeDeleteTxn ∧ shrinks 0 n deserializeSetTxn
    ∧ shrinks 0 n deserializeSetACLTxn ∧ shrinks 0 n deserializeCheckVersionTxn
    ∧ shrinks 0 n deserializeCreateSession ∧ shrinks 0 n deserializeErrorTxn) as (?&?&?&?&?&?&?)
    by (split_and!; unfold deserializeCreateTxn, deserializeDeleteTxn, deserializeSetTxn, deserializeSetACLTxn,
          deserializeCheckVersionTxn, deserializeCreateSession, deserializeErrorTxn; shrink0).
  repeat (case_match; try done).
Qed.

(** Reading a transaction never runs out of fuel: the nesting is bounded by the
    bytes left. *)
Lemma shrinks_txn fuel log sub len n :
  (n < fuel)%nat → shrinks 4 n (deserializeTxnImpl fuel log sub len).
Proof.
  revert sub len n. induction fuel as [|fuel IH]; intros sub len n Hn; [lia|]. cbn [deserializeTxnImpl].
  replace 4%nat with (4 + 0)%nat by lia. apply shrinks_bind; [apply shrinks_sint|]. intros H4 type.
  apply shrinks_bind0; [destruct sub; auto with shrink|]. intros slen.
  apply shrinks_if; [auto with shrink|]. apply shrinks_bind0; [auto with shrink|]. intros before.
  apply shrinks_bind0; [|intros; apply shrinks_bind0; [destruct sub; auto with shrink|intros; auto with shrink]].
  apply shrinks_body. apply shrinks_bind0; [auto with shrink|]. intros k.
  apply shrinks_bind0; [|intros; auto with shrink]. apply shrinks_read_n.
  apply (shrinks_weaken 4); [lia|]. apply IH. lia.
Qed.

(** A computation on the file and the store that consumes [k] bytes when it returns. *)
Definition consumes {A} (k : nat) (m : ZR A) : Prop :=
  ∀ b s b' s' a, m (b, s) = ((b', s'), Ret a) → (length b' + k ≤ length b)%nat.

Lemma consumes_bind {A B} j k (m : ZR A) (f : A → ZR B) :
  consumes j m → (∀ a, consumes k (f a)) → consumes (j + k) (m ≫= f).
Proof.
  intros Hm Hf b s b' s' a Hr. apply bind_inv_Ret in Hr as ([b1 s1] & a1 & E1 & E2).
  apply Hm in E1. apply Hf in E2. lia.
Qed.

Lemma consumes_in {A} k (r : reader A) : (∀ n, shrinks k n r) → consumes k (of_in r).
Proof.
  intros Hr b s b' s' a. unfold of_in. specialize (Hr (length b) b ltac:(done)).
  destruct (r b) as [b1 o]. by intros [= <- <- ->].
Qed.

Lemma consumes_store {A} (m : STS A) : consumes 0 (of_store m).
Proof. intros b s b' s' a. unfold of_store. destruct (m s). intros [= <- <- ->]. lia. Qed.

Lemma consumes_ret {A} (a : A) : consumes 0 (mret a : ZR A).
Proof. intros b s b' s' a' [= <- <- <-]. lia. Qed.

Lemma consumes_txn sha b64 clock : consumes 8 (deserializeTxn sha b64 clock true).
Proof.
  unfold deserializeTxn. replace 8%nat with (8 + 0)%nat by lia.
  apply consumes_bind; [apply consumes_in; intros; apply shrinks_sint|]. intros checksum.
  destruct (checksum =? 0); [apply consumes_ret|].
  assert (∀ {A B} (r : reader A) (f : A → ZR B), (∀ n, shrinks 0 n r) → (∀ a, consumes 0 (f a)) →
    consumes 0 (of_in r ≫= f)) as Hin.
  { intros A B r f Hr Hf. replace O with (0 + 0)%nat by lia. apply consumes_bind; [by apply consumes_in|done]. }
  assert (∀ n, shrinks 0 n read_i64) as H64 by (intros n; apply (shrinks_weaken 8); [lia|apply shrinks_sint]).
  repeat (apply Hin; [solve [auto with shrink]|intros]).
  apply Hin.
  { intros n b Hb. unfold mbind, ST_bind, bytes_left.
    apply (shrinks_weaken 4 0 (length b)); [lia|apply shrinks_txn; lia|done]. }
  intros p. do 2 (apply Hin; [auto with shrink|intros]).
  replace O with (0 + 0)%nat by lia. apply consumes_bind; [apply consumes_store|intros; apply consumes_ret].
Qed.

(** Neither loop runs out of fuel: more of it than the bytes left makes no difference. *)
Lemma txn_loop_fuel sha b64 clock f g b s :
  (length b ≤ f)%nat → (length b ≤ g)%nat →
  txn_loop sha b64 clock f (b, s) = txn_loop sha b64 clock g (b, s).
Proof.
  revert g b s. induction f as [|f IH]; intros [|g] b s Hf Hg; try by destruct b; cbn in *; try lia.
  cbn [txn_loop]. erewrite !bind_Ret by (apply of_in_eq; reflexivity).
  destruct (bool_decide (b = [])); [done|]. unfold mbind at 1 3, ST_bind at 1 3.
  destruct (deserializeTxn sha b64 clock true (b, s)) as [[b1 s1] [[]|e|]] eqn:E; try done.
  apply consumes_txn in E. cbn [negb]. unfold mbind, ST_bind.
  destruct (of_in read_i8 (b1, s1)) as [[b2 s2] [k|e|]] eqn:E2; try done.
  apply (consumes_in 1) in E2; [|intros n; apply shrinks_bind0; auto with shrink].
  destruct (negb (k =? 66)); [done|]. apply IH; lia.
Qed.

Lemma shrinks_node n : shrinks 4 n read_node.
Proof.
  apply shrinks_bind0; [apply shrinks_string|]. intros data.
  assert (∀ k, shrinks 0 n (read_uint k) ∧ shrinks 0 n (read_sint k)) as Hk.
  { intros k. split; [apply (shrinks_weaken k); [lia|]; apply shrinks_bind0; auto with shrink|].
    apply (shrinks_weaken k); [lia|apply shrinks_sint]. }
  repeat (apply shrinks_bind0; [apply Hk|intros]). apply shrinks_mret.
Qed.

Lemma storage_loop_fuel f g path z b s :
  (length b < f)%nat → (length b < g)%nat → storage_loop f path z (b, s) = storage_loop g path z (b, s).
Proof.
  revert g path z b s. induction f as [|f IH]; intros [|g] path z b s Hf Hg; try lia. cbn [storage_loop].
  destruct (bool_decide (path = "/")); [done|]. unfold mbind, ST_bind.
  destruct (of_in read_node (b, s)) as [[b1 s1] [n|e|]] eqn:E; try done.
  apply (consumes_in 4) in E; [|intros; apply shrinks_node].
  destruct ((if bool_decide (path = "") then mret tt else of_store _) (b1, s1)) as [[b2 s2] [[]|e|]] eqn:E1; try done.
  assert (b2 = b1) as -> by (destruct (bool_decide (path = "")); by injection E1).
  destruct (of_in read_string (b1, s2)) as [[b3 s3] [p|e|]] eqn:E3; try done.
  apply (consumes_in 4) in E3; [|intros; apply shrinks_string]. apply IH; lia.
Qed.

(** ** A small server, for the witnesses

    A snapshot of the tree [/a], [/a/e] with the second node ephemeral, and two
    logs. *)

(** The nodes of a tree as ZooKeeper writes them, its root without a path. *)
Definition zk_nodes (c : Tree) : list ZkNode :=
  ("", (0, default KeeperNode_new (c !! "/")))
  :: ((λ x, (x.1, (1, x.2))) <$> filter (λ x, x.1 ≠ "/") (map_to_list c)).

Lemma nodes_of_zk c : c !! "" = None → nodes_of c (zk_nodes c).
Proof.
  intros He. split.
  - cbn. rewrite <-list_fmap_compose. constructor.
    + intros ([p n] & Ep & Hp)%list_elem_of_fmap. cbn in Ep. subst p.
      apply list_elem_of_filter in Hp as [_ Hp%elem_of_map_to_list]. congruence.
    + change (_ <$> filter (λ x, x.1 ≠ "/") (map_to_list c)) with ((filter (λ x, x.1 ≠ "/") (map_to_list c)).*1).
      eapply sublist_NoDup; [apply (NoDup_fst_map_to_list c)|]. apply fmap_sublist, sublist_filter.
  - intros p n. unfold zk_nodes. split.
    + intros [[a [[= -> _ _]|([q m] & [= -> -> ->] & Hq)%list_elem_of_fmap]%elem_of_cons] Hp]; [done|].
      apply list_elem_of_filter in Hq as [Hr Hq%elem_of_map_to_list]. done.
    + intros [Hp Hr]. split; [|by intros ->; congruence]. exists 1. right. apply list_elem_of_fmap.
      exists (p, n). split; [done|]. apply list_elem_of_filter. by rewrite elem_of_map_to_list.
Qed.

Module DemoZk.
Definition tree : Tree := container Demo.store3.
Definition snap : ZkSnapshot :=
  mkZkSnapshot 0 [(7, 3000)] [(1, [mkACL 31 "world" "anyone"])] (zk_nodes tree) [].

Definition record (z : Z) (t : Txn) : TxnRecord := mkTxn 99 7 1 z 20 t [].
Definition log_0 : LogFile :=
  mkLogFile "v/log.1" 1 0 [record 1 (SimpleTxn (CreateTxn "/a" "x" [] false 1))] [].
Definition log_1 : LogFile :=
  mkLogFile "v/log.2" 2 0
    [record 3 (SimpleTxn (CreateTxn "/b" "y" [] false 1));
     record 4 (MultiTxn [(CreateTxn "/c" "" [] false 2, []); (SetDataTxn "/b" "z" 1, [])]);
     record 5 (MultiTxn [(ErrorTxn 0, []); (ErrorTxn (-2), [])]);
     record 6 (SimpleTxn (CreateSessionTxn 4000))] (write_i64 0).
Definition dir : list (string * bytes) :=
  [lf_file log_1; ("v/snapshot.2", write_zk_snapshot snap); lf_file log_0; ("v/snapshot.1", [])].

Definition clock (_ : string) (_ : Z) : Z := 1000.
Definition store : KeeperStore :=
  (deserializeKeeperStoreFromSnapshotsDir clock dir (KeeperStore_new 500 "")).1.
Definition final : KeeperStore * outcome exn unit :=
  deserializeLogsAndApplyToStore (λ s, s) (λ s, s) clock dir store.

(** The store after the import. *)
Example final_nodes :
  node_data <$> container final.1 !! "/a" = Some "x" ∧ node_data <$> container final.1 !! "/b" = Some "z" ∧
  is_Some (container final.1 !! "/a/e") ∧ is_Some (container final.1 !! "/c") ∧ final.2 = Ret tt.
Proof. vm_compute. split_and!; eauto. Qed.

Lemma tree_owners : owners_ok tree.
Proof.
  apply (bool_decide_unpack (map_Forall (λ _ n, node_is_ephemeral n = negb (ephemeralOwner (node_stat n) =? 0)) tree)).
  by vm_compute.
Qed.

Lemma snap_ok : zk_snapshot_ok snap.
Proof.
  split.
  - by vm_compute.
  - split; [by vm_compute|]. cbn. repeat constructor; by vm_compute.
  - split; [by vm_compute|]. cbn. repeat constructor; by vm_compute.
  - cbn [zs_nodes snap]. replace (zk_nodes tree) with (ltac:(let l := eval vm_compute in (zk_nodes tree) in exact l))
      by (by vm_compute).
    repeat constructor; by vm_compute.
Qed.

Lemma record_ok_small z t :
  in_s 64 z → len_ok (write_signed (record z t)) →
  match t with
  | SimpleTxn t => body_ok t
  | MultiTxn ts => Forall sub_ok ts ∧ Z.of_nat (length ts) < 2 ^ 31
  | EmptyCloseTxn => True
  end → record_ok (record z t).
Proof.
  intros Hz Hl Ht. split; [split; by vm_compute|by vm_compute|by vm_compute|exact Hz|by vm_compute|exact Hl|].
  destruct t; [exact Ht|exact Ht|reflexivity].
Qed.

Lemma log_0_ok : lf_ok log_0.
Proof.
  split; [by vm_compute|by vm_compute| |by left].
  constructor; [|done]. apply record_ok_small; [by vm_compute|by vm_compute|]. repeat constructor; by vm_compute.
Qed.

Lemma log_1_ok : lf_ok log_1.
Proof.
  split; [by vm_compute|by vm_compute| |right; by exists []].
  repeat apply Forall_cons_2; [..|apply Forall_nil_2];
    (apply record_ok_small; [by vm_compute|by vm_compute|repeat constructor; by vm_compute]).
Qed.
End DemoZk.

(** A transaction that opens a session, here session 100, enters the next number
    of the counter instead. *)
Example opened_session_renumbered :
  let r := mkTxn 99 100 1 10 20 (SimpleTxn (CreateSessionTxn 4000)) [] in
  let s' := (apply_record (λ s, s) (λ s, s) 1000 r DemoZk.store).1 in
  session_and_timeout s' !! 100 = None ∧ session_and_timeout s' !! 8 = Some 4000.
Proof. by vm_compute. Qed.

(** ** Properties *)




